(** * CLAP zero-shot tagging: scoring and evaluation pipeline

    A shallow embedding of the notebooks under
    [notebooks/03_clap_systems/] (baseline, DF-weighted and DF+SBERT
    variants): the document-frequency estimator, the similarity scorer,
    the tag-embedding loader and the exact / semantic hit evaluation with
    its per-clip metrics.

    Conventions.
    - Python [float] is idealised as a real number ([R]); [math.log] is
      [ln].  Structural data (tags, counters, hit lists) is kept on
      strings, [nat], lists and finite maps, and evaluates.  A statement
      that would depend on how the similarities are rounded is made with
      [cosine_similarity] as a parameter (module [WithCosine]).
    - Python exceptions are values of [exn]; a computation that may raise
      lives in [result].
    - [str] is [string] over ASCII; [lower] and [strip] act on ASCII.
    - A [dict] whose iteration order is observed (the tag-embedding
      mapping) is an association list in insertion order; a [dict] or
      [Counter] that is only looked up is a [gmap]; a [set] is a [gset]. *)

From Stdlib Require Import Reals Lra Lia ZArith String Ascii List.
From stdpp Require Import gmap strings list fin_maps sorting.

(* ===================================================================== *)
(** ** Python primitives *)
(* ===================================================================== *)

Module Py.

Inductive exn : Set :=
  | ZeroDivisionError
  | ValueError
  | IndexError.

Inductive result (A : Type) : Type :=
  | Ok (a : A)
  | Raise (e : exn).
Arguments Ok {A} a.
Arguments Raise {A} e.

Definition bind {A B : Type} (m : result A) (k : A -> result B) : result B :=
  match m with
  | Ok a => k a
  | Raise e => Raise e
  end.

(** A [for] loop threading a state, stopping at the first exception. *)
Fixpoint for_each {A S : Type} (body : S -> A -> result S) (st : S) (xs : list A)
  : result S :=
  match xs with
  | [] => Ok st
  | x :: xs' => bind (body st x) (fun st' => for_each body st' xs')
  end.

(** [x / y] on floats: raises when the divisor is zero. *)
Definition truediv (x y : R) : result R :=
  if Req_dec_T y 0 then Raise ZeroDivisionError else Ok (x / y)%R.

(** [str.lower] on ASCII. *)
Definition lower_ascii (c : ascii) : ascii :=
  let n := nat_of_ascii c in
  if (65 <=? n)%nat && (n <=? 90)%nat then ascii_of_nat (n + 32) else c.

Fixpoint lower (s : string) : string :=
  match s with
  | EmptyString => EmptyString
  | String c r => String (lower_ascii c) (lower r)
  end.

(** The ASCII characters [str.strip] removes: tab, newline, vertical tab,
    form feed, carriage return, the four separators 28..31 and the blank. *)
Definition is_whitespace (c : ascii) : bool :=
  let n := nat_of_ascii c in
  ((9 <=? n)%nat && (n <=? 13)%nat) || ((28 <=? n)%nat && (n <=? 32)%nat).

Fixpoint lstrip (s : string) : string :=
  match s with
  | EmptyString => EmptyString
  | String c r => if is_whitespace c then lstrip r else s
  end.

Fixpoint rstrip (s : string) : string :=
  match s with
  | EmptyString => EmptyString
  | String c r =>
      match rstrip r with
      | EmptyString => if is_whitespace c then EmptyString else String c EmptyString
      | r' => String c r'
      end
  end.

Definition strip (s : string) : string := rstrip (lstrip s).

(** [s.split(sep)] for a one-character separator. *)
Fixpoint split (sep : ascii) (s : string) : list string :=
  match s with
  | EmptyString => [EmptyString]
  | String c r =>
      if Ascii.eqb c sep then EmptyString :: split sep r
      else match split sep r with
           | h :: t => String c h :: t
           | [] => [String c EmptyString]
           end
  end.

(** [l[:k]]: a non-negative bound keeps the first [k] items, a negative
    one drops the last [-k]. *)
Definition slice_to {A : Type} (l : list A) (k : Z) : list A :=
  if (0 <=? k)%Z then take (Z.to_nat k) l
  else take (length l - Z.to_nat (- k)) l.

(** [min(xs)] / [max(xs)] on a list of floats: [ValueError] when empty. *)
Definition min_of (xs : list R) : result R :=
  match xs with
  | [] => Raise ValueError
  | x :: xs' => Ok (fold_left Rmin xs' x)
  end.

Definition max_of (xs : list R) : result R :=
  match xs with
  | [] => Raise ValueError
  | x :: xs' => Ok (fold_left Rmax xs' x)
  end.

(** [l[i]] for a non-negative index. *)
Definition getitem {A : Type} (l : list A) (i : nat) : result A :=
  match l !! i with
  | Some a => Ok a
  | None => Raise IndexError
  end.

(** [sorted(l, key=key, reverse=True)].  Python's sort is stable and
    [reverse=True] keeps the original order of items with equal keys, so
    the result is the stable descending sort: each item is placed in
    front of the first later item whose key is not strictly greater. *)
Fixpoint insert_desc {A : Type} (key : A -> R) (x : A) (l : list A) : list A :=
  match l with
  | [] => [x]
  | y :: l' =>
      if Rlt_dec (key x) (key y) then y :: insert_desc key x l' else x :: l
  end.

Definition sorted_reverse {A : Type} (key : A -> R) (l : list A) : list A :=
  foldr (insert_desc key) [] l.

(** An insertion-ordered [dict] with string keys. *)
Definition dict (V : Type) : Type := list (string * V).

(** [d[k] = v]: overwrite in place, or append a new key at the end. *)
Fixpoint dict_set {V : Type} (d : dict V) (k : string) (v : V) : dict V :=
  match d with
  | [] => [(k, v)]
  | (k', v') :: d' =>
      if decide (k' = k) then (k', v) :: d' else (k', v') :: dict_set d' k v
  end.

Definition dict_keys {V : Type} (d : dict V) : list string := d.*1.

(** Representation invariant of a [dict]: keys are pairwise distinct. *)
Definition dict_wf {V : Type} (d : dict V) : Prop := NoDup (dict_keys d).

End Py.

Import Py.

#[global] Instance result_ret : MRet result := @Ok.
#[global] Instance result_bind : MBind result :=
  fun A B k m => Py.bind m k.

(* ===================================================================== *)
(** ** Document-frequency estimator
       ([03_clap_baseline_df.ipynb], [03_clap_baseline_df_sbert.ipynb]) *)
(* ===================================================================== *)

Module DF.

(** [unique_tags = set(tag.strip().lower() for tag in row['tags'].split(','))] *)
Definition unique_tags (row_tags : string) : gset string :=
  list_to_set ((fun tag => lower (strip tag)) <$> split "," row_tags).

(** [tag_document_counts[tag] += 1] on a [Counter]: a missing key reads 0. *)
Definition increment (tag : string) (counts : gmap string nat) : gmap string nat :=
  <[tag := S (default 0%nat (counts !! tag))]> counts.

(** One iteration of the loop over [metadata_df.iterrows()]. *)
Definition count_document (counts : gmap string nat) (row_tags : string)
  : gmap string nat :=
  set_fold increment counts (unique_tags row_tags).

(** The [Counter] after the loop; [metadata_df] is the column of
    comma-separated tag strings, one per document. *)
Definition tag_document_counts (metadata_df : list string) : gmap string nat :=
  fold_left count_document metadata_df ∅.

Definition total_documents (metadata_df : list string) : nat :=
  length metadata_df.

(** State of the loop that fills [tag_df_scores]. *)
Record df_mapping : Type := {
  scores : gmap string R;
  matched_tags : nat;
  unmatched_tags : nat
}.

Definition empty_mapping : df_mapping :=
  {| scores := ∅; matched_tags := 0; unmatched_tags := 0 |}.

(** Body of [for tag in clap_tags]. *)
Definition df_step (ALPHA : R) (counts : gmap string nat) (N : nat)
    (st : df_mapping) (tag : string) : result df_mapping :=
  let tag_lower := lower tag in
  match counts !! tag_lower with
  | Some df_count =>
      normalized_df ← truediv (ln (INR (1 + df_count))) (ln (INR (1 + N)));
      let df_score := ((1 - ALPHA) + ALPHA * normalized_df)%R in
      Ok {| scores := <[tag := df_score]> (scores st);
            matched_tags := S (matched_tags st);
            unmatched_tags := unmatched_tags st |}
  | None =>
      let default_df_score := (1 - ALPHA)%R in
      Ok {| scores := <[tag := default_df_score]> (scores st);
            matched_tags := matched_tags st;
            unmatched_tags := S (unmatched_tags st) |}
  end.

Definition tag_df_scores (ALPHA : R) (counts : gmap string nat) (N : nat)
    (clap_tags : list string) : result df_mapping :=
  for_each (df_step ALPHA counts N) empty_mapping clap_tags.

(** The statistics printed at the end of the cell ([min] and [max] of the
    values raise on an empty table). *)
Definition df_score_statistics (st : df_mapping) : result (R * R) :=
  let df_scores_values := (map_to_list (scores st)).*2 in
  lo ← min_of df_scores_values;
  hi ← max_of df_scores_values;
  Ok (lo, hi).

(** The two DF cells run in sequence on a corpus and a vocabulary.  (The
    report of the ten most frequent tags, at the end of the first cell,
    divides by [total_documents] only inside a loop over the entries of
    the table, hence never by zero; it is left out.) *)
Definition df_cells (ALPHA : R) (metadata_df : list string)
    (clap_tags : list string) : result df_mapping :=
  let counts := tag_document_counts metadata_df in
  let N := total_documents metadata_df in
  st ← tag_df_scores ALPHA counts N clap_tags;
  _ ← df_score_statistics st;
  Ok st.

End DF.

(* ===================================================================== *)
(** ** numpy / scikit-learn operations used by the notebooks *)
(* ===================================================================== *)

Module Np.

Fixpoint dot (x y : list R) : R :=
  match x, y with
  | a :: x', b :: y' => (a * b + dot x' y')%R
  | _, _ => 0%R
  end.

Definition row_norm (x : list R) : R := sqrt (dot x x).

(** [sklearn.preprocessing.normalize] divides each row by its L2 norm,
    a zero norm being replaced by 1 (so a zero row stays zero).  On floats
    scikit-learn treats a norm below ten machine epsilons as zero; on the
    reals that is: exactly zero. *)
Definition handle_zeros_in_scale (n : R) : R :=
  if Req_dec_T n 0 then 1%R else n.

Definition normalize (x : list R) : list R :=
  let n := handle_zeros_in_scale (row_norm x) in
  map (fun a => (a / n)%R) x.

(** Shape of a 2-D array given as a list of rows: at least one row, at
    least one column, all rows of one length ([ValueError] otherwise). *)
Definition shape2 (M : list (list R)) : result (nat * nat) :=
  match M with
  | [] => Raise ValueError
  | r :: _ =>
      if (length r =? 0)%nat then Raise ValueError
      else if forallb (fun r' => (length r' =? length r)%nat) M
           then Ok (length M, length r)
           else Raise ValueError
  end.

(** [sklearn.metrics.pairwise.cosine_similarity(X, Y)]: the matrix of dot
    products of the normalised rows; [ValueError] when the two arrays
    disagree on the number of columns. *)
Definition cosine_similarity (X Y : list (list R)) : result (list (list R)) :=
  sx ← shape2 X;
  sy ← shape2 Y;
  if (sx.2 =? sy.2)%nat
  then Ok (map (fun x => map (fun y => dot (normalize x) (normalize y)) Y) X)
  else Raise ValueError.

(** [np.max] of a 1-D array. *)
Definition max (xs : list R) : result R := max_of xs.

End Np.

(* ===================================================================== *)
(** ** Loading the pre-computed tag embeddings (DF notebooks, section 3) *)
(* ===================================================================== *)

Module Loader.

(** A tag's embeddings: one row per sentence variant. *)
Definition text_embeds : Type := list (list R).

Record loaded : Type := {
  tag_names_list : list string;
  num_tags : nat;
  tag_embeddings_array : list text_embeds;
  tag_embeddings : dict text_embeds;
  (** the two sizes printed by the WARNING line, when it is printed *)
  mismatch_warning : option (nat * nat)
}.

Definition enumerate {A : Type} (l : list A) : list (nat * A) :=
  zip (seq 0 (length l)) l.

(** [for i, tag in enumerate(tag_names_list):
        tag_embeddings[tag] = tag_embeddings_array[i]] *)
Definition to_dictionary (names : list string) (arr : list text_embeds)
  : result (dict text_embeds) :=
  for_each (fun d '(i, tag) => e ← getitem arr i; Ok (dict_set d tag e))
           [] (enumerate names).

Definition load_tag_embeddings (clap_tags : list string)
    (tag_embeddings_array : list text_embeds) : result loaded :=
  let rows := length tag_embeddings_array in
  let '(names, n, arr, warning) :=
    if negb (length clap_tags =? rows)%nat then
      (* WARNING: Mismatch ...; use the smaller size to avoid index errors *)
      let num_tags := (length clap_tags `min` rows)%nat in
      (take num_tags clap_tags, num_tags, take num_tags tag_embeddings_array,
       Some (length clap_tags, rows))
    else (clap_tags, length clap_tags, tag_embeddings_array, None) in
  d ← to_dictionary names arr;
  (* print(... list(tag_embeddings.values())[0].shape) *)
  _ ← getitem d.*2 0;
  Ok {| tag_names_list := names; num_tags := n;
        tag_embeddings_array := arr; tag_embeddings := d;
        mismatch_warning := warning |}.

End Loader.

(* ===================================================================== *)
(** ** Similarity scorer *)
(* ===================================================================== *)

Module Scorer.

Import Loader.

(** [np.max(cosine_similarity([audio_embedding], text_embeds)[0])] *)
Definition max_variant_similarity (audio_embedding : list R)
    (embeds : text_embeds) : result R :=
  sims ← Np.cosine_similarity [audio_embedding] embeds;
  similarities ← getitem sims 0;
  Np.max similarities.

(** [get_tag_recommendations] of [03_clap_baseline.ipynb]. *)
Definition get_tag_recommendations (audio_embedding : list R)
    (tag_embeddings : dict text_embeds) (top_k : Z)
  : result (list string * list R) :=
  tag_similarities ←
    for_each (fun (d : dict R) '(tag, embeds) =>
                s ← max_variant_similarity audio_embedding embeds;
                Ok (dict_set d tag s))
             [] tag_embeddings;
  let sorted_tags := sorted_reverse snd tag_similarities in
  let top_tags := (slice_to sorted_tags top_k).*1 in
  let top_scores := (slice_to sorted_tags top_k).*2 in
  Ok (top_tags, top_scores).

(** The per-tag record stored by the DF-weighted scorer. *)
Record tag_score : Type := {
  base_similarity : R;
  df_weight : R;
  weighted_similarity : R
}.

Record df_recommendations : Type := {
  top_tags : list string;
  top_scores : list R;
  top_base_scores : list R;
  top_df_weights : list R
}.

(** [get_tag_recommendations_df_weighted] of the two DF notebooks. *)
Definition get_tag_recommendations_df_weighted (audio_embedding : list R)
    (tag_embeddings : dict text_embeds) (tag_df_scores : gmap string R)
    (top_k : Z) : result df_recommendations :=
  tag_similarities ←
    for_each (fun (d : dict tag_score) '(tag, embeds) =>
                base ← max_variant_similarity audio_embedding embeds;
                let w := default 1%R (tag_df_scores !! tag) in
                let weighted := (base * w)%R in
                Ok (dict_set d tag
                      {| base_similarity := base; df_weight := w;
                         weighted_similarity := weighted |}))
             [] tag_embeddings;
  let sorted_tags :=
    sorted_reverse (fun x => weighted_similarity x.2) tag_similarities in
  let top := slice_to sorted_tags top_k in
  Ok {| top_tags := top.*1;
        top_scores := (fun x => weighted_similarity x.2) <$> top;
        top_base_scores := (fun x => base_similarity x.2) <$> top;
        top_df_weights := (fun x => df_weight x.2) <$> top |}.

End Scorer.

(* ===================================================================== *)
(** ** Hit detection and per-clip metrics *)
(* ===================================================================== *)

Module Eval.

Import Loader Scorer.

(** The cutoff used by every evaluation loop ([top_k=10]); the precision
    line divides by the literal [10.0]. *)
Definition TOP_K : Z := 10.

Record semantic_match : Type := {
  predicted : string;
  matched_gt : option string;   (* [None] is Python's [None] *)
  similarity : R
}.

(** [cosine_similarity([pred_embedding], [gt_embedding])[0][0]] *)
Definition pair_similarity (pred_embedding gt_embedding : list R) : result R :=
  sims ← Np.cosine_similarity [pred_embedding] [gt_embedding];
  row ← getitem sims 0;
  getitem row 0.

(** Body of [for gt_tag in ground_truth_tags_lower], on the pair
    [(max_similarity, best_match)]. *)
Definition gt_step (tag_to_sbert : gmap string (list R))
    (pred_embedding : list R) (st : R * option string) (gt_tag : string)
  : result (R * option string) :=
  match tag_to_sbert !! gt_tag with
  | None => Ok st                                   (* continue *)
  | Some gt_embedding =>
      sim ← pair_similarity pred_embedding gt_embedding;
      if Rgt_dec sim st.1 then Ok (sim, Some gt_tag) else Ok st
  end.

(** Body of [for pred_tag in predicted_tags_lower], on the pair
    [(hits, semantic_matches)]. *)
Definition pred_step (tag_to_sbert : gmap string (list R))
    (ground_truth_tags_lower : list string) (similarity_threshold : R)
    (acc : list string * list semantic_match) (pred_tag : string)
  : result (list string * list semantic_match) :=
  match tag_to_sbert !! pred_tag with
  | None => Ok acc                                  (* continue *)
  | Some pred_embedding =>
      best ← for_each (gt_step tag_to_sbert pred_embedding) (0%R, None)
                      ground_truth_tags_lower;
      let '(max_similarity, best_match) := best in
      if Rge_dec max_similarity similarity_threshold
      then Ok (acc.1 ++ [pred_tag],
               acc.2 ++ [{| predicted := pred_tag; matched_gt := best_match;
                            similarity := max_similarity |}])
      else Ok acc
  end.

(** [compute_semantic_hits] of [03_clap_baseline_df_sbert.ipynb]. *)
Definition compute_semantic_hits (predicted_tags ground_truth_tags : list string)
    (tag_to_sbert : gmap string (list R)) (similarity_threshold : R)
  : result (list string * list semantic_match) :=
  let predicted_tags_lower := lower <$> predicted_tags in
  let ground_truth_tags_lower := lower <$> ground_truth_tags in
  for_each (pred_step tag_to_sbert ground_truth_tags_lower similarity_threshold)
           ([], []) predicted_tags_lower.

(** [set(predicted_tags_lower) & set(ground_truth_tags)] *)
Definition exact_hit_set (predicted_tags ground_truth_tags : list string)
  : gset string :=
  list_to_set (lower <$> predicted_tags) ∩ list_to_set ground_truth_tags.

(** [list(...)] of that set; the order is the set's iteration order,
    which Python does not fix from one process to the next (the hashes of
    strings are salted).  The statements use this list through its
    members and its length only. *)
Definition exact_hits (predicted_tags ground_truth_tags : list string)
  : list string :=
  elements (exact_hit_set predicted_tags ground_truth_tags).

Record metrics : Type := {
  precision_at_10 : R;
  recall : R;
  f1_score : R
}.

(** The three metric lines shared by the evaluation loops:
[[
  precision = len(hits) / 10.0
  recall = len(hits) / len(ground_truth_tags) if ground_truth_tags else 0.0
  f1 = 2 * (precision * recall) / (precision + recall)
         if (precision + recall) > 0 else 0.0
]] *)
Definition clip_metrics (hits ground_truth_tags : list string) : result metrics :=
  precision ← truediv (INR (length hits)) 10;
  recall ← match ground_truth_tags with
           | [] => Ok 0%R
           | _ :: _ => truediv (INR (length hits)) (INR (length ground_truth_tags))
           end;
  f1 ← (if Rgt_dec (precision + recall) 0
        then truediv (2 * (precision * recall)) (precision + recall)
        else Ok 0%R);
  Ok {| precision_at_10 := precision; recall := recall; f1_score := f1 |}.

(** One evaluated clip of the exact-match loops (baseline and DF). *)
Record exact_result : Type := {
  er_ground_truth_tags : list string;
  er_predicted_tags : list string;
  er_prediction_scores : list R;
  er_hits : list string;
  er_num_hits : nat;
  er_metrics : metrics
}.

(** Loop body of [03_clap_baseline.ipynb], after the audio lookup. *)
Definition evaluate_clip_baseline (audio_embedding : list R)
    (tag_embeddings : dict text_embeds) (pair_ground_truth_tags : list string)
  : result exact_result :=
  rec ← get_tag_recommendations audio_embedding tag_embeddings TOP_K;
  let '(predicted_tags, prediction_scores) := rec in
  let ground_truth_tags := lower <$> pair_ground_truth_tags in
  let hits := exact_hits predicted_tags ground_truth_tags in
  m ← clip_metrics hits ground_truth_tags;
  Ok {| er_ground_truth_tags := ground_truth_tags;
        er_predicted_tags := predicted_tags;
        er_prediction_scores := prediction_scores;
        er_hits := hits; er_num_hits := length hits; er_metrics := m |}.

(** Loop body of [03_clap_baseline_df.ipynb]. *)
Definition evaluate_clip_df (audio_embedding : list R)
    (tag_embeddings : dict text_embeds) (tag_df_scores : gmap string R)
    (pair_ground_truth_tags : list string) : result exact_result :=
  rec ← get_tag_recommendations_df_weighted audio_embedding tag_embeddings
          tag_df_scores TOP_K;
  let predicted_tags := top_tags rec in
  let ground_truth_tags := lower <$> pair_ground_truth_tags in
  let hits := exact_hits predicted_tags ground_truth_tags in
  m ← clip_metrics hits ground_truth_tags;
  Ok {| er_ground_truth_tags := ground_truth_tags;
        er_predicted_tags := predicted_tags;
        er_prediction_scores := top_scores rec;
        er_hits := hits; er_num_hits := length hits; er_metrics := m |}.

(** One evaluated clip of the SBERT loop: metrics are computed from the
    semantic hits, exact hits are kept for comparison. *)
Record semantic_result : Type := {
  sr_ground_truth_tags : list string;
  sr_predicted_tags : list string;
  sr_semantic_hits : list string;
  sr_semantic_matches : list semantic_match;
  sr_exact_hits : list string;
  sr_num_semantic_hits : nat;
  sr_num_exact_hits : nat;
  sr_metrics : metrics
}.

(** Loop body of [03_clap_baseline_df_sbert.ipynb]. *)
Definition evaluate_clip_sbert (audio_embedding : list R)
    (tag_embeddings : dict text_embeds) (tag_df_scores : gmap string R)
    (tag_to_sbert : gmap string (list R)) (SIMILARITY_THRESHOLD : R)
    (pair_ground_truth_tags : list string) : result semantic_result :=
  rec ← get_tag_recommendations_df_weighted audio_embedding tag_embeddings
          tag_df_scores TOP_K;
  let predicted_tags := top_tags rec in
  let ground_truth_tags := lower <$> pair_ground_truth_tags in
  sem ← compute_semantic_hits predicted_tags ground_truth_tags tag_to_sbert
          SIMILARITY_THRESHOLD;
  let '(semantic_hits, semantic_matches) := sem in
  let exact := exact_hits predicted_tags ground_truth_tags in
  m ← clip_metrics semantic_hits ground_truth_tags;
  Ok {| sr_ground_truth_tags := ground_truth_tags;
        sr_predicted_tags := predicted_tags;
        sr_semantic_hits := semantic_hits;
        sr_semantic_matches := semantic_matches;
        sr_exact_hits := exact;
        sr_num_semantic_hits := length semantic_hits;
        sr_num_exact_hits := length exact;
        sr_metrics := m |}.

End Eval.

(* ===================================================================== *)
(** ** Dictionaries read by key, and the cells that read them *)
(* ===================================================================== *)

(** A cell that reads a dictionary by key can raise [KeyError], which
    [Py.exn] does not have.  Such cells live in [Cells.outcome]; a
    computation in [result] is lifted into it. *)

Module Builtins.

(** [d[k]] / [d.get(k)] on an insertion-ordered [dict]. *)
Fixpoint dict_get {V : Type} (d : dict V) (k : string) : option V :=
  match d with
  | [] => None
  | (k', v) :: d' => if decide (k' = k) then Some v else dict_get d' k
  end.

End Builtins.

Module Cells.
Import Builtins.

(** Exceptions of the cells that read a dictionary by key: [KeyError],
    besides the built-in ones of [Py.exn]. *)
Inductive error : Set :=
  | KeyError
  | Builtin (e : exn).

Inductive outcome (A : Type) : Type :=
  | Done (a : A)
  | Fail (e : error).
Arguments Done {A} a.
Arguments Fail {A} e.

Definition and_then {A B : Type} (m : outcome A) (k : A -> outcome B)
  : outcome B :=
  match m with
  | Done a => k a
  | Fail e => Fail e
  end.

Definition lift {A : Type} (r : result A) : outcome A :=
  match r with
  | Ok a => Done a
  | Raise e => Fail (Builtin e)
  end.

(** A [for] loop threading a state, stopping at the first exception. *)
Fixpoint loop {A S : Type} (body : S -> A -> outcome S) (st : S) (xs : list A)
  : outcome S :=
  match xs with
  | [] => Done st
  | x :: xs' => and_then (body st x) (fun st' => loop body st' xs')
  end.

(** [d[k]] on a [dict]. *)
Definition dict_getitem {V : Type} (d : dict V) (k : string) : outcome V :=
  match dict_get d k with
  | Some v => Done v
  | None => Fail KeyError
  end.

(** [range(0, stop, step)] for a positive step. *)
Definition range_step (stop step : nat) : list nat :=
  (fun j => j * step)%nat <$> seq 0 ((stop + step - 1) / step).

(** [l[i:j]] for [0 <= i <= j]. *)
Definition slice {A : Type} (l : list A) (i j : nat) : list A :=
  take (j - i) (drop i l).

End Cells.

#[global] Instance outcome_ret : MRet Cells.outcome := @Cells.Done.
#[global] Instance outcome_bind : MBind Cells.outcome :=
  fun A B k m => Cells.and_then m k.

(* ===================================================================== *)
(** ** Tag sentences, creating and saving the tag embeddings
       ([03_clap_baseline.ipynb]) *)
(* ===================================================================== *)

(** The CLAP text encoder [model.get_text_embedding] is a parameter of
    the cell: a function from a list of sentences to the list of rows it
    returns. *)

Module Embed.
Import Builtins Loader Cells.

(** [str.upper] on one ASCII character. *)
Definition upper_ascii (c : ascii) : ascii :=
  let n := nat_of_ascii c in
  if (97 <=? n)%nat && (n <=? 122)%nat then ascii_of_nat (n - 32) else c.

(** [str.capitalize] on ASCII: the first character upper-cased, the rest
    lower-cased. *)
Definition capitalize (s : string) : string :=
  match s with
  | EmptyString => EmptyString
  | String c r => String (upper_ascii c) (lower r)
  end.

(** [create_tag_sentences] of [03_clap_baseline.ipynb]. *)
Definition create_tag_sentences (tag : string) : list string :=
  let capitalized_tag := capitalize tag in
  [ capitalized_tag +:+ ".";
    "The sound of " +:+ tag +:+ ".";
    "A recording of " +:+ tag +:+ ".";
    "An audio clip of " +:+ tag +:+ "." ].

Definition batch_size : nat := 32.

(** Body of the first [for tag in batch_tags], on the pair
    [(all_sentences, tag_to_sentences_map)]. *)
Definition collect_step (st : list string * gmap string (list nat))
    (tag : string) : list string * gmap string (list nat) :=
  let sentences := create_tag_sentences tag in
  let start_idx := length st.1 in
  (st.1 ++ sentences, <[tag := seq start_idx 4]> st.2).

(** [text_embed[indices]]: the rows at the listed positions. *)
Fixpoint take_rows (text_embed : list (list R)) (indices : list nat)
  : result text_embeds :=
  match indices with
  | [] => Ok []
  | i :: indices' =>
      row ← getitem text_embed i;
      rows ← take_rows text_embed indices';
      Ok (row :: rows)
  end.

(** Body of the second [for tag in batch_tags]. *)
Definition store_step (text_embed : list (list R))
    (tag_to_sentences_map : gmap string (list nat))
    (tag_embeddings : dict text_embeds) (tag : string)
  : outcome (dict text_embeds) :=
  indices ← match tag_to_sentences_map !! tag with
            | Some indices => Done indices
            | None => Fail KeyError
            end;
  rows ← lift (take_rows text_embed indices);
  Done (dict_set tag_embeddings tag rows).

(** Body of [for i in range(0, len(clap_tags), batch_size)]; the text
    encoder [model.get_text_embedding] is a parameter. *)
Definition batch_step (get_text_embedding : list string -> list (list R))
    (clap_tags : list string) (tag_embeddings : dict text_embeds) (i : nat)
  : outcome (dict text_embeds) :=
  let batch_tags := slice clap_tags i (i + batch_size) in
  let collected := fold_left collect_step batch_tags ([], ∅) in
  let text_embed := get_text_embedding collected.1 in
  loop (store_step text_embed collected.2) tag_embeddings batch_tags.

(** The cell that creates the text embeddings of all tags. *)
Definition create_tag_embeddings
    (get_text_embedding : list string -> list (list R))
    (clap_tags : list string) : outcome (dict text_embeds) :=
  tag_embeddings ←
    loop (batch_step get_text_embedding clap_tags) []
         (range_step (length clap_tags) batch_size);
  (* print(... len(list(tag_embeddings.values())[0]) ...) *)
  _ ← lift (getitem tag_embeddings.*2 0);
  Done tag_embeddings.

(** What [save_tag_embeddings] writes to the two files that are read
    back (the metadata file, array sizes only, is left out). *)
Record saved : Type := {
  tags_list : list string;
  all_embeddings : list text_embeds
}.

(** [np.stack(arrays, axis=0)]: [ValueError] on an empty list and on
    arrays of different shapes.  A list of rows carries its shape as the
    list of its row lengths. *)
Definition np_stack (arrays : list text_embeds) : result (list text_embeds) :=
  match arrays with
  | [] => Raise ValueError
  | a :: _ =>
      if forallb (fun b => bool_decide (length <$> b = length <$> a)) arrays
      then Ok arrays
      else Raise ValueError
  end.

(** [save_tag_embeddings] of [03_clap_baseline.ipynb]. *)
Definition save_tag_embeddings (tag_embeddings : dict text_embeds)
  : outcome saved :=
  let tags_list := dict_keys tag_embeddings in
  embeddings_list ←
    loop (fun embeddings_list tag =>
            embeddings ← dict_getitem tag_embeddings tag;
            Done (embeddings_list ++ [embeddings]))
         [] tags_list;
  all_embeddings ← lift (np_stack embeddings_list);
  Done {| tags_list := tags_list; all_embeddings := all_embeddings |}.

End Embed.

(* ===================================================================== *)
(** ** Test clips, evaluation loops and result cells
       (the three notebooks) *)
(* ===================================================================== *)

(** The directory of audio embeddings is a parameter: the set of ids in
    its listing and the finite map from an id to the array stored in its
    file.  So is the SBERT encoder [sbert_model.encode].  What one notebook
    writes to a file (JSON, CSV, [.npy]) another reads back as written. *)

Module Pipeline.
Import Builtins Loader Scorer Eval Cells.

(** One entry of [input_gt_pairs], as written by the data preparation. *)
Record pair : Type := {
  sound_id : Z;
  title : string;
  input_tags : list string;
  ground_truth_tags : list string;
  total_tags : nat
}.

(** Section 4 of the three notebooks.  [available_embeddings] is the set
    of ids read off the file names of the embedding directory, and [disk]
    maps a sound id to the array stored in the file of that id, when the
    file exists. *)
Definition filter_pairs (available_embeddings : gset Z)
    (input_gt_pairs : list pair) : list pair :=
  filter (fun pair => sound_id pair ∈ available_embeddings) input_gt_pairs.

Definition load_audio_embeddings (disk : gmap Z (list R))
    (filtered_pairs : list pair) : gmap Z (list R) :=
  fold_left (fun audio_embeddings pair =>
               match disk !! sound_id pair with     (* embedding_path.exists() *)
               | Some embedding => <[sound_id pair := embedding]> audio_embeddings
               | None => audio_embeddings
               end)
            filtered_pairs ∅.

(** One entry of [results]: the clip it belongs to and what was computed
    for it. *)
Record evaluated (Res : Type) : Type := {
  ev_sound_id : Z;
  ev_title : string;
  ev_result : Res
}.
Arguments ev_sound_id {Res} _.
Arguments ev_title {Res} _.
Arguments ev_result {Res} _.

(** The loop [for pair in filtered_pairs] of the three notebooks; they
    differ in the computation made for one clip. *)
Definition evaluation_loop {Res : Type}
    (evaluate_clip : list R -> list string -> result Res)
    (filtered_pairs : list pair) (audio_embeddings : gmap Z (list R))
  : result (list (evaluated Res)) :=
  for_each (fun results pair =>
              match audio_embeddings !! sound_id pair with
              | None => Ok results                          (* continue *)
              | Some audio_embedding =>
                  r ← evaluate_clip audio_embedding (ground_truth_tags pair);
                  Ok (results ++ [{| ev_sound_id := sound_id pair;
                                     ev_title := title pair;
                                     ev_result := r |}])
              end)
           [] filtered_pairs.

Definition baseline_results (tag_embeddings : dict text_embeds) :=
  evaluation_loop
    (fun a gt => evaluate_clip_baseline a tag_embeddings gt).

Definition df_results (tag_embeddings : dict text_embeds)
    (tag_df_scores : gmap string R) :=
  evaluation_loop
    (fun a gt => evaluate_clip_df a tag_embeddings tag_df_scores gt).

Definition sbert_results (tag_embeddings : dict text_embeds)
    (tag_df_scores : gmap string R) (tag_to_sbert : gmap string (list R))
    (SIMILARITY_THRESHOLD : R) :=
  evaluation_loop
    (fun a gt => evaluate_clip_sbert a tag_embeddings tag_df_scores
                   tag_to_sbert SIMILARITY_THRESHOLD gt).

(** The cell that encodes all tags with SBERT; the sentence encoder
    [sbert_model.encode] is a parameter. *)
Definition all_unique_tags (filtered_pairs : list pair) (clap_tags : list string)
  : list string :=
  let all_gt_tags : gset string :=
    fold_left (fun s pair => s ∪ list_to_set (lower <$> ground_truth_tags pair))
              filtered_pairs ∅ in
  elements (all_gt_tags ∪ list_to_set (lower <$> clap_tags)).

Definition tag_to_sbert (encode : list string -> list (list R))
    (filtered_pairs : list pair) (clap_tags : list string)
  : gmap string (list R) :=
  let tags := all_unique_tags filtered_pairs clap_tags in
  let tag_sbert_embeddings := encode tags in
  fold_left (fun d x => <[x.1 := x.2]> d) (zip tags tag_sbert_embeddings) ∅.

End Pipeline.

Module Report.
Import Builtins Loader Scorer Eval Pipeline Cells.

(** [np.mean] of a list of floats: [None] stands for the [nan] returned
    on an empty list.  The mean is the exact one; [np.mean] rounds, so no
    statement equates a mean with a quotient of totals. *)
Definition np_mean (xs : list R) : option R :=
  match xs with
  | [] => None
  | _ :: _ => Some (foldr Rplus 0%R xs / INR (length xs))%R
  end.

(** [2 * (p * r) / (p + r) if (p + r) > 0 else 0] *)
Definition f1_of (precision recall : R) : result R :=
  if Rgt_dec (precision + recall) 0
  then truediv (2 * (precision * recall)) (precision + recall)
  else Ok 0%R.

(** What the results cell of the baseline and DF notebooks computes. *)
Record overall : Type := {
  total_hits : nat;
  total_predictions : nat;
  total_ground_truth : nat;
  avg_precision_at_10 : option R;
  avg_recall : option R;
  avg_hits_per_clip : option R;
  overall_precision : R;
  overall_recall : R;
  overall_f1 : R;
  avg_f1 : option R
}.

Definition overall_metrics (results : list exact_result) : result overall :=
  let total_hits := sum_list_with er_num_hits results in
  let total_predictions := (length results * 10)%nat in
  let total_ground_truth :=
    sum_list_with (fun r => length (er_ground_truth_tags r)) results in
  let avg_precision_at_10 :=
    np_mean ((fun r => precision_at_10 (er_metrics r)) <$> results) in
  let avg_recall := np_mean ((fun r => recall (er_metrics r)) <$> results) in
  let avg_hits_per_clip :=
    np_mean ((fun r => INR (er_num_hits r)) <$> results) in
  overall_precision ← truediv (INR total_hits) (INR total_predictions);
  overall_recall ← truediv (INR total_hits) (INR total_ground_truth);
  overall_f1 ← f1_of overall_precision overall_recall;
  f1_scores ←
    for_each (fun f1_scores r =>
                f1 ← f1_of (precision_at_10 (er_metrics r)) (recall (er_metrics r));
                Ok (f1_scores ++ [f1]))
             [] results;
  let avg_f1 := np_mean f1_scores in
  Ok {| total_hits := total_hits; total_predictions := total_predictions;
        total_ground_truth := total_ground_truth;
        avg_precision_at_10 := avg_precision_at_10; avg_recall := avg_recall;
        avg_hits_per_clip := avg_hits_per_clip;
        overall_precision := overall_precision;
        overall_recall := overall_recall; overall_f1 := overall_f1;
        avg_f1 := avg_f1 |}.

(** The distribution cell of the baseline and DF notebooks: the table
    [hits_distribution], then one printed line per key in ascending
    order, with the count and its percentage. *)
Definition hits_distribution (num_hits : list nat) : gmap nat nat :=
  fold_left (fun d n => <[n := (default 0 (d !! n) + 1)%nat]> d) num_hits ∅.

Definition sorted_keys (d : gmap nat nat) : list nat :=
  merge_sort Nat.le (elements (dom d)).

Definition distribution_lines (results : list exact_result)
  : outcome (list (nat * nat * R)) :=
  let d := hits_distribution (er_num_hits <$> results) in
  loop (fun lines hits =>
          count ← match d !! hits with
                  | Some count => Done count
                  | None => Fail KeyError
                  end;
          fraction ← lift (truediv (INR count) (INR (length results)));
          Done (lines ++ [(hits, count, (fraction * 100)%R)]))
       [] (sorted_keys d).

End Report.

Module SbertReport.
Import Builtins Loader Scorer Eval Pipeline Cells.
Import Report.

(** What the results cell of the SBERT notebook computes, up to its last
    print. *)
Record overall : Type := {
  total_semantic_hits : nat;
  total_exact_hits : nat;
  total_predictions : nat;
  total_ground_truth : nat;
  avg_precision_at_10 : option R;
  avg_recall : option R;
  avg_semantic_hits_per_clip : option R;
  avg_exact_hits_per_clip : option R;
  overall_precision : R;
  overall_recall : R;
  overall_f1 : R;
  avg_f1 : option R;
  (** the figure of the last print, in percent *)
  improvement : R
}.

Definition overall_metrics (results : list semantic_result) : result overall :=
  let total_semantic_hits := sum_list_with sr_num_semantic_hits results in
  let total_exact_hits := sum_list_with sr_num_exact_hits results in
  let total_predictions := (length results * 10)%nat in
  let total_ground_truth :=
    sum_list_with (fun r => length (sr_ground_truth_tags r)) results in
  let avg_precision_at_10 :=
    np_mean ((fun r => precision_at_10 (sr_metrics r)) <$> results) in
  let avg_recall := np_mean ((fun r => recall (sr_metrics r)) <$> results) in
  let avg_semantic_hits_per_clip :=
    np_mean ((fun r => INR (sr_num_semantic_hits r)) <$> results) in
  let avg_exact_hits_per_clip :=
    np_mean ((fun r => INR (sr_num_exact_hits r)) <$> results) in
  overall_precision ← truediv (INR total_semantic_hits) (INR total_predictions);
  overall_recall ← truediv (INR total_semantic_hits) (INR total_ground_truth);
  overall_f1 ← f1_of overall_precision overall_recall;
  let f1_scores := (fun r => f1_score (sr_metrics r)) <$> results in
  let avg_f1 := np_mean f1_scores in
  (* print(f"Improvement over exact matching: ...") *)
  ratio ← truediv (INR total_semantic_hits) (INR total_exact_hits);
  Ok {| total_semantic_hits := total_semantic_hits;
        total_exact_hits := total_exact_hits;
        total_predictions := total_predictions;
        total_ground_truth := total_ground_truth;
        avg_precision_at_10 := avg_precision_at_10; avg_recall := avg_recall;
        avg_semantic_hits_per_clip := avg_semantic_hits_per_clip;
        avg_exact_hits_per_clip := avg_exact_hits_per_clip;
        overall_precision := overall_precision;
        overall_recall := overall_recall; overall_f1 := overall_f1;
        avg_f1 := avg_f1; improvement := ((ratio - 1) * 100)%R |}.

(** The entry ['improvement_over_exact'] of the summary written by the
    saving cell. *)
Definition improvement_over_exact (total_semantic_hits total_exact_hits : nat)
  : result R :=
  if (0 <? total_exact_hits)%nat
  then ratio ← truediv (INR total_semantic_hits) (INR total_exact_hits);
       Ok ((ratio - 1) * 100)%R
  else Ok 0%R.

End SbertReport.

(* ===================================================================== *)
(** ** The SBERT evaluation with [cosine_similarity] as a parameter *)
(* ===================================================================== *)

(** The cells of the SBERT notebook that call scikit-learn's
    [cosine_similarity], with that function as a parameter instead of
    [Np.cosine_similarity].  What is proved of them holds whatever values
    the library returns: in particular for its floating-point values,
    where the similarity of a vector with itself need not be exactly 1. *)

Module WithCosine.
Import Loader Scorer Eval Pipeline.

Section Cosine.
Variable cosine_similarity :
  list (list R) -> list (list R) -> result (list (list R)).

(** [np.max(cosine_similarity([audio_embedding], text_embeds)[0])] *)
Definition max_variant_similarity (audio_embedding : list R)
    (embeds : text_embeds) : result R :=
  sims ← cosine_similarity [audio_embedding] embeds;
  similarities ← getitem sims 0;
  Np.max similarities.

(** [get_tag_recommendations_df_weighted] *)
Definition get_tag_recommendations_df_weighted (audio_embedding : list R)
    (tag_embeddings : dict text_embeds) (tag_df_scores : gmap string R)
    (top_k : Z) : result df_recommendations :=
  tag_similarities ←
    for_each (fun (d : dict tag_score) '(tag, embeds) =>
                base ← max_variant_similarity audio_embedding embeds;
                let w := default 1%R (tag_df_scores !! tag) in
                let weighted := (base * w)%R in
                Ok (dict_set d tag
                      {| base_similarity := base; df_weight := w;
                         weighted_similarity := weighted |}))
             [] tag_embeddings;
  let sorted_tags :=
    sorted_reverse (fun x => weighted_similarity x.2) tag_similarities in
  let top := slice_to sorted_tags top_k in
  Ok {| top_tags := top.*1;
        top_scores := (fun x => weighted_similarity x.2) <$> top;
        top_base_scores := (fun x => base_similarity x.2) <$> top;
        top_df_weights := (fun x => df_weight x.2) <$> top |}.

(** [cosine_similarity([pred_embedding], [gt_embedding])[0][0]] *)
Definition pair_similarity (pred_embedding gt_embedding : list R) : result R :=
  sims ← cosine_similarity [pred_embedding] [gt_embedding];
  row ← getitem sims 0;
  getitem row 0.

(** Body of [for gt_tag in ground_truth_tags_lower]. *)
Definition gt_step (tag_to_sbert : gmap string (list R))
    (pred_embedding : list R) (st : R * option string) (gt_tag : string)
  : result (R * option string) :=
  match tag_to_sbert !! gt_tag with
  | None => Ok st                                   (* continue *)
  | Some gt_embedding =>
      sim ← pair_similarity pred_embedding gt_embedding;
      if Rgt_dec sim st.1 then Ok (sim, Some gt_tag) else Ok st
  end.

(** Body of [for pred_tag in predicted_tags_lower]. *)
Definition pred_step (tag_to_sbert : gmap string (list R))
    (ground_truth_tags_lower : list string) (similarity_threshold : R)
    (acc : list string * list semantic_match) (pred_tag : string)
  : result (list string * list semantic_match) :=
  match tag_to_sbert !! pred_tag with
  | None => Ok acc                                  (* continue *)
  | Some pred_embedding =>
      best ← for_each (gt_step tag_to_sbert pred_embedding) (0%R, None)
                      ground_truth_tags_lower;
      let '(max_similarity, best_match) := best in
      if Rge_dec max_similarity similarity_threshold
      then Ok (acc.1 ++ [pred_tag],
               acc.2 ++ [{| predicted := pred_tag; matched_gt := best_match;
                            similarity := max_similarity |}])
      else Ok acc
  end.

(** [compute_semantic_hits] *)
Definition compute_semantic_hits (predicted_tags ground_truth_tags : list string)
    (tag_to_sbert : gmap string (list R)) (similarity_threshold : R)
  : result (list string * list semantic_match) :=
  let predicted_tags_lower := lower <$> predicted_tags in
  let ground_truth_tags_lower := lower <$> ground_truth_tags in
  for_each (pred_step tag_to_sbert ground_truth_tags_lower similarity_threshold)
           ([], []) predicted_tags_lower.

(** Loop body of [03_clap_baseline_df_sbert.ipynb]. *)
Definition evaluate_clip_sbert (audio_embedding : list R)
    (tag_embeddings : dict text_embeds) (tag_df_scores : gmap string R)
    (tag_to_sbert : gmap string (list R)) (SIMILARITY_THRESHOLD : R)
    (pair_ground_truth_tags : list string) : result semantic_result :=
  rec ← get_tag_recommendations_df_weighted audio_embedding tag_embeddings
          tag_df_scores TOP_K;
  let predicted_tags := top_tags rec in
  let ground_truth_tags := lower <$> pair_ground_truth_tags in
  sem ← compute_semantic_hits predicted_tags ground_truth_tags tag_to_sbert
          SIMILARITY_THRESHOLD;
  let '(semantic_hits, semantic_matches) := sem in
  let exact := exact_hits predicted_tags ground_truth_tags in
  m ← clip_metrics semantic_hits ground_truth_tags;
  Ok {| sr_ground_truth_tags := ground_truth_tags;
        sr_predicted_tags := predicted_tags;
        sr_semantic_hits := semantic_hits;
        sr_semantic_matches := semantic_matches;
        sr_exact_hits := exact;
        sr_num_semantic_hits := length semantic_hits;
        sr_num_exact_hits := length exact;
        sr_metrics := m |}.

(** The loop [for pair in filtered_pairs] of the SBERT notebook. *)
Definition sbert_results (tag_embeddings : dict text_embeds)
    (tag_df_scores : gmap string R) (tag_to_sbert : gmap string (list R))
    (SIMILARITY_THRESHOLD : R) :=
  evaluation_loop
    (fun a gt => evaluate_clip_sbert a tag_embeddings tag_df_scores
                   tag_to_sbert SIMILARITY_THRESHOLD gt).

End Cosine.

End WithCosine.

(* ===================================================================== *)
(** ** Data preparation (the notebook that writes the filtered
       metadata, the test cases and the CLAP tagset) *)
(* ===================================================================== *)

(** [random.shuffle] is a parameter that threads the state of the
    generator; nothing is assumed about it here. *)

Module Prep.
Import Pipeline Cells.

(** [sep.join(items)] *)
Fixpoint join (sep : string) (items : list string) : string :=
  match items with
  | [] => EmptyString
  | [x] => x
  | x :: rest => x +:+ sep +:+ join sep rest
  end.

(** One row of the BSD10k metadata; [tags] is [None] for a missing value
    (what [pd.isna] tests). *)
Record sound : Type := {
  sound_id : Z;
  title : string;
  tags : option string
}.

(** [parse_and_filter_tags] *)
Definition parse_and_filter_tags (tags_str : option string)
    (valid_tags : gset string) : list string :=
  match tags_str with
  | None => []
  | Some tags_str =>
      let tags := strip <$> split "," tags_str in
      let valid_sound_tags := filter (fun tag => tag ∈ valid_tags) tags in
      valid_sound_tags
  end.

(** A row with the two columns added by the filtering cell. *)
Record tagged : Type := {
  row : sound;
  valid_tags : list string;
  num_valid_tags : nat
}.

(** [filtered_df]: rows with [sound_id > 207648], with their valid tags. *)
Definition filtered_df (valid_tagset : gset string) (metadata_df : list sound)
  : list tagged :=
  (fun r =>
     let v := parse_and_filter_tags (tags r) valid_tagset in
     {| row := r; valid_tags := v; num_valid_tags := length v |})
  <$> filter (fun r => (207648 < sound_id r)%Z) metadata_df.

(** [final_df]: rows with 5 to 15 valid tags. *)
Definition final_df (valid_tagset : gset string) (metadata_df : list sound)
  : list tagged :=
  filter (fun t => (5 <= num_valid_tags t)%nat /\ (num_valid_tags t <= 15)%nat)
         (filtered_df valid_tagset metadata_df).

(** The column [tags] of [BSD10K_metadata_filtered.csv], one string per
    row of [final_df]. *)
Definition output_tags (final : list tagged) : list string :=
  (fun t => join "," (valid_tags t)) <$> final.

(** [create_input_ground_truth_pairs]; [random.shuffle] is a parameter
    that threads the state of the generator. *)
Definition create_input_ground_truth_pairs {G : Type}
    (shuffle : G -> list string -> list string * G) (g : G)
    (sound_data : list tagged) : list pair * G :=
  fold_left
    (fun (st : list pair * G) t =>
       let tags := valid_tags t in
       let '(shuffled_tags, g') := shuffle st.2 tags in
       let input_tags := take 3 shuffled_tags in
       let ground_truth_tags := drop 3 shuffled_tags in
       (st.1 ++ [{| Pipeline.sound_id := sound_id (row t);
                    Pipeline.title := title (row t);
                    input_tags := input_tags;
                    ground_truth_tags := ground_truth_tags;
                    total_tags := length tags |}],
        g'))
    sound_data ([], g).

(** The tagset cell: the tags present in the filtered data.  (The file
    lists them in sorted order.) *)
Definition all_tags_in_filtered_data (final : list tagged) : gset string :=
  fold_left (fun s t => s ∪ list_to_set (valid_tags t)) final ∅.

Definition clap_tagset (valid_tagset : gset string) (final : list tagged)
  : gset string :=
  valid_tagset ∩ all_tags_in_filtered_data final.

End Prep.

(* ===================================================================== *)
(** ** Vocabulary of the statements *)
(* ===================================================================== *)

(** Predicates and auxiliary functions in which the properties of the
    pipeline are stated.  None of them is part of the notebooks. *)

Module Spec.
Import DF Loader Scorer Eval.

(** *** Document frequency *)

(** Every counter of a table lies between 1 and [n]. *)
Definition counts_bounded (counts : gmap string nat) (n : nat) : Prop :=
  forall t c, counts !! t = Some c -> (1 <= c <= n)%nat.

(** The weight the loop assigns to one vocabulary tag, as a function. *)
Definition weight_of (ALPHA : R) (counts : gmap string nat) (N : nat)
    (tag : string) : R :=
  match counts !! lower tag with
  | Some df_count =>
      ((1 - ALPHA) + ALPHA * (ln (INR (1 + df_count)) / ln (INR (1 + N))))%R
  | None => (1 - ALPHA)%R
  end.

(** The division of [df_step] can be reached only by a tag of the table. *)
Definition no_division_by_zero (counts : gmap string nat) (N : nat)
    (tag : string) : Prop :=
  (1 <= N)%nat \/ counts !! lower tag = None.

(** The lower-cased tag has an entry in the table. *)
Definition in_table (counts : gmap string nat) (tag : string) : Prop :=
  is_Some (counts !! lower tag).

#[global] Instance in_table_dec counts tag : Decision (in_table counts tag).
Proof. unfold in_table. apply _. Defined.

(** *** Ranking *)

(** [x] comes no later than [y]: the key of [y] does not exceed it. *)
Definition desc {A : Type} (key : A -> R) (x y : A) : Prop :=
  (key y <= key x)%R.

(** The ranking step shared by the two scorers: sort the items by
    descending key, keep the slice [[:k]]. *)
Definition ranked {A : Type} (key : string * A -> R) (l : list (string * A))
    (k : Z) : list (string * A) :=
  slice_to (sorted_reverse key l) k.

(** Scores listed from best to worst. *)
Definition nonincreasing (scores : list R) : Prop :=
  forall i j si sj, (i <= j)%nat ->
    scores !! i = Some si -> scores !! j = Some sj -> (sj <= si)%R.

(** A loop body that stores one value under the key [kof x] of the item. *)
Definition keyed {A B : Type} (kof : B -> string)
    (body : dict A -> B -> result (dict A)) : Prop :=
  forall d x d', body d x = Ok d' -> exists v, d' = dict_set d (kof x) v.

(** Appending a key unless it is already there: what an assignment does
    to the key order of a [dict]. *)
Definition add_key (ks : list string) (k : string) : list string :=
  if decide (k ∈ ks) then ks else ks ++ [k].

(** *** Shapes *)

(** A vector with at least one non-zero coordinate. *)
Definition nonzero (x : list R) : Prop := Exists (fun a => a <> 0%R) x.

(** Shapes under which one call of [cosine_similarity] goes through. *)
Definition compatible (audio_embedding : list R) (embeds : text_embeds) : Prop :=
  audio_embedding <> [] /\ embeds <> []
  /\ Forall (fun r => length r = length audio_embedding) embeds.

(** The names and rows the loading cell keeps. *)
Definition kept_names (clap_tags : list string) (arr : list text_embeds)
  : list string :=
  take (length clap_tags `min` length arr) clap_tags.

Definition kept_rows (clap_tags : list string) (arr : list text_embeds)
  : list text_embeds :=
  take (length clap_tags `min` length arr) arr.

(** *** Evaluation *)

(** The metric formulas, for a hit list and a ground-truth list. *)
Definition metrics_agree (hits ground_truth_tags : list string)
    (m : metrics) : Prop :=
  let P := precision_at_10 m in
  let R := recall m in
  P = (INR (length hits) / IZR TOP_K)%R
  /\ (ground_truth_tags <> [] ->
      R = (INR (length hits) / INR (length ground_truth_tags))%R)
  /\ (ground_truth_tags = [] -> R = 0%R)
  /\ ((P + R > 0)%R -> f1_score m = (2 * P * R / (P + R))%R)
  /\ ((P + R = 0)%R -> f1_score m = 0%R).

(** The tag, lower-cased, has a phrase embedding. *)
Definition has_embedding (tag_to_sbert : gmap string (list R)) (tag : string)
  : Prop :=
  is_Some (tag_to_sbert !! lower tag).

#[global] Instance has_embedding_dec tag_to_sbert tag :
  Decision (has_embedding tag_to_sbert tag).
Proof. unfold has_embedding. apply _. Defined.

(** Number of predicted and ground-truth tags that [compute_semantic_hits]
    passes over because [tag_to_sbert] has no embedding for them: the
    quantity a skip counter would report. *)
Definition skipped_tags (predicted_tags ground_truth_tags : list string)
    (tag_to_sbert : gmap string (list R)) : nat :=
  length (filter (fun t => tag_to_sbert !! lower t = None) predicted_tags)
  + length (filter (fun t => tag_to_sbert !! lower t = None) ground_truth_tags).

End Spec.

Import Spec.

(* ===================================================================== *)
(** ** Vocabulary of the further properties *)
(* ===================================================================== *)

(** As in [Spec]: none of these definitions is part of the notebooks. *)

Module SpecDF.
Import DF.

(** Number of documents whose normalised tag set holds [t]. *)
Definition documents_with (t : string) (metadata_df : list string) : nat :=
  length (filter (fun row => t ∈ unique_tags row) metadata_df).

(** No leading whitespace. *)
Definition clean_start (s : string) : Prop :=
  match s with
  | EmptyString => True
  | String c _ => is_whitespace c = false
  end.

(** Adding [n] documents that hold the tag to a counter entry. *)
Definition bump (o : option nat) (n : nat) : option nat :=
  match n with
  | 0%nat => o
  | S _ => Some (default 0%nat o + n)%nat
  end.

End SpecDF.

Module SpecScorer.
Import Loader Scorer.

(** Applying [f] to the value of every item. *)
Definition on_values {V W : Type} (f : V -> W) (x : string * V) : string * W :=
  (x.1, f x.2).

(** The record the DF-weighted loop stores when the weight is 1. *)
Definition unit_weighted (s : R) : tag_score :=
  {| base_similarity := s; df_weight := 1; weighted_similarity := s * 1 |}.

End SpecScorer.

Module SpecHit.
Import Loader Scorer Eval.

(** What the pair [(max_similarity, best_match)] records about the
    ground-truth tags [gts] seen so far, for the embedding [pe]. *)
Definition best_so_far (sbert : gmap string (list R)) (pe : list R)
    (gts : list string) (st : R * option string) : Prop :=
  (0 <= st.1)%R
  /\ match st.2 with
     | None => st.1 = 0%R
     | Some g =>
         g ∈ gts /\ (0 < st.1)%R
         /\ exists ge, sbert !! g = Some ge /\ pair_similarity pe ge = Ok st.1
     end.

(** The guarantees attached to one recorded match. *)
Definition sound_match (sbert : gmap string (list R)) (gts : list string)
    (threshold : R) (m : semantic_match) : Prop :=
  (threshold <= similarity m)%R
  /\ (0 <= similarity m)%R
  /\ (exists pe, sbert !! predicted m = Some pe
        /\ match matched_gt m with
           | None => similarity m = 0%R
           | Some g =>
               g ∈ gts /\ (0 < similarity m)%R
               /\ exists ge, sbert !! g = Some ge
                    /\ pair_similarity pe ge = Ok (similarity m)
           end
        /\ forall g ge, g ∈ gts -> sbert !! g = Some ge ->
             exists s, pair_similarity pe ge = Ok s /\ (s <= similarity m)%R).

End SpecHit.

Module SpecEmbed.
Import Builtins Loader Embed Cells.

(** [d.update(items)]: the assignments [d[k] = v] for the listed pairs,
    in order. *)
Definition dict_update {V : Type} (d : dict V) (items : list (string * V))
  : dict V :=
  fold_left (fun d x => dict_set d x.1 x.2) items d.

(** An encoder that embeds each sentence on its own, into a space of
    dimension [dim]. *)
Definition sentence_wise (get_text_embedding : list string -> list (list R))
    (embed : string -> list R) (dim : nat) : Prop :=
  (forall sentences, get_text_embedding sentences = embed <$> sentences)
  /\ forall sentence, length (embed sentence) = dim.

(** The embeddings of the four sentence variants of a tag. *)
Definition variants (embed : string -> list R) (tag : string) : text_embeds :=
  embed <$> create_tag_sentences tag.

(** What is required of one stored value. *)
Definition stored (get_text_embedding : list string -> list (list R))
    (x : string * text_embeds) : Prop :=
  length x.2 = 4%nat
  /\ forall embed dim, sentence_wise get_text_embedding embed dim ->
       x.2 = variants embed x.1.

End SpecEmbed.

Module SpecPipeline.
Import Loader Scorer Eval Pipeline.

(** The entry appended for a pair. *)
Definition entry_of {Res : Type}
    (evaluate_clip : list R -> list string -> result Res)
    (audio_embeddings : gmap Z (list R)) (p : pair) (e : evaluated Res)
  : Prop :=
  ev_sound_id e = sound_id p /\ ev_title e = title p
  /\ exists a, audio_embeddings !! sound_id p = Some a
               /\ evaluate_clip a (ground_truth_tags p) = Ok (ev_result e).

End SpecPipeline.

Module SpecReport.
Import Eval.

(** What the exact-match loops guarantee about one result. *)
Definition from_exact_loop (r : exact_result) : Prop :=
  clip_metrics (er_hits r) (er_ground_truth_tags r) = Ok (er_metrics r)
  /\ er_num_hits r = length (er_hits r)
  /\ (er_num_hits r <= 10)%nat
  /\ (er_num_hits r <= length (er_ground_truth_tags r))%nat.

(** ... and what the SBERT loop guarantees. *)
Definition from_sbert_loop (r : semantic_result) : Prop :=
  clip_metrics (sr_semantic_hits r) (sr_ground_truth_tags r) = Ok (sr_metrics r)
  /\ sr_num_semantic_hits r = length (sr_semantic_hits r)
  /\ (sr_num_semantic_hits r <= 10)%nat.

End SpecReport.

Module SpecDistribution.

(** Number of occurrences of [n] in a list of hit counts. *)
Definition occurrences (n : nat) (ns : list nat) : nat :=
  length (filter (fun k => k = n) ns).

End SpecDistribution.

Module SpecPrep.
Import Pipeline Prep.

(** The character [c] does not occur in [s]. *)
Fixpoint free_of (c : ascii) (s : string) : Prop :=
  match s with
  | EmptyString => True
  | String a r => a <> c /\ free_of c r
  end.

(** One test case, relative to the row it was made from. *)
Definition case_of (t : tagged) (case : pair) : Prop :=
  Pipeline.sound_id case = sound_id (row t)
  /\ Pipeline.title case = title (row t)
  /\ input_tags case ++ ground_truth_tags case ≡ₚ valid_tags t
  /\ total_tags case = length (valid_tags t)
  /\ length (input_tags case) = (3 `min` length (valid_tags t))%nat
  /\ length (ground_truth_tags case) = (length (valid_tags t) - 3)%nat.

End SpecPrep.

Module SpecCutoff.

(** Number of items the slice [[:k]] keeps of a list of [n] items. *)
Definition kept (n : nat) (k : Z) : nat :=
  if (0 <=? k)%Z then (Z.to_nat k `min` n)%nat else (n - Z.to_nat (- k))%nat.

End SpecCutoff.

Module SpecCompare.
Import Eval Pipeline.

(** A result of the DF loop and a result of the SBERT loop that tell the
    same about the recommendations and the exact hits of one clip; the
    hits are compared up to their order. *)
Definition same_ranking (d : evaluated exact_result)
    (s : evaluated semantic_result) : Prop :=
  ev_sound_id d = ev_sound_id s
  /\ ev_title d = ev_title s
  /\ er_ground_truth_tags (ev_result d) = sr_ground_truth_tags (ev_result s)
  /\ er_predicted_tags (ev_result d) = sr_predicted_tags (ev_result s)
  /\ er_hits (ev_result d) ≡ₚ sr_exact_hits (ev_result s)
  /\ er_num_hits (ev_result d) = sr_num_exact_hits (ev_result s).

End SpecCompare.

Module SpecCosine.
Import Loader Scorer Eval.

(** The similarity that [cosine_similarity] returns for the embedding and
    itself reaches the threshold. *)
Definition self_similar
    (cosine_similarity : list (list R) -> list (list R) -> result (list (list R)))
    (threshold : R) (e : list R) : Prop :=
  exists s, WithCosine.pair_similarity cosine_similarity e e = Ok s
            /\ (threshold <= s)%R.

End SpecCosine.

Module SpecRank.
Import Loader Scorer SpecCutoff.

(** Number of items of [l] whose score is at least [s], and number of
    those whose score is strictly greater. *)
Definition count_ge {A : Type} (key : A -> R) (s : R) (l : list A) : nat :=
  sum_list_with (fun y => if Rle_dec s (key y) then 1%nat else 0%nat) l.

Definition count_gt {A : Type} (key : A -> R) (s : R) (l : list A) : nat :=
  sum_list_with (fun y => if Rlt_dec s (key y) then 1%nat else 0%nat) l.

(** The place of the item [x] of [before ++ x :: after] in the ranking:
    it is preceded by the earlier items that score at least as much and
    by the later items that score strictly more. *)
Definition rank_at {A : Type} (key : A -> R) (before : list A) (x : A)
    (after : list A) : nat :=
  (count_ge key (key x) before + count_gt key (key x) after)%nat.

(** [tags] and [scores] are the first [kept (length sims) k] places of
    that ranking of the scored vocabulary [sims]: every item whose place
    is among them is listed at its place, and no other item is listed. *)
Definition ranking_of (sims : dict R) (k : Z) (tags : list string)
    (scores : list R) : Prop :=
  length tags = kept (length sims) k
  /\ length scores = length tags
  /\ forall before x after, sims = before ++ x :: after ->
       let r := rank_at snd before x after in
       if decide (r < length tags)%nat
       then tags !! r = Some x.1 /\ scores !! r = Some x.2
       else x.1 ∉ tags.

(** The final scores of the vocabulary, in the order of the mapping:
    [final tag embeds] is the score the loop stores for one item. *)
Definition final_scores (final : string -> text_embeds -> result R)
    (tag_embeddings : dict text_embeds) (sims : dict R) : Prop :=
  Forall2 (fun item sc => sc.1 = item.1 /\ final item.1 item.2 = Ok sc.2)
          tag_embeddings sims.

Definition baseline_score (audio_embedding : list R) (tag : string)
    (embeds : text_embeds) : result R :=
  max_variant_similarity audio_embedding embeds.

Definition df_weighted_score (audio_embedding : list R)
    (tag_df_scores : gmap string R) (tag : string) (embeds : text_embeds)
  : result R :=
  base ← max_variant_similarity audio_embedding embeds;
  Ok (base * default 1%R (tag_df_scores !! tag))%R.

(** Of two tags with one final score, [b] is listed only behind [a]. *)
Definition tie_in_order (sims : dict R) (a b : string) (tags : list string)
  : Prop :=
  forall s, (a, s) ∈ sims -> (b, s) ∈ sims ->
    forall j, tags !! j = Some b ->
      exists i, (i < j)%nat /\ tags !! i = Some a.

End SpecRank.

(* ===================================================================== *)
(** * Properties *)
(* ===================================================================== *)

(** ** The exception monad *)

(** Case analysis on the outcome of the loop found in hypothesis [H]. *)
Ltac case_loop H st Hloop :=
  match type of H with
  | context [for_each ?body ?init ?items] =>
      destruct (for_each body init items) as [st|?] eqn:Hloop
  end.

Section ForEach.
Context {A S : Type}.
Implicit Types (body : S -> A -> result S) (st : S) (xs : list A).

(** An invariant kept by every non-raising iteration holds at the end. *)
Lemma for_each_invariant (P : S -> Prop) body st xs st' :
  (forall s x s', x ∈ xs -> P s -> body s x = Ok s' -> P s') ->
  P st -> for_each body st xs = Ok st' -> P st'.
Proof.
  revert st. induction xs as [|x xs IH]; intros st Hstep HP Hrun; simpl in Hrun.
  - by simplify_eq.
  - destruct (body st x) as [s1|e] eqn:Hb; simpl in Hrun; [|done].
    apply (IH s1); [| |done].
    + intros s y s' Hy. apply Hstep. by right.
    + apply (Hstep st x s1); [by left|done|done].
Qed.

(** A loop whose body never raises on the items at hand returns. *)
Lemma for_each_total body st xs :
  (forall s x, x ∈ xs -> exists s', body s x = Ok s') ->
  exists st', for_each body st xs = Ok st'.
Proof.
  revert st. induction xs as [|x xs IH]; intros st Hstep; simpl; [by eexists|].
  destruct (Hstep st x) as [s1 Hs1]; [by left|]. rewrite Hs1. simpl.
  apply IH. intros s y Hy. apply Hstep. by right.
Qed.
End ForEach.

(** Reduce a goal about the loop at hand to: its body returns on each item. *)
Ltac loop_returns st Hloop :=
  match goal with
  | |- context [for_each ?body ?init ?items] =>
      let H := fresh in
      assert (exists st, for_each body init items = Ok st) as H;
      [apply for_each_total | destruct H as [st Hloop]]
  end.

(** ** Document-frequency estimator *)

Module DFProps.
Import DF.

Lemma increment_lookup tag counts t :
  increment tag counts !! t
  = if decide (t = tag) then Some (S (default 0%nat (counts !! t))) else counts !! t.
Proof.
  unfold increment. case_decide as Ht.
  - subst. by rewrite lookup_insert_eq.
  - by rewrite lookup_insert_ne.
Qed.

(** A document adds exactly one to each of its distinct tags and leaves
    the other counters alone. *)
Lemma count_document_lookup counts row t :
  count_document counts row !! t
  = if decide (t ∈ unique_tags row)
    then Some (S (default 0%nat (counts !! t))) else counts !! t.
Proof.
  unfold count_document. generalize (unique_tags row) as tags.
  refine (set_fold_ind_L
    (fun (r : gmap string nat) (X : gset string) =>
       r !! t = if decide (t ∈ X)
                then Some (S (default 0%nat (counts !! t))) else counts !! t)
    increment counts _ _).
  - by rewrite decide_False by set_solver.
  - intros x X r Hx IH. rewrite increment_lookup.
    destruct (decide (t = x)) as [->|Hne].
    + rewrite decide_True by set_solver.
      rewrite IH, decide_False by done. done.
    + rewrite IH. destruct (decide (t ∈ X)) as [HX|HX].
      * rewrite decide_True; [done|]. apply elem_of_union. by right.
      * rewrite decide_False; [done|]. intros [Hs|?]%elem_of_union; [|done].
        by apply elem_of_singleton in Hs.
Qed.

Lemma count_document_bounded counts row n :
  counts_bounded counts n -> counts_bounded (count_document counts row) (S n).
Proof.
  intros Hb t c. rewrite count_document_lookup.
  case_decide.
  - intros [= <-]. destruct (counts !! t) as [c'|] eqn:Hc; simpl; [|lia].
    apply Hb in Hc. lia.
  - intros Hc. apply Hb in Hc. lia.
Qed.

Lemma fold_count_bounded docs counts n :
  counts_bounded counts n ->
  counts_bounded (fold_left count_document docs counts) (n + length docs).
Proof.
  revert counts n. induction docs as [|d docs IH]; intros counts n Hb; simpl.
  - by rewrite Nat.add_0_r.
  - replace (n + S (length docs))%nat with (S n + length docs)%nat by lia.
    apply IH. by apply count_document_bounded.
Qed.

(** Every counter of the table lies between 1 and the number of documents. *)
Lemma tag_document_counts_bounded metadata_df :
  counts_bounded (tag_document_counts metadata_df) (total_documents metadata_df).
Proof.
  unfold tag_document_counts, total_documents.
  apply (fold_count_bounded metadata_df ∅ 0). intros t c. by rewrite lookup_empty.
Qed.

Lemma tag_document_counts_nil : tag_document_counts [] = ∅.
Proof. reflexivity. Qed.

Lemma INR_one_plus n : INR (1 + n) = (1 + INR n)%R.
Proof. rewrite plus_INR. by rewrite INR_1. Qed.

(** The logarithm of the total is non-zero as soon as there is a document. *)
Lemma ln_total_pos N : (1 <= N)%nat -> (0 < ln (INR (1 + N)))%R.
Proof.
  intros HN. rewrite <- ln_1. apply ln_increasing; [lra|].
  rewrite plus_INR. simpl. apply (le_INR 1 N) in HN. simpl in HN. lra.
Qed.

Lemma ln_count_nonneg df : (0 <= ln (INR (1 + df)))%R.
Proof.
  rewrite plus_INR. simpl. pose proof (pos_INR df) as Hdf.
  destruct (Req_dec_T (INR df) 0) as [->|Hne].
  - rewrite Rplus_0_r, ln_1. lra.
  - left. rewrite <- ln_1. apply ln_increasing; lra.
Qed.

Lemma ln_count_le df N : (df <= N)%nat -> (ln (INR (1 + df)) <= ln (INR (1 + N)))%R.
Proof.
  intros Hle. apply le_INR in Hle. rewrite !plus_INR. simpl.
  pose proof (pos_INR df) as Hdf.
  destruct (Req_dec_T (INR df) (INR N)) as [->|Hne]; [lra|].
  left. apply ln_increasing; lra.
Qed.

Lemma df_step_ok ALPHA counts N st tag :
  no_division_by_zero counts N tag ->
  df_step ALPHA counts N st tag
  = Ok {| scores := <[tag := weight_of ALPHA counts N tag]> (scores st);
          matched_tags :=
            match counts !! lower tag with
            | Some _ => S (matched_tags st)
            | None => matched_tags st
            end;
          unmatched_tags :=
            match counts !! lower tag with
            | Some _ => unmatched_tags st
            | None => S (unmatched_tags st)
            end |}.
Proof.
  intros Hsafe. unfold df_step, weight_of.
  destruct (counts !! lower tag) as [df|] eqn:Hc; [|reflexivity].
  destruct Hsafe as [HN|?]; [|congruence].
  unfold truediv. destruct (Req_dec_T _ 0) as [H0|_]; [|reflexivity].
  pose proof (ln_total_pos N HN). lra.
Qed.

Lemma tag_df_scores_run ALPHA counts N clap_tags st :
  (forall tag, tag ∈ clap_tags -> no_division_by_zero counts N tag) ->
  exists st',
    for_each (df_step ALPHA counts N) st clap_tags = Ok st'
    /\ (forall tag, tag ∈ clap_tags ->
          scores st' !! tag = Some (weight_of ALPHA counts N tag))
    /\ (forall tag, tag ∉ clap_tags -> scores st' !! tag = scores st !! tag)
    /\ matched_tags st'
       = (matched_tags st + length (filter (in_table counts) clap_tags))%nat
    /\ (matched_tags st' + unmatched_tags st'
        = matched_tags st + unmatched_tags st + length clap_tags)%nat.
Proof.
  revert st. induction clap_tags as [|t ts IH]; intros st Hsafe.
  - exists st. simpl. split; [done|]. split; [|split; [done|split; lia]].
    intros tag Hin. by apply elem_of_nil in Hin.
  - simpl. rewrite df_step_ok by (apply Hsafe; by left). simpl.
    edestruct IH as (st' & Hrun & Hin & Hout & Hm & Hcnt).
    { intros tag Htag. apply Hsafe. by right. }
    exists st'. split; [exact Hrun|]. split; [|split; [|split]].
    + intros tag Htag. destruct (decide (tag ∈ ts)) as [Hts|Hts]; [by apply Hin|].
      apply elem_of_cons in Htag as [->|?]; [|done].
      rewrite Hout by done. simpl. by rewrite lookup_insert_eq.
    + intros tag Htag. rewrite Hout by set_solver. simpl.
      rewrite lookup_insert_ne; [done|set_solver].
    + rewrite Hm. clear. simpl. rewrite filter_cons.
      destruct (decide (in_table counts t)) as [[c Hc]|Hc].
      * rewrite Hc. simpl. lia.
      * destruct (counts !! lower t) eqn:Ht; [|lia].
        exfalso. apply Hc. unfold in_table. rewrite Ht. by eexists.
    + rewrite Hcnt. clear. simpl. destruct (counts !! lower t); lia.
Qed.

(** The statistics lines raise only on an empty score table. *)
Lemma df_score_statistics_ok st tag w :
  scores st !! tag = Some w -> exists s, df_score_statistics st = Ok s.
Proof.
  intros Hw. unfold df_score_statistics.
  apply elem_of_map_to_list in Hw.
  destruct (map_to_list (scores st)) as [|[k v] l]; [by apply elem_of_nil in Hw|].
  simpl. by eexists.
Qed.

Lemma filter_in_empty_table (tags : list string) :
  filter (in_table ∅) tags = [].
Proof.
  induction tags as [|t ts IH]; [done|].
  rewrite filter_cons, decide_False; [exact IH|].
  unfold in_table. rewrite lookup_empty. by intros [? ?].
Qed.

(** On a table with no entry every tag takes the [else] branch. *)
Lemma tag_df_scores_empty_table ALPHA N clap_tags :
  exists st,
    tag_df_scores ALPHA ∅ N clap_tags = Ok st
    /\ (forall tag, tag ∈ clap_tags -> scores st !! tag = Some (1 - ALPHA)%R)
    /\ matched_tags st = 0%nat
    /\ unmatched_tags st = length clap_tags.
Proof.
  destruct (tag_df_scores_run ALPHA ∅ N clap_tags empty_mapping)
    as (st & Hrun & Hin & _ & Hm & Hcnt).
  { intros tag _. right. apply lookup_empty. }
  exists st. split; [exact Hrun|]. split; [|split].
  - intros tag Htag. rewrite (Hin tag Htag). unfold weight_of.
    by rewrite lookup_empty.
  - rewrite Hm, filter_in_empty_table. done.
  - rewrite Hm, filter_in_empty_table in Hcnt. simpl in Hcnt. lia.
Qed.

(** With no document, the cells finish on every non-empty vocabulary. *)
Lemma df_cells_no_document ALPHA clap_tags :
  clap_tags <> [] ->
  exists st,
    df_cells ALPHA [] clap_tags = Ok st
    /\ (forall tag, tag ∈ clap_tags -> scores st !! tag = Some (1 - ALPHA)%R)
    /\ matched_tags st = 0%nat
    /\ unmatched_tags st = length clap_tags.
Proof.
  intros Hne. unfold df_cells. rewrite tag_document_counts_nil.
  destruct (tag_df_scores_empty_table ALPHA (total_documents []) clap_tags)
    as (st & Hrun & Hin & Hm & Hu).
  exists st. rewrite Hrun. simpl.
  destruct clap_tags as [|t ts]; [done|].
  destruct (df_score_statistics_ok st t (1 - ALPHA)%R) as [s Hs].
  { apply Hin. by left. }
  unfold mbind, result_bind. rewrite Hs. simpl. done.
Qed.

End DFProps.

Section DFClaims.
Import DF DFProps.

(** C1.  On a table built from a corpus of at least one document, the loop
    that fills [tag_df_scores] returns, and the weight it stores for a
    vocabulary tag is [(1 - alpha) + alpha * (log(1 + df) / log(1 + N))],
    [df] being the count of the lower-cased tag in the table (0 when the
    tag is absent); a tag with [df = 0] gets exactly [1 - alpha].  This
    holds for every real [alpha], in particular for those in [0,1]. *)
Theorem df_weight_formula (ALPHA : R) (metadata_df clap_tags : list string)
    (tag : string) :
  (1 <= total_documents metadata_df)%nat ->
  tag ∈ clap_tags ->
  let counts := tag_document_counts metadata_df in
  let N := total_documents metadata_df in
  let df := default 0%nat (counts !! lower tag) in
  exists st,
    tag_df_scores ALPHA counts N clap_tags = Ok st
    /\ scores st !! tag
       = Some ((1 - ALPHA) + ALPHA * (ln (1 + INR df) / ln (1 + INR N)))%R
    /\ (df = 0%nat -> scores st !! tag = Some (1 - ALPHA)%R).
Proof.
  intros HN Htag counts N df.
  destruct (tag_df_scores_run ALPHA counts N clap_tags empty_mapping)
    as (st & Hrun & Hin & _).
  { intros t _. by left. }
  assert (scores st !! tag
          = Some ((1 - ALPHA) + ALPHA * (ln (1 + INR df) / ln (1 + INR N)))%R)
    as Hw.
  { rewrite (Hin tag Htag). unfold weight_of, df.
    destruct (counts !! lower tag) as [c|]; cbn [default].
    - by rewrite !INR_one_plus.
    - change (INR 0) with 0%R. rewrite Rplus_0_r, ln_1. f_equal.
      unfold Rdiv. lra. }
  exists st. split; [exact Hrun|]. split; [exact Hw|].
  intros Hdf. rewrite Hw, Hdf. change (INR 0) with 0%R.
  rewrite Rplus_0_r, ln_1. f_equal. unfold Rdiv. lra.
Qed.

(** [df_weight_formula] at a concrete input, its premises checked by
    evaluation. *)
Lemma df_weight_formula_witness :
  let docs := ["a,b"; "a, C"; "a"] in
  (1 <= total_documents docs)%nat
  /\ "b" ∈ ["a"; "b"; "zither"]
  /\ exists st,
       tag_df_scores (7 / 10) (tag_document_counts docs) (total_documents docs)
         ["a"; "b"; "zither"] = Ok st
       /\ scores st !! "b"
          = Some ((1 - 7 / 10)
                  + 7 / 10
                    * (ln (1 + INR (default 0%nat
                                      (tag_document_counts docs !! lower "b")))
                       / ln (1 + INR (total_documents docs))))%R
       /\ (default 0%nat (tag_document_counts docs !! lower "b") = 0%nat ->
           scores st !! "b" = Some (1 - 7 / 10)%R).
Proof.
  intros docs.
  assert (1 <= total_documents docs)%nat as H1 by (simpl; lia).
  assert ("b" ∈ ["a"; "b"; "zither"]) as H2
    by (apply list_elem_of_further, list_elem_of_here).
  split; [exact H1|]. split; [exact H2|].
  exact (df_weight_formula (7 / 10) docs ["a"; "b"; "zither"] "b" H1 H2).
Defined.

(** C9.  For [alpha] in [0,1] and a table built from a corpus, the weight
    stored for every vocabulary tag lies in [[1 - alpha, 1]]: a counter of
    the table never exceeds the number of documents. *)
Theorem df_weight_range (ALPHA : R) (metadata_df clap_tags : list string)
    (tag : string) :
  (0 <= ALPHA <= 1)%R ->
  tag ∈ clap_tags ->
  exists st w,
    tag_df_scores ALPHA (tag_document_counts metadata_df)
      (total_documents metadata_df) clap_tags = Ok st
    /\ scores st !! tag = Some w
    /\ (1 - ALPHA <= w <= 1)%R.
Proof.
  intros Halpha Htag.
  pose proof (tag_document_counts_bounded metadata_df) as Hb.
  set (counts := tag_document_counts metadata_df) in *.
  set (N := total_documents metadata_df) in *.
  destruct (tag_df_scores_run ALPHA counts N clap_tags empty_mapping)
    as (st & Hrun & Hin & _).
  { intros t _. unfold no_division_by_zero.
    destruct (counts !! lower t) as [c|] eqn:Hc; [left|by right].
    apply Hb in Hc. lia. }
  exists st, (weight_of ALPHA counts N tag).
  split; [exact Hrun|]. split; [by apply Hin|].
  unfold weight_of. destruct (counts !! lower tag) as [c|] eqn:Hc; [|lra].
  apply Hb in Hc as [Hc1 HcN].
  assert (1 <= N)%nat as HN by lia.
  pose proof (ln_total_pos N HN) as Hpos.
  pose proof (ln_count_nonneg c) as H0.
  pose proof (ln_count_le c N HcN) as Hle.
  assert (0 <= ln (INR (1 + c)) / ln (INR (1 + N)) <= 1)%R as [Hr0 Hr1].
  { split.
    - apply Rmult_le_pos; [done|]. left. by apply Rinv_0_lt_compat.
    - apply (Rmult_le_reg_r (ln (INR (1 + N)))); [done|].
      unfold Rdiv. rewrite Rmult_assoc, Rinv_l by lra. lra. }
  nra.
Qed.

(** [df_weight_range] at a concrete input, its premises checked by
    evaluation. *)
Lemma df_weight_range_witness :
  (0 <= 7 / 10 <= 1)%R
  /\ "kick" ∈ ["kick"; "snare"]
  /\ exists st w,
       tag_df_scores (7 / 10) (tag_document_counts ["kick,drum"; "Kick"])
         (total_documents ["kick,drum"; "Kick"]) ["kick"; "snare"] = Ok st
       /\ scores st !! "kick" = Some w
       /\ (1 - 7 / 10 <= w <= 1)%R.
Proof.
  assert (0 <= 7 / 10 <= 1)%R as H1 by lra.
  assert ("kick" ∈ ["kick"; "snare"]) as H2 by apply list_elem_of_here.
  split; [exact H1|]. split; [exact H2|].
  exact (df_weight_range (7 / 10) ["kick,drum"; "Kick"] ["kick"; "snare"]
           "kick" H1 H2).
Defined.

(** C5, as the code behaves.  With a corpus of zero documents the table is
    empty, no division is evaluated, and on a non-empty vocabulary the DF
    cells complete: every tag takes the unmatched branch and receives the
    weight [1 - alpha]. *)
Theorem zero_documents_give_minimum_weights (ALPHA : R)
    (clap_tags : list string) :
  clap_tags <> [] ->
  total_documents [] = 0%nat
  /\ exists st,
       df_cells ALPHA [] clap_tags = Ok st
       /\ (forall tag, tag ∈ clap_tags -> scores st !! tag = Some (1 - ALPHA)%R)
       /\ matched_tags st = 0%nat
       /\ unmatched_tags st = length clap_tags.
Proof. intros Hne. split; [done|]. by apply df_cells_no_document. Qed.

(** [zero_documents_give_minimum_weights] at a concrete input, its premises checked by
    evaluation. *)
Lemma zero_documents_give_minimum_weights_witness :
  ["drum"; "voice"] <> []
  /\ total_documents [] = 0%nat
  /\ exists st,
       df_cells (7 / 10) [] ["drum"; "voice"] = Ok st
       /\ (forall tag, tag ∈ ["drum"; "voice"] ->
             scores st !! tag = Some (1 - 7 / 10)%R)
       /\ matched_tags st = 0%nat
       /\ unmatched_tags st = length ["drum"; "voice"].
Proof.
  assert (["drum"; "voice"] <> []) as H1 by discriminate.
  split; [exact H1|].
  exact (zero_documents_give_minimum_weights (7 / 10) ["drum"; "voice"] H1).
Defined.

(** C5, as stated, fails: on the empty corpus and the vocabulary
    [["drum"]] the cells return a weight table instead of raising. *)
Lemma zero_documents_do_not_fail :
  total_documents [] = 0%nat
  /\ (exists st, df_cells (7 / 10) [] ["drum"] = Ok st
                 /\ scores st !! "drum" = Some (1 - 7 / 10)%R)
  /\ ~ (exists e, df_cells (7 / 10) [] ["drum"] = Raise e).
Proof.
  destruct (df_cells_no_document (7 / 10) ["drum"]) as (st & Hrun & Hin & _);
    [discriminate|].
  split; [done|]. split.
  - exists st. split; [exact Hrun|]. apply Hin, list_elem_of_here.
  - intros [e He]. rewrite Hrun in He. discriminate.
Qed.

End DFClaims.

(** ** Sorting, slicing and insertion-ordered dictionaries *)

Module PyProps.

Section Sorting.
Context {A : Type} (key : A -> R).

Lemma insert_desc_perm x l : insert_desc key x l ≡ₚ x :: l.
Proof.
  induction l as [|y l IH]; simpl; [done|].
  destruct (Rlt_dec (key x) (key y)); [|done].
  rewrite IH. apply Permutation_swap.
Qed.

Lemma sorted_reverse_perm l : sorted_reverse key l ≡ₚ l.
Proof.
  induction l as [|x l IH]; [done|].
  change (sorted_reverse key (x :: l))
    with (insert_desc key x (sorted_reverse key l)).
  by rewrite insert_desc_perm, IH.
Qed.

Lemma sorted_reverse_length l : length (sorted_reverse key l) = length l.
Proof. by rewrite sorted_reverse_perm. Qed.

Lemma insert_desc_sorted x l :
  StronglySorted (desc key) l -> StronglySorted (desc key) (insert_desc key x l).
Proof.
  induction l as [|y l IH]; intros Hs; simpl.
  - constructor; [constructor|constructor].
  - apply StronglySorted_inv in Hs as [Hl Hy].
    destruct (Rlt_dec (key x) (key y)) as [Hlt|Hge].
    + constructor; [by apply IH|].
      rewrite insert_desc_perm. constructor; [|done].
      unfold desc. lra.
    + constructor; [by constructor|].
      constructor; [unfold desc; lra|].
      eapply Forall_impl; [exact Hy|]. unfold desc. intros z Hz. lra.
Qed.

Lemma sorted_reverse_sorted l : StronglySorted (desc key) (sorted_reverse key l).
Proof.
  induction l as [|x l IH]; [constructor|].
  change (sorted_reverse key (x :: l))
    with (insert_desc key x (sorted_reverse key l)).
  by apply insert_desc_sorted.
Qed.

(** Inserting an item leaves the others in their order. *)
Lemma insert_desc_sublist x l : l `sublist_of` insert_desc key x l.
Proof.
  induction l as [|y l IH]; simpl; [apply sublist_nil_l|].
  destruct (Rlt_dec (key x) (key y)).
  - by apply sublist_skip.
  - by apply sublist_cons.
Qed.

(** The inserted item lands in front of every item it ties with (or
    beats). *)
Lemma insert_desc_before x y l :
  y ∈ l -> ~ (key x < key y)%R -> [x; y] `sublist_of` insert_desc key x l.
Proof.
  induction l as [|z l IH]; intros Hy Hk; [by apply elem_of_nil in Hy|].
  simpl. destruct (Rlt_dec (key x) (key z)) as [Hlt|Hge].
  - apply elem_of_cons in Hy as [->|Hy]; [done|].
    apply sublist_cons. by apply IH.
  - apply sublist_skip. by apply singleton_sublist_l.
Qed.

(** Stability: two items with equal keys keep their relative order. *)
Lemma sorted_reverse_stable x y l :
  [x; y] `sublist_of` l -> key x = key y ->
  [x; y] `sublist_of` sorted_reverse key l.
Proof.
  intros Hsub Hk. induction l as [|z l IH].
  - by apply sublist_nil_r in Hsub.
  - change (sorted_reverse key (z :: l))
      with (insert_desc key z (sorted_reverse key l)).
    apply sublist_cons_r in Hsub as [Hsub|(l' & [= -> <-] & Hsub)].
    + etrans; [by apply IH|]. apply insert_desc_sublist.
    + apply insert_desc_before; [|lra].
      apply singleton_sublist_l in Hsub.
      by rewrite sorted_reverse_perm.
Qed.
End Sorting.

(** Two positions in increasing order are a two-element sublist, and
    conversely. *)
Lemma sublist_pair_lookup {A : Type} (l : list A) (x y : A) :
  [x; y] `sublist_of` l
  <-> exists i j, (i < j)%nat /\ l !! i = Some x /\ l !! j = Some y.
Proof.
  split.
  - intros Hsub. apply sublist_cons_l in Hsub as (k1 & k2 & -> & Hy).
    apply singleton_sublist_l, list_elem_of_lookup in Hy as [j Hj].
    exists (length k1), (length k1 + S j)%nat. split; [lia|]. split.
    + by rewrite list_lookup_middle.
    + rewrite lookup_app_r by lia.
      replace (length k1 + S j - length k1)%nat with (S j) by lia. done.
  - intros (i & j & Hij & Hi & Hj).
    rewrite <- (take_drop_middle l i x Hi).
    apply sublist_inserts_l, sublist_skip, singleton_sublist_l.
    apply list_elem_of_lookup. exists (j - S i)%nat.
    rewrite lookup_drop. rewrite <- Hj. f_equal. lia.
Qed.

Lemma slice_to_prefix {A : Type} (l : list A) (k : Z) :
  exists n, slice_to l k = take n l.
Proof. unfold slice_to. destruct (0 <=? k)%Z; by eexists. Qed.

Lemma slice_to_length {A : Type} (l : list A) (k : Z) :
  (1 <= k)%Z -> length (slice_to l k) = (Z.to_nat k `min` length l)%nat.
Proof.
  intros Hk. unfold slice_to.
  destruct (0 <=? k)%Z eqn:Hle; [apply length_take|]. lia.
Qed.

Section Dict.
Context {V : Type}.
Implicit Types (d : dict V) (k : string) (v : V).

Lemma dict_set_fresh d k v :
  k ∉ dict_keys d -> dict_set d k v = d ++ [(k, v)].
Proof.
  induction d as [|[k' v'] d IH]; intros Hk; simpl; [done|].
  unfold dict_keys in *. simpl in Hk. apply not_elem_of_cons in Hk as [Hne Hk].
  rewrite decide_False by done. by rewrite IH.
Qed.

Lemma dict_set_keys_present d k v :
  k ∈ dict_keys d -> dict_keys (dict_set d k v) = dict_keys d.
Proof.
  induction d as [|[k' v'] d IH]; intros Hk; simpl.
  - by apply elem_of_nil in Hk.
  - unfold dict_keys in *. simpl in *. case_decide as Hd; [done|].
    simpl. f_equal. apply IH.
    apply elem_of_cons in Hk as [->|Hk]; [done|done].
Qed.

Lemma dict_set_keys d k v :
  dict_keys (dict_set d k v)
  = if decide (k ∈ dict_keys d) then dict_keys d else dict_keys d ++ [k].
Proof.
  case_decide as Hk.
  - by apply dict_set_keys_present.
  - rewrite dict_set_fresh by done. unfold dict_keys. by rewrite fmap_app.
Qed.

Lemma dict_set_wf d k v : dict_wf d -> dict_wf (dict_set d k v).
Proof.
  unfold dict_wf. rewrite dict_set_keys. case_decide as Hk; [done|].
  intros Hd. apply NoDup_app. split; [done|]. split.
  - intros x Hx Hx'. apply list_elem_of_singleton in Hx'. by subst.
  - apply NoDup_singleton.
Qed.
End Dict.

End PyProps.

(** ** Similarity scorer *)

Module ScorerProps.
Import PyProps Loader Scorer.

(** *** The ranking step *)

Section Ranking.
Context {A : Type} (key : string * A -> R).
Implicit Types (l : list (string * A)) (k : Z).

Lemma ranked_length l k :
  (1 <= k)%Z -> length (ranked key l k) = (Z.to_nat k `min` length l)%nat.
Proof.
  intros Hk. unfold ranked.
  by rewrite slice_to_length, sorted_reverse_length.
Qed.

Lemma sorted_keys_NoDup l : NoDup l.*1 -> NoDup (sorted_reverse key l).*1.
Proof. intros Hl. by rewrite sorted_reverse_perm. Qed.

Lemma ranked_NoDup l k : NoDup l.*1 -> NoDup (ranked key l k).*1.
Proof.
  intros Hl. unfold ranked.
  destruct (slice_to_prefix (sorted_reverse key l) k) as [n ->].
  eapply sublist_NoDup; [by apply (sorted_keys_NoDup l)|].
  apply fmap_sublist, sublist_take.
Qed.

Lemma strongly_sorted_lookup (l : list (string * A)) i j x y :
  StronglySorted (desc key) l -> (i <= j)%nat ->
  l !! i = Some x -> l !! j = Some y -> (key y <= key x)%R.
Proof.
  intros Hs. revert i j. induction Hs as [|z l Hs IH Hz]; intros i j Hij Hi Hj.
  - by rewrite lookup_nil in Hi.
  - destruct i as [|i], j as [|j]; simpl in *; simplify_eq.
    + lra.
    + rewrite Forall_forall in Hz. apply Hz.
      apply list_elem_of_lookup. by exists j.
    + lia.
    + apply (IH i j); [lia|done|done].
Qed.

Lemma ranked_nonincreasing l k i j x y :
  (i <= j)%nat -> ranked key l k !! i = Some x -> ranked key l k !! j = Some y ->
  (key y <= key x)%R.
Proof.
  unfold ranked. destruct (slice_to_prefix (sorted_reverse key l) k) as [n ->].
  intros Hij [Hi _]%lookup_take_Some [Hj _]%lookup_take_Some.
  eapply strongly_sorted_lookup; [apply sorted_reverse_sorted|done..].
Qed.

(** Among the items kept, two with equal keys appear in the order they
    had in [l]. *)
Lemma ranked_stable l k p q i j x y x' y' :
  NoDup l.*1 ->
  l !! p = Some x -> l !! q = Some y -> (p < q)%nat -> key x = key y ->
  ranked key l k !! i = Some x' -> ranked key l k !! j = Some y' ->
  x'.1 = x.1 -> y'.1 = y.1 ->
  (i < j)%nat.
Proof.
  intros Hnd Hp Hq Hpq Hkey Hi Hj Hx Hy. unfold ranked in *.
  destruct (slice_to_prefix (sorted_reverse key l) k) as [n Hn].
  rewrite Hn in Hi, Hj.
  apply lookup_take_Some in Hi as [Hi _], Hj as [Hj _].
  assert ([x; y] `sublist_of` sorted_reverse key l) as Hsub.
  { apply sorted_reverse_stable; [|done].
    apply sublist_pair_lookup. by exists p, q. }
  apply sublist_pair_lookup in Hsub as (i' & j' & Hij' & Hi' & Hj').
  pose proof (sorted_keys_NoDup l Hnd) as Hnd'.
  assert (i = i') as ->.
  { eapply (NoDup_lookup _ _ _ x.1 Hnd'); rewrite list_lookup_fmap.
    - by rewrite Hi, <- Hx.
    - by rewrite Hi'. }
  assert (j = j') as ->.
  { eapply (NoDup_lookup _ _ _ y.1 Hnd'); rewrite list_lookup_fmap.
    - by rewrite Hj, <- Hy.
    - by rewrite Hj'. }
  done.
Qed.
End Ranking.

Lemma fold_add_key_prefix names ks :
  ks `sublist_of` fold_left add_key names ks.
Proof.
  revert ks. induction names as [|n names IH]; intros ks; simpl; [done|].
  etrans; [|apply IH]. unfold add_key. case_decide; [done|].
  by apply sublist_inserts_r.
Qed.

Lemma fold_add_key_elem names ks x :
  x ∈ fold_left add_key names ks <-> x ∈ ks \/ x ∈ names.
Proof.
  revert ks. induction names as [|n names IH]; intros ks; simpl.
  - split; [by left|]. intros [?|Hx]; [done|]. by apply elem_of_nil in Hx.
  - rewrite IH. unfold add_key. case_decide as Hn.
    + rewrite elem_of_cons. split; [tauto|].
      intros [?|[->|?]]; [by left|by left|by right].
    + rewrite elem_of_app, list_elem_of_singleton, elem_of_cons. tauto.
Qed.

Lemma fold_add_key_NoDup names ks :
  NoDup (ks ++ names) -> fold_left add_key names ks = ks ++ names.
Proof.
  revert ks. induction names as [|n names IH]; intros ks Hnd; simpl.
  - by rewrite app_nil_r.
  - assert (n ∉ ks) as Hn.
    { apply NoDup_app in Hnd as (_ & Hdisj & _). intros Hin.
      apply (Hdisj _ Hin). by left. }
    unfold add_key. rewrite decide_False by done.
    rewrite IH; rewrite <- app_assoc; done.
Qed.

(** A key assigned before the first assignment of another one precedes
    it in the resulting key order. *)
Lemma fold_add_key_order l1 l2 l3 a b :
  b ∉ l1 ++ a :: l2 ->
  [a; b] `sublist_of` fold_left add_key (l1 ++ a :: l2 ++ b :: l3) [].
Proof.
  intros Hb.
  replace (l1 ++ a :: l2 ++ b :: l3) with ((l1 ++ a :: l2) ++ b :: l3)
    by (by rewrite <- app_assoc).
  rewrite fold_left_app. simpl.
  set (ks := fold_left add_key (l1 ++ a :: l2) []).
  assert (a ∈ ks) as Ha.
  { apply fold_add_key_elem. right. apply elem_of_app. right. by left. }
  assert (b ∉ ks) as Hbks.
  { intros [Hin|Hin]%fold_add_key_elem; [by apply elem_of_nil in Hin|done]. }
  etrans; [|apply fold_add_key_prefix].
  unfold add_key. rewrite decide_False by done.
  apply (sublist_app [a] ks [b] [b]); [by apply singleton_sublist_l|done].
Qed.

Section Keyed.
Context {A B : Type} (kof : B -> string)
        (body : dict A -> B -> result (dict A)).
Hypothesis Hbody : keyed kof body.

Lemma keyed_wf acc items d :
  dict_wf acc -> for_each body acc items = Ok d -> dict_wf d.
Proof.
  intros Hacc. apply for_each_invariant; [|done].
  intros s x s' _ Hs Hstep. apply Hbody in Hstep as [v ->].
  by apply dict_set_wf.
Qed.

Lemma keyed_keys_fold acc items d :
  for_each body acc items = Ok d ->
  dict_keys d = fold_left add_key (kof <$> items) (dict_keys acc).
Proof.
  revert acc. induction items as [|x items IH]; intros acc Hrun; simpl in *.
  - by simplify_eq.
  - destruct (body acc x) as [s1|e] eqn:Hb; simpl in Hrun; [|done].
    apply Hbody in Hb as [v ->].
    rewrite (IH _ Hrun). by rewrite dict_set_keys.
Qed.

Lemma keyed_keys acc items d :
  NoDup (dict_keys acc ++ (kof <$> items)) ->
  for_each body acc items = Ok d ->
  dict_keys d = dict_keys acc ++ (kof <$> items).
Proof.
  intros Hnd Hrun. rewrite (keyed_keys_fold _ _ _ Hrun).
  by apply fold_add_key_NoDup.
Qed.
End Keyed.

Lemma shape2_ok (M : list (list R)) (n : nat) :
  M <> [] -> n <> 0%nat -> Forall (fun r => length r = n) M ->
  Np.shape2 M = Ok (length M, n).
Proof.
  intros HM Hn Hall. destruct M as [|r M']; [done|].
  unfold Np.shape2. pose proof (Forall_inv Hall) as Hr. simpl in Hr.
  rewrite Hr. destruct (Nat.eqb_spec n 0) as [|_]; [done|].
  rewrite (proj2 (forallb_forall _ _)); [done|].
  intros r' Hr'. apply Nat.eqb_eq.
  rewrite Forall_forall in Hall. by apply Hall, list_elem_of_In.
Qed.

Lemma max_variant_similarity_ok audio_embedding embeds :
  compatible audio_embedding embeds ->
  exists s, max_variant_similarity audio_embedding embeds = Ok s.
Proof.
  intros (Ha & He & Hall). unfold max_variant_similarity, Np.cosine_similarity.
  assert (length audio_embedding <> 0%nat) as Hn.
  { intros H0. by apply nil_length_inv in H0. }
  rewrite (shape2_ok [audio_embedding] (length audio_embedding));
    [|done|done|by repeat constructor].
  rewrite (shape2_ok embeds (length audio_embedding)); [|done..].
  cbn. rewrite Nat.eqb_refl. cbn.
  destruct embeds as [|r rs]; [done|]. cbn. by eexists.
Qed.

Lemma baseline_body_keyed audio_embedding :
  keyed fst (fun (d : dict R) '(tag, embeds) =>
           s ← max_variant_similarity audio_embedding embeds;
           Ok (dict_set d tag s)).
Proof.
  intros d [tag embeds] d' Hstep. simpl.
  destruct (max_variant_similarity audio_embedding embeds) as [s|e];
    cbn in Hstep; [|done].
  exists s. by simplify_eq.
Qed.

Lemma df_body_keyed audio_embedding (tag_df_scores : gmap string R) :
  keyed fst (fun (d : dict tag_score) '(tag, embeds) =>
           base ← max_variant_similarity audio_embedding embeds;
           let w := default 1%R (tag_df_scores !! tag) in
           let weighted := (base * w)%R in
           Ok (dict_set d tag
                 {| base_similarity := base; df_weight := w;
                    weighted_similarity := weighted |})).
Proof.
  intros d [tag embeds] d' Hstep. simpl.
  destruct (max_variant_similarity audio_embedding embeds) as [s|e];
    cbn in Hstep; [|done].
  eexists. by simplify_eq.
Qed.

End ScorerProps.

(** ** Loading the tag embeddings *)

Module LoaderProps.
Import PyProps ScorerProps Loader.

Lemma to_dictionary_body_keyed (arr : list text_embeds) :
  keyed snd (fun (d : dict text_embeds) '(i, tag) =>
               e ← getitem arr i; Ok (dict_set d tag e)).
Proof.
  intros d [i tag] d' Hstep. simpl.
  destruct (getitem arr i) as [e|]; cbn in Hstep; [|done].
  exists e. by simplify_eq.
Qed.

Lemma enumerate_values {A : Type} (l : list A) : (enumerate l).*2 = l.
Proof. unfold enumerate. apply snd_zip. by rewrite length_seq. Qed.

Lemma enumerate_index {A : Type} (l : list A) i x :
  (i, x) ∈ enumerate l -> (i < length l)%nat.
Proof.
  unfold enumerate. intros Hin. apply elem_of_zip_l in Hin.
  apply elem_of_seq in Hin. lia.
Qed.

(** The conversion loop never indexes outside the array when there are
    at least as many rows as names. *)
Lemma to_dictionary_ok names (arr : list text_embeds) :
  (length names <= length arr)%nat ->
  exists d, to_dictionary names arr = Ok d.
Proof.
  intros Hlen. unfold to_dictionary. apply for_each_total.
  intros d [i tag] Hin. apply enumerate_index in Hin.
  unfold getitem. destruct (arr !! i) as [e|] eqn:He.
  - by eexists.
  - apply lookup_ge_None in He. lia.
Qed.

Lemma to_dictionary_keys names (arr : list text_embeds) d :
  to_dictionary names arr = Ok d ->
  dict_wf d /\ dict_keys d = fold_left add_key names [].
Proof.
  unfold to_dictionary. intros Hrun. split.
  - eapply keyed_wf; [apply to_dictionary_body_keyed| |exact Hrun].
    apply NoDup_nil_2.
  - erewrite keyed_keys_fold; [|apply to_dictionary_body_keyed|exact Hrun].
    by rewrite enumerate_values.
Qed.

Lemma load_tag_embeddings_ok clap_tags (arr : list text_embeds) :
  (1 <= length clap_tags `min` length arr)%nat ->
  exists d,
    to_dictionary (kept_names clap_tags arr) (kept_rows clap_tags arr) = Ok d
    /\ load_tag_embeddings clap_tags arr
       = Ok {| tag_names_list := kept_names clap_tags arr;
               num_tags := (length clap_tags `min` length arr)%nat;
               tag_embeddings_array := kept_rows clap_tags arr;
               tag_embeddings := d;
               mismatch_warning :=
                 if decide (length clap_tags = length arr) then None
                 else Some (length clap_tags, length arr) |}.
Proof.
  intros Hmin. unfold kept_names, kept_rows.
  set (m := (length clap_tags `min` length arr)%nat) in *.
  destruct (to_dictionary_ok (take m clap_tags) (take m arr)) as [d Hd].
  { rewrite !length_take. lia. }
  exists d. split; [exact Hd|].
  assert (exists v, getitem d.*2 0 = Ok v) as [v Hv].
  { destruct (to_dictionary_keys _ _ _ Hd) as [_ Hk].
    destruct d as [|[k e] d'].
    - exfalso. destruct clap_tags as [|t ts]; [simpl in *; lia|].
      assert (t ∈ dict_keys (V:=text_embeds) []) as Hin.
      { rewrite Hk. apply fold_add_key_elem. right.
        destruct m; [lia|]. by left. }
      by apply elem_of_nil in Hin.
    - by eexists. }
  unfold load_tag_embeddings.
  destruct (Nat.eqb_spec (length clap_tags) (length arr)) as [Heq|Hne]; simpl.
  - rewrite decide_True by done.
    assert (m = length clap_tags) as Hm by lia.
    assert (take m clap_tags = clap_tags) as Hn by (apply take_ge; lia).
    assert (take m arr = arr) as Ha by (apply take_ge; lia).
    rewrite Hn, Ha in *. rewrite Hd. cbn. rewrite Hv. cbn. by rewrite Hm.
  - rewrite decide_False by done. fold m. rewrite Hd. cbn. rewrite Hv. done.
Qed.

End LoaderProps.

Section ScorerInversion.
Import PyProps ScorerProps LoaderProps Loader Scorer.

Lemma baseline_inv audio_embedding (tag_embeddings : dict text_embeds) top_k
    tags scores :
  dict_wf tag_embeddings ->
  get_tag_recommendations audio_embedding tag_embeddings top_k = Ok (tags, scores) ->
  exists sims : dict R,
    dict_keys sims = dict_keys tag_embeddings
    /\ tags = (ranked snd sims top_k).*1
    /\ scores = (ranked snd sims top_k).*2.
Proof.
  intros Hwf Hrun. unfold get_tag_recommendations in Hrun.
  case_loop Hrun sims Hloop; cbn in Hrun; [|done].
  exists sims. simplify_eq. split; [|done].
  by apply (keyed_keys fst _ (baseline_body_keyed audio_embedding) [] _ _ Hwf).
Qed.

Lemma df_weighted_inv audio_embedding (tag_embeddings : dict text_embeds)
    tag_df_scores top_k rec :
  dict_wf tag_embeddings ->
  get_tag_recommendations_df_weighted audio_embedding tag_embeddings
    tag_df_scores top_k = Ok rec ->
  exists sims : dict tag_score,
    dict_keys sims = dict_keys tag_embeddings
    /\ top_tags rec
       = (ranked (fun x => weighted_similarity x.2) sims top_k).*1
    /\ top_scores rec
       = (fun x => weighted_similarity x.2)
         <$> ranked (fun x => weighted_similarity x.2) sims top_k.
Proof.
  intros Hwf Hrun. unfold get_tag_recommendations_df_weighted in Hrun.
  case_loop Hrun sims Hloop; cbn in Hrun; [|done].
  exists sims. simplify_eq. split; [|done].
  by apply (keyed_keys fst _ (df_body_keyed audio_embedding tag_df_scores)
              [] _ _ Hwf).
Qed.

(** What the ranking step guarantees about the two parallel output lists. *)
Lemma ranked_output {A : Type} (key : string * A -> R) (sims : dict A)
    (vocabulary : list string) (k : Z) :
  dict_keys sims = vocabulary -> NoDup vocabulary -> (1 <= k)%Z ->
  length (ranked key sims k).*1 = (Z.to_nat k `min` length vocabulary)%nat
  /\ length (key <$> ranked key sims k) = length (ranked key sims k).*1
  /\ NoDup (ranked key sims k).*1
  /\ nonincreasing (key <$> ranked key sims k).
Proof.
  intros Hk Hnd Hpos. split; [|split; [|split]].
  - rewrite length_fmap, ranked_length by done.
    rewrite <- Hk. unfold dict_keys. by rewrite length_fmap.
  - by rewrite !length_fmap.
  - apply ranked_NoDup. unfold dict_keys in Hk. by rewrite Hk.
  - intros i j si sj Hij Hi Hj.
    apply list_lookup_fmap_Some_1 in Hi as (x & -> & Hi).
    apply list_lookup_fmap_Some_1 in Hj as (y & -> & Hj).
    by eapply ranked_nonincreasing.
Qed.

Lemma recommenders_return audio_embedding (tag_embeddings : dict text_embeds)
    tag_df_scores top_k :
  (forall tag embeds, (tag, embeds) ∈ tag_embeddings ->
     compatible audio_embedding embeds) ->
  (exists out,
     get_tag_recommendations audio_embedding tag_embeddings top_k = Ok out)
  /\ (exists rec,
        get_tag_recommendations_df_weighted audio_embedding tag_embeddings
          tag_df_scores top_k = Ok rec).
Proof.
  intros Hshape. split.
  - unfold get_tag_recommendations. loop_returns sims Hsims.
    { intros d [tag embeds] Hin.
      destruct (max_variant_similarity_ok audio_embedding embeds) as [s Hs];
        [by eapply Hshape|].
      rewrite Hs. cbn. by eexists. }
    rewrite Hsims. cbn. by eexists.
  - unfold get_tag_recommendations_df_weighted. loop_returns sims Hsims.
    { intros d [tag embeds] Hin.
      destruct (max_variant_similarity_ok audio_embedding embeds) as [s Hs];
        [by eapply Hshape|].
      rewrite Hs. cbn. by eexists. }
    rewrite Hsims. cbn. by eexists.
Qed.

End ScorerInversion.

Section RankingClaims.
Import PyProps ScorerProps LoaderProps Loader Scorer.

(** C2.  For a tag-embedding mapping, an optional DF-weight table and a
    cutoff [K >= 1], whenever a recommender returns, its tag list has
    length [min(K, vocabulary size)], holds no tag twice, and its score
    list, of the same length, is non-increasing; and both recommenders do
    return when every tag has at least one variant embedding of the
    dimension of the (non-empty) audio embedding. *)
Theorem recommendations_well_formed (audio_embedding : list R)
    (tag_embeddings : dict text_embeds) (tag_df_scores : gmap string R)
    (K : Z) :
  dict_wf tag_embeddings ->
  (1 <= K)%Z ->
  let size := (Z.to_nat K `min` length (dict_keys tag_embeddings))%nat in
  (forall tags scores,
     get_tag_recommendations audio_embedding tag_embeddings K
       = Ok (tags, scores) ->
     length tags = size /\ length scores = length tags
     /\ NoDup tags /\ nonincreasing scores)
  /\ (forall rec,
        get_tag_recommendations_df_weighted audio_embedding tag_embeddings
          tag_df_scores K = Ok rec ->
        length (top_tags rec) = size
        /\ length (top_scores rec) = length (top_tags rec)
        /\ NoDup (top_tags rec) /\ nonincreasing (top_scores rec))
  /\ ((forall tag embeds, (tag, embeds) ∈ tag_embeddings ->
         compatible audio_embedding embeds) ->
      (exists out,
         get_tag_recommendations audio_embedding tag_embeddings K = Ok out)
      /\ (exists rec,
            get_tag_recommendations_df_weighted audio_embedding tag_embeddings
              tag_df_scores K = Ok rec)).
Proof.
  intros Hwf HK size. split; [|split].
  - intros tags scores Hrun.
    destruct (baseline_inv _ _ _ _ _ Hwf Hrun) as (sims & Hk & -> & ->).
    exact (ranked_output snd sims _ K Hk Hwf HK).
  - intros rec Hrun.
    destruct (df_weighted_inv _ _ _ _ _ Hwf Hrun) as (sims & Hk & -> & ->).
    exact (ranked_output (fun x => weighted_similarity x.2) sims _ K Hk Hwf HK).
  - apply recommenders_return.
Qed.

(** [recommendations_well_formed] at a concrete input, its premises checked by
    evaluation. *)
Lemma recommendations_well_formed_witness :
  let audio := [1; 0]%R in
  let vocabulary : dict text_embeds :=
    [("drum", [[1; 0]; [0; 1]]%R); ("voice", [[0; 1]]%R);
     ("kick", [[1; 1]]%R)] in
  dict_wf vocabulary
  /\ (1 <= 2)%Z
  /\ exists rec,
       get_tag_recommendations_df_weighted audio vocabulary ∅ 2 = Ok rec
       /\ length (top_tags rec) = 2%nat
       /\ NoDup (top_tags rec)
       /\ nonincreasing (top_scores rec).
Proof.
  intros audio vocabulary.
  assert (dict_wf vocabulary) as Hwf.
  { unfold dict_wf, dict_keys, vocabulary. simpl.
    apply (bool_decide_unpack _). vm_compute. exact I. }
  assert (1 <= 2)%Z as HK by lia.
  split; [exact Hwf|]. split; [exact HK|].
  destruct (recommendations_well_formed audio vocabulary ∅ 2 Hwf HK)
    as (_ & Hdf & Hret).
  destruct Hret as [_ [rec Hrec]].
  { intros tag embeds Hin. unfold vocabulary in Hin.
    repeat (apply elem_of_cons in Hin as [[= -> ->]|Hin]);
      [| | |by apply elem_of_nil in Hin];
      (split; [discriminate|split; [discriminate|by repeat constructor]]). }
  exists rec. split; [exact Hrec|].
  destruct (Hdf rec Hrec) as (Hlen & _ & Hnd & Hsorted).
  split; [exact Hlen|]. split; [exact Hnd|exact Hsorted].
Defined.

Lemma fold_add_key_result_NoDup names ks :
  NoDup ks -> NoDup (fold_left add_key names ks).
Proof.
  revert ks. induction names as [|n names IH]; intros ks Hks; simpl; [done|].
  apply IH. unfold add_key. case_decide as Hn; [done|].
  apply NoDup_app. split; [done|]. split; [|apply NoDup_singleton].
  intros x Hx Hx'. apply list_elem_of_singleton in Hx'. by subst.
Qed.

End RankingClaims.

Section LoaderClaims.
Import PyProps ScorerProps LoaderProps Loader Scorer.

(** The mapping the loading cell returns was filled by assigning the kept
    names in order: the premise of the tie-break property. *)
Lemma load_assigns_in_order clap_tags (arr : list text_embeds) ld :
  load_tag_embeddings clap_tags arr = Ok ld ->
  dict_keys (tag_embeddings ld) = fold_left add_key (tag_names_list ld) [].
Proof.
  intros Hload.
  destruct (decide (1 <= length clap_tags `min` length arr)%nat) as [Hm|Hm].
  - destruct (load_tag_embeddings_ok clap_tags arr Hm) as (d & Hd & Hok).
    rewrite Hok in Hload. simplify_eq. simpl.
    by destruct (to_dictionary_keys _ _ _ Hd).
  - exfalso. unfold load_tag_embeddings in Hload.
    assert (take (length clap_tags `min` length arr) clap_tags = []) as Hnil.
    { replace (length clap_tags `min` length arr)%nat with 0%nat by lia. done. }
    destruct (Nat.eqb_spec (length clap_tags) (length arr)) as [Heq|Hne];
      simpl in Hload.
    + assert (clap_tags = []) as -> by (apply nil_length_inv; lia).
      by cbn in Hload.
    + rewrite Hnil in Hload. by cbn in Hload.
Qed.

(** C7, as the code behaves.  When the vocabulary and the embedding array
    differ in length and share at least one entry, the loading cell does
    not abort: it records the warning with the two sizes, keeps the first
    [min] names and rows, builds the mapping from them and goes on. *)
Theorem length_mismatch_truncates (clap_tags : list string)
    (tag_embeddings_array : list text_embeds) :
  length clap_tags <> length tag_embeddings_array ->
  (1 <= length clap_tags `min` length tag_embeddings_array)%nat ->
  let n := (length clap_tags `min` length tag_embeddings_array)%nat in
  exists d,
    to_dictionary (take n clap_tags) (take n tag_embeddings_array) = Ok d
    /\ load_tag_embeddings clap_tags tag_embeddings_array
       = Ok {| tag_names_list := take n clap_tags;
               num_tags := n;
               Loader.tag_embeddings_array := take n tag_embeddings_array;
               tag_embeddings := d;
               mismatch_warning :=
                 Some (length clap_tags, length tag_embeddings_array) |}.
Proof.
  intros Hne Hmin n.
  destruct (load_tag_embeddings_ok clap_tags tag_embeddings_array Hmin)
    as (d & Hd & Hok).
  exists d. split; [exact Hd|].
  rewrite Hok. by rewrite decide_False.
Qed.

(** [length_mismatch_truncates] at a concrete input, its premises checked by
    evaluation. *)
Lemma length_mismatch_truncates_witness :
  let clap_tags := ["drum"; "kick"; "voice"] in
  let arr : list text_embeds := [[[1; 0]]; [[0; 1]]]%R in
  length clap_tags <> length arr
  /\ (1 <= length clap_tags `min` length arr)%nat
  /\ exists d,
       to_dictionary (take 2 clap_tags) (take 2 arr) = Ok d
       /\ load_tag_embeddings clap_tags arr
          = Ok {| tag_names_list := take 2 clap_tags;
                  num_tags := 2;
                  tag_embeddings_array := take 2 arr;
                  tag_embeddings := d;
                  mismatch_warning := Some (3, 2)%nat |}.
Proof.
  intros clap_tags arr.
  assert (length clap_tags <> length arr) as H1 by (simpl; lia).
  assert (1 <= length clap_tags `min` length arr)%nat as H2 by (simpl; lia).
  split; [exact H1|]. split; [exact H2|].
  exact (length_mismatch_truncates clap_tags arr H1 H2).
Defined.

(** C7, as stated, fails: with two names and one row of embeddings the
    cell returns a one-tag mapping and a warning; it does not raise. *)
Lemma length_mismatch_is_not_fatal :
  length ["drum"; "kick"] <> length ([[[1]]]%R : list text_embeds)
  /\ load_tag_embeddings ["drum"; "kick"] [[[1]]]%R
     = Ok {| tag_names_list := ["drum"];
             num_tags := 1;
             tag_embeddings_array := [[[1]]]%R;
             tag_embeddings := [("drum", [[1]]%R)];
             mismatch_warning := Some (2, 1)%nat |}
  /\ ~ (exists e, load_tag_embeddings ["drum"; "kick"] [[[1]]]%R = Raise e).
Proof.
  assert (load_tag_embeddings ["drum"; "kick"] [[[1]]]%R
          = Ok {| tag_names_list := ["drum"];
                  num_tags := 1;
                  tag_embeddings_array := [[[1]]]%R;
                  tag_embeddings := [("drum", [[1]]%R)];
                  mismatch_warning := Some (2, 1)%nat |}) as Hrun
    by reflexivity.
  split; [simpl; lia|]. split; [exact Hrun|].
  intros [e He]. rewrite Hrun in He. discriminate.
Qed.

End LoaderClaims.

(** ** Cosine similarity *)

Module NpProps.
Import Np.

Lemma dot_self_nonneg x : (0 <= dot x x)%R.
Proof. induction x as [|a x IH]; simpl; [lra|nra]. Qed.

Lemma dot_self_pos x : nonzero x -> (0 < dot x x)%R.
Proof.
  induction 1 as [a x Ha|a x _ IH]; simpl.
  - pose proof (dot_self_nonneg x). nra.
  - nra.
Qed.

Lemma nonzero_length x : nonzero x -> length x <> 0%nat.
Proof. by destruct 1. Qed.

Lemma dot_scaled x y n m :
  n <> 0%R -> m <> 0%R ->
  dot (map (fun a => (a / n)%R) x) (map (fun b => (b / m)%R) y)
  = (dot x y / (n * m))%R.
Proof.
  intros Hn Hm. revert y. induction x as [|a x IH]; intros [|b y]; simpl;
    try (unfold Rdiv; rewrite Rmult_0_l; reflexivity).
  rewrite IH. field. by split.
Qed.

Lemma row_norm_pos x : nonzero x -> (0 < row_norm x)%R.
Proof. intros Hx. apply sqrt_lt_R0. by apply dot_self_pos. Qed.

(** A non-zero vector has cosine similarity 1 with itself. *)
Lemma dot_normalize_self x : nonzero x -> dot (normalize x) (normalize x) = 1%R.
Proof.
  intros Hx. pose proof (row_norm_pos x Hx) as Hn.
  unfold normalize, handle_zeros_in_scale.
  destruct (Req_dec_T (row_norm x) 0) as [H0|_]; [lra|].
  rewrite dot_scaled by lra.
  unfold row_norm in *. rewrite sqrt_sqrt by apply dot_self_nonneg.
  pose proof (dot_self_pos x Hx). field. lra.
Qed.

Lemma shape2_row x : length x <> 0%nat -> shape2 [x] = Ok (1%nat, length x).
Proof.
  intros Hx. unfold shape2.
  destruct (Nat.eqb_spec (length x) 0) as [|_]; [done|].
  simpl. by rewrite Nat.eqb_refl.
Qed.

Lemma cosine_similarity_rows x y :
  length x <> 0%nat -> length y = length x ->
  cosine_similarity [x] [y] = Ok [[dot (normalize x) (normalize y)]].
Proof.
  intros Hx Hy. unfold cosine_similarity.
  rewrite (shape2_row x), (shape2_row y) by lia. cbn.
  by rewrite Hy, Nat.eqb_refl.
Qed.

End NpProps.

(** ** Hit detection *)

Module EvalProps.
Import Np NpProps Loader Scorer Eval.

Lemma lower_ascii_idem c : lower_ascii (lower_ascii c) = lower_ascii c.
Proof. destruct c as [[] [] [] [] [] [] [] []]; reflexivity. Qed.

Lemma lower_idem s : lower (lower s) = lower s.
Proof.
  induction s as [|c s IH]; simpl; [done|]. by rewrite lower_ascii_idem, IH.
Qed.

Lemma pair_similarity_rows x y :
  length x <> 0%nat -> length y = length x ->
  pair_similarity x y = Ok (dot (normalize x) (normalize y)).
Proof.
  intros Hx Hy. unfold pair_similarity.
  by rewrite cosine_similarity_rows.
Qed.

Lemma pair_similarity_self e : nonzero e -> pair_similarity e e = Ok 1%R.
Proof.
  intros He. rewrite pair_similarity_rows; [|by apply nonzero_length|done].
  by rewrite dot_normalize_self.
Qed.

Section Loops.
Context (tag_to_sbert : gmap string (list R)).

(** *** The loop over the ground-truth tags *)

Lemma gt_step_skip pe st g :
  tag_to_sbert !! g = None -> gt_step tag_to_sbert pe st g = Ok st.
Proof. intros Hg. unfold gt_step. by rewrite Hg. Qed.

Lemma gt_step_better pe st g ge s :
  tag_to_sbert !! g = Some ge -> pair_similarity pe ge = Ok s ->
  (s > st.1)%R -> gt_step tag_to_sbert pe st g = Ok (s, Some g).
Proof.
  intros Hg Hs Hgt. unfold gt_step. rewrite Hg, Hs. cbn.
  by destruct (Rgt_dec s st.1).
Qed.

Lemma gt_step_keep pe st g ge s :
  tag_to_sbert !! g = Some ge -> pair_similarity pe ge = Ok s ->
  (s <= st.1)%R -> gt_step tag_to_sbert pe st g = Ok st.
Proof.
  intros Hg Hs Hle. unfold gt_step. rewrite Hg, Hs. cbn.
  destruct (Rgt_dec s st.1); [lra|done].
Qed.

(** One step never lowers the running maximum, and the maximum covers
    the similarity just computed. *)
Lemma gt_step_bound pe st g st' :
  gt_step tag_to_sbert pe st g = Ok st' ->
  (st.1 <= st'.1)%R
  /\ forall ge, tag_to_sbert !! g = Some ge ->
       exists s, pair_similarity pe ge = Ok s /\ (s <= st'.1)%R.
Proof.
  unfold gt_step. destruct (tag_to_sbert !! g) as [ge|] eqn:Hg.
  - destruct (pair_similarity pe ge) as [s|e] eqn:Hs; cbn; [|done].
    destruct (Rgt_dec s st.1) as [Hgt|Hle]; intros [= <-]; simpl.
    + split; [lra|]. intros ? [= <-]. exists s. split; [done|lra].
    + split; [lra|]. intros ? [= <-]. exists s. split; [done|lra].
  - intros [= <-]. split; [lra|]. by intros.
Qed.

Lemma gt_loop_bound pe gts st st' :
  for_each (gt_step tag_to_sbert pe) st gts = Ok st' ->
  (st.1 <= st'.1)%R
  /\ forall g ge, g ∈ gts -> tag_to_sbert !! g = Some ge ->
       exists s, pair_similarity pe ge = Ok s /\ (s <= st'.1)%R.
Proof.
  revert st. induction gts as [|g gts IH]; intros st Hrun; simpl in Hrun.
  - simplify_eq. split; [lra|]. intros g ge Hin. by apply elem_of_nil in Hin.
  - destruct (gt_step tag_to_sbert pe st g) as [s1|e] eqn:Hstep;
      simpl in Hrun; [|done].
    apply gt_step_bound in Hstep as [Hmono Hcov].
    apply IH in Hrun as [Hmono' Hcov'].
    split; [lra|]. intros g' ge [->|Hin]%elem_of_cons Hg'.
    + destruct (Hcov ge Hg') as (s & Hs & Hle). exists s. split; [done|lra].
    + by eapply Hcov'.
Qed.

Lemma gt_loop_total pe gts st :
  length pe <> 0%nat ->
  (forall g ge, g ∈ gts -> tag_to_sbert !! g = Some ge ->
     length ge = length pe) ->
  exists st', for_each (gt_step tag_to_sbert pe) st gts = Ok st'.
Proof.
  intros Hpe Hdim. apply for_each_total. intros s g Hg. unfold gt_step.
  destruct (tag_to_sbert !! g) as [ge|] eqn:Hge; [|by eexists].
  rewrite pair_similarity_rows; [|done|by eapply Hdim]. cbn.
  destruct (Rgt_dec _ s.1); by eexists.
Qed.

(** *** The loop over the predicted tags *)

Context (gts : list string) (threshold : R).

Lemma pred_step_skip acc p :
  tag_to_sbert !! p = None ->
  pred_step tag_to_sbert gts threshold acc p = Ok acc.
Proof. intros Hp. unfold pred_step. by rewrite Hp. Qed.

Lemma pred_step_hit acc p pe m b :
  tag_to_sbert !! p = Some pe ->
  for_each (gt_step tag_to_sbert pe) (0%R, None) gts = Ok (m, b) ->
  (m >= threshold)%R ->
  pred_step tag_to_sbert gts threshold acc p
  = Ok (acc.1 ++ [p],
        acc.2 ++ [{| predicted := p; matched_gt := b; similarity := m |}]).
Proof.
  intros Hp Hloop Hm. unfold pred_step. rewrite Hp, Hloop. cbn.
  by destruct (Rge_dec m threshold).
Qed.

Lemma pred_step_miss acc p pe m b :
  tag_to_sbert !! p = Some pe ->
  for_each (gt_step tag_to_sbert pe) (0%R, None) gts = Ok (m, b) ->
  (m < threshold)%R ->
  pred_step tag_to_sbert gts threshold acc p = Ok acc.
Proof.
  intros Hp Hloop Hm. unfold pred_step. rewrite Hp, Hloop. cbn.
  destruct (Rge_dec m threshold); [lra|done].
Qed.

(** A step keeps the hits so far and adds at most the current tag. *)
Lemma pred_step_hits acc p acc' :
  pred_step tag_to_sbert gts threshold acc p = Ok acc' ->
  (forall t, t ∈ acc.1 -> t ∈ acc'.1)
  /\ (forall t, t ∈ acc'.1 ->
        t ∈ acc.1 \/ (t = p /\ is_Some (tag_to_sbert !! p))).
Proof.
  unfold pred_step. destruct (tag_to_sbert !! p) as [pe|] eqn:Hp.
  - destruct (for_each _ _ gts) as [[m b]|e] eqn:Hloop; cbn; [|done].
    destruct (Rge_dec m threshold) as [Hge|Hlt]; intros [= <-]; simpl.
    + split.
      * intros t Ht. apply elem_of_app. by left.
      * intros t [Ht|Ht%list_elem_of_singleton]%elem_of_app; [by left|].
        right. split; [done|by eexists].
    + split; [done|]. by left.
  - intros [= <-]. split; [done|]. by left.
Qed.

Lemma pred_loop_hits preds acc acc' :
  for_each (pred_step tag_to_sbert gts threshold) acc preds = Ok acc' ->
  (forall t, t ∈ acc.1 -> t ∈ acc'.1)
  /\ (forall t, t ∈ acc'.1 ->
        t ∈ acc.1 \/ (t ∈ preds /\ is_Some (tag_to_sbert !! t))).
Proof.
  revert acc. induction preds as [|p preds IH]; intros acc Hrun; simpl in Hrun.
  - simplify_eq. split; [done|]. by left.
  - destruct (pred_step tag_to_sbert gts threshold acc p) as [a1|e] eqn:Hstep;
      simpl in Hrun; [|done].
    apply pred_step_hits in Hstep as (Hkeep & Honly).
    apply IH in Hrun as (Hkeep' & Honly').
    split.
    + intros t Ht. by apply Hkeep', Hkeep.
    + intros t Ht. destruct (Honly' t Ht) as [Ht1|[Hin Hsome]].
      * destruct (Honly t Ht1) as [?|[-> Hsome]]; [by left|].
        right. split; [by left|done].
      * right. split; [by right|done].
Qed.

Lemma pred_loop_total preds acc n :
  n <> 0%nat ->
  (forall t e, t ∈ preds ++ gts -> tag_to_sbert !! t = Some e -> length e = n) ->
  exists acc', for_each (pred_step tag_to_sbert gts threshold) acc preds = Ok acc'.
Proof.
  intros Hn Hdim. apply for_each_total. intros a p Hp. unfold pred_step.
  destruct (tag_to_sbert !! p) as [pe|] eqn:Hpe; [|by eexists].
  assert (length pe = n) as Hlen.
  { eapply Hdim; [|done]. apply elem_of_app. by left. }
  destruct (gt_loop_total pe gts (0%R, None)) as [[m b] Hloop].
  - lia.
  - intros g ge Hg Hge. rewrite Hlen. eapply Hdim; [|done].
    apply elem_of_app. by right.
  - rewrite Hloop. cbn. destruct (Rge_dec m threshold); by eexists.
Qed.
End Loops.

End EvalProps.

(** ** Per-clip metrics *)

Module MetricsProps.
Import Loader Scorer Eval.

Lemma truediv_ok x y : y <> 0%R -> truediv x y = Ok (x / y)%R.
Proof. intros Hy. unfold truediv. by destruct (Req_dec_T y 0). Qed.

Lemma INR_length_nonzero {A : Type} (l : list A) : l <> [] -> INR (length l) <> 0%R.
Proof.
  intros Hl. apply not_0_INR. intros H0. by apply nil_length_inv in H0.
Qed.

(** The three metric lines never raise and compute the formulas. *)
Lemma clip_metrics_spec hits ground_truth_tags :
  exists m, clip_metrics hits ground_truth_tags = Ok m
            /\ metrics_agree hits ground_truth_tags m.
Proof.
  unfold clip_metrics. rewrite (truediv_ok _ 10) by lra. cbn.
  set (P := (INR (length hits) / 10)%R).
  assert (exists R,
            match ground_truth_tags with
            | [] => Ok 0%R
            | _ :: _ =>
                truediv (INR (length hits)) (INR (length ground_truth_tags))
            end = Ok R
            /\ (ground_truth_tags <> [] ->
                R = (INR (length hits) / INR (length ground_truth_tags))%R)
            /\ (ground_truth_tags = [] -> R = 0%R)) as (R & -> & HR1 & HR0).
  { destruct ground_truth_tags as [|g gs] eqn:Hg.
    - exists 0%R. by repeat split.
    - rewrite truediv_ok by (by apply (INR_length_nonzero (g :: gs))).
      eexists. by repeat split. }
  cbn. destruct (Rgt_dec (P + R) 0) as [Hpos|Hnpos].
  - rewrite truediv_ok by lra. cbn. eexists. split; [done|].
    unfold metrics_agree. simpl. fold P. split; [done|].
    split; [done|]. split; [done|]. split; [|lra].
    intros _. f_equal. lra.
  - cbn. eexists. split; [done|].
    unfold metrics_agree. simpl. fold P. split; [done|].
    split; [done|]. split; [done|]. split; [lra|done].
Qed.

Lemma clip_metrics_agree hits ground_truth_tags m :
  clip_metrics hits ground_truth_tags = Ok m ->
  metrics_agree hits ground_truth_tags m.
Proof.
  intros Hm. destruct (clip_metrics_spec hits ground_truth_tags) as (m' & Hm' & Hs).
  congruence.
Qed.

Lemma evaluate_clip_baseline_metrics audio_embedding tag_embeddings gt r :
  evaluate_clip_baseline audio_embedding tag_embeddings gt = Ok r ->
  clip_metrics (er_hits r) (er_ground_truth_tags r) = Ok (er_metrics r).
Proof.
  unfold evaluate_clip_baseline.
  destruct (get_tag_recommendations _ _ _) as [[tags scores]|e]; cbn; [|done].
  destruct (clip_metrics _ _) as [m|e] eqn:Hm; cbn; [|done].
  by intros [= <-].
Qed.

Lemma evaluate_clip_df_metrics audio_embedding tag_embeddings dfs gt r :
  evaluate_clip_df audio_embedding tag_embeddings dfs gt = Ok r ->
  clip_metrics (er_hits r) (er_ground_truth_tags r) = Ok (er_metrics r).
Proof.
  unfold evaluate_clip_df.
  destruct (get_tag_recommendations_df_weighted _ _ _ _) as [rec|e]; cbn; [|done].
  destruct (clip_metrics _ _) as [m|e] eqn:Hm; cbn; [|done].
  by intros [= <-].
Qed.

Lemma evaluate_clip_sbert_metrics audio_embedding tag_embeddings dfs sbert thr
    gt r :
  evaluate_clip_sbert audio_embedding tag_embeddings dfs sbert thr gt = Ok r ->
  clip_metrics (sr_semantic_hits r) (sr_ground_truth_tags r) = Ok (sr_metrics r).
Proof.
  unfold evaluate_clip_sbert.
  destruct (get_tag_recommendations_df_weighted _ _ _ _) as [rec|e]; cbn; [|done].
  destruct (compute_semantic_hits _ _ _ _) as [[hits matches]|e]; cbn; [|done].
  destruct (clip_metrics _ _) as [m|e] eqn:Hm; cbn; [|done].
  by intros [= <-].
Qed.

End MetricsProps.

Section MetricsClaims.
Import Loader Scorer Eval MetricsProps.

(** C3.  The metric lines never raise, and for every clip an evaluation
    loop returns, with hit list [H] (exact hits in the baseline and DF
    loops, semantic hits in the SBERT loop), cutoff [K = TOP_K = 10] and
    ground-truth list [G]: precision is [|H| / K]; recall is [|H| / |G|]
    when [G] is non-empty and exactly 0 when it is empty; F1 is
    [2PR / (P + R)] when [P + R > 0] and exactly 0 when [P + R = 0]. *)
Theorem clip_metrics_formulas :
  (forall hits ground_truth_tags,
     exists m, clip_metrics hits ground_truth_tags = Ok m
               /\ metrics_agree hits ground_truth_tags m)
  /\ (forall audio_embedding tag_embeddings gt r,
        evaluate_clip_baseline audio_embedding tag_embeddings gt = Ok r ->
        metrics_agree (er_hits r) (er_ground_truth_tags r) (er_metrics r))
  /\ (forall audio_embedding tag_embeddings tag_df_scores gt r,
        evaluate_clip_df audio_embedding tag_embeddings tag_df_scores gt = Ok r ->
        metrics_agree (er_hits r) (er_ground_truth_tags r) (er_metrics r))
  /\ (forall audio_embedding tag_embeddings tag_df_scores tag_to_sbert
             threshold gt r,
        evaluate_clip_sbert audio_embedding tag_embeddings tag_df_scores
          tag_to_sbert threshold gt = Ok r ->
        metrics_agree (sr_semantic_hits r) (sr_ground_truth_tags r)
          (sr_metrics r)).
Proof.
  split; [apply clip_metrics_spec|]. split; [|split].
  - intros ? ? ? r Hr. by eapply clip_metrics_agree, evaluate_clip_baseline_metrics.
  - intros ? ? ? ? r Hr. by eapply clip_metrics_agree, evaluate_clip_df_metrics.
  - intros ? ? ? ? ? ? r Hr.
    by eapply clip_metrics_agree, evaluate_clip_sbert_metrics.
Qed.

End MetricsClaims.

(** ** Exact versus semantic hits *)

Module HitProps.
Import Np NpProps Loader Scorer Eval EvalProps MetricsProps.

Lemma for_each_ext {A S : Type} (body1 body2 : S -> A -> result S) st xs :
  (forall s x, body1 s x = body2 s x) ->
  for_each body1 st xs = for_each body2 st xs.
Proof.
  intros Hext. revert st. induction xs as [|x xs IH]; intros st; simpl; [done|].
  rewrite Hext. destruct (body2 st x); simpl; [apply IH|done].
Qed.

(** Ground-truth tags without an embedding change nothing in the inner
    loop. *)
Lemma gt_loop_filter sbert pe gt st :
  for_each (gt_step sbert pe) st (lower <$> gt)
  = for_each (gt_step sbert pe) st (lower <$> filter (has_embedding sbert) gt).
Proof.
  revert st. induction gt as [|g gt IH]; intros st; [done|].
  rewrite filter_cons. destruct (decide (has_embedding sbert g)) as [Hg|Hg].
  - rewrite !fmap_cons. simpl. destruct (gt_step sbert pe st (lower g)); simpl;
      [apply IH|done].
  - rewrite fmap_cons. simpl. rewrite gt_step_skip; [apply IH|].
    unfold has_embedding in Hg. destruct (sbert !! lower g) eqn:E; [|done].
    exfalso. apply Hg. by eexists.
Qed.

Lemma pred_step_filter sbert gt thr acc p :
  pred_step sbert (lower <$> gt) thr acc p
  = pred_step sbert (lower <$> filter (has_embedding sbert) gt) thr acc p.
Proof.
  unfold pred_step. destruct (sbert !! p) as [pe|]; [|done].
  by rewrite gt_loop_filter.
Qed.

(** Predicted tags without an embedding change nothing in the outer loop. *)
Lemma pred_loop_filter sbert gts thr pred acc :
  for_each (pred_step sbert gts thr) acc (lower <$> pred)
  = for_each (pred_step sbert gts thr) acc
      (lower <$> filter (has_embedding sbert) pred).
Proof.
  revert acc. induction pred as [|p pred IH]; intros acc; [done|].
  rewrite filter_cons. destruct (decide (has_embedding sbert p)) as [Hp|Hp].
  - rewrite !fmap_cons. simpl.
    destruct (pred_step sbert gts thr acc (lower p)); simpl; [apply IH|done].
  - rewrite fmap_cons. simpl. rewrite pred_step_skip; [apply IH|].
    unfold has_embedding in Hp. destruct (sbert !! lower p) eqn:E; [|done].
    exfalso. apply Hp. by eexists.
Qed.

(** The output is the one obtained after deleting, from both lists, the
    tags that have no phrase embedding. *)
Lemma compute_semantic_hits_filter pred gt sbert thr :
  compute_semantic_hits pred gt sbert thr
  = compute_semantic_hits (filter (has_embedding sbert) pred)
      (filter (has_embedding sbert) gt) sbert thr.
Proof.
  unfold compute_semantic_hits.
  rewrite (for_each_ext _ _ _ _ (pred_step_filter sbert gt thr)).
  apply pred_loop_filter.
Qed.

(** A one-dimensional unit embedding, and what the loops do on it. *)
Lemma nonzero_unit : nonzero [1%R].
Proof. apply Exists_cons_hd. lra. Qed.

Lemma pair_similarity_unit : pair_similarity [1%R] [1%R] = Ok 1%R.
Proof. apply pair_similarity_self, nonzero_unit. Qed.

Lemma pair_similarity_zero : pair_similarity [0%R] [0%R] = Ok 0%R.
Proof.
  rewrite pair_similarity_rows by (simpl; lia). f_equal.
  unfold normalize, row_norm. simpl.
  replace (0 * 0 + 0)%R with 0%R by lra. rewrite sqrt_0.
  unfold handle_zeros_in_scale. destruct (Req_dec_T 0 0) as [_|Hne]; [|done].
  simpl. lra.
Qed.

(** Exact hits are distinct ground-truth tags. *)
Lemma exact_hits_length predicted gt :
  (length (exact_hits predicted gt) <= length gt)%nat.
Proof.
  unfold exact_hits. apply submseteq_length, NoDup_submseteq.
  - apply NoDup_elements.
  - intros t Ht. apply elem_of_elements in Ht. unfold exact_hit_set in Ht.
    apply elem_of_intersection in Ht as [_ Ht].
    by apply elem_of_list_to_set in Ht.
Qed.

End HitProps.

(** ** Hit detection for any [cosine_similarity] *)

Module CosineProps.
Import Np NpProps Loader Scorer Eval EvalProps MetricsProps HitProps SpecCosine.

(** With [Np.cosine_similarity] for the parameter these are the cells of
    [Scorer] and [Eval]. *)
Lemma compute_semantic_hits_instance :
  WithCosine.compute_semantic_hits Np.cosine_similarity = compute_semantic_hits.
Proof. reflexivity. Qed.

Lemma evaluate_clip_sbert_instance :
  WithCosine.evaluate_clip_sbert Np.cosine_similarity = evaluate_clip_sbert.
Proof. reflexivity. Qed.

Lemma sbert_results_instance :
  WithCosine.sbert_results Np.cosine_similarity = Pipeline.sbert_results.
Proof. reflexivity. Qed.

Section Loops.
Context (cosine_similarity :
           list (list R) -> list (list R) -> result (list (list R)))
        (tag_to_sbert : gmap string (list R)).

(** The running maximum never decreases and covers every similarity
    computed. *)
Lemma any_gt_loop_bound pe gts st st' :
  for_each (WithCosine.gt_step cosine_similarity tag_to_sbert pe) st gts = Ok st' ->
  (st.1 <= st'.1)%R
  /\ forall g ge, g ∈ gts -> tag_to_sbert !! g = Some ge ->
       exists s, WithCosine.pair_similarity cosine_similarity pe ge = Ok s /\ (s <= st'.1)%R.
Proof.
  revert st. induction gts as [|g gts IH]; intros st Hrun; simpl in Hrun.
  - simplify_eq. split; [lra|]. intros g ge Hin. by apply elem_of_nil in Hin.
  - destruct (WithCosine.gt_step cosine_similarity tag_to_sbert pe st g) as [s1|e] eqn:Hstep;
      simpl in Hrun; [|done].
    apply IH in Hrun as [Hmono' Hcov'].
    assert ((st.1 <= s1.1)%R
            /\ forall ge, tag_to_sbert !! g = Some ge ->
                 exists s, WithCosine.pair_similarity cosine_similarity pe ge = Ok s /\ (s <= s1.1)%R)
      as [Hmono Hcov].
    { unfold WithCosine.gt_step in Hstep.
      destruct (tag_to_sbert !! g) as [ge|] eqn:Hg.
      - destruct (WithCosine.pair_similarity cosine_similarity pe ge) as [s|e] eqn:Hs; cbn in Hstep; [|done].
        destruct (Rgt_dec s st.1) as [Hgt|Hle]; simplify_eq; simpl.
        + split; [lra|]. intros ? [= <-]. exists s. split; [done|lra].
        + split; [lra|]. intros ? [= <-]. exists s. split; [done|lra].
      - simplify_eq. split; [lra|]. by intros. }
    split; [lra|]. intros g' ge [->|Hin]%elem_of_cons Hg'.
    + destruct (Hcov ge Hg') as (s & Hs & Hle). exists s. split; [done|lra].
    + by eapply Hcov'.
Qed.

Context (gts : list string) (threshold : R).

(** A step keeps the hits so far, and adds the current tag when it is a
    ground-truth tag whose similarity with itself reaches the threshold. *)
Lemma any_pred_step_hits acc p acc' :
  WithCosine.pred_step cosine_similarity tag_to_sbert gts threshold acc p = Ok acc' ->
  (forall t, t ∈ acc.1 -> t ∈ acc'.1)
  /\ (forall pe, tag_to_sbert !! p = Some pe -> p ∈ gts ->
        self_similar cosine_similarity threshold pe -> p ∈ acc'.1).
Proof.
  unfold WithCosine.pred_step. destruct (tag_to_sbert !! p) as [pe|] eqn:Hp.
  - destruct (for_each _ _ gts) as [[m b]|e] eqn:Hloop; cbn; [|done].
    destruct (Rge_dec m threshold) as [Hge|Hlt]; intros [= <-]; simpl.
    + split.
      * intros t Ht. apply elem_of_app. by left.
      * intros. apply elem_of_app. right. by apply list_elem_of_singleton.
    + split; [done|]. intros pe' [= <-] Hin (s & Hs & Hthr). exfalso.
      apply any_gt_loop_bound in Hloop as [_ Hcov].
      destruct (Hcov p pe Hin Hp) as (s' & Hs' & Hle).
      rewrite Hs in Hs'. simplify_eq. simpl in Hle. lra.
  - intros [= <-]. split; [done|]. by intros.
Qed.

Lemma any_pred_loop_hits preds acc acc' :
  for_each (WithCosine.pred_step cosine_similarity tag_to_sbert gts threshold) acc preds = Ok acc' ->
  (forall t, t ∈ acc.1 -> t ∈ acc'.1)
  /\ (forall p pe, p ∈ preds -> tag_to_sbert !! p = Some pe -> p ∈ gts ->
        self_similar cosine_similarity threshold pe -> p ∈ acc'.1).
Proof.
  revert acc. induction preds as [|p preds IH]; intros acc Hrun; simpl in Hrun.
  - simplify_eq. split; [done|]. intros p pe Hin. by apply elem_of_nil in Hin.
  - destruct (WithCosine.pred_step cosine_similarity tag_to_sbert gts threshold acc p) as [a1|e] eqn:Hstep;
      simpl in Hrun; [|done].
    apply any_pred_step_hits in Hstep as (Hkeep & Hadd).
    apply IH in Hrun as (Hkeep' & Hadd').
    split.
    + intros t Ht. by apply Hkeep', Hkeep.
    + intros q pe [->|Hin]%elem_of_cons Hq Hg Hself.
      * apply Hkeep'. by eapply Hadd.
      * by eapply Hadd'.
Qed.

(** The loops return when [cosine_similarity] returns on every pair of
    embeddings they compare. *)
Lemma any_pred_loop_total preds acc :
  (forall p g pe ge, p ∈ preds -> g ∈ gts ->
     tag_to_sbert !! p = Some pe -> tag_to_sbert !! g = Some ge ->
     exists s, WithCosine.pair_similarity cosine_similarity pe ge = Ok s) ->
  exists acc', for_each (WithCosine.pred_step cosine_similarity tag_to_sbert gts threshold) acc preds = Ok acc'.
Proof.
  intros Hret. apply for_each_total. intros a p Hp.
  unfold WithCosine.pred_step.
  destruct (tag_to_sbert !! p) as [pe|] eqn:Hpe; [|by eexists].
  destruct (for_each_total (WithCosine.gt_step cosine_similarity tag_to_sbert pe)
              (0%R, None) gts)
    as [[m b] Hloop].
  - intros st g Hg. unfold WithCosine.gt_step.
    destruct (tag_to_sbert !! g) as [ge|] eqn:Hge; [|by eexists].
    destruct (Hret p g pe ge Hp Hg Hpe Hge) as [s ->]. cbn.
    destruct (Rgt_dec s st.1); by eexists.
  - rewrite Hloop. cbn. destruct (Rge_dec m threshold); by eexists.
Qed.
End Loops.

(** One call of [compute_semantic_hits]. *)
Lemma any_exact_hits_are_hits cosine_similarity predicted_tags ground_truth_tags
    (tag_to_sbert : gmap string (list R)) threshold hits matches t :
  (forall e, tag_to_sbert !! t = Some e ->
     self_similar cosine_similarity threshold e) ->
  is_Some (tag_to_sbert !! t) ->
  WithCosine.compute_semantic_hits cosine_similarity predicted_tags
    ground_truth_tags tag_to_sbert threshold = Ok (hits, matches) ->
  t ∈ exact_hit_set predicted_tags ground_truth_tags -> t ∈ hits.
Proof.
  intros Hself [e He] Hrun Ht. unfold exact_hit_set in Ht.
  apply elem_of_intersection in Ht as [Hp Hg].
  apply elem_of_list_to_set in Hp, Hg.
  unfold WithCosine.compute_semantic_hits in Hrun.
  apply any_pred_loop_hits in Hrun as (_ & Hadd). simpl in Hadd.
  apply (Hadd t e); [done|done| |by apply Hself].
  apply list_elem_of_fmap in Hp as (p & -> & Hp).
  apply list_elem_of_fmap. exists (lower p). by rewrite lower_idem.
Qed.

End CosineProps.

Section HitClaims.
Import Np NpProps Loader Scorer Eval EvalProps MetricsProps HitProps SpecCosine
  CosineProps.

(** C4, as the code behaves.  Let every predicted and ground-truth tag
    have a phrase embedding and let, for every exact hit, the similarity
    that [cosine_similarity] returns for its embedding and itself reach
    the threshold.  Then whenever [compute_semantic_hits] returns, every
    exact hit is among the semantic hits; and it returns when
    [cosine_similarity] returns on every pair of embeddings it is given.
    This holds for every function in the place of [cosine_similarity]:
    for the exact one, whose self-similarity is 1 on a non-zero vector and
    0 on the zero vector, and for the floating-point one, whose
    self-similarity can fall short of 1. *)
Theorem exact_hits_are_semantic_hits
    (cosine_similarity :
       list (list R) -> list (list R) -> result (list (list R)))
    (predicted_tags ground_truth_tags : list string)
    (tag_to_sbert : gmap string (list R)) (threshold : R) :
  Forall (has_embedding tag_to_sbert) (predicted_tags ++ ground_truth_tags) ->
  (forall t e, t ∈ exact_hit_set predicted_tags ground_truth_tags ->
     tag_to_sbert !! t = Some e ->
     self_similar cosine_similarity threshold e) ->
  (forall hits matches,
     WithCosine.compute_semantic_hits cosine_similarity predicted_tags
       ground_truth_tags tag_to_sbert threshold = Ok (hits, matches) ->
     forall t, t ∈ exact_hit_set predicted_tags ground_truth_tags -> t ∈ hits)
  /\ ((forall p g pe ge,
         p ∈ predicted_tags -> g ∈ ground_truth_tags ->
         tag_to_sbert !! lower p = Some pe ->
         tag_to_sbert !! lower g = Some ge ->
         exists s, WithCosine.pair_similarity cosine_similarity pe ge = Ok s) ->
      exists out,
        WithCosine.compute_semantic_hits cosine_similarity predicted_tags
          ground_truth_tags tag_to_sbert threshold = Ok out).
Proof.
  intros Hemb Hself. rewrite Forall_forall in Hemb. split.
  - intros hits matches Hrun t Ht.
    eapply any_exact_hits_are_hits; [|  |exact Hrun|exact Ht].
    + intros e He. by eapply Hself.
    + unfold exact_hit_set in Ht. apply elem_of_intersection in Ht as [Hp _].
      apply elem_of_list_to_set, list_elem_of_fmap in Hp as (p & -> & Hp).
      apply (Hemb p). apply elem_of_app. by left.
  - intros Hret. unfold WithCosine.compute_semantic_hits.
    apply any_pred_loop_total.
    intros p g pe ge Hp Hg Hpe Hge.
    apply list_elem_of_fmap in Hp as (p0 & -> & Hp0).
    apply list_elem_of_fmap in Hg as (g0 & -> & Hg0).
    by eapply Hret.
Qed.

(** [exact_hits_are_semantic_hits] for the exact [Np.cosine_similarity] at
    a concrete input, its premises checked by evaluation. *)
Lemma exact_hits_are_semantic_hits_witness :
  let sbert : gmap string (list R) :=
    <["drum" := [1; 0]%R]> (<["beat" := [0; 1]%R]> (<["vocal" := [1; 1]%R]> ∅)) in
  Forall (has_embedding sbert) (["Drum"; "beat"] ++ ["drum"; "vocal"])
  /\ (forall t e, t ∈ exact_hit_set ["Drum"; "beat"] ["drum"; "vocal"] ->
        sbert !! t = Some e ->
        self_similar Np.cosine_similarity (7 / 10) e)
  /\ (forall hits matches,
        compute_semantic_hits ["Drum"; "beat"] ["drum"; "vocal"] sbert (7 / 10)
          = Ok (hits, matches) ->
        forall t, t ∈ exact_hit_set ["Drum"; "beat"] ["drum"; "vocal"] ->
                  t ∈ hits).
Proof.
  intros sbert.
  assert (Forall (has_embedding sbert)
            (["Drum"; "beat"] ++ ["drum"; "vocal"])) as H1.
  { repeat apply Forall_cons_2; [| | | |apply Forall_nil_2];
      by eexists. }
  assert (forall t e, t ∈ exact_hit_set ["Drum"; "beat"] ["drum"; "vocal"] ->
            sbert !! t = Some e ->
            self_similar Np.cosine_similarity (7 / 10) e) as H2.
  { intros t e Ht He. unfold exact_hit_set in Ht.
    apply elem_of_intersection in Ht as [_ Ht].
    apply elem_of_list_to_set in Ht.
    assert (nonzero e) as Hnz.
    { repeat (apply elem_of_cons in Ht as [->|Ht]);
        [| |by apply elem_of_nil in Ht];
        vm_compute in He; simplify_eq; apply Exists_cons_hd; lra. }
    exists 1%R. split; [|lra].
    change (pair_similarity e e = Ok 1%R). by apply pair_similarity_self. }
  split; [exact H1|]. split; [exact H2|].
  exact (proj1 (exact_hits_are_semantic_hits Np.cosine_similarity
                  ["Drum"; "beat"] ["drum"; "vocal"] sbert (7 / 10) H1 H2)).
Defined.

(** C4, as stated, fails: with a zero vector as the phrase embedding of
    ["drum"], the predicted tag ["drum"] is an exact hit and yet not a
    semantic hit (its similarity with itself is 0, below the threshold),
    although every tag has an embedding and the threshold is at most 1. *)
Lemma zero_embedding_exact_hit_is_not_semantic :
  let sbert : gmap string (list R) := {["drum" := [0%R]]} in
  (forall t, t ∈ ["drum"] ++ ["drum"] -> is_Some (sbert !! lower t))
  /\ (7 / 10 <= 1)%R
  /\ "drum" ∈ exact_hit_set ["drum"] ["drum"]
  /\ compute_semantic_hits ["drum"] ["drum"] sbert (7 / 10) = Ok ([], []).
Proof.
  intros sbert.
  assert (sbert !! "drum" = Some [0%R]) as Hdrum by apply lookup_singleton_eq.
  split; [|split; [lra|split]].
  - intros t [->|[->|Ht]%elem_of_cons]%elem_of_cons;
      [by eexists|by eexists|by apply elem_of_nil in Ht].
  - unfold exact_hit_set. apply elem_of_intersection.
    split; apply elem_of_list_to_set, list_elem_of_here.
  - unfold compute_semantic_hits.
    change (lower <$> ["drum"]) with ["drum"]. simpl.
    rewrite (pred_step_miss sbert ["drum"] (7 / 10) ([], []) "drum"
               [0%R] 0%R None); [done|done| |lra].
    simpl. by rewrite (gt_step_keep sbert [0%R] (0%R, None) "drum" [0%R] 0%R
                         Hdrum pair_similarity_zero) by (simpl; lra).
Qed.

(** C6, as the code behaves.  A predicted or ground-truth tag without a
    phrase embedding is passed over without leaving any trace: the result
    is the one computed after deleting all such tags from both lists, and
    it consists of the hit list and the match list only, whose entries all
    have an embedding. *)
Theorem missing_embeddings_leave_no_trace (predicted_tags ground_truth_tags : list string)
    (tag_to_sbert : gmap string (list R)) (threshold : R) :
  compute_semantic_hits predicted_tags ground_truth_tags tag_to_sbert threshold
  = compute_semantic_hits
      (filter (has_embedding tag_to_sbert) predicted_tags)
      (filter (has_embedding tag_to_sbert) ground_truth_tags)
      tag_to_sbert threshold
  /\ (forall hits matches,
        compute_semantic_hits predicted_tags ground_truth_tags tag_to_sbert
          threshold = Ok (hits, matches) ->
        forall t, t ∈ hits ->
          t ∈ lower <$> predicted_tags /\ is_Some (tag_to_sbert !! t)).
Proof.
  split; [apply compute_semantic_hits_filter|].
  intros hits matches Hrun t Ht. unfold compute_semantic_hits in Hrun.
  apply pred_loop_hits in Hrun as (_ & Honly).
  destruct (Honly t Ht) as [Hnil|Hin]; [by apply elem_of_nil in Hnil|done].
Qed.

(** C6, as stated, fails: no function of the output of
    [compute_semantic_hits] gives the number of tags skipped.  The inputs
    [(["drum"; "kick"], ["drum"])] and [(["drum"], ["drum"])], with an
    embedding for ["drum"] only, skip one tag and none, and produce the
    same output. *)
Lemma skipped_tags_are_not_reported :
  ~ exists skip_counter : list string * list semantic_match -> nat,
      forall predicted_tags ground_truth_tags tag_to_sbert threshold out,
        compute_semantic_hits predicted_tags ground_truth_tags tag_to_sbert
          threshold = Ok out ->
        skip_counter out
        = skipped_tags predicted_tags ground_truth_tags tag_to_sbert.
Proof.
  intros [skip_counter Hcount].
  set (sbert := {["drum" := [1%R]]} : gmap string (list R)).
  assert (sbert !! "drum" = Some [1%R]) as Hdrum by apply lookup_singleton_eq.
  assert (compute_semantic_hits ["drum"] ["drum"] sbert (7 / 10)
          = Ok (["drum"],
                [{| predicted := "drum"; matched_gt := Some "drum";
                    similarity := 1 |}])) as Hrun.
  { unfold compute_semantic_hits. change (lower <$> ["drum"]) with ["drum"].
    simpl.
    rewrite (pred_step_hit sbert ["drum"] (7 / 10) ([], []) "drum" [1%R]
               1%R (Some "drum")); [done|done| |lra].
    simpl. by rewrite (gt_step_better sbert [1%R] (0%R, None) "drum" [1%R] 1%R
                         Hdrum pair_similarity_unit) by (simpl; lra). }
  assert (compute_semantic_hits ["drum"; "kick"] ["drum"] sbert (7 / 10)
          = compute_semantic_hits ["drum"] ["drum"] sbert (7 / 10)) as Hsame.
  { by rewrite compute_semantic_hits_filter. }
  pose proof (Hcount ["drum"] ["drum"] sbert _ _ Hrun) as H0.
  rewrite <- Hsame in Hrun.
  pose proof (Hcount ["drum"; "kick"] ["drum"] sbert _ _ Hrun) as H1.
  rewrite H0 in H1. vm_compute in H1. discriminate.
Qed.

(** C10.  Semantic hits are collected per predicted tag: on the input
    below the two predictions both match the single ground-truth tag, the
    hit list is longer than the ground truth and the recall is 2.  Exact
    hits, a set intersection with the ground truth, never outnumber the
    ground-truth tags, and the recall computed from them never exceeds 1. *)
Theorem semantic_recall_can_exceed_one :
  (let sbert : gmap string (list R) :=
     <["drum" := [1%R]]> (<["drums" := [1%R]]> (<["percussion" := [1%R]]> ∅)) in
   let hits := ["drum"; "drums"] in
   compute_semantic_hits ["drum"; "drums"] ["percussion"] sbert (7 / 10)
   = Ok (hits,
         [{| predicted := "drum"; matched_gt := Some "percussion";
             similarity := 1 |};
          {| predicted := "drums"; matched_gt := Some "percussion";
             similarity := 1 |}])
   /\ (length ["percussion"] < length hits)%nat
   /\ exists m, clip_metrics hits ["percussion"] = Ok m
                /\ recall m = 2%R /\ (recall m > 1)%R)
  /\ (forall predicted_tags ground_truth_tags,
        (length (exact_hits predicted_tags ground_truth_tags)
         <= length ground_truth_tags)%nat
        /\ exists m,
             clip_metrics (exact_hits predicted_tags ground_truth_tags)
               ground_truth_tags = Ok m
             /\ (recall m <= 1)%R).
Proof.
  split.
  - intros sbert hits.
    assert (sbert !! "drum" = Some [1%R]) as Hdrum by reflexivity.
    assert (sbert !! "drums" = Some [1%R]) as Hdrums by reflexivity.
    assert (sbert !! "percussion" = Some [1%R]) as Hperc by reflexivity.
    assert (forall pe, pe = [1%R] ->
              for_each (gt_step sbert pe) (0%R, None) ["percussion"]
              = Ok (1%R, Some "percussion")) as Hloop.
    { intros pe ->. simpl.
      by rewrite (gt_step_better sbert [1%R] (0%R, None) "percussion" [1%R]
                    1%R Hperc pair_similarity_unit) by (simpl; lra). }
    split; [|split].
    + unfold compute_semantic_hits.
      change (lower <$> ["drum"; "drums"]) with ["drum"; "drums"].
      change (lower <$> ["percussion"]) with ["percussion"]. simpl.
      rewrite (pred_step_hit sbert ["percussion"] (7 / 10) ([], []) "drum"
                 [1%R] 1%R (Some "percussion") Hdrum (Hloop _ eq_refl))
        by lra.
      simpl.
      rewrite (pred_step_hit sbert ["percussion"] (7 / 10) _ "drums"
                 [1%R] 1%R (Some "percussion") Hdrums (Hloop _ eq_refl))
        by lra.
      done.
    + simpl. lia.
    + destruct (clip_metrics_spec hits ["percussion"]) as (m & Hm & _ & HR & _).
      exists m. split; [exact Hm|].
      rewrite HR by done. simpl. split; lra.
  - intros predicted_tags ground_truth_tags.
    pose proof (exact_hits_length predicted_tags ground_truth_tags) as Hlen.
    split; [exact Hlen|].
    destruct (clip_metrics_spec (exact_hits predicted_tags ground_truth_tags)
                ground_truth_tags) as (m & Hm & _ & HR & HR0 & _).
    exists m. split; [exact Hm|].
    destruct ground_truth_tags as [|g gs].
    + rewrite HR0 by done. lra.
    + rewrite HR by done. apply le_INR in Hlen.
      assert (0 < INR (length (g :: gs)))%R as Hpos.
      { apply lt_0_INR. simpl. lia. }
      apply (Rmult_le_reg_r (INR (length (g :: gs)))); [done|].
      unfold Rdiv. rewrite Rmult_assoc, Rinv_l by lra. lra.
Qed.

End HitClaims.

(** ** Worked scenarios *)

Section Scenarios.
Import DF DFProps Np NpProps Loader Scorer Eval EvalProps MetricsProps HitProps.

(** The string and list primitives on small inputs. *)
Example scenario_split :
  split "," "rain, Thunder ,,storm" = ["rain"; " Thunder "; EmptyString; "storm"].
Proof. reflexivity. Qed.

Example scenario_normalise_tag :
  lower (strip "  Field-Recording ") = "field-recording".
Proof. reflexivity. Qed.

Example scenario_unique_tags :
  unique_tags "Rain, rain ,THUNDER" = ({["rain"; "thunder"]} : gset string).
Proof. apply (bool_decide_unpack _). by vm_compute. Qed.

Example scenario_slice :
  slice_to [1; 2; 3; 4]%nat 2 = [1; 2]%nat
  /\ slice_to [1; 2; 3; 4]%nat 10 = [1; 2; 3; 4]%nat
  /\ slice_to [1; 2; 3; 4]%nat (-1) = [1; 2; 3]%nat.
Proof. by repeat split. Qed.

(** Assigning an existing key keeps its position, a new key goes last. *)
Example scenario_dict_set :
  dict_set (dict_set (dict_set [] "a" 1%nat) "b" 2%nat) "a" 3%nat
  = [("a", 3%nat); ("b", 2%nat)].
Proof. reflexivity. Qed.

(** Three documents tagged [{a,b}], [{a,c}], [{a}]: DF(a) = 3,
    DF(b) = DF(c) = 1, N = 3. *)
Example scenario_counts :
  let docs := ["a,b"; "a,c"; "a"] in
  tag_document_counts docs !! "a" = Some 3%nat
  /\ tag_document_counts docs !! "b" = Some 1%nat
  /\ tag_document_counts docs !! "c" = Some 1%nat
  /\ tag_document_counts docs !! "d" = None
  /\ total_documents docs = 3%nat.
Proof. vm_compute. done. Qed.

(** ... and with alpha = 0.7 the weights are 1 for [a], 0.65 for [b] and
    0.3 for a tag the corpus does not have. *)
Example scenario_weights :
  let docs := ["a,b"; "a,c"; "a"] in
  exists st,
    tag_df_scores (7 / 10) (tag_document_counts docs) (total_documents docs)
      ["a"; "b"; "d"] = Ok st
    /\ scores st !! "a" = Some 1%R
    /\ scores st !! "b" = Some (65 / 100)%R
    /\ scores st !! "d" = Some (3 / 10)%R
    /\ matched_tags st = 2%nat /\ unmatched_tags st = 1%nat.
Proof.
  intros docs.
  destruct (tag_df_scores_run (7 / 10) (tag_document_counts docs)
              (total_documents docs) ["a"; "b"; "d"] empty_mapping)
    as (st & Hrun & Hin & _ & Hm & Hcnt).
  { intros t _. left. simpl. lia. }
  assert (tag_document_counts docs !! lower "a" = Some 3%nat) as Ha
    by (vm_compute; done).
  assert (tag_document_counts docs !! lower "b" = Some 1%nat) as Hb
    by (vm_compute; done).
  assert (tag_document_counts docs !! lower "d" = None) as Hd
    by (vm_compute; done).
  assert (ln (INR 4) = 2 * ln (INR 2))%R as Hln4.
  { replace (INR 4) with (INR 2 * INR 2)%R by (simpl; lra).
    rewrite ln_mult by (simpl; lra). lra. }
  assert (0 < ln (INR 2))%R as Hln2.
  { rewrite <- ln_1. apply ln_increasing; simpl; lra. }
  exists st. split; [exact Hrun|].
  split; [|split; [|split; [|split]]].
  - rewrite Hin by (by left). unfold weight_of. rewrite Ha. f_equal.
    change (1 + 3)%nat with 4%nat. change (total_documents docs) with 3%nat.
    change (1 + 3)%nat with 4%nat. rewrite Hln4. field. lra.
  - rewrite Hin by (right; by left). unfold weight_of. rewrite Hb. f_equal.
    change (1 + 1)%nat with 2%nat. change (total_documents docs) with 3%nat.
    change (1 + 3)%nat with 4%nat. rewrite Hln4. field. lra.
  - rewrite Hin by (right; right; by left). unfold weight_of. rewrite Hd.
    f_equal. lra.
  - rewrite Hm. vm_compute. done.
  - assert (matched_tags st = 2%nat) as Hm2 by (rewrite Hm; vm_compute; done).
    simpl in Hcnt. lia.
Qed.

(** Three hits among ten predictions against six ground-truth tags:
    P = 0.3, R = 0.5, F1 = 0.375. *)
Example scenario_f1 :
  exists m,
    clip_metrics ["a"; "b"; "c"] ["a"; "b"; "c"; "d"; "e"; "f"] = Ok m
    /\ precision_at_10 m = (3 / 10)%R
    /\ recall m = (1 / 2)%R
    /\ f1_score m = (375 / 1000)%R.
Proof.
  destruct (clip_metrics_spec ["a"; "b"; "c"] ["a"; "b"; "c"; "d"; "e"; "f"])
    as (m & Hm & HP & HR & _ & HF & _).
  exists m. split; [exact Hm|].
  assert (precision_at_10 m = (3 / 10)%R) as HP'.
  { rewrite HP. unfold TOP_K. simpl. lra. }
  assert (recall m = (1 / 2)%R) as HR'.
  { rewrite HR by done. simpl. lra. }
  split; [exact HP'|]. split; [exact HR'|].
  rewrite HF; rewrite HP', HR'; lra.
Qed.

(** Unit vectors are left unchanged by the normalisation. *)
Lemma pair_similarity_unit_vectors x y :
  dot x x = 1%R -> dot y y = 1%R -> length x <> 0%nat -> length y = length x ->
  pair_similarity x y = Ok (dot x y).
Proof.
  intros Hx Hy Hlen Hlen'. rewrite pair_similarity_rows by done. f_equal.
  assert (forall z, dot z z = 1%R -> normalize z = z) as Hnorm.
  { intros z Hz. unfold normalize, row_norm, handle_zeros_in_scale.
    rewrite Hz, sqrt_1. destruct (Req_dec_T 1 0) as [H10|_]; [lra|].
    induction z as [|a z IH] in |- *; [done|]. simpl. f_equal; [lra|exact IH]. }
  by rewrite (Hnorm x Hx), (Hnorm y Hy).
Qed.

(** Predictions [drum, beat, voice] against ground truth [drums, vocal],
    threshold 0.7, with phrase embeddings under which [drum] matches
    [drums], [voice] matches [vocal] and [beat] matches nothing: the
    semantic hits are [drum] and [voice], there is no exact hit, and the
    loop's metrics divide by 10. *)
Example scenario_semantic_hits :
  let sbert : gmap string (list R) :=
    <["drum" := [1; 0; 0]%R]> (<["drums" := [1; 0; 0]%R]>
    (<["voice" := [0; 1; 0]%R]> (<["vocal" := [0; 1; 0]%R]>
    (<["beat" := [0; 0; 1]%R]> ∅)))) in
  compute_semantic_hits ["drum"; "beat"; "voice"] ["drums"; "vocal"] sbert
    (7 / 10)
  = Ok (["drum"; "voice"],
        [{| predicted := "drum"; matched_gt := Some "drums"; similarity := 1 |};
         {| predicted := "voice"; matched_gt := Some "vocal"; similarity := 1 |}])
  /\ exact_hits ["drum"; "beat"; "voice"] ["drums"; "vocal"] = []
  /\ exists m, clip_metrics ["drum"; "voice"] ["drums"; "vocal"] = Ok m
               /\ precision_at_10 m = (2 / 10)%R /\ recall m = 1%R.
Proof.
  intros sbert.
  assert (sbert !! "drum" = Some [1; 0; 0]%R) as Hdrum by reflexivity.
  assert (sbert !! "drums" = Some [1; 0; 0]%R) as Hdrums by reflexivity.
  assert (sbert !! "voice" = Some [0; 1; 0]%R) as Hvoice by reflexivity.
  assert (sbert !! "vocal" = Some [0; 1; 0]%R) as Hvocal by reflexivity.
  assert (sbert !! "beat" = Some [0; 0; 1]%R) as Hbeat by reflexivity.
  assert (forall x y s,
            dot x x = 1%R -> dot y y = 1%R ->
            length x = 3%nat -> length y = 3%nat ->
            dot x y = s -> pair_similarity x y = Ok s) as Hsim.
  { intros x y s Hx Hy Hx3 Hy3 <-.
    apply pair_similarity_unit_vectors; [done|done|lia|lia]. }
  assert (pair_similarity [1; 0; 0]%R [1; 0; 0]%R = Ok 1%R) as S11
    by (apply Hsim; simpl; first [lra|done]).
  assert (pair_similarity [1; 0; 0]%R [0; 1; 0]%R = Ok 0%R) as S12
    by (apply Hsim; simpl; first [lra|done]).
  assert (pair_similarity [0; 0; 1]%R [1; 0; 0]%R = Ok 0%R) as S31
    by (apply Hsim; simpl; first [lra|done]).
  assert (pair_similarity [0; 0; 1]%R [0; 1; 0]%R = Ok 0%R) as S32
    by (apply Hsim; simpl; first [lra|done]).
  assert (pair_similarity [0; 1; 0]%R [1; 0; 0]%R = Ok 0%R) as S21
    by (apply Hsim; simpl; first [lra|done]).
  assert (pair_similarity [0; 1; 0]%R [0; 1; 0]%R = Ok 1%R) as S22
    by (apply Hsim; simpl; first [lra|done]).
  split; [|split].
  - unfold compute_semantic_hits.
    change (lower <$> ["drum"; "beat"; "voice"]) with ["drum"; "beat"; "voice"].
    change (lower <$> ["drums"; "vocal"]) with ["drums"; "vocal"]. simpl.
    rewrite (pred_step_hit sbert _ (7 / 10) ([], []) "drum" _ 1%R
               (Some "drums") Hdrum); [| |lra].
    2:{ simpl.
        rewrite (gt_step_better sbert _ _ _ _ _ Hdrums S11) by (simpl; lra).
        simpl.
        by rewrite (gt_step_keep sbert _ _ _ _ _ Hvocal S12) by (simpl; lra). }
    simpl.
    rewrite (pred_step_miss sbert _ (7 / 10) _ "beat" _ 0%R None Hbeat);
      [| |lra].
    2:{ simpl.
        rewrite (gt_step_keep sbert _ _ _ _ _ Hdrums S31) by (simpl; lra).
        simpl.
        by rewrite (gt_step_keep sbert _ _ _ _ _ Hvocal S32) by (simpl; lra). }
    simpl.
    rewrite (pred_step_hit sbert _ (7 / 10) _ "voice" _ 1%R
               (Some "vocal") Hvoice); [done| |lra].
    simpl.
    rewrite (gt_step_keep sbert _ _ _ _ _ Hdrums S21) by (simpl; lra).
    simpl.
    by rewrite (gt_step_better sbert _ _ _ _ _ Hvocal S22) by (simpl; lra).
  - vm_compute. done.
  - destruct (clip_metrics_spec ["drum"; "voice"] ["drums"; "vocal"])
      as (m & Hm & HP & HR & _).
    exists m. split; [exact Hm|]. split.
    + rewrite HP. unfold TOP_K. simpl. lra.
    + rewrite HR by done. simpl. lra.
Qed.

End Scenarios.

(* ===================================================================== *)
(** * Further properties *)
(* ===================================================================== *)

Import SpecDF.

(** ** Document frequency: counters and weights *)

Module StrProps.

Lemma is_whitespace_lower c : is_whitespace (lower_ascii c) = is_whitespace c.
Proof. destruct c as [[] [] [] [] [] [] [] []]; reflexivity. Qed.

Lemma lstrip_lower s : lstrip (lower s) = lower (lstrip s).
Proof.
  induction s as [|c s IH]; simpl; [done|].
  rewrite is_whitespace_lower. by destruct (is_whitespace c).
Qed.

Lemma rstrip_lower s : rstrip (lower s) = lower (rstrip s).
Proof.
  induction s as [|c s IH]; simpl; [done|].
  rewrite IH, is_whitespace_lower.
  destruct (rstrip s); simpl; [by destruct (is_whitespace c)|done].
Qed.

Lemma strip_lower s : strip (lower s) = lower (strip s).
Proof. unfold strip. by rewrite lstrip_lower, rstrip_lower. Qed.

Lemma lstrip_clean s : clean_start (lstrip s).
Proof.
  induction s as [|c s IH]; simpl; [done|].
  by destruct (is_whitespace c) eqn:E.
Qed.

Lemma lstrip_id s : clean_start s -> lstrip s = s.
Proof. destruct s as [|c s]; simpl; [done|]. by intros ->. Qed.

Lemma rstrip_clean s : clean_start s -> clean_start (rstrip s).
Proof.
  destruct s as [|c s]; simpl; [done|]. intros Hc.
  destruct (rstrip s); simpl; [by rewrite Hc|done].
Qed.

Lemma rstrip_idem s : rstrip (rstrip s) = rstrip s.
Proof.
  induction s as [|c s IH]; simpl; [done|].
  destruct (rstrip s) as [|c' r] eqn:E.
  - destruct (is_whitespace c) eqn:Hc; simpl; [done|]. by rewrite Hc.
  - change (rstrip (String c (String c' r)))
      with (match rstrip (String c' r) with
            | EmptyString =>
                if is_whitespace c then EmptyString else String c EmptyString
            | String a b => String c (String a b)
            end).
    by rewrite IH.
Qed.

Lemma strip_idem s : strip (strip s) = strip s.
Proof.
  unfold strip. rewrite (lstrip_id (rstrip (lstrip s))).
  - apply rstrip_idem.
  - apply rstrip_clean, lstrip_clean.
Qed.

End StrProps.

Module DFExtra.
Import DF DFProps StrProps.

Lemma unique_tags_normalised row t :
  t ∈ unique_tags row -> lower t = t /\ strip t = t.
Proof.
  unfold unique_tags. intros Ht. apply elem_of_list_to_set in Ht.
  apply list_elem_of_fmap in Ht as (s & -> & _). split.
  - apply EvalProps.lower_idem.
  - by rewrite strip_lower, strip_idem.
Qed.

Lemma fold_count_lookup docs counts t :
  fold_left count_document docs counts !! t
  = bump (counts !! t) (documents_with t docs).
Proof.
  revert counts. induction docs as [|row docs IH]; intros counts; [done|].
  simpl. rewrite IH, count_document_lookup. unfold documents_with.
  rewrite filter_cons. destruct (decide (t ∈ unique_tags row)) as [Hin|Hout].
  - simpl. destruct (length (filter _ docs)) as [|n]; simpl; f_equal; lia.
  - done.
Qed.

Lemma tag_document_counts_lookup metadata_df t :
  tag_document_counts metadata_df !! t
  = match documents_with t metadata_df with
    | 0%nat => None
    | S n => Some (S n)
    end.
Proof.
  unfold tag_document_counts. rewrite fold_count_lookup, lookup_empty.
  by destruct (documents_with t metadata_df).
Qed.

Lemma tag_document_counts_keys metadata_df t c :
  tag_document_counts metadata_df !! t = Some c -> lower t = t /\ strip t = t.
Proof.
  rewrite tag_document_counts_lookup. unfold documents_with.
  destruct (filter _ metadata_df) as [|row rows] eqn:Hf; [done|]. intros _.
  assert (row ∈ filter (fun row => t ∈ unique_tags row) metadata_df) as Hrow
    by (rewrite Hf; by left).
  apply list_elem_of_filter in Hrow as [Hrow _].
  by eapply unique_tags_normalised.
Qed.

End DFExtra.

Section DFExtras.
Import DF DFProps DFExtra.

(** X1.  Each document counts once for each of its distinct normalised
    tags: the counter of a tag is the number of documents whose tag field
    holds it (after [strip] and [lower]), and a tag no document holds has
    no entry at all.  The keys of the table are therefore lower-case and
    stripped. *)
Theorem counter_is_document_frequency (metadata_df : list string) (t : string) :
  (tag_document_counts metadata_df !! t
   = if decide (documents_with t metadata_df = 0%nat) then None
     else Some (documents_with t metadata_df))
  /\ (documents_with t metadata_df <= total_documents metadata_df)%nat
  /\ (is_Some (tag_document_counts metadata_df !! t) ->
      lower t = t /\ strip t = t).
Proof.
  split; [|split].
  - rewrite tag_document_counts_lookup.
    destruct (documents_with t metadata_df); by case_decide.
  - unfold documents_with, total_documents. apply length_filter.
  - intros [c Hc]. by eapply tag_document_counts_keys.
Qed.

Lemma weight_of_formula ALPHA counts N t :
  weight_of ALPHA counts N t
  = ((1 - ALPHA)
     + ALPHA * (ln (INR (1 + default 0%nat (counts !! lower t)))
                / ln (INR (1 + N))))%R.
Proof.
  unfold weight_of. destruct (counts !! lower t) as [d|]; [done|]. simpl.
  rewrite ln_1. unfold Rdiv. lra.
Qed.

Lemma tag_df_scores_weights ALPHA counts N clap_tags st t :
  (1 <= N)%nat -> tag_df_scores ALPHA counts N clap_tags = Ok st ->
  t ∈ clap_tags -> scores st !! t = Some (weight_of ALPHA counts N t).
Proof.
  intros HN Hrun Ht.
  destruct (tag_df_scores_run ALPHA counts N clap_tags empty_mapping)
    as (st' & Hrun' & Hin & _).
  { intros ? _. by left. }
  unfold tag_df_scores in Hrun. rewrite Hrun in Hrun'. simplify_eq.
  by apply Hin.
Qed.

(** X2.  With a non-negative [alpha] the weight grows with the document
    frequency: of two vocabulary tags, the one found in more documents
    never gets the smaller weight; and a tag found in every document gets
    the weight 1. *)
Theorem df_weight_monotone (ALPHA : R) (counts : gmap string nat) (N : nat)
    (clap_tags : list string) (st : df_mapping) (t1 t2 : string) :
  (0 <= ALPHA)%R ->
  (1 <= N)%nat ->
  tag_df_scores ALPHA counts N clap_tags = Ok st ->
  t1 ∈ clap_tags -> t2 ∈ clap_tags ->
  (default 0%nat (counts !! lower t1) <= default 0%nat (counts !! lower t2))%nat ->
  (exists w1 w2, scores st !! t1 = Some w1 /\ scores st !! t2 = Some w2
                 /\ (w1 <= w2)%R)
  /\ (counts !! lower t2 = Some N -> scores st !! t2 = Some 1%R).
Proof.
  intros Ha HN Hrun H1 H2 Hle.
  pose proof (ln_total_pos N HN) as Hpos.
  split.
  - exists (weight_of ALPHA counts N t1), (weight_of ALPHA counts N t2).
    split; [by eapply tag_df_scores_weights|].
    split; [by eapply tag_df_scores_weights|].
    rewrite !weight_of_formula.
    pose proof (ln_count_le _ _ Hle) as Hln.
    assert (ln (INR (1 + default 0%nat (counts !! lower t1))) / ln (INR (1 + N))
            <= ln (INR (1 + default 0%nat (counts !! lower t2)))
               / ln (INR (1 + N)))%R as Hdiv.
    { unfold Rdiv. apply Rmult_le_compat_r; [|done].
      left. by apply Rinv_0_lt_compat. }
    nra.
  - intros HtN. rewrite (tag_df_scores_weights _ _ _ _ _ _ HN Hrun H2).
    unfold weight_of. rewrite HtN. f_equal. field. lra.
Qed.

(** [df_weight_monotone] at a concrete input, its premises checked by
    evaluation. *)
Lemma df_weight_monotone_witness :
  let counts : gmap string nat := <["rain" := 3%nat]> (<["wind" := 1%nat]> ∅) in
  exists st,
    tag_df_scores (7 / 10) counts 3 ["wind"; "rain"] = Ok st
    /\ (exists w1 w2, scores st !! "wind" = Some w1
                      /\ scores st !! "rain" = Some w2 /\ (w1 <= w2)%R)
    /\ scores st !! "rain" = Some 1%R.
Proof.
  intros counts.
  destruct (tag_df_scores_run (7 / 10) counts 3 ["wind"; "rain"] empty_mapping)
    as (st & Hrun & _).
  { intros ? _. left. lia. }
  exists st. split; [exact Hrun|].
  assert (0 <= 7 / 10)%R as Ha by lra.
  assert (1 <= 3)%nat as HN by lia.
  assert ("wind" ∈ ["wind"; "rain"]) as H1 by apply list_elem_of_here.
  assert ("rain" ∈ ["wind"; "rain"]) as H2
    by apply list_elem_of_further, list_elem_of_here.
  assert (default 0%nat (counts !! lower "wind")
          <= default 0%nat (counts !! lower "rain"))%nat as Hle
    by (vm_compute; lia).
  destruct (df_weight_monotone (7 / 10) counts 3 ["wind"; "rain"] st
              "wind" "rain" Ha HN Hrun H1 H2 Hle) as [Hmono Hfull].
  split; [exact Hmono|]. apply Hfull. reflexivity.
Defined.

(** X3.  On a table built from any corpus the loop over the vocabulary
    returns, its score table has exactly the vocabulary tags as keys, and
    the two counters it reports add up to the size of the vocabulary,
    [matched_tags] being the number of vocabulary entries whose lower-case
    form occurs in the corpus. *)
Theorem df_scores_cover_vocabulary (ALPHA : R) (metadata_df clap_tags : list string) :
  let counts := tag_document_counts metadata_df in
  exists st,
    tag_df_scores ALPHA counts (total_documents metadata_df) clap_tags = Ok st
    /\ dom (scores st) = list_to_set clap_tags
    /\ matched_tags st = length (filter (in_table counts) clap_tags)
    /\ (matched_tags st + unmatched_tags st = length clap_tags)%nat.
Proof.
  intros counts.
  pose proof (tag_document_counts_bounded metadata_df) as Hb.
  destruct (tag_df_scores_run ALPHA counts (total_documents metadata_df)
              clap_tags empty_mapping) as (st & Hrun & Hin & Hout & Hm & Hcnt).
  { intros t _. unfold no_division_by_zero.
    destruct (counts !! lower t) as [c|] eqn:Hc; [left|by right].
    apply Hb in Hc. lia. }
  exists st. split; [exact Hrun|]. split; [|split; [exact Hm|exact Hcnt]].
  apply set_eq. intros t. rewrite elem_of_dom, elem_of_list_to_set.
  destruct (decide (t ∈ clap_tags)) as [Ht|Ht].
  - rewrite (Hin t Ht). split; [done|by eexists].
  - rewrite (Hout t Ht). simpl. rewrite lookup_empty. split; [by intros [? ?]|done].
Qed.

End DFExtras.

Import SpecScorer.

(** ** What the recommenders return *)

Module ScorerExtra.
Import PyProps ScorerProps Loader Scorer Np NpProps.

(** *** Sorting commutes with a key-preserving relabelling *)

Lemma insert_desc_fmap {A B : Type} (key1 : A -> R) (key2 : B -> R) (f : A -> B)
    x l :
  (forall a, key2 (f a) = key1 a) ->
  insert_desc key2 (f x) (f <$> l) = f <$> insert_desc key1 x l.
Proof.
  intros Hkey. induction l as [|y l IH]; [done|].
  rewrite fmap_cons. simpl. rewrite !Hkey.
  destruct (Rlt_dec (key1 x) (key1 y)); [|done].
  by rewrite IH.
Qed.

Lemma sorted_reverse_fmap {A B : Type} (key1 : A -> R) (key2 : B -> R)
    (f : A -> B) l :
  (forall a, key2 (f a) = key1 a) ->
  sorted_reverse key2 (f <$> l) = f <$> sorted_reverse key1 l.
Proof.
  intros Hkey. induction l as [|x l IH]; [done|].
  rewrite fmap_cons.
  change (sorted_reverse key2 (f x :: (f <$> l)))
    with (insert_desc key2 (f x) (sorted_reverse key2 (f <$> l))).
  rewrite IH. by apply insert_desc_fmap.
Qed.

Lemma slice_to_fmap {A B : Type} (f : A -> B) (l : list A) k :
  slice_to (f <$> l) k = f <$> slice_to l k.
Proof.
  unfold slice_to. rewrite length_fmap.
  destruct (0 <=? k)%Z; by rewrite fmap_take.
Qed.

Lemma dict_set_fmap {V W : Type} (f : V -> W) (d : list (string * V)) k v :
  dict_set (on_values f <$> d) k (f v) = on_values f <$> dict_set d k v.
Proof.
  induction d as [|[k' v'] d IH]; [done|].
  rewrite fmap_cons. simpl. destruct (decide (k' = k)); [done|].
  by rewrite IH.
Qed.

(** A per-item property of the values survives an assignment. *)
Lemma dict_set_Forall {V : Type} (P : string -> V -> Prop) (d : dict V) k v :
  Forall (fun x => P x.1 x.2) d -> P k v ->
  Forall (fun x => P x.1 x.2) (dict_set d k v).
Proof.
  intros Hd Hv. induction d as [|[k' v'] d IH]; simpl.
  - by constructor.
  - apply Forall_cons in Hd as [Hx Hd]. destruct (decide (k' = k)) as [->|Hne].
    + by constructor.
    + constructor; [done|by apply IH].
Qed.

(** What the ranking step keeps is part of what it was given. *)
Lemma ranked_sublist_perm {A : Type} (key : string * A -> R)
    (l : list (string * A)) k :
  exists l', ranked key l k `sublist_of` l' /\ l' ≡ₚ l.
Proof.
  exists (sorted_reverse key l). split; [|apply sorted_reverse_perm].
  unfold ranked. destruct (slice_to_prefix (sorted_reverse key l) k) as [n ->].
  apply sublist_take.
Qed.

Lemma ranked_elem {A : Type} (key : string * A -> R) (l : list (string * A)) k x :
  x ∈ ranked key l k -> x ∈ l.
Proof.
  intros Hx. destruct (ranked_sublist_perm key l k) as (l' & Hsub & Hperm).
  rewrite <- Hperm. by eapply elem_of_sublist.
Qed.

Lemma ranked_all {A : Type} (key : string * A -> R) (l : list (string * A)) k :
  (Z.of_nat (length l) <= k)%Z -> ranked key l k ≡ₚ l.
Proof.
  intros Hk. unfold ranked, slice_to.
  destruct (0 <=? k)%Z eqn:E; [|lia].
  rewrite take_ge; [apply sorted_reverse_perm|].
  rewrite sorted_reverse_length. lia.
Qed.

End ScorerExtra.

Section ScorerExtras.
Import PyProps ScorerProps Loader Scorer Np NpProps ScorerExtra DF DFProps.

(** The value [max_variant_similarity] returns is the largest entry of
    the one row of similarities that [cosine_similarity] returns, which
    has one entry per variant. *)
Lemma max_variant_similarity_inv audio_embedding (embeds : text_embeds) b :
  max_variant_similarity audio_embedding embeds = Ok b ->
  exists similarities,
    Np.cosine_similarity [audio_embedding] embeds = Ok [similarities]
    /\ length similarities = length embeds
    /\ b ∈ similarities
    /\ Forall (fun x => (x <= b)%R) similarities.
Proof.
  intros Hrun. unfold max_variant_similarity, Np.cosine_similarity in *.
  destruct (Np.shape2 [audio_embedding]) as [sx|]; cbn in *; [|done].
  destruct (Np.shape2 embeds) as [sy|]; cbn in *; [|done].
  destruct (sx.2 =? sy.2)%nat; cbn in *; [|done].
  set (cosine row := dot (normalize audio_embedding) (normalize row)) in *.
  exists (cosine <$> embeds). split; [done|]. split; [by rewrite length_fmap|].
  unfold Np.max, max_of in Hrun.
  destruct embeds as [|r rs]; cbn in Hrun; [done|]. simplify_eq.
  assert (forall l x0,
            (fold_left Rmax l x0 = x0 \/ fold_left Rmax l x0 ∈ l)
            /\ (x0 <= fold_left Rmax l x0)%R
            /\ forall y, y ∈ l -> (y <= fold_left Rmax l x0)%R) as Hmax.
  { induction l as [|z l IH]; intros x0; simpl.
    - split; [by left|]. split; [lra|]. intros y Hy. by apply elem_of_nil in Hy.
    - destruct (IH (Rmax x0 z)) as (Hor & Hge & Hall).
      pose proof (Rmax_l x0 z). pose proof (Rmax_r x0 z).
      split; [|split; [lra|]].
      + destruct Hor as [Heq|Hin]; [|right; by right].
        rewrite Heq. unfold Rmax. destruct (Rle_dec x0 z); [right; by left|by left].
      + intros y [->|Hy]%elem_of_cons; [lra|by apply Hall]. }
  destruct (Hmax (map cosine rs) (cosine r)) as (Hor & Hge & Hall).
  rewrite fmap_cons. change (cosine <$> rs) with (map cosine rs). split.
  - destruct Hor as [->|Hin]; [by left|by right].
  - constructor; [done|]. by apply Forall_forall.
Qed.

(** X4.  Every score the baseline recommender returns is the largest entry
    of the row of similarities that [cosine_similarity] returns for the
    audio embedding and the variants of the tag listed at the same
    position; the row has one entry per variant.  (No bound on the score
    is stated: computed in floating point, the similarity of two parallel
    vectors can exceed 1 in the last digit.) *)
Theorem baseline_scores_are_max_cosines (audio_embedding : list R)
    (tag_embeddings : dict text_embeds) (K : Z) (tags : list string)
    (scores : list R) (i : nat) (tag : string) :
  get_tag_recommendations audio_embedding tag_embeddings K = Ok (tags, scores) ->
  tags !! i = Some tag ->
  exists s embeds similarities,
    scores !! i = Some s
    /\ (tag, embeds) ∈ tag_embeddings
    /\ Np.cosine_similarity [audio_embedding] embeds = Ok [similarities]
    /\ length similarities = length embeds
    /\ s ∈ similarities
    /\ Forall (fun x => (x <= s)%R) similarities.
Proof.
  intros Hrun Hi. unfold get_tag_recommendations in Hrun.
  case_loop Hrun sims Hloop; cbn in Hrun; [|done]. simplify_eq.
  apply list_lookup_fmap_Some_1 in Hi as ([t s] & -> & Hi). simpl.
  assert (Forall (fun x : string * R =>
                    exists embeds, (x.1, embeds) ∈ tag_embeddings
                      /\ max_variant_similarity audio_embedding embeds = Ok x.2)
                 sims) as Hall.
  { revert Hloop. apply for_each_invariant; [|by constructor].
    intros d [tag embeds] d' Hin Hd Hstep. simpl in Hstep.
    destruct (max_variant_similarity audio_embedding embeds) as [v|e] eqn:Hv;
      cbn in Hstep; [|done]. simplify_eq.
    apply (dict_set_Forall
             (fun k v => exists embeds, (k, embeds) ∈ tag_embeddings
                /\ max_variant_similarity audio_embedding embeds = Ok v));
      [done|]. by exists embeds. }
  rewrite Forall_forall in Hall.
  destruct (Hall (t, s)) as (embeds & Hin & Hmax).
  { eapply ranked_elem, list_elem_of_lookup. by exists i. }
  simpl in *.
  destruct (max_variant_similarity_inv _ _ _ Hmax)
    as (similarities & Hcos & Hlen & Hs & Hle).
  exists s, embeds, similarities.
  split; [by rewrite list_lookup_fmap, Hi|]. done.
Qed.

(** [baseline_scores_are_max_cosines] at a concrete input, its premises
    checked by evaluation. *)
Lemma baseline_scores_are_max_cosines_witness :
  exists tags scores s,
    get_tag_recommendations [1%R] [("rain", [[1%R]; [1%R]])] 5
    = Ok (tags, scores)
    /\ tags !! 0%nat = Some "rain"
    /\ scores !! 0%nat = Some s
    /\ exists similarities, length similarities = 2%nat /\ s ∈ similarities.
Proof.
  assert (compatible [1%R] [[1%R]; [1%R]]) as Hc.
  { split; [discriminate|split; [discriminate|by repeat constructor]]. }
  destruct (recommenders_return [1%R] [("rain", [[1%R]; [1%R]])] ∅ 5)
    as [[[tags scores] Hrun] _].
  { intros tag embeds [[= -> ->]|Hin]%elem_of_cons;
      [done|by apply elem_of_nil in Hin]. }
  assert (tags !! 0%nat = Some "rain") as H0.
  { destruct (max_variant_similarity_ok [1%R] [[1%R]; [1%R]] Hc) as [v Hv].
    unfold get_tag_recommendations in Hrun. cbn [for_each] in Hrun.
    rewrite Hv in Hrun. vm_compute in Hrun. by injection Hrun as <- <-. }
  destruct (baseline_scores_are_max_cosines [1%R] [("rain", [[1%R]; [1%R]])] 5
              tags scores 0 "rain" Hrun H0)
    as (s & embeds & similarities & Hs & Hin & _ & Hlen & Hmem & _).
  apply list_elem_of_singleton in Hin. simplify_eq.
  exists tags, scores, s. split; [done|]. split; [done|]. split; [done|].
  by exists similarities.
Defined.

(** X5.  A recommender only returns tags of the mapping, and with a cutoff
    at least as large as the vocabulary it returns every tag exactly once.
    This holds for both recommenders. *)
Theorem recommendations_come_from_vocabulary (audio_embedding : list R)
    (tag_embeddings : dict text_embeds) (tag_df_scores : gmap string R) (K : Z) :
  dict_wf tag_embeddings ->
  (forall tags scores,
     get_tag_recommendations audio_embedding tag_embeddings K
       = Ok (tags, scores) ->
     (forall t, t ∈ tags -> t ∈ dict_keys tag_embeddings)
     /\ ((Z.of_nat (length (dict_keys tag_embeddings)) <= K)%Z ->
         tags ≡ₚ dict_keys tag_embeddings))
  /\ (forall rec,
        get_tag_recommendations_df_weighted audio_embedding tag_embeddings
          tag_df_scores K = Ok rec ->
        (forall t, t ∈ top_tags rec -> t ∈ dict_keys tag_embeddings)
        /\ ((Z.of_nat (length (dict_keys tag_embeddings)) <= K)%Z ->
            top_tags rec ≡ₚ dict_keys tag_embeddings)).
Proof.
  intros Hwf.
  assert (forall (A : Type) (key : string * A -> R) (sims : list (string * A)),
            dict_keys sims = dict_keys tag_embeddings ->
            (forall t, t ∈ (ranked key sims K).*1 -> t ∈ dict_keys tag_embeddings)
            /\ ((Z.of_nat (length (dict_keys tag_embeddings)) <= K)%Z ->
                (ranked key sims K).*1 ≡ₚ dict_keys tag_embeddings)) as Hgen.
  { intros A key sims Hk. rewrite <- Hk. unfold dict_keys. split.
    - intros t Ht. apply list_elem_of_fmap in Ht as (x & -> & Hx).
      apply list_elem_of_fmap. exists x. split; [done|]. by eapply ranked_elem.
    - rewrite length_fmap. intros HK. by rewrite ranked_all. }
  split.
  - intros tags scores Hrun.
    destruct (baseline_inv _ _ _ _ _ Hwf Hrun) as (sims & Hk & -> & _).
    by apply Hgen.
  - intros rec Hrun.
    destruct (df_weighted_inv _ _ _ _ _ Hwf Hrun) as (sims & Hk & -> & _).
    by apply Hgen.
Qed.

(** [recommendations_come_from_vocabulary] at a concrete input, its
    premises checked by evaluation. *)
Lemma recommendations_come_from_vocabulary_witness :
  let vocabulary : dict text_embeds :=
    [("rain", [[1; 0]]%R); ("wind", [[0; 1]]%R)] in
  dict_wf vocabulary
  /\ forall tags scores,
       get_tag_recommendations [1; 1]%R vocabulary 10 = Ok (tags, scores) ->
       tags ≡ₚ ["rain"; "wind"].
Proof.
  intros vocabulary.
  assert (dict_wf vocabulary) as Hwf.
  { unfold dict_wf, dict_keys, vocabulary. simpl.
    apply (bool_decide_unpack _). vm_compute. exact I. }
  split; [exact Hwf|]. intros tags scores Hrun.
  destruct (recommendations_come_from_vocabulary [1; 1]%R vocabulary ∅ 10 Hwf)
    as [Hbase _].
  destruct (Hbase tags scores Hrun) as [_ Hall]. apply Hall. simpl. lia.
Defined.

(** The items stored by the loop of the DF-weighted recommender. *)
Lemma df_weighted_items audio_embedding (tag_embeddings : dict text_embeds)
    (tag_df_scores : gmap string R) (sims : list (string * tag_score)) :
  for_each (fun (d : dict tag_score) '(tag, embeds) =>
              base ← max_variant_similarity audio_embedding embeds;
              let w := default 1%R (tag_df_scores !! tag) in
              let weighted := (base * w)%R in
              Ok (dict_set d tag
                    {| base_similarity := base; df_weight := w;
                       weighted_similarity := weighted |}))
           [] tag_embeddings = Ok sims ->
  Forall (fun x : string * tag_score =>
            df_weight x.2 = default 1%R (tag_df_scores !! x.1)
            /\ weighted_similarity x.2
               = (base_similarity x.2 * df_weight x.2)%R
            /\ exists embeds, (x.1, embeds) ∈ tag_embeddings
                 /\ max_variant_similarity audio_embedding embeds
                    = Ok (base_similarity x.2))
         sims.
Proof.
  apply for_each_invariant; [|by constructor].
  intros d [tag embeds] d' Hin Hd Hstep. simpl in Hstep.
  destruct (max_variant_similarity audio_embedding embeds) as [v|e] eqn:Hv;
    cbn in Hstep; [|done]. simplify_eq.
  apply (dict_set_Forall
           (fun k (v : tag_score) =>
              df_weight v = default 1%R (tag_df_scores !! k)
              /\ weighted_similarity v = (base_similarity v * df_weight v)%R
              /\ exists embeds, (k, embeds) ∈ tag_embeddings
                   /\ max_variant_similarity audio_embedding embeds
                      = Ok (base_similarity v))); [done|].
  simpl. split; [done|]. split; [done|]. by exists embeds.
Qed.

(** X6.  The four lists the DF-weighted recommender returns are parallel:
    at every position the weight is the table entry of the tag, or 1.0
    for a tag the table does not have, the base score is the largest
    cosine similarity over the variants of the tag, and the final score
    is their product. *)
Theorem df_weighted_lists_are_parallel (audio_embedding : list R)
    (tag_embeddings : dict text_embeds) (tag_df_scores : gmap string R)
    (K : Z) (rec : df_recommendations) (i : nat) (tag : string) :
  get_tag_recommendations_df_weighted audio_embedding tag_embeddings
    tag_df_scores K = Ok rec ->
  top_tags rec !! i = Some tag ->
  length (top_scores rec) = length (top_tags rec)
  /\ length (top_base_scores rec) = length (top_tags rec)
  /\ length (top_df_weights rec) = length (top_tags rec)
  /\ exists base embeds,
       top_base_scores rec !! i = Some base
       /\ top_df_weights rec !! i = Some (default 1%R (tag_df_scores !! tag))
       /\ top_scores rec !! i
          = Some (base * default 1%R (tag_df_scores !! tag))%R
       /\ (tag, embeds) ∈ tag_embeddings
       /\ max_variant_similarity audio_embedding embeds = Ok base.
Proof.
  intros Hrun Hi. unfold get_tag_recommendations_df_weighted in Hrun.
  case_loop Hrun sims Hloop; cbn in Hrun; [|done]. simplify_eq. simpl in *.
  rewrite !length_fmap. split; [done|]. split; [done|]. split; [done|].
  apply list_lookup_fmap_Some_1 in Hi as ([t r] & -> & Hi). simpl.
  pose proof (df_weighted_items _ _ _ _ Hloop) as Hall.
  rewrite Forall_forall in Hall.
  destruct (Hall (t, r)) as (Hw & Hprod & embeds & Hin & Hmax).
  { eapply ranked_elem, list_elem_of_lookup. by exists i. }
  simpl in *. exists (base_similarity r), embeds.
  rewrite !list_lookup_fmap, Hi. simpl.
  split; [done|]. split; [by rewrite Hw|]. split; [|done].
  by rewrite Hprod, Hw.
Qed.

(** [df_weighted_lists_are_parallel] at a concrete input, its premises
    checked by evaluation. *)
Lemma df_weighted_lists_are_parallel_witness :
  exists rec base,
    get_tag_recommendations_df_weighted [1%R] [("rain", [[1%R]])]
      (<["rain" := (1 / 2)%R]> ∅) 5 = Ok rec
    /\ top_tags rec !! 0%nat = Some "rain"
    /\ top_base_scores rec !! 0%nat = Some base
    /\ top_df_weights rec !! 0%nat = Some (1 / 2)%R
    /\ top_scores rec !! 0%nat = Some (base * (1 / 2))%R.
Proof.
  set (w := <["rain" := (1 / 2)%R]> ∅ : gmap string R).
  destruct (recommenders_return [1%R] [("rain", [[1%R]])] w 5)
    as [_ [rec Hrun]].
  { intros tag embeds [[= -> ->]|Hin]%elem_of_cons;
      [|by apply elem_of_nil in Hin].
    split; [discriminate|split; [discriminate|by repeat constructor]]. }
  assert (top_tags rec !! 0%nat = Some "rain") as H0.
  { destruct (max_variant_similarity_ok [1%R] [[1%R]]) as [v Hv].
    { split; [discriminate|split; [discriminate|by repeat constructor]]. }
    unfold get_tag_recommendations_df_weighted in Hrun.
    cbn [for_each] in Hrun. rewrite Hv in Hrun. cbn in Hrun.
    by injection Hrun as <-. }
  destruct (df_weighted_lists_are_parallel [1%R] [("rain", [[1%R]])] w 5 rec
              0 "rain" Hrun H0)
    as (_ & _ & _ & base & embeds & Hb & Hw & Hs & _).
  exists rec, base. split; [exact Hrun|]. split; [exact H0|].
  split; [exact Hb|]. split; [exact Hw|exact Hs].
Defined.

Lemma unit_weights_loop audio_embedding (tag_df_scores : gmap string R)
    (tag_embeddings : dict text_embeds) (acc : list (string * R)) :
  (forall t x, tag_df_scores !! t = Some x -> x = 1%R) ->
  for_each (fun (d : dict tag_score) '(tag, embeds) =>
              base ← max_variant_similarity audio_embedding embeds;
              let w := default 1%R (tag_df_scores !! tag) in
              let weighted := (base * w)%R in
              Ok (dict_set d tag
                    {| base_similarity := base; df_weight := w;
                       weighted_similarity := weighted |}))
           (on_values unit_weighted <$> acc) tag_embeddings
  = match for_each (fun (d : dict R) '(tag, embeds) =>
                      s ← max_variant_similarity audio_embedding embeds;
                      Ok (dict_set d tag s))
                   acc tag_embeddings with
    | Ok sims => Ok (on_values unit_weighted <$> sims)
    | Raise e => Raise e
    end.
Proof.
  intros Hw. revert acc.
  induction tag_embeddings as [|[tag embeds] te IH]; intros acc; [done|].
  cbn [for_each].
  destruct (max_variant_similarity audio_embedding embeds) as [v|e]; cbn;
    [|done].
  assert (default 1%R (tag_df_scores !! tag) = 1%R) as ->.
  { destruct (tag_df_scores !! tag) as [x|] eqn:Hx; [|done]. by apply Hw in Hx. }
  change {| base_similarity := v; df_weight := 1;
            weighted_similarity := v * 1 |} with (unit_weighted v).
  rewrite dict_set_fmap. apply IH.
Qed.

Lemma unit_weights_reproduce_baseline audio_embedding
    (tag_embeddings : dict text_embeds) (tag_df_scores : gmap string R) K
    tags scores :
  (forall t x, tag_df_scores !! t = Some x -> x = 1%R) ->
  get_tag_recommendations audio_embedding tag_embeddings K = Ok (tags, scores) ->
  get_tag_recommendations_df_weighted audio_embedding tag_embeddings
    tag_df_scores K
  = Ok {| top_tags := tags; top_scores := scores; top_base_scores := scores;
          top_df_weights := replicate (length tags) 1%R |}.
Proof.
  intros Hw Hrun.
  unfold get_tag_recommendations in Hrun.
  pose proof (unit_weights_loop audio_embedding tag_df_scores tag_embeddings
                [] Hw) as Hloop.
  case_loop Hrun sims Hbase; cbn in Hrun; [|done]. simplify_eq.
  unfold get_tag_recommendations_df_weighted.
  match goal with
  | |- context [for_each ?body ?init tag_embeddings] =>
      replace (for_each body init tag_embeddings)
        with (Ok (on_values unit_weighted <$> sims) : result (dict tag_score))
        by (symmetry; exact Hloop)
  end.
  cbn.
  rewrite (sorted_reverse_fmap snd (fun x => weighted_similarity x.2)
             (on_values unit_weighted)) by (intros [t v]; simpl; lra).
  rewrite slice_to_fmap.
  set (top := slice_to (sorted_reverse snd sims) K).
  assert ((on_values unit_weighted <$> top).*1 = top.*1) as ->.
  { rewrite <- list_fmap_compose. by apply list_fmap_ext. }
  assert (((fun x : string * tag_score => weighted_similarity x.2)
             <$> (on_values unit_weighted <$> top)) = top.*2) as ->.
  { rewrite <- list_fmap_compose. apply list_fmap_ext.
    intros i [t v] _. simpl. lra. }
  assert (((fun x : string * tag_score => base_similarity x.2)
             <$> (on_values unit_weighted <$> top)) = top.*2) as ->.
  { rewrite <- list_fmap_compose. by apply list_fmap_ext. }
  assert (((fun x : string * tag_score => df_weight x.2)
             <$> (on_values unit_weighted <$> top))
          = replicate (length top.*1) 1%R) as ->.
  { clear. induction top as [|x top IH]; [done|].
    rewrite !fmap_cons. simpl. by rewrite IH. }
  done.
Qed.

(** With [ALPHA = 0] every weight the DF loop stores is 1. *)
Lemma zero_alpha_weights counts N clap_tags st :
  tag_df_scores 0 counts N clap_tags = Ok st ->
  forall t x, scores st !! t = Some x -> x = 1%R.
Proof.
  unfold tag_df_scores.
  apply (for_each_invariant
           (fun s => forall t x, scores s !! t = Some x -> x = 1%R)).
  - intros s tag s' _ Hs Hstep t x. unfold df_step in Hstep.
    destruct (counts !! lower tag) as [d|].
    + destruct (truediv _ _) as [nd|e]; cbn in Hstep; [|done]. simplify_eq.
      simpl. destruct (decide (tag = t)) as [->|Hne].
      * rewrite lookup_insert_eq. intros [= <-]. lra.
      * rewrite lookup_insert_ne by done. apply Hs.
    + cbn in Hstep. simplify_eq. simpl.
      destruct (decide (tag = t)) as [->|Hne].
      * rewrite lookup_insert_eq. intros [= <-]. lra.
      * rewrite lookup_insert_ne by done. apply Hs.
  - intros t x. simpl. by rewrite lookup_empty.
Qed.

(** X7.  [ALPHA = 0] switches the DF weighting off end to end: with the
    score table computed for [ALPHA = 0], the DF-weighted recommender
    returns the tags and scores of the baseline recommender, its base
    scores equal to its final scores and all its weights equal to 1. *)
Theorem zero_alpha_reproduces_baseline (audio_embedding : list R)
    (tag_embeddings : dict text_embeds) (counts : gmap string nat) (N : nat)
    (clap_tags : list string) (st : df_mapping) (K : Z)
    (tags : list string) (scores_out : list R) :
  tag_df_scores 0 counts N clap_tags = Ok st ->
  get_tag_recommendations audio_embedding tag_embeddings K
    = Ok (tags, scores_out) ->
  get_tag_recommendations_df_weighted audio_embedding tag_embeddings
    (scores st) K
  = Ok {| top_tags := tags; top_scores := scores_out;
          top_base_scores := scores_out;
          top_df_weights := replicate (length tags) 1%R |}.
Proof.
  intros Hst Hrun. apply unit_weights_reproduce_baseline; [|done].
  by eapply zero_alpha_weights.
Qed.

(** [zero_alpha_reproduces_baseline] at a concrete input, its premises
    checked by evaluation. *)
Lemma zero_alpha_reproduces_baseline_witness :
  exists st tags scores_out,
    tag_df_scores 0 ∅ 4 ["rain"] = Ok st
    /\ get_tag_recommendations [1%R] [("rain", [[1%R]])] 5
       = Ok (tags, scores_out)
    /\ get_tag_recommendations_df_weighted [1%R] [("rain", [[1%R]])]
         (scores st) 5
       = Ok {| top_tags := tags; top_scores := scores_out;
               top_base_scores := scores_out;
               top_df_weights := replicate (length tags) 1%R |}.
Proof.
  destruct (tag_df_scores_empty_table 0 4 ["rain"]) as (st & Hst & _).
  destruct (recommenders_return [1%R] [("rain", [[1%R]])] ∅ 5)
    as [[[tags scores_out] Hrun] _].
  { intros tag embeds [[= -> ->]|Hin]%elem_of_cons;
      [|by apply elem_of_nil in Hin].
    split; [discriminate|split; [discriminate|by repeat constructor]]. }
  exists st, tags, scores_out. split; [exact Hst|]. split; [exact Hrun|].
  exact (zero_alpha_reproduces_baseline [1%R] [("rain", [[1%R]])] ∅ 4 ["rain"]
           st 5 tags scores_out Hst Hrun).
Defined.

End ScorerExtras.

Import SpecHit.

(** ** What the semantic hit detection returns *)

Module HitExtra.
Import PyProps ScorerProps Loader Scorer Np NpProps Eval EvalProps ScorerExtra.

Lemma gt_loop_best sbert pe gts st :
  for_each (gt_step sbert pe) (0%R, None) gts = Ok st ->
  best_so_far sbert pe gts st.
Proof.
  apply (for_each_invariant (best_so_far sbert pe gts)).
  - intros [m b] g [m' b'] Hg (Hm & Hb) Hstep. unfold gt_step in Hstep.
    destruct (sbert !! g) as [ge|] eqn:Hge; [|by simplify_eq].
    destruct (pair_similarity pe ge) as [s|e] eqn:Hs; cbn in Hstep; [|done].
    destruct (Rgt_dec s m) as [Hgt|Hle]; simplify_eq; [|done].
    unfold best_so_far. simpl in *.
    split; [lra|]. split; [done|]. split; [lra|]. by exists ge.
  - split; simpl; [lra|done].
Qed.

Lemma pred_step_shape sbert gts thr acc p acc' :
  pred_step sbert gts thr acc p = Ok acc' ->
  acc' = acc
  \/ exists m, acc' = (acc.1 ++ [p], acc.2 ++ [m])
               /\ predicted m = p /\ sound_match sbert gts thr m.
Proof.
  unfold pred_step. destruct (sbert !! p) as [pe|] eqn:Hp; [|intros [= <-]; by left].
  destruct (for_each _ _ gts) as [[m b]|e] eqn:Hloop; cbn; [|done].
  destruct (Rge_dec m thr) as [Hge|Hlt]; intros [= <-]; [|by left].
  right. eexists. split; [done|]. split; [done|].
  pose proof (gt_loop_best _ _ _ _ Hloop) as [Hm Hb].
  pose proof (gt_loop_bound _ _ _ _ _ Hloop) as [_ Hcov].
  unfold sound_match. simpl in *. split; [lra|]. split; [done|].
  exists pe. split; [done|].
  split; [done|]. intros g ge Hg Hge'. by eapply Hcov.
Qed.

Lemma pred_loop_shape sbert gts thr preds acc acc' :
  for_each (pred_step sbert gts thr) acc preds = Ok acc' ->
  exists new,
    acc' = (acc.1 ++ (predicted <$> new), acc.2 ++ new)
    /\ (predicted <$> new) `sublist_of` preds
    /\ Forall (sound_match sbert gts thr) new.
Proof.
  revert acc. induction preds as [|p preds IH]; intros [h ms] Hrun;
    simpl in Hrun.
  - simplify_eq. exists []. simpl. by rewrite !app_nil_r.
  - destruct (pred_step sbert gts thr (h, ms) p) as [a1|e] eqn:Hstep;
      simpl in Hrun; [|done].
    apply IH in Hrun as (new & -> & Hsub & Hall).
    apply pred_step_shape in Hstep as [->|(m & -> & Hp & Hm)].
    + exists new. split; [done|]. split; [by apply sublist_cons|done].
    + exists (m :: new). simpl. rewrite <- !app_assoc. simpl.
      split; [by rewrite Hp|]. split; [|by constructor].
      rewrite Hp. by apply sublist_skip.
Qed.

(** The inner loop on an empty ground truth. *)
Lemma hit_rule sbert gts thr acc p pe m b :
  sbert !! p = Some pe ->
  for_each (gt_step sbert pe) (0%R, None) gts = Ok (m, b) ->
  pred_step sbert gts thr acc p
  = if Rge_dec m thr
    then Ok (acc.1 ++ [p],
             acc.2 ++ [{| predicted := p; matched_gt := b; similarity := m |}])
    else Ok acc.
Proof. intros Hp Hloop. unfold pred_step. by rewrite Hp, Hloop. Qed.

End HitExtra.

Section HitExtras.
Import PyProps ScorerProps Loader Scorer Np NpProps Eval EvalProps HitProps
  MetricsProps ScorerExtra HitExtra.

(** A run on one predicted and one ground-truth tag, with unit
    embeddings. *)
Lemma drum_percussion_run :
  compute_semantic_hits ["Drum"] ["Percussion"]
    (<["drum" := [1%R]]> (<["percussion" := [1%R]]> ∅)) (7 / 10)
  = Ok (["drum"],
        [{| predicted := "drum"; matched_gt := Some "percussion";
            similarity := 1 |}]).
Proof.
  set (sbert := <["drum" := [1%R]]> (<["percussion" := [1%R]]> ∅)
                : gmap string (list R)).
  assert (sbert !! "drum" = Some [1%R]) as Hdrum by reflexivity.
  assert (sbert !! "percussion" = Some [1%R]) as Hperc by reflexivity.
  unfold compute_semantic_hits.
  change (lower <$> ["Drum"]) with ["drum"].
  change (lower <$> ["Percussion"]) with ["percussion"]. simpl.
  rewrite (pred_step_hit sbert ["percussion"] (7 / 10) ([], []) "drum"
             [1%R] 1%R (Some "percussion") Hdrum); [done| |lra].
  simpl.
  by rewrite (gt_step_better sbert [1%R] (0%R, None) "percussion" [1%R]
                1%R Hperc pair_similarity_unit) by (simpl; lra).
Qed.

(** X8.  What [compute_semantic_hits] returns: the hit list is the list of
    the matches' predicted tags, in the order of the predictions; every
    match has a similarity that is not negative, reaches the threshold and
    is no smaller than the similarity computed between the predicted tag
    and any embedded ground-truth tag; the recorded ground-truth tag
    attains it, and is [None] only when the similarity is 0.  (No upper
    bound 1 is stated: a similarity computed in floating point can exceed
    1 in the last digit.) *)
Theorem semantic_matches_are_sound (predicted_tags ground_truth_tags : list string)
    (tag_to_sbert : gmap string (list R)) (similarity_threshold : R)
    (hits : list string) (semantic_matches : list semantic_match) :
  compute_semantic_hits predicted_tags ground_truth_tags tag_to_sbert
    similarity_threshold = Ok (hits, semantic_matches) ->
  hits = predicted <$> semantic_matches
  /\ hits `sublist_of` (lower <$> predicted_tags)
  /\ Forall (sound_match tag_to_sbert (lower <$> ground_truth_tags)
               similarity_threshold) semantic_matches.
Proof.
  unfold compute_semantic_hits. intros Hrun.
  apply pred_loop_shape in Hrun as (new & [= -> ->] & Hsub & Hall). done.
Qed.

(** [semantic_matches_are_sound] at a concrete input, its premise checked
    by evaluation. *)
Lemma semantic_matches_are_sound_witness :
  let sbert : gmap string (list R) :=
    <["drum" := [1%R]]> (<["percussion" := [1%R]]> ∅) in
  let matches := [{| predicted := "drum"; matched_gt := Some "percussion";
                     similarity := 1 |}] in
  ["drum"] `sublist_of` (lower <$> ["Drum"])
  /\ Forall (sound_match sbert (lower <$> ["Percussion"]) (7 / 10)) matches.
Proof.
  intros sbert matches.
  exact (proj2 (semantic_matches_are_sound ["Drum"] ["Percussion"] sbert
                  (7 / 10) ["drum"] matches drum_percussion_run)).
Defined.

Lemma pred_loop_low sbert gts thr preds acc acc' :
  (thr <= 0)%R ->
  for_each (pred_step sbert gts thr) acc preds = Ok acc' ->
  acc'.1 = acc.1 ++ filter (fun p => is_Some (sbert !! p)) preds.
Proof.
  intros Hthr. revert acc. induction preds as [|p preds IH]; intros acc Hrun;
    simpl in Hrun.
  - simplify_eq. by rewrite app_nil_r.
  - destruct (pred_step sbert gts thr acc p) as [a1|e] eqn:Hstep;
      simpl in Hrun; [|done].
    apply IH in Hrun as ->. rewrite filter_cons.
    unfold pred_step in Hstep.
    destruct (sbert !! p) as [pe|] eqn:Hp.
    + destruct (for_each _ _ gts) as [[m b]|e] eqn:Hloop; cbn in Hstep; [|done].
      pose proof (gt_loop_best _ _ _ _ Hloop) as [Hm _]. simpl in Hm.
      destruct (Rge_dec m thr) as [Hge|Hlt]; [|lra]. simplify_eq.
      rewrite decide_True by (by eexists).
      cbn [fst]. by rewrite <- app_assoc.
    + simplify_eq. rewrite decide_False; [done|]. by intros [? ?].
Qed.

Lemma pred_step_empty_gt sbert thr acc p :
  pred_step sbert [] thr acc p
  = Ok (if decide (is_Some (sbert !! p))
        then if Rge_dec 0 thr
             then (acc.1 ++ [p],
                   acc.2 ++ [{| predicted := p; matched_gt := None;
                                similarity := 0 |}])
             else acc
        else acc).
Proof.
  unfold pred_step. destruct (decide (is_Some (sbert !! p))) as [[pe Hp]|Hn].
  - rewrite Hp. simpl. by destruct (Rge_dec 0 thr).
  - destruct (sbert !! p) eqn:E; [exfalso; apply Hn; by eexists|done].
Qed.

Lemma pred_loop_empty_gt sbert thr preds acc :
  for_each (pred_step sbert [] thr) acc preds
  = Ok (if Rge_dec 0 thr
        then (acc.1 ++ filter (fun p => is_Some (sbert !! p)) preds,
              acc.2 ++ ((fun p => {| predicted := p; matched_gt := None;
                                     similarity := 0 |})
                        <$> filter (fun p => is_Some (sbert !! p)) preds))
        else acc).
Proof.
  revert acc. induction preds as [|p preds IH]; intros [h ms].
  - simpl. rewrite !app_nil_r. by destruct (Rge_dec 0 thr).
  - cbn [for_each]. rewrite pred_step_empty_gt, filter_cons. cbn [Py.bind].
    rewrite IH.
    destruct (decide (is_Some (sbert !! p))) as [Hp|Hp]; [|done].
    destruct (Rge_dec 0 thr) as [Hge|Hlt]; [|done]. simpl.
    by rewrite <- !app_assoc.
Qed.

(** X9.  The lower end of the threshold scale, and the empty ground
    truth.  With a threshold of at most 0 every predicted tag that has an
    embedding is a hit, whatever the ground truth and whatever the
    similarities (the running maximum starts at 0.0); and on an empty
    ground truth no similarity is computed, the function returns, and for
    a positive threshold it returns no hit. *)
Theorem semantic_threshold_extremes (predicted_tags ground_truth_tags : list string)
    (tag_to_sbert : gmap string (list R)) (similarity_threshold : R) :
  let embedded :=
    filter (fun p => is_Some (tag_to_sbert !! p)) (lower <$> predicted_tags) in
  (forall hits semantic_matches,
     compute_semantic_hits predicted_tags ground_truth_tags tag_to_sbert
       similarity_threshold = Ok (hits, semantic_matches) ->
     (similarity_threshold <= 0)%R -> hits = embedded)
  /\ compute_semantic_hits predicted_tags [] tag_to_sbert similarity_threshold
     = Ok (if Rge_dec 0 similarity_threshold
           then (embedded,
                 (fun p => {| predicted := p; matched_gt := None;
                              similarity := 0 |}) <$> embedded)
           else ([], [])).
Proof.
  intros embedded. split.
  - intros hits semantic_matches Hrun Hthr.
    unfold compute_semantic_hits in Hrun.
    by apply (pred_loop_low _ _ _ _ _ _ Hthr) in Hrun.
  - unfold compute_semantic_hits. by rewrite pred_loop_empty_gt.
Qed.

End HitExtras.

(** ** Failure modes and bounds of the metrics *)

Module MetricsExtra.
Import PyProps ScorerProps Loader Scorer Np NpProps Eval EvalProps HitProps
  MetricsProps ScorerExtra HitExtra.

(** Bounds that follow from the metric formulas when at most ten hits are
    counted. *)
Lemma metrics_agree_bounds hits gt m :
  metrics_agree hits gt m -> (length hits <= 10)%nat ->
  (0 <= precision_at_10 m <= 1)%R
  /\ (0 <= recall m)%R
  /\ (0 <= f1_score m <= 2 * precision_at_10 m)%R
  /\ ((length hits <= length gt)%nat ->
      (recall m <= 1)%R /\ (f1_score m <= 1)%R).
Proof.
  intros (HP & HR & HR0 & HF & HF0) Hlen. cbn zeta in *.
  set (P := precision_at_10 m) in *. set (Rc := recall m) in *.
  assert (0 <= INR (length hits) <= 10)%R as Hh.
  { split; [apply pos_INR|]. apply le_INR in Hlen. simpl in Hlen. lra. }
  assert (0 <= P <= 1)%R as HPb.
  { rewrite HP. unfold TOP_K. split.
    - apply Rmult_le_pos; [lra|]. apply Rlt_le, Rinv_0_lt_compat. lra.
    - apply (Rmult_le_reg_r 10); [lra|]. unfold Rdiv.
      rewrite Rmult_assoc, Rinv_l by lra. lra. }
  assert (0 <= Rc)%R as HRb.
  { destruct gt as [|g gs]; [rewrite HR0 by done; lra|].
    rewrite HR by done.
    apply Rmult_le_pos; [lra|]. apply Rlt_le, Rinv_0_lt_compat.
    apply lt_0_INR. simpl. lia. }
  assert (forall bound, (0 <= bound)%R ->
            (2 * P * Rc <= bound * (P + Rc))%R ->
            (0 <= f1_score m <= bound)%R) as HFb.
  { intros bound Hb Hprod.
    destruct (Rle_lt_or_eq_dec 0 (P + Rc)) as [Hpos|Hzero]; [lra| |].
    - rewrite HF by lra. split.
      + apply Rmult_le_pos; [|apply Rlt_le, Rinv_0_lt_compat; lra].
        apply Rmult_le_pos; [lra|done].
      + apply (Rmult_le_reg_r (P + Rc)); [done|]. unfold Rdiv.
        rewrite Rmult_assoc, Rinv_l by lra. lra.
    - rewrite HF0 by lra. lra. }
  split; [done|]. split; [done|]. split.
  - apply HFb; [lra|]. nra.
  - intros Hgt.
    assert (Rc <= 1)%R as HR1.
    { destruct gt as [|g gs]; [rewrite HR0 by done; lra|].
      rewrite HR by done.
      assert (0 < INR (length (g :: gs)))%R by (apply lt_0_INR; simpl; lia).
      apply (Rmult_le_reg_r (INR (length (g :: gs)))); [done|]. unfold Rdiv.
      rewrite Rmult_assoc, Rinv_l by lra. apply le_INR in Hgt. lra. }
    split; [done|]. apply (HFb 1%R); [lra|]. nra.
Qed.

Lemma exact_hits_predicted predicted gt :
  (length (exact_hits predicted gt) <= length predicted)%nat.
Proof.
  rewrite <- (length_fmap lower predicted).
  unfold exact_hits. apply submseteq_length, NoDup_submseteq.
  - apply NoDup_elements.
  - intros t Ht. apply elem_of_elements in Ht. unfold exact_hit_set in Ht.
    apply elem_of_intersection in Ht as [Ht _].
    by apply elem_of_list_to_set in Ht.
Qed.

Lemma slice_top_k {A : Type} (l : list A) :
  (length (slice_to l TOP_K) <= 10)%nat.
Proof. rewrite slice_to_length by (unfold TOP_K; lia). unfold TOP_K. lia. Qed.

Lemma baseline_at_most_ten audio_embedding tag_embeddings tags scores :
  get_tag_recommendations audio_embedding tag_embeddings TOP_K
  = Ok (tags, scores) ->
  (length tags <= 10)%nat.
Proof.
  unfold get_tag_recommendations. intros Hrun.
  case_loop Hrun sims Hloop; cbn in Hrun; [|done]. simplify_eq.
  rewrite length_fmap. apply slice_top_k.
Qed.

Lemma df_weighted_at_most_ten audio_embedding tag_embeddings dfs rec :
  get_tag_recommendations_df_weighted audio_embedding tag_embeddings dfs TOP_K
  = Ok rec ->
  (length (top_tags rec) <= 10)%nat.
Proof.
  unfold get_tag_recommendations_df_weighted. intros Hrun.
  case_loop Hrun sims Hloop; cbn in Hrun; [|done]. simplify_eq. simpl.
  rewrite length_fmap. apply slice_top_k.
Qed.

End MetricsExtra.

Module ShapeExtra.
Import PyProps ScorerProps Loader Scorer Np NpProps Eval EvalProps HitProps
  MetricsProps ScorerExtra HitExtra MetricsExtra.

Lemma shape2_inv (M : list (list R)) s :
  Np.shape2 M = Ok s ->
  M <> [] /\ s = (length M, s.2) /\ s.2 <> 0%nat
  /\ Forall (fun r => length r = s.2) M.
Proof.
  unfold Np.shape2. destruct M as [|r M']; [done|].
  destruct (Nat.eqb_spec (length r) 0) as [|Hn]; [done|].
  destruct (forallb _ (r :: M')) eqn:Hall; [|done].
  intros [= <-]. simpl. split; [done|]. split; [done|]. split; [done|].
  rewrite Forall_forall. intros r' Hr'.
  apply list_elem_of_In in Hr'.
  apply (proj1 (forallb_forall _ _) Hall) in Hr'. by apply Nat.eqb_eq in Hr'.
Qed.

Lemma shape2_raises (M : list (list R)) e :
  Np.shape2 M = Raise e -> e = ValueError.
Proof.
  unfold Np.shape2. destruct M as [|r M']; [by intros [= <-]|].
  destruct (length r =? 0)%nat; [by intros [= <-]|].
  destruct (forallb _ (r :: M')); [done|by intros [= <-]].
Qed.

(** One similarity computation goes through exactly on compatible shapes,
    and raises [ValueError] otherwise. *)
Lemma max_variant_similarity_cases audio_embedding (embeds : text_embeds) :
  (compatible audio_embedding embeds
   /\ exists s, max_variant_similarity audio_embedding embeds = Ok s)
  \/ (~ compatible audio_embedding embeds
      /\ max_variant_similarity audio_embedding embeds = Raise ValueError).
Proof.
  destruct (max_variant_similarity audio_embedding embeds) as [s|e] eqn:Hrun.
  - left. split; [|by eexists].
    unfold max_variant_similarity, Np.cosine_similarity in Hrun.
    destruct (Np.shape2 [audio_embedding]) as [sx|] eqn:Hx; cbn in Hrun; [|done].
    destruct (Np.shape2 embeds) as [sy|] eqn:Hy; cbn in Hrun; [|done].
    destruct (Nat.eqb_spec sx.2 sy.2) as [Heq|]; cbn in Hrun; [|done].
    apply shape2_inv in Hx as (_ & _ & Hnx & Hallx).
    apply shape2_inv in Hy as (Hne & _ & _ & Hally).
    apply Forall_inv in Hallx. split; [|split; [done|]].
    + intros ->. simpl in Hallx. congruence.
    + rewrite Hallx, Heq. done.
  - right.
    assert (e = ValueError) as ->.
    { unfold max_variant_similarity, Np.cosine_similarity in Hrun.
      destruct (Np.shape2 [audio_embedding]) as [sx|ex] eqn:Hx; cbn in Hrun.
      2:{ apply shape2_raises in Hx. congruence. }
      destruct (Np.shape2 embeds) as [sy|ey] eqn:Hy; cbn in Hrun.
      2:{ apply shape2_raises in Hy. congruence. }
      destruct (sx.2 =? sy.2)%nat; cbn in Hrun; [|congruence].
      apply shape2_inv in Hy as (Hne & _).
      destruct embeds as [|r rs]; [done|]. cbn in Hrun. done. }
    split; [|done]. intros Hc.
    destruct (max_variant_similarity_ok _ _ Hc) as [s Hs]. congruence.
Qed.

Section Loop.
Context {A S : Type}.
Implicit Types (body : S -> A -> result S) (st : S) (xs : list A).

(** A loop that returns ran its body, without exception, on every item. *)
Lemma for_each_ok_items body st xs st' :
  for_each body st xs = Ok st' ->
  forall x, x ∈ xs -> exists s s', body s x = Ok s'.
Proof.
  revert st. induction xs as [|x xs IH]; intros st Hrun y Hy;
    [by apply elem_of_nil in Hy|].
  simpl in Hrun. destruct (body st x) as [s1|e] eqn:Hb; simpl in Hrun; [|done].
  apply elem_of_cons in Hy as [->|Hy]; [by exists st, s1|].
  by eapply IH.
Qed.

(** A loop that raises does so in its body, on one of the items. *)
Lemma for_each_raise_item body st xs e :
  for_each body st xs = Raise e ->
  exists s x, x ∈ xs /\ body s x = Raise e.
Proof.
  revert st. induction xs as [|x xs IH]; intros st Hrun; [done|].
  simpl in Hrun. destruct (body st x) as [s1|e'] eqn:Hb; simpl in Hrun.
  - apply IH in Hrun as (s & y & Hy & Hrun). exists s, y. split; [by right|done].
  - simplify_eq. exists st, x. split; [by left|done].
Qed.
End Loop.

(** The loop bodies return on fitting shapes. *)
Lemma evaluate_clip_exact_total audio_embedding (tag_embeddings : dict text_embeds)
    (tag_df_scores : gmap string R) pair_ground_truth_tags :
  (forall tag embeds, (tag, embeds) ∈ tag_embeddings ->
     compatible audio_embedding embeds) ->
  (exists r, evaluate_clip_baseline audio_embedding tag_embeddings
               pair_ground_truth_tags = Ok r)
  /\ (exists r, evaluate_clip_df audio_embedding tag_embeddings tag_df_scores
                  pair_ground_truth_tags = Ok r).
Proof.
  intros Hshape.
  destruct (recommenders_return audio_embedding tag_embeddings tag_df_scores
              TOP_K Hshape) as [[[tags scores] Hbase] [rec Hdf]].
  split.
  - unfold evaluate_clip_baseline. rewrite Hbase. cbn.
    destruct (clip_metrics_spec (exact_hits tags (lower <$> pair_ground_truth_tags))
                (lower <$> pair_ground_truth_tags)) as (m & -> & _).
    cbn. by eexists.
  - unfold evaluate_clip_df. rewrite Hdf. cbn.
    destruct (clip_metrics_spec
                (exact_hits (top_tags rec) (lower <$> pair_ground_truth_tags))
                (lower <$> pair_ground_truth_tags)) as (m & -> & _).
    cbn. by eexists.
Qed.

Lemma evaluate_clip_sbert_total audio_embedding (tag_embeddings : dict text_embeds)
    (tag_df_scores : gmap string R) (tag_to_sbert : gmap string (list R))
    SIMILARITY_THRESHOLD pair_ground_truth_tags (n : nat) :
  (forall tag embeds, (tag, embeds) ∈ tag_embeddings ->
     compatible audio_embedding embeds) ->
  n <> 0%nat ->
  (forall t e, tag_to_sbert !! t = Some e -> length e = n) ->
  exists r, evaluate_clip_sbert audio_embedding tag_embeddings
              tag_df_scores tag_to_sbert SIMILARITY_THRESHOLD
              pair_ground_truth_tags = Ok r.
Proof.
  intros Hshape Hn Hdim.
  destruct (recommenders_return audio_embedding tag_embeddings tag_df_scores
              TOP_K Hshape) as [_ [rec Hdf]].
  unfold evaluate_clip_sbert. rewrite Hdf. cbn.
  destruct (pred_loop_total tag_to_sbert
              (lower <$> (lower <$> pair_ground_truth_tags))
              SIMILARITY_THRESHOLD (lower <$> top_tags rec) ([], []) n Hn)
    as [[hits matches] Hsem].
  { intros t e _. apply Hdim. }
  unfold compute_semantic_hits. rewrite Hsem. cbn.
  destruct (clip_metrics_spec hits (lower <$> pair_ground_truth_tags))
    as (m & -> & _).
  cbn. by eexists.
Qed.

(** A one-tag vocabulary on which the shapes fit. *)
Lemma rain_compatible :
  forall tag embeds, (tag, embeds) ∈ [("rain", [[1%R]])] ->
    compatible [1%R] embeds.
Proof.
  intros tag embeds [[= -> ->]|Hin]%elem_of_cons;
    [|by apply elem_of_nil in Hin].
  split; [discriminate|split; [discriminate|by repeat constructor]].
Qed.

End ShapeExtra.

Section ShapeExtras.
Import PyProps ScorerProps Loader Scorer Np NpProps Eval EvalProps HitProps
  MetricsProps ScorerExtra HitExtra MetricsExtra ShapeExtra.

(** X10.  The only way a recommender fails is a shape error: it returns
    exactly when every tag of the mapping has a non-empty array of
    embeddings of the audio embedding's (non-zero) dimension, and any
    exception it raises is the [ValueError] of [cosine_similarity]; the
    cutoff and the weight table play no part in this. *)
Theorem recommenders_fail_only_on_shapes (audio_embedding : list R)
    (tag_embeddings : dict text_embeds) (tag_df_scores : gmap string R)
    (top_k : Z) :
  let shapes_fit :=
    forall tag embeds, (tag, embeds) ∈ tag_embeddings ->
      compatible audio_embedding embeds in
  ((exists out,
      get_tag_recommendations audio_embedding tag_embeddings top_k = Ok out)
   <-> shapes_fit)
  /\ ((exists rec,
         get_tag_recommendations_df_weighted audio_embedding tag_embeddings
           tag_df_scores top_k = Ok rec)
      <-> shapes_fit)
  /\ (forall e,
        get_tag_recommendations audio_embedding tag_embeddings top_k = Raise e
        \/ get_tag_recommendations_df_weighted audio_embedding tag_embeddings
             tag_df_scores top_k = Raise e ->
        e = ValueError).
Proof.
  intros shapes_fit.
  pose proof (recommenders_return audio_embedding tag_embeddings tag_df_scores
                top_k) as Hret.
  split; [|split].
  - split; [|by intros H; apply Hret].
    intros [out Hrun] tag embeds Hin.
    unfold get_tag_recommendations in Hrun.
    case_loop Hrun sims Hloop; cbn in Hrun; [|done].
    destruct (for_each_ok_items _ _ _ _ Hloop _ Hin) as (s & s' & Hb).
    simpl in Hb.
    destruct (max_variant_similarity_cases audio_embedding embeds)
      as [[Hc _]|[_ Hr]]; [done|]. by rewrite Hr in Hb.
  - split; [|by intros H; apply Hret].
    intros [out Hrun] tag embeds Hin.
    unfold get_tag_recommendations_df_weighted in Hrun.
    case_loop Hrun sims Hloop; cbn in Hrun; [|done].
    destruct (for_each_ok_items _ _ _ _ Hloop _ Hin) as (s & s' & Hb).
    simpl in Hb.
    destruct (max_variant_similarity_cases audio_embedding embeds)
      as [[Hc _]|[_ Hr]]; [done|]. by rewrite Hr in Hb.
  - intros e [Hrun|Hrun].
    + unfold get_tag_recommendations in Hrun.
      case_loop Hrun sims Hloop; cbn in Hrun; [done|]. simplify_eq.
      apply for_each_raise_item in Hloop as (s & [tag embeds] & _ & Hb).
      destruct (max_variant_similarity_cases audio_embedding embeds)
        as [[_ [v Hv]]|[_ Hr]]; [by rewrite Hv in Hb|].
      rewrite Hr in Hb. cbn in Hb. congruence.
    + unfold get_tag_recommendations_df_weighted in Hrun.
      case_loop Hrun sims Hloop; cbn in Hrun; [done|]. simplify_eq.
      apply for_each_raise_item in Hloop as (s & [tag embeds] & _ & Hb).
      destruct (max_variant_similarity_cases audio_embedding embeds)
        as [[_ [v Hv]]|[_ Hr]]; [by rewrite Hv in Hb|].
      rewrite Hr in Hb. cbn in Hb. congruence.
Qed.

(** X11.  The body of each evaluation loop returns whenever the shapes fit:
    the tag embeddings are compatible with the audio embedding and, for
    the SBERT loop, the phrase embeddings share one non-zero dimension.
    In particular an empty ground truth raises nothing. *)
Theorem evaluation_loop_bodies_return (audio_embedding : list R)
    (tag_embeddings : dict text_embeds) (tag_df_scores : gmap string R)
    (tag_to_sbert : gmap string (list R)) (SIMILARITY_THRESHOLD : R)
    (pair_ground_truth_tags : list string) (n : nat) :
  (forall tag embeds, (tag, embeds) ∈ tag_embeddings ->
     compatible audio_embedding embeds) ->
  n <> 0%nat ->
  (forall t e, tag_to_sbert !! t = Some e -> length e = n) ->
  (exists r, evaluate_clip_baseline audio_embedding tag_embeddings
               pair_ground_truth_tags = Ok r)
  /\ (exists r, evaluate_clip_df audio_embedding tag_embeddings tag_df_scores
                  pair_ground_truth_tags = Ok r)
  /\ (exists r, evaluate_clip_sbert audio_embedding tag_embeddings
                  tag_df_scores tag_to_sbert SIMILARITY_THRESHOLD
                  pair_ground_truth_tags = Ok r).
Proof.
  intros Hshape Hn Hdim.
  destruct (evaluate_clip_exact_total audio_embedding tag_embeddings
              tag_df_scores pair_ground_truth_tags Hshape) as [Hb Hd].
  split; [done|]. split; [done|]. by eapply evaluate_clip_sbert_total.
Qed.

(** [evaluation_loop_bodies_return] on a one-tag vocabulary and an empty
    ground truth, its premises checked by evaluation. *)
Lemma evaluation_loop_bodies_return_witness :
  (exists r, evaluate_clip_baseline [1%R] [("rain", [[1%R]])] [] = Ok r)
  /\ (exists r, evaluate_clip_df [1%R] [("rain", [[1%R]])] ∅ [] = Ok r)
  /\ (exists r, evaluate_clip_sbert [1%R] [("rain", [[1%R]])] ∅
                  {["rain" := [1%R]]} (7 / 10) [] = Ok r).
Proof.
  apply (evaluation_loop_bodies_return [1%R] [("rain", [[1%R]])] ∅
           {["rain" := [1%R]]} (7 / 10) [] 1).
  - intros tag embeds [[= -> ->]|Hin]%elem_of_cons;
      [|by apply elem_of_nil in Hin].
    split; [discriminate|split; [discriminate|by repeat constructor]].
  - lia.
  - by intros t e [_ <-]%lookup_singleton_Some.
Defined.

End ShapeExtras.

Section MetricsExtras.
Import PyProps ScorerProps Loader Scorer Np NpProps Eval EvalProps HitProps
  MetricsProps ScorerExtra HitExtra MetricsExtra ShapeExtra.

(** X12.  In the two exact-match loops a clip has at most ten predicted
    tags, its hits number at most the predicted and at most the
    ground-truth tags, and precision, recall and F1 all lie in
    [[0, 1]]. *)
Theorem exact_metrics_in_unit_interval (audio_embedding : list R)
    (tag_embeddings : dict text_embeds) (tag_df_scores : gmap string R)
    (pair_ground_truth_tags : list string) (r : exact_result) :
  evaluate_clip_baseline audio_embedding tag_embeddings pair_ground_truth_tags
    = Ok r
  \/ evaluate_clip_df audio_embedding tag_embeddings tag_df_scores
       pair_ground_truth_tags = Ok r ->
  (length (er_predicted_tags r) <= 10)%nat
  /\ er_num_hits r = length (er_hits r)
  /\ (er_num_hits r <= length (er_predicted_tags r))%nat
  /\ (er_num_hits r <= length pair_ground_truth_tags)%nat
  /\ (0 <= precision_at_10 (er_metrics r) <= 1)%R
  /\ (0 <= recall (er_metrics r) <= 1)%R
  /\ (0 <= f1_score (er_metrics r) <= 1)%R.
Proof.
  intros Hrun.
  assert ((length (er_predicted_tags r) <= 10)%nat
          /\ er_num_hits r = length (er_hits r)
          /\ er_hits r = exact_hits (er_predicted_tags r) (er_ground_truth_tags r)
          /\ er_ground_truth_tags r = lower <$> pair_ground_truth_tags
          /\ metrics_agree (er_hits r) (er_ground_truth_tags r) (er_metrics r))
    as (Hten & Hnum & Hhits & Hgt & Hm).
  { destruct Hrun as [Hrun|Hrun].
    - pose proof (clip_metrics_agree _ _ _
                    (evaluate_clip_baseline_metrics _ _ _ _ Hrun)) as Hm.
      unfold evaluate_clip_baseline in Hrun.
      destruct (get_tag_recommendations _ _ _) as [[tags scores]|e] eqn:Hrec;
        cbn in Hrun; [|done].
      destruct (clip_metrics _ _) as [m|e]; cbn in Hrun; [|done].
      simplify_eq. simpl in *.
      split; [by eapply baseline_at_most_ten|done].
    - pose proof (clip_metrics_agree _ _ _
                    (evaluate_clip_df_metrics _ _ _ _ _ Hrun)) as Hm.
      unfold evaluate_clip_df in Hrun.
      destruct (get_tag_recommendations_df_weighted _ _ _ _) as [rec|e] eqn:Hrec;
        cbn in Hrun; [|done].
      destruct (clip_metrics _ _) as [m|e]; cbn in Hrun; [|done].
      simplify_eq. simpl in *.
      split; [by eapply df_weighted_at_most_ten|done]. }
  assert (length (er_hits r) <= length (er_predicted_tags r))%nat as Hle1.
  { rewrite Hhits. apply exact_hits_predicted. }
  assert (length (er_hits r) <= length (er_ground_truth_tags r))%nat as Hle2.
  { rewrite Hhits. apply exact_hits_length. }
  destruct (metrics_agree_bounds _ _ _ Hm) as (HP & HR & HF & Hone); [lia|].
  destruct (Hone Hle2) as [HR1 HF1].
  rewrite Hnum. rewrite Hgt, length_fmap in Hle2.
  repeat split; try done; lra.
Qed.

(** [exact_metrics_in_unit_interval] on the clip evaluated by the baseline
    loop for a one-tag vocabulary, its premise checked by evaluation. *)
Lemma exact_metrics_in_unit_interval_witness :
  exists r,
    evaluate_clip_baseline [1%R] [("rain", [[1%R]])] ["Rain"] = Ok r
    /\ (0 <= precision_at_10 (er_metrics r) <= 1)%R
    /\ (0 <= recall (er_metrics r) <= 1)%R
    /\ (0 <= f1_score (er_metrics r) <= 1)%R.
Proof.
  destruct (evaluate_clip_exact_total [1%R] [("rain", [[1%R]])] ∅ ["Rain"]
              rain_compatible) as [[r Hrun] _].
  exists r. split; [exact Hrun|].
  destruct (exact_metrics_in_unit_interval [1%R] [("rain", [[1%R]])] ∅
              ["Rain"] r (or_introl Hrun)) as (_ & _ & _ & _ & HP & HR & HF).
  done.
Defined.

(** X13.  In the SBERT loop the metrics are computed from the semantic
    hits: a clip has at most ten predicted tags and at most as many
    semantic hits, precision lies in [[0, 1]], recall is non-negative and
    F1 lies between 0 and twice the precision; the exact hits kept for
    comparison number at most the ground-truth tags. *)
Theorem semantic_metrics_bounds (audio_embedding : list R)
    (tag_embeddings : dict text_embeds) (tag_df_scores : gmap string R)
    (tag_to_sbert : gmap string (list R)) (SIMILARITY_THRESHOLD : R)
    (pair_ground_truth_tags : list string) (r : semantic_result) :
  evaluate_clip_sbert audio_embedding tag_embeddings tag_df_scores tag_to_sbert
    SIMILARITY_THRESHOLD pair_ground_truth_tags = Ok r ->
  (length (sr_predicted_tags r) <= 10)%nat
  /\ sr_num_semantic_hits r = length (sr_semantic_matches r)
  /\ (sr_num_semantic_hits r <= length (sr_predicted_tags r))%nat
  /\ (sr_num_exact_hits r <= length pair_ground_truth_tags)%nat
  /\ (0 <= precision_at_10 (sr_metrics r) <= 1)%R
  /\ (0 <= recall (sr_metrics r))%R
  /\ (0 <= f1_score (sr_metrics r) <= 2 * precision_at_10 (sr_metrics r))%R.
Proof.
  intros Hrun.
  pose proof (clip_metrics_agree _ _ _
                (evaluate_clip_sbert_metrics _ _ _ _ _ _ _ Hrun)) as Hm.
  unfold evaluate_clip_sbert in Hrun.
  destruct (get_tag_recommendations_df_weighted _ _ _ _) as [rec|e] eqn:Hrec;
    cbn in Hrun; [|done].
  destruct (compute_semantic_hits _ _ _ _) as [[hits matches]|e] eqn:Hsem;
    cbn in Hrun; [|done].
  destruct (clip_metrics _ _) as [m|e]; cbn in Hrun; [|done].
  simplify_eq. simpl in *.
  apply df_weighted_at_most_ten in Hrec.
  unfold compute_semantic_hits in Hsem.
  apply pred_loop_shape in Hsem as (new & [= -> ->] & Hsub & _).
  apply sublist_length in Hsub. rewrite !length_fmap in Hsub.
  simpl in *. rewrite length_fmap in *.
  destruct (metrics_agree_bounds _ _ _ Hm) as (HP & HR & HF & _).
  { rewrite length_fmap. lia. }
  pose proof (exact_hits_length (top_tags rec) (lower <$> pair_ground_truth_tags))
    as Hex. rewrite length_fmap in Hex.
  repeat split; try done; lra.
Qed.

(** [semantic_metrics_bounds] on the clip evaluated by the SBERT loop for
    a one-tag vocabulary, its premise checked by evaluation. *)
Lemma semantic_metrics_bounds_witness :
  exists r,
    evaluate_clip_sbert [1%R] [("rain", [[1%R]])] ∅ {["rain" := [1%R]]}
      (7 / 10) ["Rain"] = Ok r
    /\ (0 <= precision_at_10 (sr_metrics r) <= 1)%R
    /\ (0 <= recall (sr_metrics r))%R
    /\ (0 <= f1_score (sr_metrics r) <= 2 * precision_at_10 (sr_metrics r))%R.
Proof.
  destruct (evaluate_clip_sbert_total [1%R] [("rain", [[1%R]])] ∅
              {["rain" := [1%R]]} (7 / 10) ["Rain"] 1 rain_compatible)
    as [r Hrun]; [lia|by intros t e [_ <-]%lookup_singleton_Some|].
  exists r. split; [exact Hrun|].
  destruct (semantic_metrics_bounds [1%R] [("rain", [[1%R]])] ∅
              {["rain" := [1%R]]} (7 / 10) ["Rain"] r Hrun)
    as (_ & _ & _ & _ & HP & HR & HF).
  done.
Defined.

End MetricsExtras.

(** ** The loaded mapping *)

Module LoaderExtra.
Import Builtins PyProps ScorerProps LoaderProps Loader Scorer DF DFProps
  ShapeExtra.

Section DictGet.
Context {V : Type}.
Implicit Types (d : list (string * V)) (k : string) (v : V).

Lemma dict_get_set_eq d k v : dict_get (dict_set d k v) k = Some v.
Proof.
  induction d as [|[k' v'] d IH]; simpl.
  - by rewrite decide_True.
  - destruct (decide (k' = k)) as [->|Hne]; simpl.
    + by rewrite decide_True.
    + by rewrite decide_False.
Qed.

Lemma dict_get_set_ne d k k' v :
  k <> k' -> dict_get (dict_set d k v) k' = dict_get d k'.
Proof.
  intros Hne. induction d as [|[k0 v0] d IH]; simpl.
  - by rewrite decide_False.
  - destruct (decide (k0 = k)) as [->|Hk]; simpl.
    + by rewrite !decide_False.
    + destruct (decide (k0 = k')); [done|]. apply IH.
Qed.

Lemma dict_get_None d k : dict_get d k = None <-> k ∉ dict_keys d.
Proof.
  unfold dict_keys. induction d as [|[k' v'] d IH]; simpl.
  - split; [intros _; apply not_elem_of_nil|done].
  - rewrite not_elem_of_cons. destruct (decide (k' = k)) as [->|Hne].
    + split; [done|]. by intros [? _].
    + rewrite IH. split; [by intros ?; split|by intros [_ ?]].
Qed.

Lemma dict_get_elem d k v : dict_wf d -> dict_get d k = Some v <-> (k, v) ∈ d.
Proof.
  unfold dict_wf, dict_keys. induction d as [|[k' v'] d IH]; simpl; intros Hwf.
  - split; [done|]. intros H. by apply elem_of_nil in H.
  - apply NoDup_cons in Hwf as [Hk' Hwf]. rewrite elem_of_cons.
    destruct (decide (k' = k)) as [->|Hne].
    + split; [intros [= ->]; by left|].
      intros [[= ->]|Hin]; [done|].
      exfalso. apply Hk'. apply list_elem_of_fmap. by exists (k, v).
    + rewrite (IH Hwf). split; [by right|]. intros [[= ? ?]|?]; [done|done].
Qed.
End DictGet.

Section Loop.
Context {A S : Type}.
Implicit Types (body : S -> A -> result S) (st : S) (xs : list A).

Lemma for_each_app body st xs ys :
  for_each body st (xs ++ ys)
  = Py.bind (for_each body st xs) (fun s => for_each body s ys).
Proof.
  revert st. induction xs as [|x xs IH]; intros st; simpl; [done|].
  destruct (body st x) as [s1|e]; simpl; [apply IH|done].
Qed.
End Loop.

Lemma enumerate_snoc {A : Type} (l : list A) (x : A) :
  enumerate (l ++ [x]) = enumerate l ++ [(length l, x)].
Proof.
  unfold enumerate. rewrite length_app. simpl.
  rewrite seq_app. simpl. rewrite zip_with_app by (by rewrite length_seq).
  done.
Qed.

(** What the conversion loop leaves under each name: the row at the
    position of the name's last occurrence. *)
Lemma to_dictionary_lookup names (arr : list text_embeds) d :
  to_dictionary names arr = Ok d ->
  (forall i tag, names !! i = Some tag ->
     (forall j, (i < j)%nat -> names !! j <> Some tag) ->
     is_Some (arr !! i) /\ dict_get d tag = arr !! i)
  /\ (forall tag, tag ∉ names -> dict_get d tag = None).
Proof.
  revert d. induction names as [|x names IH] using rev_ind; intros d Hrun.
  - unfold to_dictionary in Hrun. simpl in Hrun. simplify_eq.
    split; [intros i tag Hi; by rewrite lookup_nil in Hi|done].
  - unfold to_dictionary in Hrun. rewrite enumerate_snoc, for_each_app in Hrun.
    fold (to_dictionary names arr) in Hrun.
    destruct (to_dictionary names arr) as [d0|e] eqn:Hd0;
      simpl in Hrun; [|done].
    destruct (IH d0 eq_refl) as [Hlast Hnone].
    destruct (getitem arr (length names)) as [e|] eqn:He; cbn in Hrun; [|done].
    simplify_eq. unfold getitem in He.
    destruct (arr !! length names) as [e'|] eqn:He'; [|done]. simplify_eq.
    split.
    + intros i tag Hi Hlater.
      destruct (decide (x = tag)) as [->|Hne].
      * assert (i = length names) as ->.
        { destruct (decide (i = length names)) as [|Hi']; [done|]. exfalso.
          apply lookup_lt_Some in Hi as Hlt. rewrite length_app in Hlt.
          simpl in Hlt. apply (Hlater (length names)); [lia|].
          by rewrite lookup_app_r, Nat.sub_diag by lia. }
        rewrite dict_get_set_eq, He'. split; [by eexists|done].
      * rewrite dict_get_set_ne by done.
        assert (i < length names)%nat as Hlt.
        { apply lookup_lt_Some in Hi as Hlt. rewrite length_app in Hlt.
          simpl in Hlt.
          destruct (decide (i = length names)) as [->|]; [|lia].
          rewrite lookup_app_r, Nat.sub_diag in Hi by lia. simpl in Hi.
          congruence. }
        rewrite lookup_app_l in Hi by done.
        apply Hlast; [done|]. intros j Hj Hnj.
        apply (Hlater j Hj). apply lookup_lt_Some in Hnj as ?.
        by rewrite lookup_app_l.
    + intros tag Htag. rewrite not_elem_of_app, list_elem_of_singleton in Htag.
      destruct Htag as [Htag Hne].
      rewrite dict_get_set_ne by done. by apply Hnone.
Qed.

(** On distinct names the loop pairs names and rows position by
    position. *)
Lemma to_dictionary_from names (arr : list text_embeds) d0 s :
  NoDup (dict_keys d0 ++ names) -> (s + length names <= length arr)%nat ->
  for_each (fun (d : dict text_embeds) '(i, tag) =>
              e ← getitem arr i; Ok (dict_set d tag e))
           d0 (zip (seq s (length names)) names)
  = Ok (d0 ++ zip names (drop s arr)).
Proof.
  revert d0 s. induction names as [|x names IH]; intros d0 s Hnd Hlen; simpl.
  - by rewrite app_nil_r.
  - simpl in Hlen.
    destruct (arr !! s) as [e|] eqn:He;
      [|apply lookup_ge_None in He; lia].
    assert (getitem arr s = Ok e) as Hg by (unfold getitem; by rewrite He).
    rewrite Hg. cbn. rewrite (drop_S _ _ _ He). simpl.
    assert (x ∉ dict_keys d0) as Hx.
    { apply NoDup_app in Hnd as (_ & Hdisj & _). intros Hin.
      apply (Hdisj _ Hin). by left. }
    rewrite dict_set_fresh by done.
    rewrite (IH (d0 ++ [(x, e)]) (S s)); [by rewrite <- app_assoc| |lia].
    unfold dict_keys. rewrite fmap_app. simpl. by rewrite <- app_assoc.
Qed.

Lemma to_dictionary_zip names (arr : list text_embeds) :
  NoDup names -> (length names <= length arr)%nat ->
  to_dictionary names arr = Ok (zip names arr).
Proof.
  intros Hnd Hlen. unfold to_dictionary, enumerate.
  by rewrite (to_dictionary_from names arr [] 0).
Qed.

(** What a successful run of the loading cell returns. *)
Lemma load_tag_embeddings_inv clap_tags (arr : list text_embeds) ld :
  load_tag_embeddings clap_tags arr = Ok ld ->
  (1 <= length clap_tags `min` length arr)%nat
  /\ tag_names_list ld = kept_names clap_tags arr
  /\ num_tags ld = (length clap_tags `min` length arr)%nat
  /\ tag_embeddings_array ld = kept_rows clap_tags arr
  /\ to_dictionary (kept_names clap_tags arr) (kept_rows clap_tags arr)
     = Ok (tag_embeddings ld).
Proof.
  intros Hload.
  destruct (decide (1 <= length clap_tags `min` length arr)%nat) as [Hm|Hm].
  - destruct (load_tag_embeddings_ok clap_tags arr Hm) as (d & Hd & Hok).
    rewrite Hok in Hload. by simplify_eq.
  - exfalso. unfold load_tag_embeddings in Hload.
    assert (take (length clap_tags `min` length arr) clap_tags = []) as Hnil.
    { replace (length clap_tags `min` length arr)%nat with 0%nat by lia. done. }
    destruct (Nat.eqb_spec (length clap_tags) (length arr)) as [Heq|Hne];
      simpl in Hload.
    + assert (clap_tags = []) as -> by (apply nil_length_inv; lia).
      by cbn in Hload.
    + rewrite Hnil in Hload. by cbn in Hload.
Qed.

Lemma load_tag_embeddings_empty clap_tags (arr : list text_embeds) :
  (length clap_tags `min` length arr = 0)%nat ->
  load_tag_embeddings clap_tags arr = Raise IndexError.
Proof.
  intros Hm. unfold load_tag_embeddings.
  assert (take (length clap_tags `min` length arr) clap_tags = []) as Hnil.
  { by rewrite Hm. }
  destruct (Nat.eqb_spec (length clap_tags) (length arr)) as [Heq|Hne]; simpl.
  - assert (clap_tags = []) as -> by (apply nil_length_inv; lia). done.
  - by rewrite Hnil.
Qed.

(** A table that was filled without exception never reached the division
    with a zero divisor. *)
Lemma tag_df_scores_safe ALPHA counts N clap_tags st :
  tag_df_scores ALPHA counts N clap_tags = Ok st ->
  forall tag, tag ∈ clap_tags -> no_division_by_zero counts N tag.
Proof.
  intros Hrun tag Htag. unfold tag_df_scores in Hrun.
  destruct (for_each_ok_items _ _ _ _ Hrun _ Htag) as (s & s' & Hstep).
  unfold no_division_by_zero.
  destruct (decide (1 <= N)%nat) as [|HN]; [by left|right].
  assert (N = 0%nat) as -> by lia.
  unfold df_step in Hstep.
  destruct (counts !! lower tag) as [c|]; [|done]. exfalso.
  unfold truediv in Hstep. simpl in Hstep. rewrite ln_1 in Hstep.
  by destruct (Req_dec_T 0 0).
Qed.

Lemma tag_df_scores_table ALPHA counts N clap_tags st tag :
  tag_df_scores ALPHA counts N clap_tags = Ok st -> tag ∈ clap_tags ->
  scores st !! tag = Some (weight_of ALPHA counts N tag).
Proof.
  intros Hrun Htag.
  destruct (tag_df_scores_run ALPHA counts N clap_tags empty_mapping)
    as (st' & Hrun' & Hin & _).
  { by apply (tag_df_scores_safe ALPHA counts N clap_tags st). }
  unfold tag_df_scores in Hrun. rewrite Hrun in Hrun'. simplify_eq.
  by apply Hin.
Qed.

End LoaderExtra.

Section LoaderExtras.
Import Builtins PyProps ScorerProps LoaderProps Loader Scorer DF DFProps
  ScorerExtra ShapeExtra LoaderExtra.

(** X14.  What the loading cell stores.  Under each kept name the mapping
    holds the row at the position of the name's last occurrence among the
    kept names, a name that was not kept has no entry, and when the names
    are pairwise distinct the mapping pairs names and rows position by
    position, up to the shorter of the two. *)
Theorem loaded_mapping_contents (clap_tags : list string)
    (tag_embeddings_array : list text_embeds) (ld : loaded) :
  load_tag_embeddings clap_tags tag_embeddings_array = Ok ld ->
  (forall i tag,
     (i < num_tags ld)%nat -> clap_tags !! i = Some tag ->
     (forall j, (i < j < num_tags ld)%nat -> clap_tags !! j <> Some tag) ->
     is_Some (tag_embeddings_array !! i)
     /\ dict_get (tag_embeddings ld) tag = tag_embeddings_array !! i)
  /\ (forall tag, tag ∉ take (num_tags ld) clap_tags ->
        dict_get (tag_embeddings ld) tag = None)
  /\ (NoDup clap_tags ->
      tag_embeddings ld = zip clap_tags tag_embeddings_array).
Proof.
  intros Hload.
  apply load_tag_embeddings_inv in Hload as (Hm & _ & -> & _ & Hd).
  unfold kept_names, kept_rows in Hd.
  set (m := (length clap_tags `min` length tag_embeddings_array)%nat) in *.
  destruct (to_dictionary_lookup _ _ _ Hd) as [Hlast Hnone].
  split; [|split].
  - intros i tag Hi Htag Hlater.
    destruct (Hlast i tag) as [Hsome Hget].
    + by rewrite lookup_take_lt.
    + intros j Hj Hnj. apply lookup_take_Some in Hnj as [Hnj Hjm].
      by apply (Hlater j).
    + by rewrite lookup_take_lt in Hsome, Hget.
  - done.
  - intros Hnd.
    rewrite to_dictionary_zip in Hd.
    + simplify_eq. rewrite <- Hd. apply zip_with_take_both'; lia.
    + eapply sublist_NoDup; [exact Hnd|]. apply sublist_take.
    + rewrite !length_take. lia.
Qed.

(** [loaded_mapping_contents] on three names, two of them equal, and two
    rows: the repeated name ends up with the second row. *)
Lemma loaded_mapping_contents_witness :
  exists ld,
    load_tag_embeddings ["rain"; "rain"; "wind"] [[[1%R]]; [[2%R]]] = Ok ld
    /\ dict_get (tag_embeddings ld) "rain" = Some [[2%R]]
    /\ dict_get (tag_embeddings ld) "wind" = None.
Proof.
  destruct (load_tag_embeddings_ok ["rain"; "rain"; "wind"] [[[1%R]]; [[2%R]]])
    as (d & _ & Hload); [simpl; lia|].
  eexists. split; [exact Hload|].
  destruct (loaded_mapping_contents _ _ _ Hload) as (Hlast & Hnone & _).
  split.
  - destruct (Hlast 1%nat "rain") as [_ Hget]; [simpl; lia|done| |exact Hget].
    intros j Hj. simpl in Hj. lia.
  - apply Hnone. simpl. intros Hin.
    apply elem_of_cons in Hin as [?|Hin]; [done|].
    apply elem_of_cons in Hin as [?|Hin]; [done|].
    by apply elem_of_nil in Hin.
Defined.

(** X15.  The loading cell needs at least one name and one row: it returns
    exactly when both the vocabulary and the array are non-empty, and
    otherwise the line that prints the shape of the first embedding raises
    [IndexError] on the empty mapping. *)
Theorem loader_needs_one_tag (clap_tags : list string)
    (tag_embeddings_array : list text_embeds) :
  ((exists ld, load_tag_embeddings clap_tags tag_embeddings_array = Ok ld)
   <-> clap_tags <> [] /\ tag_embeddings_array <> [])
  /\ (load_tag_embeddings clap_tags tag_embeddings_array = Raise IndexError
      <-> clap_tags = [] \/ tag_embeddings_array = [])
  /\ (forall e, load_tag_embeddings clap_tags tag_embeddings_array = Raise e ->
        e = IndexError).
Proof.
  assert ((length clap_tags `min` length tag_embeddings_array = 0)%nat
          <-> clap_tags = [] \/ tag_embeddings_array = []) as Hzero.
  { destruct clap_tags, tag_embeddings_array; simpl; split;
      first [lia | by intros [?|?] | by left | by right]. }
  destruct (decide (length clap_tags `min` length tag_embeddings_array = 0)%nat)
    as [H0|Hpos].
  - pose proof (load_tag_embeddings_empty _ _ H0) as Hraise.
    rewrite Hraise. apply Hzero in H0.
    split; [|split].
    + split; [by intros [ld ?]|]. intros [? ?]. by destruct H0.
    + done.
    + by intros e [= <-].
  - destruct (load_tag_embeddings_ok clap_tags tag_embeddings_array)
      as (d & _ & Hok); [lia|].
    rewrite Hok. split; [|split].
    + split; [|by eexists]. intros _.
      split; intros ->; apply Hpos, Hzero; [by left|by right].
    + split; [done|]. intros H. by apply Hzero in H.
    + done.
Qed.

(** X16.  The weight table is filled for the whole vocabulary and the
    mapping is loaded from a prefix of it, so every tag of the loaded
    mapping has an entry in the table: the fallback weight [1.0] of the
    recommender is never used, and the weight listed with a recommended
    tag is the weight computed from its document frequency. *)
Theorem ranking_uses_the_df_weights (ALPHA : R) (counts : gmap string nat)
    (N : nat) (clap_tags : list string)
    (tag_embeddings_array : list text_embeds) (ld : loaded) (st : df_mapping) :
  load_tag_embeddings clap_tags tag_embeddings_array = Ok ld ->
  tag_df_scores ALPHA counts N clap_tags = Ok st ->
  (forall tag, tag ∈ dict_keys (tag_embeddings ld) ->
     scores st !! tag = Some (weight_of ALPHA counts N tag))
  /\ (forall audio_embedding top_k rec i tag,
        get_tag_recommendations_df_weighted audio_embedding (tag_embeddings ld)
          (scores st) top_k = Ok rec ->
        top_tags rec !! i = Some tag ->
        top_df_weights rec !! i = Some (weight_of ALPHA counts N tag)).
Proof.
  intros Hload Hdf.
  assert (forall tag, tag ∈ dict_keys (tag_embeddings ld) ->
            scores st !! tag = Some (weight_of ALPHA counts N tag)) as Hcover.
  { intros tag Htag. apply (tag_df_scores_table _ _ _ _ _ _ Hdf).
    apply load_tag_embeddings_inv in Hload as (_ & _ & _ & _ & Hd).
    destruct (to_dictionary_keys _ _ _ Hd) as [_ Hkeys].
    rewrite Hkeys in Htag.
    apply fold_add_key_elem in Htag as [Htag|Htag];
      [by apply elem_of_nil in Htag|].
    unfold kept_names in Htag.
    by apply (subseteq_take _ clap_tags) in Htag. }
  split; [exact Hcover|].
  intros audio_embedding top_k rec i tag Hrun Hi.
  unfold get_tag_recommendations_df_weighted in Hrun.
  case_loop Hrun sims Hloop; cbn in Hrun; [|done]. simplify_eq. simpl in *.
  apply list_lookup_fmap_Some_1 in Hi as ([t r] & -> & Hi). simpl.
  pose proof (df_weighted_items _ _ _ _ Hloop) as Hall.
  rewrite Forall_forall in Hall.
  destruct (Hall (t, r)) as (Hw & _ & embeds & Hin & _).
  { eapply ranked_elem, list_elem_of_lookup. by exists i. }
  simpl in *. rewrite list_lookup_fmap, Hi. simpl. rewrite Hw.
  rewrite Hcover; [done|].
  unfold dict_keys. apply list_elem_of_fmap. by exists (t, embeds).
Qed.

(** [ranking_uses_the_df_weights] on a two-tag vocabulary and a corpus of
    two documents, its premises checked by evaluation. *)
Lemma ranking_uses_the_df_weights_witness :
  let counts := tag_document_counts ["rain, wind"; "rain"] in
  exists ld st,
    load_tag_embeddings ["rain"; "wind"] [[[1%R]]; [[1%R]]] = Ok ld
    /\ tag_df_scores (1 / 2) counts 2 ["rain"; "wind"] = Ok st
    /\ scores st !! "rain" = Some (weight_of (1 / 2) counts 2 "rain").
Proof.
  intros counts.
  destruct (load_tag_embeddings_ok ["rain"; "wind"] [[[1%R]]; [[1%R]]])
    as (d & Hd & Hload); [simpl; lia|].
  destruct (tag_df_scores_run (1 / 2) counts 2 ["rain"; "wind"] empty_mapping)
    as (st & Hrun & _); [intros tag _; left; lia|].
  eexists _, st. split; [exact Hload|]. split; [exact Hrun|].
  apply (proj1 (ranking_uses_the_df_weights (1 / 2) counts 2 ["rain"; "wind"]
                  [[[1%R]]; [[1%R]]] _ st Hload Hrun)).
  simpl. destruct (to_dictionary_keys _ _ _ Hd) as [_ ->].
  apply fold_add_key_elem. right. unfold kept_names. simpl. by left.
Defined.

End LoaderExtras.

Import Cells.

(** ** Creating, saving and loading back the tag embeddings *)

Module CellProps.
Import Builtins PyProps ScorerProps LoaderExtra SpecEmbed.

Section Loop.
Context {A S : Type}.
Implicit Types (body : S -> A -> outcome S) (st : S) (xs : list A).

Lemma loop_app body st xs ys :
  loop body st (xs ++ ys)
  = and_then (loop body st xs) (fun s => loop body s ys).
Proof.
  revert st. induction xs as [|x xs IH]; intros st; simpl; [done|].
  destruct (body st x) as [s1|e]; simpl; [apply IH|done].
Qed.

Lemma loop_fmap {B : Type} (f : B -> A) body st (ys : list B) :
  loop body st (f <$> ys) = loop (fun s y => body s (f y)) st ys.
Proof.
  revert st. induction ys as [|y ys IH]; intros st; simpl; [done|].
  destruct (body st (f y)) as [s1|e]; simpl; [apply IH|done].
Qed.

Lemma loop_ext body1 body2 st xs :
  (forall s x, x ∈ xs -> body1 s x = body2 s x) ->
  loop body1 st xs = loop body2 st xs.
Proof.
  revert st. induction xs as [|x xs IH]; intros st Hext; simpl; [done|].
  rewrite Hext by (by left).
  destruct (body2 st x) as [s1|e]; simpl; [|done].
  apply IH. intros s y Hy. apply Hext. by right.
Qed.
End Loop.

Section Update.
Context {V : Type}.
Implicit Types (d : list (string * V)) (items : list (string * V)).

Lemma dict_update_app d items1 items2 :
  dict_update d (items1 ++ items2) = dict_update (dict_update d items1) items2.
Proof. unfold dict_update. by rewrite fold_left_app. Qed.

Lemma dict_update_keys d items :
  dict_keys (dict_update d items) = fold_left add_key items.*1 (dict_keys d).
Proof.
  revert d. induction items as [|[k v] items IH]; intros d; simpl; [done|].
  unfold dict_update in *. simpl. rewrite IH. f_equal.
  rewrite dict_set_keys. unfold add_key. by case_decide.
Qed.

Lemma dict_update_fresh d items :
  NoDup (dict_keys d ++ items.*1) -> dict_update d items = d ++ items.
Proof.
  revert d. induction items as [|[k v] items IH]; intros d Hnd; simpl.
  - by rewrite app_nil_r.
  - unfold dict_update in *. simpl in *.
    assert (k ∉ dict_keys d) as Hk.
    { apply NoDup_app in Hnd as (_ & Hdisj & _). intros Hin.
      apply (Hdisj _ Hin). by left. }
    rewrite dict_set_fresh by done.
    rewrite IH; [by rewrite <- app_assoc|].
    unfold dict_keys. rewrite fmap_app. simpl. by rewrite <- app_assoc.
Qed.

Lemma dict_update_wf d items : dict_wf d -> dict_wf (dict_update d items).
Proof.
  revert d. induction items as [|[k v] items IH]; intros d Hd; simpl; [done|].
  apply IH. by apply dict_set_wf.
Qed.

(** After the update a listed key holds one of the values listed with
    it; an unlisted key is left alone. *)
Lemma dict_update_get (P : string -> V -> Prop) d items k :
  Forall (fun x => P x.1 x.2) items -> k ∈ items.*1 ->
  exists v, dict_get (dict_update d items) k = Some v /\ P k v.
Proof.
  intros Hall. revert d.
  induction items as [|[k' v'] items IH] using rev_ind; intros d Hk.
  - by apply elem_of_nil in Hk.
  - rewrite dict_update_app. unfold dict_update at 1. simpl.
    apply Forall_app in Hall as [Hall Hlast].
    apply Forall_inv in Hlast. simpl in Hlast.
    destruct (decide (k' = k)) as [->|Hne].
    + exists v'. by rewrite dict_get_set_eq.
    + rewrite dict_get_set_ne by done. apply IH; [done|].
      rewrite fmap_app, elem_of_app in Hk. destruct Hk as [Hk|Hk]; [done|].
      simpl in Hk. apply list_elem_of_singleton in Hk. congruence.
Qed.

Lemma dict_update_get_other d items k :
  k ∉ items.*1 -> dict_get (dict_update d items) k = dict_get d k.
Proof.
  revert d. induction items as [|[k' v'] items IH]; intros d Hk; simpl; [done|].
  simpl in Hk. apply not_elem_of_cons in Hk as [Hne Hk].
  unfold dict_update in *. simpl. rewrite IH by done.
  by rewrite dict_get_set_ne.
Qed.
End Update.

(** The number of keys after assigning [names] in order. *)
Lemma fold_add_key_length names ks :
  (length (fold_left add_key names ks) <= length ks + length names)%nat.
Proof.
  revert ks. induction names as [|n names IH]; intros ks; simpl; [lia|].
  etrans; [apply IH|]. unfold add_key. case_decide; [lia|].
  rewrite length_app. simpl. lia.
Qed.

Lemma fold_add_key_full names ks :
  NoDup ks ->
  length (fold_left add_key names ks) = (length ks + length names)%nat
  <-> NoDup (ks ++ names).
Proof.
  revert ks. induction names as [|n names IH]; intros ks Hks; simpl.
  - rewrite app_nil_r. split; [done|lia].
  - destruct (decide (n ∈ ks)) as [Hn|Hn];
      [replace (add_key ks n) with ks by (unfold add_key; by rewrite decide_True)
      |replace (add_key ks n) with (ks ++ [n])
         by (unfold add_key; by rewrite decide_False)].
    + pose proof (fold_add_key_length names ks). split; [intros ?; lia|].
      intros Hnd. apply NoDup_app in Hnd as (_ & Hdisj & _).
      exfalso. apply (Hdisj _ Hn). by left.
    + replace (length ks + S (length names))%nat
        with (length (ks ++ [n]) + length names)%nat
        by (rewrite length_app; simpl; lia).
      rewrite IH; [by rewrite <- app_assoc|].
      apply NoDup_app. split; [done|]. split; [|apply NoDup_singleton].
      intros x Hx Hx'. apply list_elem_of_singleton in Hx'. by subst.
Qed.

End CellProps.

Module EmbedProps.
Import Builtins PyProps ScorerProps LoaderProps Loader LoaderExtra Embed
  SpecEmbed CellProps.

Lemma create_tag_sentences_length tag : length (create_tag_sentences tag) = 4%nat.
Proof. done. Qed.

(** *** The first inner loop *)

Lemma collect_sentences batch_tags st :
  (fold_left collect_step batch_tags st).1
  = st.1 ++ concat (create_tag_sentences <$> batch_tags).
Proof.
  revert st. induction batch_tags as [|t ts IH]; intros st.
  - simpl. by rewrite app_nil_r.
  - cbn [fold_left]. rewrite IH. rewrite fmap_cons, concat_cons.
    unfold collect_step at 1. cbn [fst]. by rewrite <- app_assoc.
Qed.

Lemma concat_sentences_length batch_tags :
  length (concat (create_tag_sentences <$> batch_tags))
  = (4 * length batch_tags)%nat.
Proof.
  induction batch_tags as [|t ts IH]; [done|].
  rewrite fmap_cons, concat_cons, length_app, IH.
  rewrite create_tag_sentences_length. simpl. lia.
Qed.

(** Every tag of the batch is mapped to the four positions of the
    sentences of one of its occurrences (the last one). *)
Lemma collect_map batch_tags st tag :
  tag ∈ batch_tags ->
  exists j, batch_tags !! j = Some tag
            /\ (fold_left collect_step batch_tags st).2 !! tag
               = Some (seq (length st.1 + 4 * j) 4).
Proof.
  induction batch_tags as [|x ts IH] using rev_ind; intros Htag.
  - by apply elem_of_nil in Htag.
  - rewrite fold_left_app. cbn [fold_left]. unfold collect_step at 1.
    cbn [snd]. destruct (decide (x = tag)) as [->|Hne].
    + exists (length ts). split.
      * by rewrite lookup_app_r, Nat.sub_diag by lia.
      * rewrite lookup_insert_eq. rewrite collect_sentences.
        by rewrite length_app, concat_sentences_length.
    + rewrite lookup_insert_ne by done.
      apply elem_of_app in Htag as [Htag|Htag].
      * destruct (IH Htag) as (j & Hj & Hm). exists j. split; [|done].
        by apply lookup_app_l_Some.
      * apply list_elem_of_singleton in Htag. congruence.
Qed.

(** *** Reading rows of the encoder's output *)

Lemma take_rows_seq (text_embed : list (list R)) s n :
  (s + n <= length text_embed)%nat ->
  take_rows text_embed (seq s n) = Ok (take n (drop s text_embed)).
Proof.
  revert s. induction n as [|n IH]; intros s Hlen; simpl; [done|].
  destruct (text_embed !! s) as [row|] eqn:Hrow;
    [|apply lookup_ge_None in Hrow; lia].
  unfold getitem. rewrite Hrow. cbn. rewrite IH by lia. cbn.
  by rewrite (drop_S _ _ _ Hrow).
Qed.

Lemma rows_of_concat {X : Type} (g : string -> list X) batch_tags j tag :
  (forall t, length (g t) = 4%nat) -> batch_tags !! j = Some tag ->
  take 4 (drop (4 * j) (concat (g <$> batch_tags))) = g tag.
Proof.
  intros Hg. revert j. induction batch_tags as [|x ts IH]; intros j Hj.
  - by rewrite lookup_nil in Hj.
  - rewrite fmap_cons, concat_cons. destruct j as [|j]; simpl in Hj.
    + simplify_eq. rewrite Nat.mul_0_r, drop_0.
      by rewrite take_app_length' by (by rewrite Hg).
    + replace (4 * S j)%nat with (4 + 4 * j)%nat by lia.
      rewrite drop_app_add' by (by rewrite Hg). by apply IH.
Qed.

Lemma fmap_concat {X Y : Type} (f : X -> Y) (ls : list (list X)) :
  f <$> concat ls = concat ((fun l : list X => f <$> l) <$> ls).
Proof.
  induction ls as [|l ls IH]; [done|].
  by rewrite concat_cons, fmap_app, IH, fmap_cons, concat_cons.
Qed.

(** *** The second inner loop *)

Lemma store_loop get_text_embedding text_embed
    (tag_to_sentences_map : gmap string (list nat)) tags d :
  (forall tag, tag ∈ tags ->
     exists j, tag_to_sentences_map !! tag = Some (seq (4 * j) 4)
               /\ (4 * j + 4 <= length text_embed)%nat
               /\ stored get_text_embedding
                    (tag, take 4 (drop (4 * j) text_embed))) ->
  exists items,
    loop (store_step text_embed tag_to_sentences_map) d tags
    = Done (dict_update d items)
    /\ items.*1 = tags /\ Forall (stored get_text_embedding) items.
Proof.
  revert d. induction tags as [|t ts IH]; intros d Hmap.
  - exists []. by repeat split.
  - destruct (Hmap t) as (j & Hj & Hlen & Hst); [by left|].
    destruct (IH (dict_set d t (take 4 (drop (4 * j) text_embed))))
      as (items & Hrun & Hkeys & Hall).
    { intros tag Htag. apply Hmap. by right. }
    exists ((t, take 4 (drop (4 * j) text_embed)) :: items).
    split; [|split].
    + cbn [loop]. unfold store_step at 1. rewrite Hj.
      cbv [mbind outcome_bind and_then].
      rewrite take_rows_seq by lia. exact Hrun.
    + rewrite fmap_cons. simpl. by rewrite Hkeys.
    + by constructor.
Qed.

Lemma batch_run get_text_embedding clap_tags d i :
  (forall sentences,
     length (get_text_embedding sentences) = length sentences) ->
  exists items,
    batch_step get_text_embedding clap_tags d i = Done (dict_update d items)
    /\ items.*1 = slice clap_tags i (i + batch_size)
    /\ Forall (stored get_text_embedding) items.
Proof.
  intros Hlen. unfold batch_step.
  set (batch_tags := slice clap_tags i (i + batch_size)).
  apply store_loop. intros tag Htag.
  destruct (collect_map batch_tags ([], ∅) tag Htag) as (j & Hj & Hm).
  exists j. simpl in Hm. split; [exact Hm|].
  rewrite collect_sentences. simpl.
  apply lookup_lt_Some in Hj as Hlt.
  split; [rewrite Hlen, concat_sentences_length; lia|].
  unfold stored. cbn [fst snd]. split.
  - rewrite length_take, length_drop, Hlen, concat_sentences_length. lia.
  - intros embed dim [Hrows _]. simpl. rewrite Hrows, fmap_concat.
    rewrite <- list_fmap_compose.
    exact (rows_of_concat ((fun l => embed <$> l) ∘ create_tag_sentences)
             batch_tags j tag (fun _ => eq_refl) Hj).
Qed.

(** *** The loop over the batches *)

Lemma range_step_nil step : (0 < step)%nat -> range_step 0 step = [].
Proof.
  intros Hs. unfold range_step.
  by rewrite Nat.div_small by lia.
Qed.

Lemma range_step_cons stop step :
  (0 < step)%nat -> (0 < stop)%nat ->
  range_step stop step
  = 0%nat :: ((fun i => i + step)%nat <$> range_step (stop - step) step).
Proof.
  intros Hs Hn. unfold range_step.
  assert ((stop + step - 1) / step = S ((stop - step + step - 1) / step))%nat
    as ->.
  { replace (stop + step - 1)%nat with ((stop - 1) + 1 * step)%nat by lia.
    rewrite Nat.div_add by lia.
    destruct (decide (step <= stop)%nat) as [Hle|Hgt].
    - replace (stop - step + step - 1)%nat with (stop - 1)%nat by lia. lia.
    - replace (stop - step + step - 1)%nat with (step - 1)%nat by lia.
      rewrite !Nat.div_small by lia. lia. }
  cbn [seq fmap list_fmap]. f_equal.
  rewrite <- fmap_S_seq, <- !list_fmap_compose.
  apply list_fmap_ext. intros _ j _. simpl. lia.
Qed.

Lemma batches_run get_text_embedding clap_tags :
  (forall sentences,
     length (get_text_embedding sentences) = length sentences) ->
  forall n off d,
    (length (drop off clap_tags) <= n)%nat ->
    exists items,
      loop (batch_step get_text_embedding clap_tags) d
           ((fun i => i + off)%nat
            <$> range_step (length (drop off clap_tags)) batch_size)
      = Done (dict_update d items)
      /\ items.*1 = drop off clap_tags
      /\ Forall (stored get_text_embedding) items.
Proof.
  intros Hlen. induction n as [|n IH]; intros off d Hn.
  - assert (drop off clap_tags = []) as Hnil by (apply nil_length_inv; lia).
    rewrite Hnil. exists []. by repeat split.
  - destruct (drop off clap_tags) as [|x rest] eqn:Hrest.
    { exists []. by repeat split. }
    rewrite <- Hrest in *.
    assert (0 < length (drop off clap_tags))%nat as Hpos
      by (rewrite Hrest; simpl; lia).
    rewrite range_step_cons by (unfold batch_size; lia).
    rewrite fmap_cons. cbn [loop]. rewrite Nat.add_0_l.
    destruct (batch_run get_text_embedding clap_tags d off Hlen)
      as (items1 & -> & Hkeys1 & Hall1).
    cbn [and_then].
    rewrite <- list_fmap_compose.
    assert (length (drop off clap_tags) - batch_size
            = length (drop (off + batch_size) clap_tags))%nat as Hlen'.
    { rewrite !length_drop. lia. }
    rewrite Hlen'.
    destruct (IH (off + batch_size)%nat (dict_update d items1))
      as (items2 & Hrun2 & Hkeys2 & Hall2).
    { rewrite <- Hlen'. unfold batch_size. lia. }
    exists (items1 ++ items2). split; [|split].
    + rewrite dict_update_app, <- Hrun2. f_equal.
      apply list_fmap_ext. intros _ j _. simpl. lia.
    + rewrite fmap_app, Hkeys1, Hkeys2. unfold slice.
      replace (off + batch_size - off)%nat with batch_size by lia.
      rewrite <- (drop_drop clap_tags batch_size off).
      apply take_drop.
    + by apply Forall_app.
Qed.

(** The loop over all batches amounts to one update of the empty mapping
    with one item per tag, in the order of the vocabulary. *)
Lemma creation_loop get_text_embedding clap_tags :
  (forall sentences,
     length (get_text_embedding sentences) = length sentences) ->
  exists items,
    loop (batch_step get_text_embedding clap_tags) []
         (range_step (length clap_tags) batch_size)
    = Done (dict_update [] items)
    /\ items.*1 = clap_tags /\ Forall (stored get_text_embedding) items.
Proof.
  intros Hlen.
  destruct (batches_run get_text_embedding clap_tags Hlen (length clap_tags)
              0 []) as (items & Hrun & Hkeys & Hall).
  { rewrite drop_0. lia. }
  rewrite drop_0 in Hrun, Hkeys. exists items. split; [|done].
  rewrite <- Hrun. f_equal. rewrite <- (list_fmap_id (range_step _ _)) at 1.
  apply list_fmap_ext. intros _ j _. simpl. lia.
Qed.

End EmbedProps.

Module SaveProps.
Import Builtins PyProps ScorerProps LoaderProps Loader LoaderExtra Embed
  SpecEmbed CellProps EmbedProps.

(** Reading the mapping back key by key gives its values, in order, and
    never raises [KeyError]. *)
Lemma save_loop_values (d : list (string * text_embeds)) :
  dict_wf d ->
  forall (d2 : list (string * text_embeds)) acc,
    (forall x, x ∈ d2 -> x ∈ d) ->
    loop (fun embeddings_list tag =>
            embeddings ← dict_getitem d tag;
            Done (embeddings_list ++ [embeddings]))
         acc d2.*1
    = Done (acc ++ d2.*2).
Proof.
  intros Hwf d2. induction d2 as [|[k v] d2 IH]; intros acc Hsub.
  - simpl. by rewrite app_nil_r.
  - rewrite !fmap_cons. cbn [loop fst snd]. unfold dict_getitem at 1.
    assert (dict_get d k = Some v) as ->.
    { apply dict_get_elem; [done|]. apply Hsub. by left. }
    cbv [mbind outcome_bind and_then].
    rewrite IH; [by rewrite <- app_assoc|].
    intros x Hx. apply Hsub. by right.
Qed.

Lemma np_stack_raises arrays e : np_stack arrays = Raise e -> e = ValueError.
Proof.
  unfold np_stack. destruct arrays as [|a arrays]; [by intros [= <-]|].
  destruct (forallb _ _); [done|by intros [= <-]].
Qed.

Lemma np_stack_ok arrays shape :
  arrays <> [] -> Forall (fun a => length <$> a = shape) arrays ->
  np_stack arrays = Ok arrays.
Proof.
  intros Hne Hall. destruct arrays as [|a arrays]; [done|].
  unfold np_stack. rewrite (proj2 (forallb_forall _ _)); [done|].
  intros b Hb. apply bool_decide_eq_true.
  rewrite Forall_forall in Hall.
  rewrite (Hall b) by (by apply list_elem_of_In).
  symmetry. apply Hall. by left.
Qed.

Lemma np_stack_inv arrays out :
  np_stack arrays = Ok out -> out = arrays /\ arrays <> [].
Proof.
  unfold np_stack. destruct arrays as [|a arrays]; [done|].
  destruct (forallb _ _); [|done]. by intros [= <-].
Qed.

(** The normal form of [save_tag_embeddings] on a [dict]. *)
Lemma save_tag_embeddings_stack (d : list (string * text_embeds)) :
  dict_wf d ->
  save_tag_embeddings d
  = and_then (lift (np_stack d.*2))
      (fun arr => Done {| tags_list := dict_keys d; all_embeddings := arr |}).
Proof.
  intros Hwf. unfold save_tag_embeddings, dict_keys.
  by rewrite (save_loop_values d Hwf d []).
Qed.

Lemma variants_shape embed dim tag :
  (forall sentence, length (embed sentence) = dim) ->
  length <$> variants embed tag = [dim; dim; dim; dim].
Proof. intros Hdim. unfold variants. simpl. by rewrite !Hdim. Qed.

End SaveProps.

Section EmbedExtras.
Import Builtins PyProps ScorerProps LoaderProps Loader LoaderExtra Embed
  SpecEmbed CellProps EmbedProps SaveProps.

(** The created mapping, for an encoder that returns one row per
    sentence. *)
Lemma create_tag_embeddings_run get_text_embedding clap_tags :
  (forall sentences,
     length (get_text_embedding sentences) = length sentences) ->
  clap_tags <> [] ->
  exists items,
    create_tag_embeddings get_text_embedding clap_tags
    = Done (dict_update [] items)
    /\ items.*1 = clap_tags /\ Forall (stored get_text_embedding) items.
Proof.
  intros Hlen Hne.
  destruct (creation_loop get_text_embedding clap_tags Hlen)
    as (items & Hrun & Hkeys & Hall).
  exists items. split; [|done].
  unfold create_tag_embeddings. rewrite Hrun.
  cbv [mbind outcome_bind and_then].
  destruct (dict_update [] items) as [|[k v] d] eqn:Hd; [|done].
  exfalso. apply (f_equal dict_keys) in Hd.
  rewrite dict_update_keys, Hkeys in Hd.
  destruct clap_tags as [|t ts]; [done|].
  assert (t ∈ dict_keys (V:=text_embeds) []) as Hin.
  { rewrite <- Hd. apply fold_add_key_elem. right. by left. }
  by apply elem_of_nil in Hin.
Qed.

(** X17.  The cell that creates the text embeddings, for an encoder that
    returns one row per sentence.  On an empty vocabulary the cell fails
    at its closing print ([IndexError]).  Otherwise it returns a mapping
    whose keys are the distinct tags in the order of their first
    occurrence, every tag has exactly four rows, and when the encoder
    embeds each sentence on its own these are the embeddings of the tag's
    four sentences: cutting the vocabulary into batches of 32 changes
    nothing. *)
Theorem created_embeddings
    (get_text_embedding : list string -> list (list R))
    (clap_tags : list string) :
  (forall sentences,
     length (get_text_embedding sentences) = length sentences) ->
  (clap_tags = [] ->
   create_tag_embeddings get_text_embedding clap_tags
   = Fail (Builtin IndexError))
  /\ (clap_tags <> [] ->
      exists tag_embeddings,
        create_tag_embeddings get_text_embedding clap_tags
        = Done tag_embeddings
        /\ dict_wf tag_embeddings
        /\ dict_keys tag_embeddings = fold_left add_key clap_tags []
        /\ forall tag, tag ∈ clap_tags ->
             exists rows,
               dict_get tag_embeddings tag = Some rows
               /\ length rows = 4%nat
               /\ forall embed dim,
                    sentence_wise get_text_embedding embed dim ->
                    rows = variants embed tag).
Proof.
  intros Hlen. split.
  - intros ->. done.
  - intros Hne.
    destruct (create_tag_embeddings_run get_text_embedding clap_tags Hlen Hne)
      as (items & Hrun & Hkeys & Hall).
    exists (dict_update [] items). split; [exact Hrun|]. split; [|split].
    + apply dict_update_wf. apply NoDup_nil_2.
    + by rewrite dict_update_keys, Hkeys.
    + intros tag Htag.
      destruct (dict_update_get
                  (fun k v => stored get_text_embedding (k, v)) [] items tag)
        as (rows & Hget & Hlen4 & Hrows).
      * eapply Forall_impl; [exact Hall|]. by intros [k v].
      * by rewrite Hkeys.
      * by exists rows.
Qed.

(** [created_embeddings] for a constant encoder on a vocabulary of 33
    tags (two batches), its premise checked by evaluation. *)
Lemma created_embeddings_witness :
  let encoder := fun sentences : list string => (fun _ => [1%R]) <$> sentences in
  exists tag_embeddings,
    create_tag_embeddings encoder (replicate 32 "rain" ++ ["wind"])
    = Done tag_embeddings
    /\ dict_keys tag_embeddings = ["rain"; "wind"].
Proof.
  intros encoder.
  destruct (created_embeddings encoder (replicate 32 "rain" ++ ["wind"]))
    as [_ Hrun].
  { intros sentences. unfold encoder. by rewrite length_fmap. }
  destruct Hrun as (d & Hd & _ & Hkeys & _); [done|].
  exists d. split; [exact Hd|]. rewrite Hkeys. vm_compute. reflexivity.
Defined.

(** X18.  [save_tag_embeddings] writes the keys of the mapping, in order,
    and the stacked values in the same order, so that names and rows
    correspond position by position.  It never fails on a key; it fails
    with [ValueError], at [np.stack], when the mapping is empty or two
    tags have embeddings of different shapes, and only then. *)
Theorem saved_names_match_rows (tag_embeddings : dict text_embeds) :
  dict_wf tag_embeddings ->
  (forall sv, save_tag_embeddings tag_embeddings = Done sv ->
     tags_list sv = dict_keys tag_embeddings
     /\ all_embeddings sv = tag_embeddings.*2
     /\ zip (tags_list sv) (all_embeddings sv) = tag_embeddings
     /\ tag_embeddings <> [])
  /\ (forall e, save_tag_embeddings tag_embeddings = Fail e ->
        e = Builtin ValueError)
  /\ (tag_embeddings = [] ->
      save_tag_embeddings tag_embeddings = Fail (Builtin ValueError))
  /\ (forall shape, tag_embeddings <> [] ->
        Forall (fun x => length <$> x.2 = shape) tag_embeddings ->
        exists sv, save_tag_embeddings tag_embeddings = Done sv).
Proof.
  intros Hwf. rewrite (save_tag_embeddings_stack _ Hwf).
  split; [|split; [|split]].
  - intros sv Hrun.
    destruct (np_stack tag_embeddings.*2) as [arr|e] eqn:Hst; [|done].
    apply np_stack_inv in Hst as [-> Hne]. simpl in Hrun. simplify_eq. simpl.
    split; [done|]. split; [done|]. split.
    + unfold dict_keys. apply zip_fst_snd.
    + intros ->. done.
  - intros e Hrun.
    destruct (np_stack tag_embeddings.*2) as [arr|e'] eqn:Hst; [done|].
    apply np_stack_raises in Hst. simpl in Hrun. by simplify_eq.
  - by intros ->.
  - intros shape Hne Hall. rewrite (np_stack_ok _ shape).
    + by eexists.
    + by destruct tag_embeddings.
    + by apply Forall_fmap.
Qed.

(** [saved_names_match_rows] on a two-tag mapping, its premise checked by
    evaluation. *)
Lemma saved_names_match_rows_witness :
  exists sv,
    save_tag_embeddings [("rain", [[1%R]]); ("wind", [[2%R]])] = Done sv
    /\ tags_list sv = ["rain"; "wind"]
    /\ all_embeddings sv = [[[1%R]]; [[2%R]]].
Proof.
  assert (dict_wf [("rain", [[1%R]]); ("wind", [[2%R]])]) as Hwf.
  { unfold dict_wf, dict_keys. simpl.
    apply (bool_decide_unpack _). vm_compute. exact I. }
  destruct (saved_names_match_rows _ Hwf) as (Hinv & _ & _ & Hrun).
  destruct (Hrun [1%nat]) as [sv Hsv]; [done|by repeat constructor|].
  exists sv. split; [exact Hsv|].
  destruct (Hinv sv Hsv) as (-> & -> & _). done.
Defined.

End EmbedExtras.

Section RoundTrip.
Import Builtins PyProps ScorerProps LoaderProps Loader LoaderExtra Embed
  SpecEmbed CellProps EmbedProps SaveProps.

(** Every entry of the created mapping holds the embeddings of the
    sentences of its own tag. *)
Lemma created_entries get_text_embedding embed dim clap_tags :
  sentence_wise get_text_embedding embed dim -> clap_tags <> [] ->
  exists d : list (string * text_embeds),
    create_tag_embeddings get_text_embedding clap_tags = Done d
    /\ dict_wf d /\ d <> []
    /\ dict_keys d = fold_left add_key clap_tags []
    /\ Forall (fun x => x.2 = variants embed x.1) d.
Proof.
  intros Hsw Hne.
  assert (forall sentences,
            length (get_text_embedding sentences) = length sentences) as Hlen.
  { intros sentences. destruct Hsw as [-> _]. by rewrite length_fmap. }
  destruct (create_tag_embeddings_run get_text_embedding clap_tags Hlen Hne)
    as (items & Hrun & Hkeys & Hall).
  set (d := dict_update [] items) in *.
  assert (dict_wf d) as Hwf by (apply dict_update_wf, NoDup_nil_2).
  assert (dict_keys d = fold_left add_key clap_tags []) as Hk.
  { unfold d. by rewrite dict_update_keys, Hkeys. }
  exists d. split; [exact Hrun|]. split; [exact Hwf|]. split; [|split].
  - intros Hd. rewrite Hd in Hk. destruct clap_tags as [|t ts]; [done|].
    assert (t ∈ dict_keys (V:=text_embeds) []) as Hin.
    { rewrite Hk. apply fold_add_key_elem. right. by left. }
    by apply elem_of_nil in Hin.
  - done.
  - apply Forall_forall. intros [k v] Hin. simpl.
    destruct (dict_update_get
                (fun k v => stored get_text_embedding (k, v)) [] items k)
      as (rows & Hget & _ & Hrows).
    + eapply Forall_impl; [exact Hall|]. by intros [k' v'].
    + rewrite Hkeys.
      assert (k ∈ fold_left add_key clap_tags []) as Hin'.
      { rewrite <- Hk. unfold dict_keys. apply list_elem_of_fmap.
        by exists (k, v). }
      apply fold_add_key_elem in Hin' as [Hin'|Hin']; [|done].
      by apply elem_of_nil in Hin'.
    + fold d in Hget. apply (dict_get_elem d k v Hwf) in Hin.
      rewrite Hin in Hget. simplify_eq. by eapply Hrows.
Qed.

(** X19.  From the baseline notebook to the DF notebooks.  The embeddings
    created for a non-empty vocabulary, by an encoder that embeds each
    sentence on its own, are saved and loaded back without exception.  The
    loading cell prints its WARNING exactly when the vocabulary has a
    repeated tag.  Without repetition the loaded mapping is the created
    one.  In general the row at a position belongs to the tag at that
    position among the distinct tags, so a kept name receives the
    embeddings of that tag, whichever it is. *)
Theorem saved_embeddings_load_back
    (get_text_embedding : list string -> list (list R))
    (embed : string -> list R) (dim : nat) (clap_tags : list string) :
  sentence_wise get_text_embedding embed dim -> clap_tags <> [] ->
  exists tag_embeddings sv ld,
    create_tag_embeddings get_text_embedding clap_tags = Done tag_embeddings
    /\ save_tag_embeddings tag_embeddings = Done sv
    /\ tags_list sv = fold_left add_key clap_tags []
    /\ load_tag_embeddings clap_tags (all_embeddings sv) = Ok ld
    /\ num_tags ld = length (tags_list sv)
    /\ (mismatch_warning ld = None <-> NoDup clap_tags)
    /\ (NoDup clap_tags -> Loader.tag_embeddings ld = tag_embeddings)
    /\ (forall i tag tag',
          (i < num_tags ld)%nat -> clap_tags !! i = Some tag ->
          (forall j, (i < j < num_tags ld)%nat -> clap_tags !! j <> Some tag) ->
          tags_list sv !! i = Some tag' ->
          dict_get (Loader.tag_embeddings ld) tag = Some (variants embed tag')).
Proof.
  intros Hsw Hne.
  destruct (created_entries _ _ _ _ Hsw Hne) as (d & Hrun & Hwf & Hd & Hk & Hall).
  assert (save_tag_embeddings d
          = Done {| tags_list := dict_keys d; all_embeddings := d.*2 |}) as Hsave.
  { rewrite (save_tag_embeddings_stack _ Hwf).
    rewrite (np_stack_ok _ [dim; dim; dim; dim]); [done|by destruct d|].
    apply Forall_fmap. eapply Forall_impl; [exact Hall|].
    intros [k v] Hv. simpl in *. rewrite Hv. apply variants_shape.
    by destruct Hsw. }
  assert (length d.*2 = length (fold_left add_key clap_tags [])) as Hrows.
  { rewrite <- Hk. unfold dict_keys. by rewrite !length_fmap. }
  pose proof (fold_add_key_length clap_tags []) as Hle. simpl in Hle.
  assert (1 <= length d.*2)%nat as Hpos.
  { rewrite length_fmap. destruct d; [done|simpl; lia]. }
  assert (clap_tags <> []) as Hne' by done.
  assert (1 <= length clap_tags)%nat as Hpos'.
  { destruct clap_tags; [done|simpl; lia]. }
  destruct (load_tag_embeddings_ok clap_tags d.*2) as (ld & Hdict & Hload);
    [lia|].
  assert ((length clap_tags `min` length d.*2)%nat = length d.*2) as Hmin by lia.
  exists d, {| tags_list := dict_keys d; all_embeddings := d.*2 |}.
  eexists. split; [exact Hrun|]. split; [exact Hsave|]. split; [exact Hk|].
  split; [exact Hload|]. cbn [mismatch_warning Loader.tag_embeddings num_tags
                              tags_list all_embeddings].
  split; [|split; [|split]].
  - rewrite Hmin. unfold dict_keys. by rewrite !length_fmap.
  - pose proof (fold_add_key_full clap_tags [] (NoDup_nil_2)) as Hfull.
    simpl in Hfull. rewrite <- Hfull, <- Hrows.
    case_decide; split; first [done|lia].
  - intros Hnd.
    assert (dict_keys d = clap_tags) as Hkeys.
    { rewrite Hk. by rewrite fold_add_key_NoDup. }
    assert (length d.*2 = length clap_tags) as Heq.
    { rewrite Hrows. by rewrite fold_add_key_NoDup. }
    unfold kept_names, kept_rows in Hdict.
    rewrite Hmin in Hdict. rewrite Heq in Hdict at 1.
    rewrite !firstn_all in Hdict.
    rewrite to_dictionary_zip in Hdict by (done || lia).
    injection Hdict as <-. rewrite <- Hkeys at 1.
    unfold dict_keys. apply zip_fst_snd.
  - intros i tag tag' Hi Htag Hlater Htag'.
    rewrite Hmin in Hi, Hlater.
    unfold kept_names, kept_rows in Hdict. rewrite Hmin in Hdict.
    destruct (to_dictionary_lookup _ _ _ Hdict) as [Hlast _].
    destruct (Hlast i tag) as [_ Hget].
    + by rewrite lookup_take_lt.
    + intros j Hj Hnj. apply lookup_take_Some in Hnj as [Hnj Hjm].
      by apply (Hlater j).
    + rewrite Hget, lookup_take_lt by done.
      unfold dict_keys in Htag'.
      apply list_lookup_fmap_Some_1 in Htag' as ([k v] & -> & Hx).
      rewrite list_lookup_fmap, Hx. simpl. f_equal.
      rewrite Forall_forall in Hall.
      apply (Hall (k, v)). apply list_elem_of_lookup. by exists i.
Qed.

(** [saved_embeddings_load_back] on a vocabulary that repeats its first
    tag: the loading cell warns, and "rain" is loaded with the
    embeddings of "wind". *)
Lemma saved_embeddings_load_back_witness :
  let embed := fun sentence : string =>
                 [if decide (sentence = "Rain.") then 1%R else 0%R] in
  let encoder := fun sentences : list string => embed <$> sentences in
  exists tag_embeddings sv ld,
    create_tag_embeddings encoder ["rain"; "rain"; "wind"] = Done tag_embeddings
    /\ save_tag_embeddings tag_embeddings = Done sv
    /\ load_tag_embeddings ["rain"; "rain"; "wind"] (all_embeddings sv) = Ok ld
    /\ mismatch_warning ld <> None
    /\ dict_get tag_embeddings "rain" = Some (variants embed "rain")
    /\ dict_get (Loader.tag_embeddings ld) "rain" = Some (variants embed "wind").
Proof.
  intros embed encoder.
  destruct (saved_embeddings_load_back encoder embed 1
              ["rain"; "rain"; "wind"])
    as (d & sv & ld & Hrun & Hsave & Htags & Hload & Hnum & Hwarn & _ & Hrow);
    [by split|done|].
  exists d, sv, ld. split; [exact Hrun|]. split; [exact Hsave|].
  split; [exact Hload|].
  rewrite Htags in Hnum. simpl in Hnum.
  split; [|split].
  - intros Hnone. apply Hwarn in Hnone.
    apply NoDup_cons in Hnone as [Hnin _]. apply Hnin. by left.
  - vm_compute in Hrun. by simplify_eq.
  - apply (Hrow 1%nat "rain" "wind").
    + rewrite Hnum. lia.
    + done.
    + intros j Hj. rewrite Hnum in Hj. lia.
    + by rewrite Htags.
Defined.

End RoundTrip.

Import SpecPipeline.

(** ** The evaluation loops *)

Module PipelineProps.
Import Builtins PyProps ScorerProps LoaderProps Loader Scorer Eval EvalProps
  HitProps ScorerExtra LoaderExtra ShapeExtra Pipeline.

(** The audio embeddings loaded for a list of pairs: the files of the
    listed ids that exist. *)
Lemma load_audio_embeddings_from (disk : gmap Z (list R))
    (filtered_pairs : list pair) (acc : gmap Z (list R)) (id : Z) :
  fold_left (fun audio_embeddings pair =>
               match disk !! sound_id pair with
               | Some embedding => <[sound_id pair := embedding]> audio_embeddings
               | None => audio_embeddings
               end)
            filtered_pairs acc !! id
  = if decide (id ∈ sound_id <$> filtered_pairs)
    then match disk !! id with Some e => Some e | None => acc !! id end
    else acc !! id.
Proof.
  revert acc. induction filtered_pairs as [|p ps IH]; intros acc.
  - cbn [fold_left]. case_decide as H; [by apply elem_of_nil in H|done].
  - cbn [fold_left]. rewrite IH. rewrite fmap_cons.
    destruct (decide (id ∈ sound_id <$> ps)) as [Hin|Hnin].
    + rewrite decide_True by (by right).
      destruct (disk !! id) as [e|] eqn:Hid; [done|].
      destruct (disk !! sound_id p) as [e'|] eqn:Hp; [|done].
      rewrite lookup_insert_ne; [done|]. congruence.
    + destruct (decide (sound_id p = id)) as [<-|Hne].
      * rewrite decide_True by (by left).
        destruct (disk !! sound_id p) as [e'|] eqn:Hp; [|done].
        by rewrite lookup_insert_eq.
      * rewrite decide_False.
        2:{ intros [?|?]%elem_of_cons; [congruence|done]. }
        destruct (disk !! sound_id p) as [e'|] eqn:Hp; [|done].
        by rewrite lookup_insert_ne.
Qed.

Lemma load_audio_embeddings_lookup (disk : gmap Z (list R))
    (filtered_pairs : list pair) (id : Z) :
  load_audio_embeddings disk filtered_pairs !! id
  = if decide (id ∈ sound_id <$> filtered_pairs) then disk !! id else None.
Proof.
  unfold load_audio_embeddings. rewrite load_audio_embeddings_from.
  case_decide; [|done]. by destruct (disk !! id).
Qed.

Lemma evaluation_loop_entries {Res : Type}
    (evaluate_clip : list R -> list string -> result Res)
    (audio_embeddings : gmap Z (list R)) pairs acc results :
  for_each (fun results pair =>
              match audio_embeddings !! sound_id pair with
              | None => Ok results
              | Some audio_embedding =>
                  r ← evaluate_clip audio_embedding (ground_truth_tags pair);
                  Ok (results ++ [{| ev_sound_id := sound_id pair;
                                     ev_title := title pair;
                                     ev_result := r |}])
              end)
           acc pairs = Ok results ->
  exists new,
    results = acc ++ new
    /\ Forall2 (entry_of evaluate_clip audio_embeddings)
         (filter (fun p => is_Some (audio_embeddings !! sound_id p)) pairs) new.
Proof.
  revert acc. induction pairs as [|p ps IH]; intros acc Hrun.
  - simpl in Hrun. simplify_eq. exists []. by rewrite app_nil_r.
  - cbn [for_each] in Hrun. rewrite filter_cons.
    destruct (audio_embeddings !! sound_id p) as [a|] eqn:Ha.
    + destruct (evaluate_clip a (ground_truth_tags p)) as [r|e] eqn:Hr;
        cbn in Hrun; [|done].
      apply IH in Hrun as (new & -> & Hall).
      rewrite decide_True by (by eexists).
      eexists (_ :: new). rewrite <- app_assoc. split; [done|].
      constructor; [|done]. split; [done|]. split; [done|]. by exists a.
    + cbn in Hrun. apply IH in Hrun as (new & -> & Hall).
      rewrite decide_False by (by intros [? ?]). by exists new.
Qed.

Lemma evaluation_loop_inv {Res : Type}
    (evaluate_clip : list R -> list string -> result Res)
    filtered_pairs (audio_embeddings : gmap Z (list R)) results :
  evaluation_loop evaluate_clip filtered_pairs audio_embeddings = Ok results ->
  Forall2 (entry_of evaluate_clip audio_embeddings)
    (filter (fun p => is_Some (audio_embeddings !! sound_id p)) filtered_pairs)
    results.
Proof.
  unfold evaluation_loop. intros Hrun.
  by apply evaluation_loop_entries in Hrun as (new & -> & Hall).
Qed.


(** *** The SBERT table *)

Lemma all_gt_tags_elem (filtered_pairs : list pair) (s : gset string) tag :
  tag ∈ fold_left (fun s pair => s ∪ list_to_set (lower <$> ground_truth_tags pair))
          filtered_pairs s
  <-> tag ∈ s
      \/ exists p, p ∈ filtered_pairs /\ tag ∈ lower <$> ground_truth_tags p.
Proof.
  revert s. induction filtered_pairs as [|p ps IH]; intros s; simpl.
  - split; [by left|]. intros [?|(p & Hp & _)]; [done|].
    by apply elem_of_nil in Hp.
  - rewrite IH, elem_of_union, elem_of_list_to_set. split.
    + intros [[?|?]|(q & Hq & ?)]; [by left|right|right].
      * exists p. split; [by left|done].
      * exists q. split; [by right|done].
    + intros [?|(q & [->|Hq]%elem_of_cons & ?)]; [by left; left|by left; right|].
      right. by exists q.
Qed.

Lemma all_unique_tags_elem filtered_pairs clap_tags tag :
  tag ∈ all_unique_tags filtered_pairs clap_tags
  <-> tag ∈ lower <$> clap_tags
      \/ exists p, p ∈ filtered_pairs /\ tag ∈ lower <$> ground_truth_tags p.
Proof.
  unfold all_unique_tags.
  rewrite elem_of_elements, elem_of_union, all_gt_tags_elem,
    elem_of_list_to_set.
  split.
  - intros [[Hin|?]|?]; [set_solver|by right|by left].
  - intros [?|?]; [by right|left; by right].
Qed.

Lemma insert_items_lookup (items : list (string * list R))
    (d : gmap string (list R)) k :
  k ∈ items.*1 ->
  is_Some (fold_left (fun d x => <[x.1 := x.2]> d) items d !! k).
Proof.
  revert d. induction items as [|[k' v'] items IH] using rev_ind; intros d Hk.
  - by apply elem_of_nil in Hk.
  - rewrite fold_left_app. simpl.
    destruct (decide (k' = k)) as [->|Hne].
    + rewrite lookup_insert_eq. by eexists.
    + rewrite lookup_insert_ne by done. apply IH.
      rewrite fmap_app, elem_of_app in Hk. destruct Hk as [Hk|Hk]; [done|].
      simpl in Hk. apply list_elem_of_singleton in Hk. congruence.
Qed.

Lemma insert_items_dom (items : list (string * list R))
    (d : gmap string (list R)) k :
  is_Some (fold_left (fun d x => <[x.1 := x.2]> d) items d !! k) ->
  k ∈ items.*1 \/ is_Some (d !! k).
Proof.
  revert d. induction items as [|[k' v'] items IH]; intros d Hk; simpl in *.
  - by right.
  - apply IH in Hk as [Hk|Hk]; [left; by right|].
    destruct (decide (k' = k)) as [->|Hne]; [left; by left|].
    rewrite lookup_insert_ne in Hk by done. by right.
Qed.

Lemma tag_to_sbert_covers encode filtered_pairs clap_tags tag :
  (forall tags, length (encode tags) = length tags) ->
  is_Some (tag_to_sbert encode filtered_pairs clap_tags !! tag)
  <-> tag ∈ all_unique_tags filtered_pairs clap_tags.
Proof.
  intros Hlen. unfold tag_to_sbert.
  set (tags := all_unique_tags filtered_pairs clap_tags).
  assert ((zip tags (encode tags)).*1 = tags) as Hkeys.
  { apply fst_zip. rewrite Hlen. lia. }
  split.
  - intros [Hin|Hemp]%insert_items_dom; [by rewrite Hkeys in Hin|].
    rewrite lookup_empty in Hemp. by destruct Hemp.
  - intros Hin. apply insert_items_lookup. by rewrite Hkeys.
Qed.

Lemma filter_all {A : Type} (P : A -> Prop) `{!forall x, Decision (P x)}
    (l : list A) :
  (forall x, x ∈ l -> P x) -> filter P l = l.
Proof.
  induction l as [|x l IH]; intros Hall; [done|].
  rewrite filter_cons, decide_True by (apply Hall; by left).
  f_equal. apply IH. intros y Hy. apply Hall. by right.
Qed.


Lemma Forall2_impl_elem {A B : Type} (Q Q' : A -> B -> Prop) l k :
  Forall2 Q l k -> (forall x y, x ∈ l -> Q x y -> Q' x y) -> Forall2 Q' l k.
Proof.
  induction 1 as [|x y l k Hxy Hlk IH]; intros Himpl; constructor.
  - apply Himpl; [by left|done].
  - apply IH. intros x' y' Hx'. apply Himpl. by right.
Qed.


End PipelineProps.

Section PipelineExtras.
Import Builtins PyProps ScorerProps LoaderProps Loader Scorer Eval EvalProps
  HitProps ScorerExtra LoaderExtra ShapeExtra Pipeline PipelineProps.

(** X20.  When every id found in the directory listing has its file, the
    [continue] of the evaluation loop is never taken: the audio
    embeddings hold exactly the files of the filtered clips, and a loop
    that returns has produced one entry per filtered clip, in the order of
    the clips, each computed from the clip's own file and ground truth.
    This holds for the loop of each of the three notebooks. *)
Theorem every_filtered_clip_is_evaluated {Res : Type}
    (evaluate_clip : list R -> list string -> result Res)
    (available_embeddings : gset Z) (disk : gmap Z (list R))
    (input_gt_pairs : list pair) (results : list (evaluated Res)) :
  (forall id, id ∈ available_embeddings -> is_Some (disk !! id)) ->
  let filtered_pairs := filter_pairs available_embeddings input_gt_pairs in
  let audio_embeddings := load_audio_embeddings disk filtered_pairs in
  evaluation_loop evaluate_clip filtered_pairs audio_embeddings = Ok results ->
  (forall id, audio_embeddings !! id
              = if decide (id ∈ sound_id <$> filtered_pairs)
                then disk !! id else None)
  /\ length results = length filtered_pairs
  /\ Forall2 (entry_of evaluate_clip disk) filtered_pairs results.
Proof.
  intros Hdisk filtered_pairs audio_embeddings Hrun.
  split; [apply load_audio_embeddings_lookup|].
  unfold evaluation_loop in Hrun.
  apply evaluation_loop_entries in Hrun as (new & -> & Hall). simpl.
  assert (forall p, p ∈ filtered_pairs ->
            audio_embeddings !! sound_id p = disk !! sound_id p
            /\ is_Some (disk !! sound_id p)) as Hloaded.
  { intros p Hp. unfold audio_embeddings.
    rewrite load_audio_embeddings_lookup.
    rewrite decide_True by (apply list_elem_of_fmap; by exists p).
    split; [done|]. apply Hdisk.
    unfold filtered_pairs, filter_pairs in Hp.
    by apply list_elem_of_filter in Hp as [Hp _]. }
  rewrite filter_all in Hall.
  2:{ intros p Hp. destruct (Hloaded p Hp) as [-> ?]. done. }
  split; [symmetry; by eapply Forall2_length|].
  eapply Forall2_impl_elem; [exact Hall|].
  intros p e Hp (Hid & Htitle & a & Ha & Hr).
  split; [done|]. split; [done|]. exists a. split; [|done].
  destruct (Hloaded p Hp) as [Heq _]. by rewrite <- Heq.
Qed.

(** [every_filtered_clip_is_evaluated] for the baseline loop on two clips,
    one of which has its file, the premises checked by evaluation. *)
Lemma every_filtered_clip_is_evaluated_witness :
  let clip7 := {| sound_id := 7%Z; title := "rain on a roof"; input_tags := [];
                  ground_truth_tags := ["Rain"];
          total_tags := 4 |} in
  let clip9 := {| sound_id := 9%Z; title := "wind"; input_tags := [];
                  ground_truth_tags := ["Wind"];
          total_tags := 4 |} in
  let available_embeddings : gset Z := {[ 7%Z ]} in
  let disk : gmap Z (list R) := {[ 7%Z := [1%R] ]} in
  let filtered_pairs := filter_pairs available_embeddings [clip7; clip9] in
  exists results,
    baseline_results [("rain", [[1%R]])] filtered_pairs
      (load_audio_embeddings disk filtered_pairs) = Ok results
    /\ length results = 1%nat.
Proof.
  intros clip7 clip9 available_embeddings disk filtered_pairs.
  destruct (evaluate_clip_exact_total [1%R] [("rain", [[1%R]])] ∅ ["Rain"]
              rain_compatible) as [[r Hr] _].
  assert (filtered_pairs = [clip7]) as Hfp by (vm_compute; reflexivity).
  assert (baseline_results [("rain", [[1%R]])] filtered_pairs
            (load_audio_embeddings disk filtered_pairs)
          = Ok [{| ev_sound_id := 7%Z; ev_title := "rain on a roof";
                   ev_result := r |}]) as Hrun.
  { rewrite Hfp. unfold baseline_results, evaluation_loop. cbn [for_each].
    assert (load_audio_embeddings disk [clip7] !! sound_id clip7
            = Some [1%R]) as -> by reflexivity.
    cbn [ground_truth_tags clip7]. rewrite Hr. reflexivity. }
  eexists. split; [exact Hrun|].
  destruct (every_filtered_clip_is_evaluated
              (fun a gt => evaluate_clip_baseline a [("rain", [[1%R]])] gt)
              available_embeddings disk [clip7; clip9]
              [{| ev_sound_id := 7%Z; ev_title := "rain on a roof";
                  ev_result := r |}]) as (_ & Hlen & _).
  - intros id Hid. apply elem_of_singleton in Hid as ->. by eexists.
  - exact Hrun.
  - rewrite Hlen. change (length filtered_pairs = 1%nat). by rewrite Hfp.
Defined.



End PipelineExtras.

(** ** The result cells *)

Module ReportProps.
Import Builtins PyProps ScorerProps LoaderProps Loader Scorer Eval EvalProps
  MetricsProps HitProps ScorerExtra HitExtra MetricsExtra LoaderExtra ShapeExtra
  Pipeline PipelineProps Report SpecReport.

Lemma f1_of_spec precision recall :
  (0 <= precision)%R -> (0 <= recall)%R ->
  exists f1,
    f1_of precision recall = Ok f1
    /\ (0 <= f1 <= 2 * precision)%R
    /\ ((precision <= 1)%R -> (recall <= 1)%R -> (f1 <= 1)%R).
Proof.
  intros HP HR. unfold f1_of.
  destruct (Rgt_dec (precision + recall) 0) as [Hpos|Hnpos].
  - rewrite truediv_ok by lra. eexists. split; [done|].
    assert (forall bound, (2 * (precision * recall) <= bound * (precision + recall))%R ->
              (2 * (precision * recall) / (precision + recall) <= bound)%R) as Hb.
    { intros bound Hprod.
      apply (Rmult_le_reg_r (precision + recall)); [lra|]. unfold Rdiv.
      rewrite Rmult_assoc, Rinv_l by lra. lra. }
    split; [split|].
    + apply Rmult_le_pos; [|apply Rlt_le, Rinv_0_lt_compat; lra].
      apply Rmult_le_pos; [lra|]. by apply Rmult_le_pos.
    + apply Hb. nra.
    + intros HP1 HR1. apply Hb. nra.
  - exists 0%R. split; [done|]. split; [lra|]. intros _ _. lra.
Qed.

(** The F1 recomputed by the results cell is the stored one. *)
Lemma f1_of_stored hits gt m :
  clip_metrics hits gt = Ok m ->
  f1_of (precision_at_10 m) (recall m) = Ok (f1_score m).
Proof.
  unfold clip_metrics, f1_of. intros Hm.
  destruct (truediv (INR (length hits)) 10) as [P|e]; cbn in Hm; [|done].
  destruct (match gt with [] => Ok 0%R | _ :: _ => _ end) as [Rc|e];
    cbn in Hm; [|done].
  destruct (Rgt_dec (P + Rc) 0) as [Hpos|Hnpos].
  - destruct (truediv (2 * (P * Rc)) (P + Rc)) as [F|e] eqn:HF;
      cbn in Hm; [|done].
    simplify_eq. simpl. by destruct (Rgt_dec (P + Rc) 0).
  - cbn in Hm. simplify_eq. simpl. by destruct (Rgt_dec (P + Rc) 0).
Qed.

Lemma sum_list_with_le {A : Type} (f g : A -> nat) (rs : list A) :
  Forall (fun r => (f r <= g r)%nat) rs ->
  (sum_list_with f rs <= sum_list_with g rs)%nat.
Proof. induction 1; simpl; lia. Qed.

Lemma sum_list_with_const {A : Type} (c : nat) (rs : list A) :
  sum_list_with (fun _ => c) rs = (length rs * c)%nat.
Proof. induction rs as [|r rs IH]; simpl; [done|]. rewrite IH. lia. Qed.

Lemma f1_loop (rs : list exact_result) acc :
  Forall from_exact_loop rs ->
  for_each (fun f1_scores r =>
              f1 ← f1_of (precision_at_10 (er_metrics r)) (recall (er_metrics r));
              Ok (f1_scores ++ [f1]))
           acc rs
  = Ok (acc ++ ((fun r => f1_score (er_metrics r)) <$> rs)).
Proof.
  intros Hall. revert acc. induction Hall as [|r rs Hr Hrs IH]; intros acc.
  - simpl. by rewrite app_nil_r.
  - cbn [for_each]. destruct Hr as (Hm & _).
    rewrite (f1_of_stored _ _ _ Hm). cbn. rewrite IH.
    by rewrite <- app_assoc.
Qed.

(** The results of a loop carry the loop's guarantees. *)
Lemma baseline_result_from_loop a te gt r :
  evaluate_clip_baseline a te gt = Ok r -> from_exact_loop r.
Proof.
  intros Hrun.
  pose proof (evaluate_clip_baseline_metrics _ _ _ _ Hrun) as Hm.
  unfold evaluate_clip_baseline in Hrun.
  destruct (get_tag_recommendations _ _ _) as [[tags scores]|e] eqn:Hrec;
    cbn in Hrun; [|done].
  destruct (clip_metrics _ _) as [m|e]; cbn in Hrun; [|done].
  simplify_eq. unfold from_exact_loop.
  cbn [er_hits er_num_hits er_ground_truth_tags er_metrics] in *.
  split; [done|]. split; [done|].
  apply baseline_at_most_ten in Hrec.
  pose proof (exact_hits_predicted tags (lower <$> gt)).
  pose proof (exact_hits_length tags (lower <$> gt)). split; lia.
Qed.

Lemma df_result_from_loop a te dfs gt r :
  evaluate_clip_df a te dfs gt = Ok r -> from_exact_loop r.
Proof.
  intros Hrun.
  pose proof (evaluate_clip_df_metrics _ _ _ _ _ Hrun) as Hm.
  unfold evaluate_clip_df in Hrun.
  destruct (get_tag_recommendations_df_weighted _ _ _ _) as [rec|e] eqn:Hrec;
    cbn in Hrun; [|done].
  destruct (clip_metrics _ _) as [m|e]; cbn in Hrun; [|done].
  simplify_eq. unfold from_exact_loop.
  cbn [er_hits er_num_hits er_ground_truth_tags er_metrics] in *.
  split; [done|]. split; [done|].
  apply df_weighted_at_most_ten in Hrec.
  pose proof (exact_hits_predicted (top_tags rec) (lower <$> gt)).
  pose proof (exact_hits_length (top_tags rec) (lower <$> gt)). split; lia.
Qed.

Lemma sbert_result_from_loop a te dfs sbert thr gt r :
  evaluate_clip_sbert a te dfs sbert thr gt = Ok r -> from_sbert_loop r.
Proof.
  intros Hrun.
  pose proof (evaluate_clip_sbert_metrics _ _ _ _ _ _ _ Hrun) as Hm.
  unfold evaluate_clip_sbert in Hrun.
  destruct (get_tag_recommendations_df_weighted _ _ _ _) as [rec|e] eqn:Hrec;
    cbn in Hrun; [|done].
  destruct (compute_semantic_hits _ _ _ _) as [[hits matches]|e] eqn:Hsem;
    cbn in Hrun; [|done].
  destruct (clip_metrics _ _) as [m|e]; cbn in Hrun; [|done].
  simplify_eq. unfold from_sbert_loop.
  cbn [sr_semantic_hits sr_num_semantic_hits sr_ground_truth_tags sr_metrics]
    in *.
  split; [done|]. split; [done|].
  apply df_weighted_at_most_ten in Hrec.
  unfold compute_semantic_hits in Hsem.
  apply pred_loop_shape in Hsem as (new & [= -> ->] & Hsub & _).
  apply sublist_length in Hsub. rewrite !length_fmap in Hsub.
  rewrite length_fmap. lia.
Qed.

Lemma loop_results {Res : Type}
    (evaluate_clip : list R -> list string -> result Res) (P : Res -> Prop)
    filtered_pairs audio_embeddings results :
  (forall a gt r, evaluate_clip a gt = Ok r -> P r) ->
  evaluation_loop evaluate_clip filtered_pairs audio_embeddings = Ok results ->
  Forall P (ev_result <$> results).
Proof.
  intros HP Hrun. unfold evaluation_loop in Hrun.
  apply evaluation_loop_entries in Hrun as (new & -> & Hall). simpl.
  apply Forall_fmap. eapply Forall2_Forall_r; [exact Hall|].
  apply Forall_forall. intros p _ e (_ & _ & a & _ & Hr). simpl.
  by eapply HP.
Qed.

End ReportProps.

Module ReportRun.
Import Builtins PyProps ScorerProps LoaderProps Loader Scorer Eval EvalProps
  MetricsProps HitProps ScorerExtra HitExtra MetricsExtra LoaderExtra ShapeExtra
  Pipeline PipelineProps Report SpecReport ReportProps.

(** The results cell on results that carry the guarantees of an
    exact-match loop. *)
Lemma overall_metrics_spec (rs : list exact_result) :
  Forall from_exact_loop rs ->
  let hits := sum_list_with er_num_hits rs in
  let ground_truth :=
    sum_list_with (fun r => length (er_ground_truth_tags r)) rs in
  (rs = [] \/ ground_truth = 0%nat ->
   overall_metrics rs = Raise ZeroDivisionError)
  /\ (rs <> [] -> ground_truth <> 0%nat ->
      exists m,
        overall_metrics rs = Ok m
        /\ total_hits m = hits
        /\ total_predictions m = (length rs * 10)%nat
        /\ total_ground_truth m = ground_truth
        /\ (hits <= total_predictions m)%nat /\ (hits <= ground_truth)%nat
        /\ avg_f1 m = np_mean ((fun r => f1_score (er_metrics r)) <$> rs)
        /\ (0 <= overall_precision m <= 1)%R
        /\ (0 <= overall_recall m <= 1)%R
        /\ (0 <= overall_f1 m <= 1)%R).
Proof.
  intros Hall hits ground_truth.
  assert (hits <= length rs * 10)%nat as Hh10.
  { unfold hits. rewrite <- sum_list_with_const.
    apply sum_list_with_le. eapply Forall_impl; [exact Hall|].
    by intros r (_ & _ & ? & _). }
  assert (hits <= ground_truth)%nat as Hhgt.
  { apply sum_list_with_le. eapply Forall_impl; [exact Hall|].
    by intros r (_ & _ & _ & ?). }
  split.
  - assert (overall_metrics [] = Raise ZeroDivisionError) as Hnil.
    { unfold overall_metrics, truediv. simpl. by destruct (Req_dec_T 0 0). }
    intros [->|Hzero]; [done|].
    destruct rs as [|r0 rs0]; [done|].
    unfold overall_metrics. fold hits ground_truth.
    rewrite (truediv_ok _ (INR (length (r0 :: rs0) * 10))).
    2:{ apply not_0_INR. simpl. lia. }
    assert (forall x, truediv x (INR ground_truth) = Raise ZeroDivisionError)
      as Hdiv.
    { intros x. rewrite Hzero. unfold truediv. simpl.
      by destruct (Req_dec_T 0 0). }
    cbv [mbind result_bind Py.bind]. by rewrite Hdiv.
  - intros Hne Hgt.
    assert (length rs <> 0%nat) as Hlen.
    { intros H0. by apply nil_length_inv in H0. }
    assert (0 < INR (length rs))%R as HlenR by (apply lt_0_INR; lia).
    assert (0 < INR ground_truth)%R as HgtR by (apply lt_0_INR; lia).
    assert (INR (length rs * 10) = INR (length rs) * 10)%R as Hpred.
    { rewrite mult_INR. simpl. lra. }
    set (P := (INR hits / INR (length rs * 10))%R).
    set (Rc := (INR hits / INR ground_truth)%R).
    assert (0 <= P <= 1)%R as HP.
    { unfold P. apply le_INR in Hh10. pose proof (pos_INR hits).
      rewrite Hpred in *. split.
      - apply Rmult_le_pos; [done|]. apply Rlt_le, Rinv_0_lt_compat. lra.
      - apply (Rmult_le_reg_r (INR (length rs) * 10)); [lra|]. unfold Rdiv.
        rewrite Rmult_assoc, Rinv_l by lra. lra. }
    assert (0 <= Rc <= 1)%R as HR.
    { unfold Rc. apply le_INR in Hhgt. pose proof (pos_INR hits). split.
      - apply Rmult_le_pos; [done|]. by apply Rlt_le, Rinv_0_lt_compat.
      - apply (Rmult_le_reg_r (INR ground_truth)); [done|]. unfold Rdiv.
        rewrite Rmult_assoc, Rinv_l by lra. lra. }
    destruct (f1_of_spec P Rc) as (F & HF & HF0 & HF1); [lra|lra|].
    unfold overall_metrics. fold hits ground_truth.
    rewrite (f1_loop rs [] Hall).
    rewrite (truediv_ok _ (INR (length rs * 10))) by (rewrite Hpred; lra).
    cbv [mbind result_bind Py.bind]. fold P.
    rewrite (truediv_ok (INR hits) (INR ground_truth)) by lra. fold Rc.
    cbv beta iota. rewrite HF. cbv beta iota.
    eexists. split; [done|].
    cbn [total_hits total_predictions total_ground_truth avg_precision_at_10
         avg_hits_per_clip avg_f1 overall_precision overall_recall overall_f1
         app].
    split; [done|]. split; [done|]. split; [done|]. split; [done|].
    split; [done|]. split; [done|].
    split; [done|]. split; [done|]. split; [lra|]. apply HF1; lra.
Qed.

Lemma evaluate_clip_baseline_gt a te gt r :
  evaluate_clip_baseline a te gt = Ok r -> er_ground_truth_tags r = lower <$> gt.
Proof.
  unfold evaluate_clip_baseline. intros Hrun.
  destruct (get_tag_recommendations _ _ _) as [[tags scores]|e];
    cbn in Hrun; [|done].
  destruct (clip_metrics _ _) as [m|e]; cbn in Hrun; [|done].
  by simplify_eq.
Qed.

(** The baseline loop on one clip with its audio embedding. *)
Lemma one_clip_baseline_run :
  exists r,
    evaluate_clip_baseline [1%R] [("rain", [[1%R]])] ["Rain"] = Ok r
    /\ baseline_results [("rain", [[1%R]])]
         [{| sound_id := 7%Z; title := "rain on a roof"; input_tags := [];
             ground_truth_tags := ["Rain"];
          total_tags := 4 |}]
         {[ 7%Z := [1%R] ]}
       = Ok [{| ev_sound_id := 7%Z; ev_title := "rain on a roof";
                ev_result := r |}].
Proof.
  destruct (evaluate_clip_exact_total [1%R] [("rain", [[1%R]])] ∅ ["Rain"]
              rain_compatible) as [[r Hr] _].
  exists r. split; [exact Hr|].
  unfold baseline_results, evaluation_loop. cbn [for_each sound_id].
  rewrite lookup_singleton_eq. cbn [ground_truth_tags]. by rewrite Hr.
Qed.

End ReportRun.

Section ReportExtras.
Import Builtins PyProps ScorerProps LoaderProps Loader Scorer Eval EvalProps
  MetricsProps HitProps ScorerExtra HitExtra MetricsExtra LoaderExtra ShapeExtra
  Pipeline PipelineProps Report SpecReport ReportProps ReportRun.

(** X22.  The results cell of the baseline and DF notebooks, run on the
    results of their evaluation loop.  It fails with [ZeroDivisionError]
    when no clip was evaluated or when no evaluated clip has a
    ground-truth tag, and returns otherwise.  The total number of hits is
    at most the number of predictions and at most the number of
    ground-truth tags; the average F1, recomputed from the stored
    precision and recall, is the mean of the stored per-clip F1 scores;
    and the overall precision, recall and F1 lie in [[0, 1]].  (The
    average precision is not related to the overall precision here: the
    two agree on the reals, and differ in the last digit in floating
    point.) *)
Theorem overall_metrics_of_a_run (tag_embeddings : dict text_embeds)
    (tag_df_scores : gmap string R) (filtered_pairs : list pair)
    (audio_embeddings : gmap Z (list R))
    (results : list (evaluated exact_result)) :
  baseline_results tag_embeddings filtered_pairs audio_embeddings = Ok results
  \/ df_results tag_embeddings tag_df_scores filtered_pairs audio_embeddings
     = Ok results ->
  let rs := ev_result <$> results in
  let hits := sum_list_with er_num_hits rs in
  let ground_truth :=
    sum_list_with (fun r => length (er_ground_truth_tags r)) rs in
  (rs = [] \/ ground_truth = 0%nat ->
   overall_metrics rs = Raise ZeroDivisionError)
  /\ (rs <> [] -> ground_truth <> 0%nat ->
      exists m,
        overall_metrics rs = Ok m
        /\ total_hits m = hits
        /\ total_predictions m = (length rs * 10)%nat
        /\ total_ground_truth m = ground_truth
        /\ (hits <= total_predictions m)%nat /\ (hits <= ground_truth)%nat
        /\ avg_f1 m = np_mean ((fun r => f1_score (er_metrics r)) <$> rs)
        /\ (0 <= overall_precision m <= 1)%R
        /\ (0 <= overall_recall m <= 1)%R
        /\ (0 <= overall_f1 m <= 1)%R).
Proof.
  intros Hrun. apply overall_metrics_spec.
  destruct Hrun as [Hrun|Hrun].
  - eapply loop_results; [|exact Hrun].
    intros a gt r. apply baseline_result_from_loop.
  - eapply loop_results; [|exact Hrun].
    intros a gt r. apply df_result_from_loop.
Qed.

(** [overall_metrics_of_a_run] on the results of the baseline loop for
    one clip, the premises checked by evaluation. *)
Lemma overall_metrics_of_a_run_witness :
  exists r m,
    baseline_results [("rain", [[1%R]])]
      [{| sound_id := 7%Z; title := "rain on a roof"; input_tags := [];
          ground_truth_tags := ["Rain"];
          total_tags := 4 |}]
      {[ 7%Z := [1%R] ]}
    = Ok [{| ev_sound_id := 7%Z; ev_title := "rain on a roof"; ev_result := r |}]
    /\ overall_metrics [r] = Ok m
    /\ (0 <= overall_f1 m <= 1)%R.
Proof.
  destruct one_clip_baseline_run as (r & Hr & Hrun).
  destruct (overall_metrics_of_a_run _ ∅ _ _ _ (or_introl Hrun)) as [_ Hok].
  destruct Hok as (m & Hm & _ & _ & _ & _ & _ & _ & _ & _ & Havg).
  - done.
  - simpl. rewrite (evaluate_clip_baseline_gt _ _ _ _ Hr). done.
  - by exists r, m.
Defined.

End ReportExtras.

Module SbertReportProps.
Import Builtins PyProps ScorerProps LoaderProps Loader Scorer Eval EvalProps
  MetricsProps HitProps ScorerExtra HitExtra MetricsExtra LoaderExtra ShapeExtra
  Pipeline PipelineProps Report SpecReport ReportProps SbertReport.

Lemma truediv_zero x : truediv x (INR 0) = Raise ZeroDivisionError.
Proof. unfold truediv. simpl. by destruct (Req_dec_T 0 0). Qed.

(** The results cell of the SBERT notebook, on results that carry the
    guarantees of its loop. *)
Lemma sbert_overall_metrics_spec (rs : list semantic_result) :
  Forall from_sbert_loop rs ->
  let semantic := sum_list_with sr_num_semantic_hits rs in
  let exact := sum_list_with sr_num_exact_hits rs in
  let ground_truth :=
    sum_list_with (fun r => length (sr_ground_truth_tags r)) rs in
  (rs = [] \/ ground_truth = 0%nat \/ exact = 0%nat ->
   overall_metrics rs = Raise ZeroDivisionError)
  /\ (rs <> [] -> ground_truth <> 0%nat -> exact <> 0%nat ->
      exists m,
        overall_metrics rs = Ok m
        /\ total_semantic_hits m = semantic /\ total_exact_hits m = exact
        /\ (0 <= overall_precision m <= 1)%R
        /\ (0 <= overall_recall m)%R
        /\ (0 <= overall_f1 m <= 2 * overall_precision m)%R
        /\ improvement m = ((INR semantic / INR exact - 1) * 100)%R
        /\ improvement_over_exact semantic exact = Ok (improvement m)).
Proof.
  intros Hall semantic exact ground_truth.
  assert (semantic <= length rs * 10)%nat as Hh10.
  { unfold semantic. rewrite <- sum_list_with_const.
    apply sum_list_with_le. eapply Forall_impl; [exact Hall|].
    by intros r (_ & _ & ?). }
  assert (INR (length rs * 10) = INR (length rs) * 10)%R as Hpred.
  { rewrite mult_INR. simpl. lra. }
  set (P := (INR semantic / INR (length rs * 10))%R).
  set (Rc := (INR semantic / INR ground_truth)%R).
  assert (rs <> [] -> (0 <= P <= 1)%R) as HP.
  { intros Hne. assert (0 < INR (length rs))%R as HlenR.
    { apply lt_0_INR. destruct rs; [done|simpl; lia]. }
    unfold P. apply le_INR in Hh10. pose proof (pos_INR semantic).
    rewrite Hpred in *. split.
    - apply Rmult_le_pos; [done|]. apply Rlt_le, Rinv_0_lt_compat. lra.
    - apply (Rmult_le_reg_r (INR (length rs) * 10)); [lra|]. unfold Rdiv.
      rewrite Rmult_assoc, Rinv_l by lra. lra. }
  assert (ground_truth <> 0%nat -> (0 <= Rc)%R) as HR.
  { intros Hgt. unfold Rc. pose proof (pos_INR semantic).
    apply Rmult_le_pos; [done|]. apply Rlt_le, Rinv_0_lt_compat.
    apply lt_0_INR. lia. }
  unfold overall_metrics. fold semantic exact ground_truth.
  destruct (decide (rs = [])) as [->|Hne].
  { split; [|done]. intros _. unfold truediv. simpl.
    by destruct (Req_dec_T 0 0). }
  assert (INR (length rs * 10) <> 0)%R as Hpred0.
  { apply not_0_INR. destruct rs; [done|simpl; lia]. }
  rewrite (truediv_ok _ (INR (length rs * 10))) by done.
  cbv [mbind result_bind Py.bind]. fold P.
  destruct (decide (ground_truth = 0%nat)) as [Hgt|Hgt].
  { split; [|done]. intros _. rewrite Hgt. by rewrite truediv_zero. }
  rewrite (truediv_ok (INR semantic) (INR ground_truth))
    by (apply not_0_INR; lia).
  fold Rc. cbv beta iota.
  destruct (f1_of_spec P Rc) as (F & HF & HF0 & _);
    [by apply HP|by apply HR|].
  rewrite HF. cbv beta iota.
  destruct (decide (exact = 0%nat)) as [Hex|Hex].
  { split; [|done]. intros _. rewrite Hex. by rewrite truediv_zero. }
  split; [intros [?|[?|?]]; done|]. intros _ _ _.
  rewrite (truediv_ok (INR semantic) (INR exact)) by (apply not_0_INR; lia).
  eexists. split; [done|].
  cbn [total_semantic_hits total_exact_hits avg_precision_at_10
       overall_precision overall_recall overall_f1 improvement].
  split; [done|]. split; [done|].
  split; [by apply HP|]. split; [by apply HR|]. split; [done|].
  split; [done|].
  unfold improvement_over_exact.
  destruct (Nat.ltb_spec 0 exact) as [_|?]; [|lia].
  by rewrite (truediv_ok (INR semantic) (INR exact)) by (apply not_0_INR; lia).
Qed.

Lemma evaluate_clip_sbert_exact a te dfs sbert thr gt r :
  evaluate_clip_sbert a te dfs sbert thr gt = Ok r ->
  sr_ground_truth_tags r = lower <$> gt
  /\ sr_num_exact_hits r
     = length (exact_hits (sr_predicted_tags r) (lower <$> gt))
  /\ forall t, t ∈ sr_predicted_tags r -> t ∈ dict_keys te.
Proof.
  unfold evaluate_clip_sbert. intros Hrun.
  destruct (get_tag_recommendations_df_weighted _ _ _ _) as [rec|e] eqn:Hrec;
    cbn in Hrun; [|done].
  destruct (compute_semantic_hits _ _ _ _) as [[hits matches]|e];
    cbn in Hrun; [|done].
  destruct (clip_metrics _ _) as [m|e]; cbn in Hrun; [|done].
  simplify_eq. simpl. split; [done|]. split; [done|].
  intros t Ht. unfold get_tag_recommendations_df_weighted in Hrec.
  case_loop Hrec sims Hloop; cbn in Hrec; [|done]. simplify_eq.
  cbn [top_tags] in Ht.
  apply list_elem_of_fmap in Ht as ([k v] & -> & Hx). simpl.
  apply (ranked_elem (fun x => weighted_similarity x.2) sims TOP_K) in Hx.
  pose proof (df_weighted_items _ _ _ _ Hloop) as Hall.
  rewrite Forall_forall in Hall.
  destruct (Hall _ Hx) as (_ & _ & embeds & Hin & _). simpl in Hin.
  unfold dict_keys. apply list_elem_of_fmap. by exists (k, embeds).
Qed.

(** The SBERT loop on one clip whose ground truth is not in the
    vocabulary. *)
Lemma one_clip_sbert_run :
  let sbert : gmap string (list R) :=
    <["rain" := [1%R]]> (<["storm" := [1%R]]> ∅) in
  exists r,
    sbert_results [("rain", [[1%R]])] ∅ sbert (7 / 10)
      [{| sound_id := 7%Z; title := "a storm"; input_tags := [];
          ground_truth_tags := ["Storm"];
          total_tags := 4 |}]
      {[ 7%Z := [1%R] ]}
    = Ok [{| ev_sound_id := 7%Z; ev_title := "a storm"; ev_result := r |}]
    /\ sr_ground_truth_tags r = ["storm"]
    /\ sr_num_exact_hits r = 0%nat.
Proof.
  intros sbert.
  destruct (evaluate_clip_sbert_total [1%R] [("rain", [[1%R]])] ∅ sbert
              (7 / 10) ["Storm"] 1 rain_compatible) as [r Hr]; [lia| |].
  { intros t e Ht. unfold sbert in Ht.
    apply lookup_insert_Some in Ht as [[_ <-]|[_ Ht]]; [done|].
    apply lookup_insert_Some in Ht as [[_ <-]|[_ Ht]]; [done|].
    by rewrite lookup_empty in Ht. }
  exists r. split; [|].
  - unfold sbert_results, evaluation_loop. cbn [for_each sound_id].
    rewrite lookup_singleton_eq. cbn [ground_truth_tags]. by rewrite Hr.
  - destruct (evaluate_clip_sbert_exact _ _ _ _ _ _ _ Hr) as (Hgt & Hex & Hkeys).
    split; [done|]. rewrite Hex.
    assert (exact_hit_set (sr_predicted_tags r) (lower <$> ["Storm"]) = ∅)
      as Hempty.
    { apply set_eq. intros t. split; [|set_solver]. unfold exact_hit_set.
      rewrite elem_of_intersection, !elem_of_list_to_set.
      intros [Hp Hg]. exfalso.
      apply list_elem_of_fmap in Hp as (p & -> & Hp). apply Hkeys in Hp.
      apply list_elem_of_singleton in Hp as ->.
      apply list_elem_of_singleton in Hg. discriminate. }
    unfold exact_hits. by rewrite Hempty, elements_empty.
Qed.

End SbertReportProps.

Section SbertReportExtras.
Import Builtins PyProps ScorerProps LoaderProps Loader Scorer Eval EvalProps
  MetricsProps HitProps ScorerExtra HitExtra MetricsExtra LoaderExtra ShapeExtra
  Pipeline PipelineProps Report SpecReport ReportProps SbertReport
  SbertReportProps.

(** X23.  The results cell of the SBERT notebook, run on the results of its
    evaluation loop.  Besides the two divisions of the other notebooks it
    divides by the total number of exact hits in its last print, without a
    guard: it fails with [ZeroDivisionError] when no clip was evaluated,
    when no clip has a ground-truth tag, or when no clip has an exact hit.
    Otherwise it returns, the overall precision lies in [[0, 1]], and the
    printed improvement is the figure the saving cell writes; with no
    exact hit the saving cell writes 0. *)
Theorem sbert_report_needs_an_exact_hit (tag_embeddings : dict text_embeds)
    (tag_df_scores : gmap string R) (tag_to_sbert : gmap string (list R))
    (SIMILARITY_THRESHOLD : R) (filtered_pairs : list pair)
    (audio_embeddings : gmap Z (list R))
    (results : list (evaluated semantic_result)) :
  sbert_results tag_embeddings tag_df_scores tag_to_sbert SIMILARITY_THRESHOLD
    filtered_pairs audio_embeddings = Ok results ->
  let rs := ev_result <$> results in
  let semantic := sum_list_with sr_num_semantic_hits rs in
  let exact := sum_list_with sr_num_exact_hits rs in
  let ground_truth :=
    sum_list_with (fun r => length (sr_ground_truth_tags r)) rs in
  (rs = [] \/ ground_truth = 0%nat \/ exact = 0%nat ->
   overall_metrics rs = Raise ZeroDivisionError)
  /\ (rs <> [] -> ground_truth <> 0%nat -> exact <> 0%nat ->
      exists m,
        overall_metrics rs = Ok m
        /\ total_semantic_hits m = semantic /\ total_exact_hits m = exact
        /\ (0 <= overall_precision m <= 1)%R
        /\ (0 <= overall_recall m)%R
        /\ (0 <= overall_f1 m <= 2 * overall_precision m)%R
        /\ improvement m = ((INR semantic / INR exact - 1) * 100)%R
        /\ improvement_over_exact semantic exact = Ok (improvement m))
  /\ (exact = 0%nat -> improvement_over_exact semantic exact = Ok 0%R).
Proof.
  intros Hrun rs semantic exact ground_truth.
  assert (Forall from_sbert_loop rs) as Hall.
  { eapply loop_results; [|exact Hrun].
    intros a gt r. apply sbert_result_from_loop. }
  destruct (sbert_overall_metrics_spec rs Hall) as [Hfail Hok].
  split; [exact Hfail|]. split; [exact Hok|].
  intros Hex. unfold improvement_over_exact. by rewrite Hex.
Qed.

(** [sbert_report_needs_an_exact_hit] on a run with one clip, which has a
    ground-truth tag and no exact hit: the results cell fails. *)
Lemma sbert_report_needs_an_exact_hit_witness :
  let sbert : gmap string (list R) :=
    <["rain" := [1%R]]> (<["storm" := [1%R]]> ∅) in
  exists r,
    sbert_results [("rain", [[1%R]])] ∅ sbert (7 / 10)
      [{| sound_id := 7%Z; title := "a storm"; input_tags := [];
          ground_truth_tags := ["Storm"];
          total_tags := 4 |}]
      {[ 7%Z := [1%R] ]}
    = Ok [{| ev_sound_id := 7%Z; ev_title := "a storm"; ev_result := r |}]
    /\ overall_metrics [r] = Raise ZeroDivisionError.
Proof.
  intros sbert. destruct one_clip_sbert_run as (r & Hrun & Hgt & Hex).
  exists r. split; [exact Hrun|].
  destruct (sbert_report_needs_an_exact_hit _ _ _ _ _ _ _ Hrun) as [Hfail _].
  apply Hfail. right. right. simpl. rewrite Hex. done.
Defined.

End SbertReportExtras.

(** ** The distribution of hits *)

Module DistributionProps.
Import Builtins Loader Scorer Eval MetricsProps Pipeline Report SpecReport
  ReportProps SpecDistribution.

Lemma occurrences_cons n k ns :
  occurrences n (k :: ns)
  = ((if decide (k = n) then 1 else 0) + occurrences n ns)%nat.
Proof. unfold occurrences. rewrite filter_cons. by case_decide. Qed.

Lemma occurrences_pos n ns : (1 <= occurrences n ns)%nat <-> n ∈ ns.
Proof.
  induction ns as [|k ns IH].
  - split; [unfold occurrences; simpl; lia|]. intros H. by apply elem_of_nil in H.
  - rewrite occurrences_cons, elem_of_cons. case_decide as Hk.
    + split; [intros _; by left|lia].
    + split.
      * intros H. right. apply IH. lia.
      * intros [->|H]; [done|]. apply IH in H. lia.
Qed.

(** The table after the loop: a count for every number of hits that
    occurs. *)
Lemma hits_distribution_from ns (d : gmap nat nat) n :
  fold_left (fun d n => <[n := (default 0 (d !! n) + 1)%nat]> d) ns d !! n
  = if decide (occurrences n ns = 0)%nat then d !! n
    else Some (default 0 (d !! n) + occurrences n ns)%nat.
Proof.
  revert d. induction ns as [|k ns IH]; intros d.
  - cbn [fold_left]. by case_decide.
  - cbn [fold_left]. rewrite IH, occurrences_cons.
    destruct (decide (k = n)) as [->|Hne].
    + rewrite lookup_insert_eq. cbn [default].
      destruct (decide (occurrences n ns = 0)%nat) as [H0|H0];
        destruct (decide (1 + occurrences n ns = 0)%nat) as [H1|H1];
        try lia; apply (f_equal Some); unfold Datatypes.id; lia.
    + rewrite lookup_insert_ne by done. done.
Qed.

Lemma hits_distribution_lookup ns n :
  hits_distribution ns !! n
  = if decide (occurrences n ns = 0)%nat then None else Some (occurrences n ns).
Proof.
  unfold hits_distribution. rewrite hits_distribution_from, lookup_empty.
  by case_decide.
Qed.

Lemma hits_distribution_keys ns n :
  n ∈ sorted_keys (hits_distribution ns) <-> n ∈ ns.
Proof.
  unfold sorted_keys. rewrite merge_sort_Permutation, elem_of_elements,
    elem_of_dom, hits_distribution_lookup, <- occurrences_pos.
  case_decide as H0.
  - split; [by intros [? ?]|lia].
  - split; [lia|by eexists].
Qed.

Lemma sorted_keys_strict (d : gmap nat nat) :
  StronglySorted lt (sorted_keys d).
Proof.
  unfold sorted_keys.
  assert (NoDup (merge_sort Nat.le (elements (dom d)))) as Hnd.
  { rewrite merge_sort_Permutation. apply NoDup_elements. }
  pose proof (StronglySorted_merge_sort Nat.le (elements (dom d))) as Hs.
  induction Hs as [|x l Hs IH Hx]; [constructor|].
  apply NoDup_cons in Hnd as [Hx' Hnd].
  constructor; [by apply IH|].
  rewrite Forall_forall in *. intros y Hy.
  assert (x <> y) by (intros ->; done). specialize (Hx y Hy). lia.
Qed.

Lemma sum_occurrences keys ns :
  NoDup keys -> (forall n, n ∈ ns -> n ∈ keys) ->
  sum_list_with (fun k => occurrences k ns) keys = length ns.
Proof.
  intros Hnd. induction ns as [|n ns IH]; intros Hcover.
  - clear. induction keys as [|k keys IHk]; [done|].
    cbn [sum_list_with]. by rewrite IHk.
  - assert (sum_list_with (fun k => occurrences k (n :: ns)) keys
            = (sum_list_with (fun k => if decide (n = k) then 1 else 0)%nat keys
               + sum_list_with (fun k => occurrences k ns) keys)%nat) as ->.
    { clear. induction keys as [|k keys IHk]; [done|].
      simpl. rewrite IHk, occurrences_cons. lia. }
    rewrite IH by (intros k Hk; apply Hcover; by right).
    assert (n ∈ keys) as Hn by (apply Hcover; by left).
    assert (sum_list_with (fun k => if decide (n = k) then 1 else 0)%nat keys
            = 1%nat) as ->; [|done].
    clear -Hnd Hn. induction keys as [|k keys IHk];
      [by apply elem_of_nil in Hn|].
    apply NoDup_cons in Hnd as [Hk Hnd]. simpl.
    destruct (decide (n = k)) as [->|Hne].
    + assert (sum_list_with (fun k0 => if decide (k = k0) then 1 else 0)%nat keys
              = 0%nat) as ->; [|done].
      clear -Hk. induction keys as [|k' keys IHk]; [done|].
      apply not_elem_of_cons in Hk as [Hne Hk]. simpl.
      rewrite decide_False by done. by apply IHk.
    + apply elem_of_cons in Hn as [?|Hn]; [done|]. by rewrite IHk.
Qed.

Lemma distribution_loop (results : list exact_result) keys acc :
  (forall h, h ∈ keys -> h ∈ er_num_hits <$> results) ->
  loop (fun lines hits =>
          count ← match hits_distribution (er_num_hits <$> results) !! hits with
                  | Some count => Done count
                  | None => Fail KeyError
                  end;
          fraction ← lift (truediv (INR count) (INR (length results)));
          Done (lines ++ [(hits, count, (fraction * 100)%R)]))
       acc keys
  = Done (acc ++ ((fun h =>
                     let count := occurrences h (er_num_hits <$> results) in
                     (h, count,
                      (INR count / INR (length results) * 100)%R)) <$> keys)).
Proof.
  revert acc. induction keys as [|h keys IH]; intros acc Hkeys.
  - simpl. by rewrite app_nil_r.
  - cbn [loop]. rewrite hits_distribution_lookup.
    assert (h ∈ er_num_hits <$> results) as Hh by (apply Hkeys; by left).
    apply occurrences_pos in Hh as Hpos.
    rewrite decide_False by lia. cbv [mbind outcome_bind and_then].
    rewrite truediv_ok.
    2:{ apply not_0_INR. destruct results; [by apply elem_of_nil in Hh|].
        simpl. lia. }
    cbn [lift]. rewrite IH by (intros k Hk; apply Hkeys; by right).
    by rewrite <- app_assoc.
Qed.

End DistributionProps.

Section DistributionExtras.
Import Builtins Loader Scorer Eval MetricsProps Pipeline Report SpecReport
  ReportProps SpecDistribution DistributionProps.

(** X24.  The distribution cell of the baseline and DF notebooks never
    fails, also on an empty list of results.  It prints one line for each
    number of hits that occurs, in strictly ascending order, with the
    number of clips having that many hits and its share of all clips in
    percent; the printed counts add up to the number of clips. *)
Theorem hits_distribution_counts_every_clip (results : list exact_result) :
  let num_hits := er_num_hits <$> results in
  exists lines,
    distribution_lines results = Done lines
    /\ StronglySorted lt lines.*1.*1
    /\ (forall h, h ∈ lines.*1.*1 <-> h ∈ num_hits)
    /\ Forall (fun line =>
                 let '(h, count, percentage) := line in
                 count = occurrences h num_hits /\ (1 <= count)%nat
                 /\ percentage
                    = (INR count / INR (length results) * 100)%R)
              lines
    /\ sum_list lines.*1.*2 = length results.
Proof.
  intros num_hits. unfold distribution_lines.
  rewrite distribution_loop by (intros h; apply hits_distribution_keys).
  eexists. split; [done|]. cbn [app]. fold num_hits.
  set (keys := sorted_keys (hits_distribution num_hits)).
  assert (forall (l : list nat) (f : nat -> nat) (g : nat -> R),
            ((fun h => (h, f h, g h)) <$> l).*1.*1 = l) as Hfst.
  { intros l f g. induction l as [|x l IH]; [done|].
    rewrite !fmap_cons. simpl. by rewrite IH. }
  assert (forall (l : list nat) (f : nat -> nat) (g : nat -> R),
            ((fun h => (h, f h, g h)) <$> l).*1.*2 = f <$> l) as Hsnd.
  { intros l f g. induction l as [|x l IH]; [done|].
    rewrite !fmap_cons. simpl. by rewrite IH. }
  rewrite Hfst, Hsnd. split; [apply sorted_keys_strict|].
  split; [intros h; apply hits_distribution_keys|]. split.
  - apply Forall_fmap, Forall_forall. intros h Hh. simpl.
    split; [done|]. split; [|done].
    apply occurrences_pos. by apply hits_distribution_keys.
  - assert (sum_list ((fun h => occurrences h num_hits) <$> keys)
            = sum_list_with (fun h => occurrences h num_hits) keys) as ->.
    { clear. induction keys as [|k keys IH]; [done|].
      rewrite fmap_cons. simpl. by rewrite IH. }
    rewrite sum_occurrences.
    + unfold num_hits. by rewrite length_fmap.
    + unfold keys, sorted_keys. rewrite merge_sort_Permutation.
      apply NoDup_elements.
    + intros n Hn. by apply hits_distribution_keys.
Qed.

End DistributionExtras.

(** ** Data preparation *)

Module PrepProps.
Import DF DFProps StrProps DFExtra SpecDF Prep SpecPrep.

Lemma split_free sep s : Forall (free_of sep) (split sep s).
Proof.
  induction s as [|c r IH]; simpl; [by repeat constructor|].
  destruct (Ascii.eqb_spec c sep) as [->|Hne].
  - by constructor.
  - destruct (split sep r) as [|h t]; [by repeat constructor|].
    apply Forall_cons in IH as [Hh Ht]. by constructor.
Qed.

Lemma lstrip_free c s : free_of c s -> free_of c (lstrip s).
Proof.
  induction s as [|a r IH]; simpl; [done|]. intros [Ha Hr].
  destruct (is_whitespace a); [by apply IH|done].
Qed.

Lemma rstrip_free c s : free_of c s -> free_of c (rstrip s).
Proof.
  induction s as [|a r IH]; simpl; [done|]. intros [Ha Hr].
  specialize (IH Hr). destruct (rstrip r) as [|b r'].
  - by destruct (is_whitespace a).
  - done.
Qed.

Lemma strip_free c s : free_of c s -> free_of c (strip s).
Proof. intros H. by apply rstrip_free, lstrip_free. Qed.

Lemma split_not_nil sep s : split sep s <> [].
Proof.
  destruct s as [|c r]; simpl; [done|].
  destruct (Ascii.eqb c sep); [done|]. by destruct (split sep r).
Qed.

Lemma split_free_id sep s : free_of sep s -> split sep s = [s].
Proof.
  induction s as [|c r IH]; simpl; [done|]. intros [Hc Hr].
  destruct (Ascii.eqb_spec c sep) as [|_]; [done|]. by rewrite IH.
Qed.

Lemma split_app_sep sep x s :
  free_of sep x -> split sep (x +:+ String sep s) = x :: split sep s.
Proof.
  induction x as [|c r IH]; simpl.
  - intros _. by rewrite Ascii.eqb_refl.
  - intros [Hc Hr]. destruct (Ascii.eqb_spec c sep) as [|_]; [done|].
    by rewrite IH.
Qed.

(** Splitting a joined list gives the list back, when the list is not
    empty and no item holds the separator. *)
Lemma split_join sep items :
  items <> [] -> Forall (free_of sep) items ->
  split sep (join (String sep EmptyString) items) = items.
Proof.
  induction items as [|x items IH]; [done|]. intros _ Hall.
  apply Forall_cons in Hall as [Hx Hall]. destruct items as [|y items].
  - simpl. by apply split_free_id.
  - change (join (String sep EmptyString) (x :: y :: items))
      with (x +:+ String sep (join (String sep EmptyString) (y :: items))).
    rewrite split_app_sep by done. by rewrite IH.
Qed.

Lemma parse_and_filter_tags_elem tags_str valid_tagset tag :
  tag ∈ parse_and_filter_tags tags_str valid_tagset ->
  tag ∈ valid_tagset /\ strip tag = tag /\ free_of "," tag.
Proof.
  unfold parse_and_filter_tags. destruct tags_str as [s|];
    [|intros H; by apply elem_of_nil in H].
  intros Hin. apply list_elem_of_filter in Hin as [Hvalid Hin].
  split; [done|]. apply list_elem_of_fmap in Hin as (piece & -> & Hpiece).
  split; [apply strip_idem|]. apply strip_free.
  pose proof (split_free "," s) as Hfree. rewrite Forall_forall in Hfree.
  by apply Hfree.
Qed.

Lemma final_df_elem valid_tagset metadata_df t :
  t ∈ final_df valid_tagset metadata_df ->
  (5 <= length (valid_tags t) <= 15)%nat
  /\ num_valid_tags t = length (valid_tags t)
  /\ valid_tags t = parse_and_filter_tags (tags (row t)) valid_tagset
  /\ (207648 < sound_id (row t))%Z
  /\ row t ∈ metadata_df.
Proof.
  unfold final_df, filtered_df. intros Hin.
  apply list_elem_of_filter in Hin as [[H5 H15] Hin].
  apply list_elem_of_fmap in Hin as (r & -> & Hr).
  apply list_elem_of_filter in Hr as [Hid Hr]. simpl in *. done.
Qed.

(** The tags the DF estimator reads from the written column are the
    lower-cased valid tags of the row. *)
Lemma unique_tags_of_output valid_tagset metadata_df t :
  t ∈ final_df valid_tagset metadata_df ->
  unique_tags (join "," (valid_tags t)) = list_to_set (lower <$> valid_tags t).
Proof.
  intros Hin. apply final_df_elem in Hin as (Hlen & _ & Hv & _).
  unfold unique_tags. rewrite split_join.
  - f_equal. apply list_fmap_ext.
    intros i tag Htag. simpl.
    assert (tag ∈ parse_and_filter_tags (tags (row t)) valid_tagset) as Hin'.
    { rewrite <- Hv. apply list_elem_of_lookup. by exists i. }
    apply parse_and_filter_tags_elem in Hin' as (_ & -> & _). done.
  - intros Hnil. rewrite Hnil in Hlen. simpl in Hlen. lia.
  - apply Forall_forall. intros tag Htag. rewrite Hv in Htag.
    by apply parse_and_filter_tags_elem in Htag as (_ & _ & ?).
Qed.

End PrepProps.

Module PrepProps2.
Import DF DFProps StrProps DFExtra SpecDF Pipeline Prep SpecPrep PrepProps
  PipelineProps.

Lemma filter_ext_in {A : Type} (P Q : A -> Prop)
    `{!forall x, Decision (P x)} `{!forall x, Decision (Q x)} (l : list A) :
  (forall x, x ∈ l -> P x <-> Q x) -> filter P l = filter Q l.
Proof.
  induction l as [|x l IH]; intros Hext; [done|].
  rewrite !filter_cons.
  destruct (decide (P x)) as [HP|HP], (decide (Q x)) as [HQ|HQ].
  - f_equal. apply IH. intros y Hy. apply Hext. by right.
  - exfalso. apply HQ, Hext; [by left|done].
  - exfalso. apply HP, Hext; [by left|done].
  - apply IH. intros y Hy. apply Hext. by right.
Qed.

Lemma length_filter_fmap {A B : Type} (P : B -> Prop)
    `{!forall x, Decision (P x)} (f : A -> B) (l : list A) :
  length (filter P (f <$> l)) = length (filter (fun x => P (f x)) l).
Proof.
  induction l as [|x l IH]; [done|].
  rewrite fmap_cons, !filter_cons. case_decide; simpl; by rewrite IH.
Qed.

Lemma all_tags_elem (final : list tagged) (s : gset string) tag :
  tag ∈ fold_left (fun s t => s ∪ list_to_set (valid_tags t)) final s
  <-> tag ∈ s \/ exists t, t ∈ final /\ tag ∈ valid_tags t.
Proof.
  revert s. induction final as [|t ts IH]; intros s; simpl.
  - split; [by left|]. intros [?|(t & Ht & _)]; [done|].
    by apply elem_of_nil in Ht.
  - rewrite IH, elem_of_union, elem_of_list_to_set. split.
    + intros [[?|?]|(q & Hq & ?)]; [by left|right|right].
      * exists t. split; [by left|done].
      * exists q. split; [by right|done].
    + intros [?|(q & [->|Hq]%elem_of_cons & ?)]; [by left; left|by left; right|].
      right. by exists q.
Qed.

Lemma create_pairs_from {G : Type}
    (shuffle : G -> list string -> list string * G) sound_data
    (st : list pair * G) :
  (forall g l, (shuffle g l).1 ≡ₚ l) ->
  exists new,
    (fold_left
       (fun (st : list pair * G) t =>
          let tags := valid_tags t in
          let '(shuffled_tags, g') := shuffle st.2 tags in
          let input_tags := take 3 shuffled_tags in
          let ground_truth_tags := drop 3 shuffled_tags in
          (st.1 ++ [{| Pipeline.sound_id := sound_id (row t);
                       Pipeline.title := title (row t);
                       input_tags := input_tags;
                       ground_truth_tags := ground_truth_tags;
                       total_tags := length tags |}],
           g'))
       sound_data st).1 = st.1 ++ new
    /\ Forall2 case_of sound_data new.
Proof.
  intros Hperm. revert st. induction sound_data as [|t ts IH]; intros st.
  - exists []. simpl. by rewrite app_nil_r.
  - cbn [fold_left]. pose proof (Hperm st.2 (valid_tags t)) as Hp.
    destruct (shuffle st.2 (valid_tags t)) as [shuffled g'] eqn:Hs.
    simpl in Hp. cbv zeta.
    edestruct IH as (new & -> & Hall).
    eexists (_ :: new). cbn [fst]. rewrite <- app_assoc. split; [done|].
    constructor; [|done]. unfold case_of. simpl.
    split; [done|]. split; [done|]. split; [by rewrite take_drop|].
    split; [done|]. rewrite length_take, length_drop.
    apply Permutation_length in Hp. rewrite Hp. done.
Qed.

End PrepProps2.

Section PrepExtras.
Import DF DFProps StrProps DFExtra SpecDF Pipeline Prep SpecPrep PrepProps
  PrepProps2 PipelineProps.

(** X25.  From the data preparation to the DF estimator.  Every row of the
    filtered data has between 5 and 15 tags, each from the valid tagset,
    stripped and free of commas, so that splitting the written tag column
    gives the tags back.  The DF estimator therefore counts, for each tag,
    the rows of the filtered data that hold it (compared in lower case),
    and the document total is the number of rows. *)
Theorem prepared_corpus_counts (valid_tagset : gset string)
    (metadata_df : list sound) (t : string) :
  let final := final_df valid_tagset metadata_df in
  let corpus := output_tags final in
  let holders :=
    length (filter (fun x => t ∈ lower <$> valid_tags x) final) in
  Forall (fun x =>
            (5 <= length (valid_tags x) <= 15)%nat
            /\ Forall (fun tag => tag ∈ valid_tagset) (valid_tags x)
            /\ split "," (join "," (valid_tags x)) = valid_tags x)
         final
  /\ total_documents corpus = length final
  /\ documents_with t corpus = holders
  /\ tag_document_counts corpus !! t
     = (if decide (holders = 0%nat) then None else Some holders).
Proof.
  intros final corpus holders.
  assert (documents_with t corpus = holders) as Hdocs.
  { unfold documents_with, corpus, output_tags, holders.
    rewrite length_filter_fmap. f_equal.
    apply filter_ext_in. intros x Hx. simpl.
    rewrite (unique_tags_of_output valid_tagset metadata_df x Hx).
    by rewrite elem_of_list_to_set. }
  split; [|split; [|split]].
  - apply Forall_forall. intros x Hx.
    pose proof (final_df_elem _ _ _ Hx) as (Hlen & _ & Hv & _).
    split; [done|]. split.
    + apply Forall_forall. intros tag Htag. rewrite Hv in Htag.
      by apply parse_and_filter_tags_elem in Htag as (? & _).
    + apply split_join.
      * intros Hnil. rewrite Hnil in Hlen. simpl in Hlen. lia.
      * apply Forall_forall. intros tag Htag. rewrite Hv in Htag.
        by apply parse_and_filter_tags_elem in Htag as (_ & _ & ?).
  - unfold total_documents, corpus, output_tags. by rewrite length_fmap.
  - done.
  - rewrite tag_document_counts_lookup, Hdocs.
    destruct holders; by case_decide.
Qed.

(** X26.  The test cases.  Whatever permutation the shuffle produces, each
    row of the filtered data yields one test case, in order, whose input
    tags and ground-truth tags together are the valid tags of the row:
    exactly 3 input tags and between 2 and 12 ground-truth tags, so no
    test case has an empty ground truth.  The CLAP tagset is exactly the
    set of tags of the filtered data (the intersection with the valid
    tagset removes nothing), and it holds every input and ground-truth
    tag. *)
Theorem test_cases_split_the_valid_tags {G : Type}
    (shuffle : G -> list string -> list string * G) (g : G)
    (valid_tagset : gset string) (metadata_df : list sound) :
  (forall g l, (shuffle g l).1 ≡ₚ l) ->
  let final := final_df valid_tagset metadata_df in
  let test_data := (create_input_ground_truth_pairs shuffle g final).1 in
  Forall2 (fun t case =>
             Pipeline.sound_id case = sound_id (row t)
             /\ Pipeline.title case = title (row t)
             /\ input_tags case ++ ground_truth_tags case ≡ₚ valid_tags t
             /\ length (input_tags case) = 3%nat
             /\ (2 <= length (ground_truth_tags case) <= 12)%nat
             /\ total_tags case
                = (3 + length (ground_truth_tags case))%nat)
          final test_data
  /\ clap_tagset valid_tagset final = all_tags_in_filtered_data final
  /\ (forall tag, tag ∈ clap_tagset valid_tagset final
                  <-> exists t, t ∈ final /\ tag ∈ valid_tags t)
  /\ Forall (fun case =>
               forall tag, tag ∈ input_tags case ++ ground_truth_tags case ->
                           tag ∈ clap_tagset valid_tagset final)
            test_data.
Proof.
  intros Hperm final test_data.
  destruct (create_pairs_from shuffle final ([], g) Hperm) as (new & Hnew & Hall).
  simpl in Hnew. fold (create_input_ground_truth_pairs shuffle g final) in Hnew.
  fold test_data in Hnew. rewrite Hnew.
  assert (forall tag, tag ∈ all_tags_in_filtered_data final
                      <-> exists t, t ∈ final /\ tag ∈ valid_tags t) as Hall_tags.
  { intros tag. unfold all_tags_in_filtered_data. rewrite all_tags_elem.
    split; [intros [?|?]; [set_solver|done]|by right]. }
  assert (clap_tagset valid_tagset final = all_tags_in_filtered_data final)
    as Hclap.
  { apply set_eq. intros tag. unfold clap_tagset.
    rewrite elem_of_intersection. split; [by intros [_ ?]|].
    intros Hin. split; [|done].
    apply Hall_tags in Hin as (t & Ht & Htag).
    pose proof (final_df_elem _ _ _ Ht) as (_ & _ & Hv & _).
    rewrite Hv in Htag.
    by apply parse_and_filter_tags_elem in Htag as (? & _). }
  split; [|split; [done|split]].
  - eapply Forall2_impl_elem; [exact Hall|].
    intros t case Ht (Hid & Htitle & Hp & Htotal & Hin & Hgt).
    pose proof (final_df_elem _ _ _ Ht) as (Hlen & _).
    split; [done|]. split; [done|]. split; [done|]. lia.
  - intros tag. rewrite Hclap. apply Hall_tags.
  - eapply Forall2_Forall_r; [exact Hall|].
    apply Forall_forall. intros t Ht case (_ & _ & Hp & _) tag Htag.
    rewrite Hclap. apply Hall_tags. exists t. split; [done|].
    by rewrite <- Hp.
Qed.

(** [test_cases_split_the_valid_tags] for a shuffle that reverses the
    list, on one sound with five valid tags. *)
Lemma test_cases_split_the_valid_tags_witness :
  let shuffle := fun (g : unit) (l : list string) => (reverse l, g) in
  let valid_tagset : gset string :=
    list_to_set ["rain"; "wind"; "storm"; "water"; "field"] in
  let metadata_df :=
    [{| sound_id := 300000; title := "storm";
        tags := Some "rain, wind, storm, water, field, noise" |}] in
  (create_input_ground_truth_pairs shuffle tt
     (final_df valid_tagset metadata_df)).1
  = [{| Pipeline.sound_id := 300000; Pipeline.title := "storm";
        input_tags := ["field"; "water"; "storm"];
        ground_truth_tags := ["wind"; "rain"]; total_tags := 5 |}]
  /\ Forall (fun case => length (input_tags case) = 3%nat)
       (create_input_ground_truth_pairs shuffle tt
          (final_df valid_tagset metadata_df)).1.
Proof.
  intros shuffle valid_tagset metadata_df.
  split; [vm_compute; reflexivity|].
  destruct (test_cases_split_the_valid_tags shuffle tt valid_tagset metadata_df)
    as [Hall _].
  { intros g l. simpl. apply reverse_Permutation. }
  eapply Forall2_Forall_r; [exact Hall|].
  apply Forall_forall. intros t _ case (_ & _ & _ & Hlen & _). exact Hlen.
Defined.

End PrepExtras.

(** ** Exact and semantic hits over a run *)

Module SemanticRunProps.
Import Builtins PyProps ScorerProps LoaderProps Loader Scorer Eval EvalProps
  MetricsProps HitProps ScorerExtra HitExtra MetricsExtra LoaderExtra ShapeExtra
  Pipeline PipelineProps Report SpecReport ReportProps SbertReport
  SbertReportProps SpecCosine CosineProps.

Lemma insert_items_values (items : list (string * list R))
    (d : gmap string (list R)) k v :
  fold_left (fun d x => <[x.1 := x.2]> d) items d !! k = Some v ->
  v ∈ items.*2 \/ d !! k = Some v.
Proof.
  revert d. induction items as [|[k' v'] items IH]; intros d Hk; simpl in *.
  - by right.
  - apply IH in Hk as [Hk|Hk]; [left; by right|].
    destruct (decide (k' = k)) as [->|Hne].
    + rewrite lookup_insert_eq in Hk. simplify_eq. left. by left.
    + rewrite lookup_insert_ne in Hk by done. by right.
Qed.

Lemma tag_to_sbert_values encode filtered_pairs clap_tags t e :
  tag_to_sbert encode filtered_pairs clap_tags !! t = Some e ->
  e ∈ encode (all_unique_tags filtered_pairs clap_tags).
Proof.
  unfold tag_to_sbert. intros [Hin|Hemp]%insert_items_values.
  - apply list_elem_of_fmap in Hin as ([k v] & -> & Hin).
    by apply elem_of_zip_r in Hin.
  - by rewrite lookup_empty in Hemp.
Qed.

(** One clip of the notebook's own run: every exact hit is a semantic
    hit. *)
Lemma any_exact_hits_included cosine_similarity encode clap_tags
    (tag_embeddings : dict text_embeds) tag_df_scores thr
    (filtered_pairs : list pair) p a r :
  (forall tags, length (encode tags) = length tags) ->
  (forall tags, Forall (self_similar cosine_similarity thr) (encode tags)) ->
  p ∈ filtered_pairs ->
  WithCosine.evaluate_clip_sbert cosine_similarity a tag_embeddings
    tag_df_scores (tag_to_sbert encode filtered_pairs clap_tags) thr
    (ground_truth_tags p) = Ok r ->
  (forall t, t ∈ sr_exact_hits r -> t ∈ sr_semantic_hits r)
  /\ (sr_num_exact_hits r <= sr_num_semantic_hits r)%nat.
Proof.
  intros Hlen Hself Hp Hrun.
  set (sbert := tag_to_sbert encode filtered_pairs clap_tags) in *.
  unfold WithCosine.evaluate_clip_sbert in Hrun.
  destruct (WithCosine.get_tag_recommendations_df_weighted _ _ _ _ _)
    as [rec|e] eqn:Hrec; cbn in Hrun; [|done].
  destruct (WithCosine.compute_semantic_hits _ _ _ _ _)
    as [[hits matches]|e] eqn:Hsem; cbn in Hrun; [|done].
  destruct (clip_metrics _ _) as [m|e]; cbn in Hrun; [|done].
  simplify_eq.
  cbn [sr_exact_hits sr_semantic_hits sr_num_exact_hits sr_num_semantic_hits].
  assert (forall t, t ∈ exact_hits (top_tags rec) (lower <$> ground_truth_tags p)
                    -> t ∈ hits) as Hsub.
  { intros t Ht. unfold exact_hits in Ht. apply elem_of_elements in Ht.
    eapply any_exact_hits_are_hits; [| |exact Hsem|exact Ht].
    - intros e He.
      pose proof (Hself (all_unique_tags filtered_pairs clap_tags)) as Hall.
      rewrite Forall_forall in Hall. apply Hall.
      by eapply tag_to_sbert_values.
    - apply tag_to_sbert_covers; [done|]. apply all_unique_tags_elem. right.
      exists p. split; [done|].
      unfold exact_hit_set in Ht. apply elem_of_intersection in Ht as [_ Ht].
      by apply elem_of_list_to_set in Ht. }
  split; [done|].
  apply submseteq_length, NoDup_submseteq; [|done].
  unfold exact_hits. apply NoDup_elements.
Qed.

(** The figure of the last print of the results cell, when the cell
    returns. *)
Lemma improvement_formula (rs : list semantic_result) m :
  overall_metrics rs = Ok m ->
  sum_list_with sr_num_exact_hits rs <> 0%nat
  /\ improvement m
     = ((INR (sum_list_with sr_num_semantic_hits rs)
         / INR (sum_list_with sr_num_exact_hits rs) - 1) * 100)%R.
Proof.
  unfold overall_metrics. intros Hm.
  destruct (truediv (INR (sum_list_with sr_num_semantic_hits rs))
              (INR (length rs * 10))) as [P|]; [|done].
  destruct (truediv (INR (sum_list_with sr_num_semantic_hits rs))
              (INR (sum_list_with (fun r => length (sr_ground_truth_tags r)) rs)))
    as [Rc|]; [|done].
  cbv [mbind result_bind Py.bind] in Hm. cbv beta iota in Hm.
  destruct (f1_of P Rc) as [F|]; [|done].
  unfold truediv in Hm.
  destruct (Req_dec_T (INR (sum_list_with sr_num_exact_hits rs)) 0)
    as [H0|H0]; [done|].
  simplify_eq. simpl. split; [|done].
  intros Hz. apply H0. by rewrite Hz.
Qed.

End SemanticRunProps.

Section SemanticRunExtras.
Import Builtins PyProps ScorerProps LoaderProps Loader Scorer Eval EvalProps
  MetricsProps HitProps ScorerExtra HitExtra MetricsExtra LoaderExtra ShapeExtra
  Pipeline PipelineProps Report SpecReport ReportProps SbertReport
  SbertReportProps SemanticRunProps SpecCosine CosineProps.

(** X27.  The SBERT notebook's own run, for any function in the place of
    [cosine_similarity].  When the sentence encoder returns one row per
    phrase and the similarity computed between each phrase embedding and
    itself reaches the threshold, then in every evaluated clip each exact
    hit is also a semantic hit.  Hence no clip has more exact than
    semantic hits, the totals compare the same way, and the improvement
    the results cell prints is never negative. *)
Theorem semantic_hits_extend_exact_hits
    (cosine_similarity :
       list (list R) -> list (list R) -> result (list (list R)))
    (encode : list string -> list (list R)) (clap_tags : list string)
    (tag_embeddings : dict text_embeds)
    (tag_df_scores : gmap string R) (SIMILARITY_THRESHOLD : R)
    (filtered_pairs : list pair) (audio_embeddings : gmap Z (list R))
    (results : list (evaluated semantic_result)) :
  (forall tags, length (encode tags) = length tags) ->
  (forall tags,
     Forall (self_similar cosine_similarity SIMILARITY_THRESHOLD)
            (encode tags)) ->
  WithCosine.sbert_results cosine_similarity tag_embeddings tag_df_scores
    (tag_to_sbert encode filtered_pairs clap_tags) SIMILARITY_THRESHOLD
    filtered_pairs audio_embeddings = Ok results ->
  let rs := ev_result <$> results in
  Forall (fun r =>
            (forall t, t ∈ sr_exact_hits r -> t ∈ sr_semantic_hits r)
            /\ (sr_num_exact_hits r <= sr_num_semantic_hits r)%nat) rs
  /\ (sum_list_with sr_num_exact_hits rs
      <= sum_list_with sr_num_semantic_hits rs)%nat
  /\ (forall m, overall_metrics rs = Ok m -> (0 <= improvement m)%R).
Proof.
  intros Hlen Hself Hrun rs.
  assert (Forall (fun r =>
            (forall t, t ∈ sr_exact_hits r -> t ∈ sr_semantic_hits r)
            /\ (sr_num_exact_hits r <= sr_num_semantic_hits r)%nat) rs)
    as Hall.
  { pose proof (evaluation_loop_inv _ _ _ _ Hrun) as Hnew.
    apply Forall_fmap. eapply Forall2_Forall_r.
    - eapply Forall2_impl_elem; [exact Hnew|].
      intros p e Hp Hentry. exact (conj Hp Hentry).
    - apply Forall_forall. intros p _ e (Hp & _ & _ & a & _ & Hr). simpl.
      apply list_elem_of_filter in Hp as [_ Hp].
      by eapply any_exact_hits_included. }
  assert (sum_list_with sr_num_exact_hits rs
          <= sum_list_with sr_num_semantic_hits rs)%nat as Hsum.
  { apply sum_list_with_le. eapply Forall_impl; [exact Hall|].
    by intros r [_ ?]. }
  split; [exact Hall|]. split; [exact Hsum|].
  intros m Hm. apply improvement_formula in Hm as [Hex ->].
  apply le_INR in Hsum.
  assert (0 < INR (sum_list_with sr_num_exact_hits rs))%R as Hpos.
  { apply lt_0_INR. lia. }
  assert (1 <= INR (sum_list_with sr_num_semantic_hits rs)
               / INR (sum_list_with sr_num_exact_hits rs))%R.
  { apply (Rmult_le_reg_r (INR (sum_list_with sr_num_exact_hits rs)));
      [done|]. unfold Rdiv. rewrite Rmult_assoc, Rinv_l by lra. lra. }
  lra.
Qed.

(** [semantic_hits_extend_exact_hits] for the exact [Np.cosine_similarity]
    on a run with one clip, the premises checked by evaluation. *)
Lemma semantic_hits_extend_exact_hits_witness :
  let clip := {| sound_id := 7%Z; title := "rain on a roof"; input_tags := [];
                 ground_truth_tags := ["Rain"]; total_tags := 4 |} in
  let encode := fun tags : list string => (fun _ => [1%R]) <$> tags in
  exists results,
    sbert_results [("rain", [[1%R]])] ∅ (tag_to_sbert encode [clip] ["rain"])
      (7 / 10) [clip] {[ 7%Z := [1%R] ]} = Ok results
    /\ (sum_list_with sr_num_exact_hits (ev_result <$> results)
        <= sum_list_with sr_num_semantic_hits (ev_result <$> results))%nat.
Proof.
  intros clip encode.
  set (sbert := tag_to_sbert encode [clip] ["rain"]).
  destruct (evaluate_clip_sbert_total [1%R] [("rain", [[1%R]])] ∅ sbert
              (7 / 10) (ground_truth_tags clip) 1 rain_compatible)
    as [r Hr]; [lia| |].
  { intros t e Ht. apply tag_to_sbert_values in Ht. unfold encode in Ht.
    by apply list_elem_of_fmap in Ht as (? & -> & _). }
  assert (sbert_results [("rain", [[1%R]])] ∅ sbert (7 / 10) [clip]
            {[ 7%Z := [1%R] ]}
          = Ok [{| ev_sound_id := 7%Z; ev_title := "rain on a roof";
                   ev_result := r |}]) as Hrun.
  { unfold sbert_results, evaluation_loop. cbn [for_each sound_id clip].
    rewrite lookup_singleton_eq. by rewrite Hr. }
  eexists. split; [exact Hrun|].
  refine (proj1 (proj2 (semantic_hits_extend_exact_hits Np.cosine_similarity
                          encode ["rain"] [("rain", [[1%R]])] ∅ (7 / 10)
                          [clip] {[ 7%Z := [1%R] ]} _ _ _ Hrun))).
  - intros tags. unfold encode. by rewrite length_fmap.
  - intros tags. unfold encode. apply Forall_fmap, Forall_forall.
    intros t _. simpl. exists 1%R. split; [|lra].
    exact pair_similarity_unit.
Defined.

End SemanticRunExtras.

(** ** The cutoff, and the statistics of the DF scores *)

Module CutoffProps.
Import PyProps ScorerProps Loader Scorer SpecCutoff.

Lemma slice_to_kept {A : Type} (l : list A) (k : Z) :
  slice_to l k = take (kept (length l) k) l.
Proof.
  unfold slice_to, kept. destruct (0 <=? k)%Z; [|done].
  rewrite <- (take_take l (Z.to_nat k) (length l)).
  by rewrite firstn_all.
Qed.

End CutoffProps.

Section CutoffExtras.
Import PyProps ScorerProps Loader Scorer SpecCutoff CutoffProps.

(** X28.  The cutoff only truncates one and the same ranking.  Both
    recommenders rank the whole vocabulary and then slice with [[:top_k]]:
    what they return for a cutoff [K] is a prefix of what they return for a
    cutoff that covers the vocabulary.  A cutoff of 0 returns nothing, and
    a negative cutoff [-j] does not fail: it returns everything but the
    [j] lowest-ranked tags. *)
Theorem cutoff_truncates_one_ranking (audio_embedding : list R)
    (tag_embeddings : dict text_embeds) (tag_df_scores : gmap string R)
    (K Kfull : Z) :
  (Z.of_nat (length tag_embeddings) <= Kfull)%Z ->
  (forall tags scores all_tags all_scores,
     get_tag_recommendations audio_embedding tag_embeddings K
       = Ok (tags, scores) ->
     get_tag_recommendations audio_embedding tag_embeddings Kfull
       = Ok (all_tags, all_scores) ->
     tags = take (kept (length all_tags) K) all_tags
     /\ scores = take (kept (length all_tags) K) all_scores
     /\ length scores = length tags
     /\ length tags = kept (length all_tags) K)
  /\ (forall rec all,
        get_tag_recommendations_df_weighted audio_embedding tag_embeddings
          tag_df_scores K = Ok rec ->
        get_tag_recommendations_df_weighted audio_embedding tag_embeddings
          tag_df_scores Kfull = Ok all ->
        let m := kept (length (top_tags all)) K in
        top_tags rec = take m (top_tags all)
        /\ top_scores rec = take m (top_scores all)
        /\ top_base_scores rec = take m (top_base_scores all)
        /\ top_df_weights rec = take m (top_df_weights all)
        /\ length (top_tags rec) = m).
Proof.
  intros HK.
  assert (forall (A : Type) (key : string * A -> R) (sims : list (string * A)),
            length sims <= length tag_embeddings ->
            slice_to (sorted_reverse key sims) Kfull = sorted_reverse key sims)
    as Hfull.
  { intros A key sims Hlen. rewrite slice_to_kept, sorted_reverse_length.
    unfold kept. destruct (Z.leb_spec 0 Kfull) as [_|?]; [|lia].
    rewrite <- (sorted_reverse_length key sims) at 1.
    apply take_ge. rewrite sorted_reverse_length. lia. }
  assert (forall (A : Type)
                 (body : dict A -> string * text_embeds -> result (dict A))
                 (sims : list (string * A)),
            keyed (fst : string * text_embeds -> string) body ->
            for_each body [] tag_embeddings = Ok sims ->
            length sims <= length tag_embeddings) as Hsize.
  { intros A body sims Hkeyed Hloop.
    pose proof (keyed_keys_fold _ _ Hkeyed [] tag_embeddings sims Hloop) as Hk.
    pose proof (CellProps.fold_add_key_length (fst <$> tag_embeddings)
                  (dict_keys ([] : dict A))) as Hle.
    rewrite <- Hk in Hle. unfold dict_keys in Hle.
    rewrite !length_fmap in Hle. simpl in Hle. lia. }
  split.
  - intros tags scores all_tags all_scores Hrun Hall.
    unfold get_tag_recommendations in Hrun, Hall.
    case_loop Hrun sims Hloop; cbn in Hrun, Hall; [|done].
    pose proof (Hsize _ _ sims (baseline_body_keyed audio_embedding) Hloop)
      as Hlen.
    rewrite (Hfull _ snd sims Hlen) in Hall. simplify_eq.
    rewrite slice_to_kept, !fmap_take, !length_fmap.
    split; [done|]. split; [done|].
    rewrite !length_take, !length_fmap. split; [done|].
    unfold kept. case_match; lia.
  - intros rec all Hrun Hall m.
    unfold get_tag_recommendations_df_weighted in Hrun, Hall.
    case_loop Hrun sims Hloop; cbn in Hrun, Hall; [|done].
    pose proof (Hsize _ _ sims (df_body_keyed audio_embedding tag_df_scores)
                  Hloop) as Hlen.
    rewrite (Hfull _ (fun x => weighted_similarity x.2) sims Hlen) in Hall.
    simplify_eq. unfold m. simpl.
    rewrite slice_to_kept, !fmap_take, !length_fmap.
    split; [done|]. split; [done|]. split; [done|]. split; [done|].
    rewrite length_take, length_fmap. unfold kept. case_match; lia.
Qed.

(** [cutoff_truncates_one_ranking] for the cutoff -1 on a vocabulary of
    two tags, its premise checked by evaluation. *)
Lemma cutoff_truncates_one_ranking_witness :
  let vocabulary : dict text_embeds :=
    [("rain", [[1; 0]]%R); ("wind", [[0; 1]]%R)] in
  (Z.of_nat (length vocabulary) <= 10)%Z
  /\ forall tags scores all_tags all_scores,
       get_tag_recommendations [1; 1]%R vocabulary (-1) = Ok (tags, scores) ->
       get_tag_recommendations [1; 1]%R vocabulary 10
         = Ok (all_tags, all_scores) ->
       tags = take (length all_tags - 1) all_tags.
Proof.
  intros vocabulary.
  assert (Z.of_nat (length vocabulary) <= 10)%Z as HK by (simpl; lia).
  split; [exact HK|]. intros tags scores all_tags all_scores Hrun Hall.
  destruct (cutoff_truncates_one_ranking [1; 1]%R vocabulary ∅ (-1) 10 HK)
    as [Hbase _].
  by destruct (Hbase tags scores all_tags all_scores Hrun Hall) as (-> & _).
Defined.

End CutoffExtras.

Module StatisticsProps.
Import DF DFProps.

(** [min] and [max] of a non-empty list are attained and bound the
    list. *)
Lemma fold_Rmin l x0 :
  fold_left Rmin l x0 ∈ x0 :: l
  /\ forall y, y ∈ x0 :: l -> (fold_left Rmin l x0 <= y)%R.
Proof.
  revert x0. induction l as [|z l IH]; intros x0; simpl.
  - split; [by left|]. intros y Hy. apply list_elem_of_singleton in Hy as ->. lra.
  - destruct (IH (Rmin x0 z)) as [Hin Hle]. split.
    + apply elem_of_cons in Hin as [->|Hin]; [|right; by right].
      unfold Rmin. destruct (Rle_dec x0 z); [by left|right; by left].
    + intros y Hy.
      assert (fold_left Rmin l (Rmin x0 z) <= Rmin x0 z)%R as Hm
        by (apply Hle; by left).
      pose proof (Rmin_l x0 z). pose proof (Rmin_r x0 z).
      apply elem_of_cons in Hy as [->|Hy]; [lra|].
      apply elem_of_cons in Hy as [->|Hy]; [lra|]. apply Hle. by right.
Qed.

Lemma fold_Rmax l x0 :
  fold_left Rmax l x0 ∈ x0 :: l
  /\ forall y, y ∈ x0 :: l -> (y <= fold_left Rmax l x0)%R.
Proof.
  revert x0. induction l as [|z l IH]; intros x0; simpl.
  - split; [by left|]. intros y Hy. apply list_elem_of_singleton in Hy as ->. lra.
  - destruct (IH (Rmax x0 z)) as [Hin Hle]. split.
    + apply elem_of_cons in Hin as [->|Hin]; [|right; by right].
      unfold Rmax. destruct (Rle_dec x0 z); [right; by left|by left].
    + intros y Hy.
      assert (Rmax x0 z <= fold_left Rmax l (Rmax x0 z))%R as Hm
        by (apply Hle; by left).
      pose proof (Rmax_l x0 z). pose proof (Rmax_r x0 z).
      apply elem_of_cons in Hy as [->|Hy]; [lra|].
      apply elem_of_cons in Hy as [->|Hy]; [lra|]. apply Hle. by right.
Qed.

Lemma df_score_statistics_spec st :
  scores st <> ∅ ->
  exists lo hi,
    df_score_statistics st = Ok (lo, hi)
    /\ (exists t, scores st !! t = Some lo)
    /\ (exists t, scores st !! t = Some hi)
    /\ forall t w, scores st !! t = Some w -> (lo <= w <= hi)%R.
Proof.
  intros Hne. unfold df_score_statistics.
  assert (forall w, w ∈ (map_to_list (scores st)).*2
                    <-> exists t, scores st !! t = Some w) as Hvals.
  { intros w. rewrite list_elem_of_fmap. split.
    - intros ([t w'] & -> & Hin). exists t. by apply elem_of_map_to_list.
    - intros [t Ht]. exists (t, w). split; [done|].
      by apply elem_of_map_to_list. }
  destruct (map_to_list (scores st)).*2 as [|x l] eqn:Hl.
  { exfalso. apply Hne. apply map_to_list_empty_iff.
    by apply fmap_nil_inv in Hl. }
  simpl. destruct (fold_Rmin l x) as [Hmin_in Hmin].
  destruct (fold_Rmax l x) as [Hmax_in Hmax].
  eexists _, _. split; [done|]. split; [by apply Hvals|].
  split; [by apply Hvals|].
  intros t w Hw. assert (w ∈ x :: l) as Hin by (apply Hvals; by exists t).
  split; [by apply Hmin|by apply Hmax].
Qed.

Lemma df_score_statistics_empty st :
  scores st = ∅ -> df_score_statistics st = Raise ValueError.
Proof.
  intros Hemp. unfold df_score_statistics. by rewrite Hemp, map_to_list_empty.
Qed.

Lemma weight_of_range ALPHA counts N t :
  counts_bounded counts N -> (0 <= ALPHA <= 1)%R ->
  (1 - ALPHA <= weight_of ALPHA counts N t <= 1)%R.
Proof.
  intros Hb Halpha. unfold weight_of.
  destruct (counts !! lower t) as [c|] eqn:Hc; [|lra].
  apply Hb in Hc as [Hc1 HcN].
  assert (1 <= N)%nat as HN by lia.
  pose proof (ln_total_pos N HN) as Hpos.
  pose proof (ln_count_nonneg c) as H0.
  pose proof (ln_count_le c N HcN) as Hle.
  assert (0 <= ln (INR (1 + c)) / ln (INR (1 + N)) <= 1)%R as [Hr0 Hr1].
  { split.
    - apply Rmult_le_pos; [done|]. left. by apply Rinv_0_lt_compat.
    - apply (Rmult_le_reg_r (ln (INR (1 + N)))); [done|].
      unfold Rdiv. rewrite Rmult_assoc, Rinv_l by lra. lra. }
  nra.
Qed.

End StatisticsProps.

Section StatisticsExtras.
Import DF DFProps StatisticsProps.

(** X29.  The two DF cells on a corpus and a vocabulary.  On an empty
    vocabulary the statistics lines fail: [min] of an empty list raises
    [ValueError].  On a non-empty vocabulary the cells return, whatever the
    corpus; the printed minimum and maximum are the weights of two
    vocabulary tags and bound every weight of the table; and for [alpha]
    in [[0, 1]] they lie in [[1 - alpha, 1]]. *)
Theorem df_cells_report (ALPHA : R) (metadata_df clap_tags : list string) :
  (clap_tags = [] -> df_cells ALPHA metadata_df clap_tags = Raise ValueError)
  /\ (clap_tags <> [] ->
      exists st lo hi,
        df_cells ALPHA metadata_df clap_tags = Ok st
        /\ df_score_statistics st = Ok (lo, hi)
        /\ (exists t, t ∈ clap_tags /\ scores st !! t = Some lo)
        /\ (exists t, t ∈ clap_tags /\ scores st !! t = Some hi)
        /\ (forall t w, scores st !! t = Some w -> (lo <= w <= hi)%R)
        /\ ((0 <= ALPHA <= 1)%R -> (1 - ALPHA <= lo)%R /\ (hi <= 1)%R)).
Proof.
  pose proof (tag_document_counts_bounded metadata_df) as Hb.
  unfold df_cells.
  set (counts := tag_document_counts metadata_df) in *.
  set (N := total_documents metadata_df) in *.
  destruct (tag_df_scores_run ALPHA counts N clap_tags empty_mapping)
    as (st & Hrun & Hin & Hout & _).
  { intros t _. unfold no_division_by_zero.
    destruct (counts !! lower t) as [c|] eqn:Hc; [left|by right].
    apply Hb in Hc. lia. }
  unfold tag_df_scores. rewrite Hrun. cbn [mbind result_bind Py.bind].
  assert (forall t w, scores st !! t = Some w ->
            t ∈ clap_tags /\ w = weight_of ALPHA counts N t) as Hdom.
  { intros t w Hw. destruct (decide (t ∈ clap_tags)) as [Ht|Ht].
    - split; [done|]. rewrite (Hin t Ht) in Hw. by simplify_eq.
    - rewrite (Hout t Ht) in Hw. simpl in Hw. by rewrite lookup_empty in Hw. }
  split.
  - intros ->. rewrite df_score_statistics_empty; [done|].
    apply map_eq. intros t. rewrite lookup_empty.
    destruct (scores st !! t) as [w|] eqn:Hw; [|done].
    apply Hdom in Hw as [Ht _]. by apply elem_of_nil in Ht.
  - intros Hne.
    destruct (df_score_statistics_spec st) as (lo & hi & Hs & [tl Hl] & [th Hh] & Hbd).
    { destruct clap_tags as [|t ts]; [done|]. intros Hemp.
      specialize (Hin t (list_elem_of_here _ _)).
      rewrite Hemp, lookup_empty in Hin. done. }
    exists st, lo, hi. rewrite Hs. cbn.
    split; [done|]. split; [done|].
    destruct (Hdom _ _ Hl) as [Htl Hlo], (Hdom _ _ Hh) as [Hth Hhi].
    split; [by exists tl|]. split; [by exists th|]. split; [done|].
    intros Halpha.
    pose proof (weight_of_range ALPHA counts N tl Hb Halpha).
    pose proof (weight_of_range ALPHA counts N th Hb Halpha). lra.
Qed.

End StatisticsExtras.

(** ** The DF run and the SBERT run *)

Module CompareProps.
Import Builtins PyProps ScorerProps LoaderProps Loader Scorer Eval EvalProps
  MetricsProps HitProps Pipeline PipelineProps Report SpecReport ReportProps
  SpecCompare.

Lemma Forall2_join {A B C : Type} (P : A -> B -> Prop) (Q : A -> C -> Prop)
    (l : list A) (k1 : list B) (k2 : list C) :
  Forall2 P l k1 -> Forall2 Q l k2 ->
  Forall2 (fun y z => exists x, x ∈ l /\ P x y /\ Q x z) k1 k2.
Proof.
  intros H1. revert k2. induction H1 as [|x y l k1 Hxy _ IH]; intros k2 H2.
  - apply Forall2_nil_inv_l in H2 as ->. constructor.
  - apply Forall2_cons_inv_l in H2 as (z & k2' & Hxz & H2 & ->).
    constructor.
    + exists x. split; [by left|done].
    + eapply Forall2_impl; [by apply IH|].
      intros y' z' (x' & Hx' & ?). exists x'. split; [by right|done].
Qed.

(** The two loop bodies on one clip. *)
Lemma same_clip a te dfs sbert thr gt (d : exact_result) (s : semantic_result) :
  evaluate_clip_df a te dfs gt = Ok d ->
  evaluate_clip_sbert a te dfs sbert thr gt = Ok s ->
  er_ground_truth_tags d = sr_ground_truth_tags s
  /\ er_predicted_tags d = sr_predicted_tags s
  /\ er_hits d ≡ₚ sr_exact_hits s
  /\ er_num_hits d = sr_num_exact_hits s.
Proof.
  unfold evaluate_clip_df, evaluate_clip_sbert. intros Hd Hs.
  destruct (get_tag_recommendations_df_weighted _ _ _ _) as [rec|e];
    cbn in Hd, Hs; [|done].
  destruct (compute_semantic_hits _ _ _ _) as [[hits matches]|e];
    cbn in Hs; [|done].
  destruct (clip_metrics (exact_hits _ _) _) as [m|e]; cbn in Hd; [|done].
  destruct (clip_metrics hits _) as [m'|e]; cbn in Hs; [|done].
  simplify_eq. simpl. done.
Qed.

(** The DF loop body returns whenever the SBERT loop body does. *)
Lemma df_returns_when_sbert_does a te dfs sbert thr gt s :
  evaluate_clip_sbert a te dfs sbert thr gt = Ok s ->
  exists d, evaluate_clip_df a te dfs gt = Ok d.
Proof.
  unfold evaluate_clip_df, evaluate_clip_sbert. intros Hs.
  destruct (get_tag_recommendations_df_weighted _ _ _ _) as [rec|e];
    cbn in Hs; [|done].
  cbn.
  destruct (clip_metrics_spec (exact_hits (top_tags rec) (lower <$> gt))
              (lower <$> gt)) as (m & -> & _).
  cbn. by eexists.
Qed.

End CompareProps.

Section CompareExtras.
Import Builtins PyProps ScorerProps LoaderProps Loader Scorer Eval EvalProps
  MetricsProps HitProps ShapeExtra Pipeline PipelineProps Report SpecReport
  ReportProps SbertReportProps SpecCompare CompareProps.

(** X30.  The SBERT notebook changes the evaluation, not the
    recommendations.  Run on the same clips, audio embeddings, tag
    embeddings and weight table, its loop and the loop of the DF notebook
    produce results for the same clips in the same order, with the same
    ground truth and the same predicted tags, and the hits of the DF
    notebook are, up to their order, the exact hits the SBERT notebook
    keeps for comparison (the order of a list made from a set is not the
    same in two runs); so the total number of hits of the one is the
    total number of exact hits of the other.  Whenever the SBERT loop
    returns, the DF loop returns as well. *)
Theorem sbert_run_ranks_like_df_run (tag_embeddings : dict text_embeds)
    (tag_df_scores : gmap string R) (tag_to_sbert : gmap string (list R))
    (SIMILARITY_THRESHOLD : R) (filtered_pairs : list pair)
    (audio_embeddings : gmap Z (list R))
    (sbert : list (evaluated semantic_result)) :
  sbert_results tag_embeddings tag_df_scores tag_to_sbert SIMILARITY_THRESHOLD
    filtered_pairs audio_embeddings = Ok sbert ->
  exists df,
    df_results tag_embeddings tag_df_scores filtered_pairs audio_embeddings
    = Ok df
    /\ Forall2 same_ranking df sbert
    /\ sum_list_with er_num_hits (ev_result <$> df)
       = sum_list_with sr_num_exact_hits (ev_result <$> sbert).
Proof.
  intros Hs.
  assert (exists df,
            df_results tag_embeddings tag_df_scores filtered_pairs
              audio_embeddings = Ok df) as [df Hd].
  { unfold df_results, evaluation_loop. apply for_each_total.
    intros results p Hp.
    destruct (audio_embeddings !! sound_id p) as [a|] eqn:Ha; [|by eexists].
    pose proof (evaluation_loop_inv _ _ _ _ Hs) as Hall.
    assert (p ∈ filter (fun p => is_Some (audio_embeddings !! sound_id p))
                  filtered_pairs) as Hp'.
    { apply list_elem_of_filter. split; [by eexists|done]. }
    apply list_elem_of_lookup in Hp' as [i Hi].
    destruct (Forall2_lookup_l _ _ _ _ _ Hall Hi)
      as (e & _ & _ & _ & a' & Ha' & Hr).
    rewrite Ha in Ha'. simplify_eq.
    destruct (df_returns_when_sbert_does _ _ _ _ _ _ _ Hr) as [d ->].
    cbn. by eexists. }
  exists df. split; [exact Hd|].
  pose proof (evaluation_loop_inv _ _ _ _ Hs) as Hsall.
  pose proof (evaluation_loop_inv _ _ _ _ Hd) as Hdall.
  assert (Forall2 same_ranking df sbert) as Hsame.
  { eapply Forall2_impl; [exact (Forall2_join _ _ _ _ _ Hdall Hsall)|].
    intros d s (p & _ & (Hid & Htitle & a & Ha & Hrd)
                       & (Hid' & Htitle' & a' & Ha' & Hrs)).
    rewrite Ha in Ha'. simplify_eq.
    destruct (same_clip _ _ _ _ _ _ _ _ Hrd Hrs) as (? & ? & ? & ?).
    unfold same_ranking. rewrite Hid, Hid', Htitle, Htitle'.
    split; [done|]. split; [done|]. split; [done|]. split; [done|].
    split; done. }
  split; [exact Hsame|].
  clear -Hsame. induction Hsame as [|d s df sbert Hds _ IH]; [done|].
  rewrite !fmap_cons. cbn [sum_list_with]. rewrite IH.
  by destruct Hds as (_ & _ & _ & _ & _ & ->).
Qed.

(** [sbert_run_ranks_like_df_run] on a run with one clip, the premise
    checked by evaluation. *)
Lemma sbert_run_ranks_like_df_run_witness :
  let sbert_table : gmap string (list R) :=
    <["rain" := [1%R]]> (<["storm" := [1%R]]> ∅) in
  let clip := {| sound_id := 7%Z; title := "a storm"; input_tags := [];
                 ground_truth_tags := ["Storm"]; total_tags := 4 |} in
  exists df,
    df_results [("rain", [[1%R]])] ∅ [clip] {[ 7%Z := [1%R] ]} = Ok df
    /\ sum_list_with er_num_hits (ev_result <$> df) = 0%nat.
Proof.
  intros sbert_table clip.
  destruct one_clip_sbert_run as (r & Hrun & _ & Hex).
  destruct (sbert_run_ranks_like_df_run _ _ _ _ _ _ _ Hrun)
    as (df & Hdf & _ & Hsum).
  exists df. split; [exact Hdf|]. rewrite Hsum. simpl. by rewrite Hex.
Defined.

End CompareExtras.

(** ** The ranking, its ties and the cutoff *)

Module RankProps.
Import PyProps ScorerProps Loader Scorer SpecCutoff CutoffProps SpecRank.

Section Rank.
Context {A : Type} (key : A -> R).
Implicit Types (x y : A) (l s : list A).

Lemma count_gt_le_ge v l : (count_gt key v l <= count_ge key v l)%nat.
Proof.
  unfold count_gt, count_ge. induction l as [|y l IH]; simpl; [done|].
  destruct (Rlt_dec v (key y)), (Rle_dec v (key y)); try lia. lra.
Qed.

Lemma count_ge_app v l1 l2 :
  count_ge key v (l1 ++ l2) = (count_ge key v l1 + count_ge key v l2)%nat.
Proof. unfold count_ge. induction l1; simpl; lia. Qed.

Lemma count_gt_app v l1 l2 :
  count_gt key v (l1 ++ l2) = (count_gt key v l1 + count_gt key v l2)%nat.
Proof. unfold count_gt. induction l1; simpl; lia. Qed.

Lemma count_gt_perm v l1 l2 : l1 ≡ₚ l2 -> count_gt key v l1 = count_gt key v l2.
Proof.
  unfold count_gt. induction 1; simpl; try lia.
Qed.

(** In a list sorted by descending score nothing outscores an item that
    is not outscored by the head. *)
Lemma count_gt_sorted x y s :
  StronglySorted (desc key) (y :: s) -> ~ (key x < key y)%R ->
  count_gt key (key x) (y :: s) = 0%nat.
Proof.
  intros Hs Hxy. apply StronglySorted_inv in Hs as [_ Hall].
  unfold count_gt. simpl. destruct (Rlt_dec (key x) (key y)); [done|].
  induction s as [|z s IH]; simpl; [done|].
  apply Forall_cons in Hall as [Hz Hall]. unfold desc in Hz.
  destruct (Rlt_dec (key x) (key z)); [lra|]. by apply IH.
Qed.

(** Where [insert_desc] puts the new item, and where it leaves the
    others. *)
Lemma insert_desc_place x s :
  StronglySorted (desc key) s ->
  insert_desc key x s !! count_gt key (key x) s = Some x.
Proof.
  induction s as [|y s IH]; intros Hs; [done|]. cbn [insert_desc].
  destruct (Rlt_dec (key x) (key y)) as [Hlt|Hge].
  - replace (count_gt key (key x) (y :: s))
      with (S (count_gt key (key x) s)).
    + simpl. apply IH. by apply StronglySorted_inv in Hs as [? _].
    + unfold count_gt. simpl. by destruct (Rlt_dec (key x) (key y)).
  - by rewrite (count_gt_sorted x y s Hs Hge).
Qed.

Lemma insert_desc_shift x s r y :
  StronglySorted (desc key) s -> s !! r = Some y ->
  insert_desc key x s
    !! ((if Rle_dec (key y) (key x) then 1%nat else 0%nat) + r)%nat = Some y.
Proof.
  revert r. induction s as [|z s IH]; intros r Hs Hr; [done|]. simpl.
  pose proof Hs as Hs'. apply StronglySorted_inv in Hs' as [Htl Hall].
  destruct (Rlt_dec (key x) (key z)) as [Hlt|Hge].
  - destruct r as [|r]; simpl in Hr.
    + simplify_eq. destruct (Rle_dec (key y) (key x)); [lra|done].
    + specialize (IH r Htl Hr).
      destruct (Rle_dec (key y) (key x)); simpl in *; done.
  - assert (key y <= key x)%R as Hyx.
    { destruct r as [|r]; simpl in Hr; [simplify_eq; lra|].
      rewrite Forall_forall in Hall.
      assert (y ∈ s) as Hy by (apply list_elem_of_lookup; by exists r).
      specialize (Hall y Hy). unfold desc in Hall. lra. }
    destruct (Rle_dec (key y) (key x)); [done|lra].
Qed.

(** The stable descending sort puts every item at its rank. *)
Lemma sorted_reverse_rank before x after :
  sorted_reverse key (before ++ x :: after)
    !! rank_at key before x after = Some x.
Proof.
  unfold rank_at. induction before as [|y before IH].
  - simpl. change (sorted_reverse key (x :: after))
      with (insert_desc key x (sorted_reverse key after)).
    unfold count_ge. simpl.
    rewrite <- (count_gt_perm (key x) _ _ (sorted_reverse_perm key after)).
    apply insert_desc_place, sorted_reverse_sorted.
  - change (sorted_reverse key ((y :: before) ++ x :: after))
      with (insert_desc key y (sorted_reverse key (before ++ x :: after))).
    pose proof (insert_desc_shift y _ _ x
                  (sorted_reverse_sorted key (before ++ x :: after)) IH) as Hs.
    replace (count_ge key (key x) (y :: before)
             + count_gt key (key x) after)%nat
      with ((if Rle_dec (key x) (key y) then 1%nat else 0%nat)
            + (count_ge key (key x) before + count_gt key (key x) after))%nat;
      [done|].
    unfold count_ge. simpl. lia.
Qed.

(** An earlier item is ranked in front of a later one that does not
    outscore it. *)
Lemma rank_at_before l1 x l2 y l3 :
  (key y <= key x)%R ->
  (rank_at key l1 x (l2 ++ y :: l3)
   < rank_at key (l1 ++ x :: l2) y l3)%nat.
Proof.
  intros Hyx. unfold rank_at.
  rewrite count_gt_app, !count_ge_app.
  change (x :: l2) with ([x] ++ l2). rewrite count_ge_app.
  change (y :: l3) with ([y] ++ l3). rewrite count_gt_app.
  assert (count_ge key (key y) [x] = 1%nat) as ->.
  { unfold count_ge. simpl. destruct (Rle_dec (key y) (key x)); [done|lra]. }
  assert (count_gt key (key x) [y] = 0%nat) as ->.
  { unfold count_gt. simpl. destruct (Rlt_dec (key x) (key y)); [lra|done]. }
  assert (forall l, count_ge key (key x) l <= count_ge key (key y) l)%nat
    as Hge.
  { intros l. unfold count_ge. induction l as [|z l IH]; simpl; [done|].
    destruct (Rle_dec (key x) (key z)), (Rle_dec (key y) (key z)); try lia.
    lra. }
  assert (forall l, count_gt key (key x) l <= count_gt key (key y) l)%nat
    as Hgt.
  { intros l. unfold count_gt. induction l as [|z l IH]; simpl; [done|].
    destruct (Rlt_dec (key x) (key z)), (Rlt_dec (key y) (key z)); try lia.
    lra. }
  pose proof (Hge l1). pose proof (Hgt l3).
  pose proof (count_gt_le_ge (key x) l2). pose proof (Hge l2). lia.
Qed.

End Rank.

(** The ranking step returns the ranking. *)
Lemma ranked_ranking (sims : list (string * R)) (k : Z) :
  NoDup sims.*1 ->
  ranking_of sims k (ranked snd sims k).*1 (ranked snd sims k).*2.
Proof.
  intros Hnd. unfold ranking_of, ranked.
  rewrite slice_to_kept, sorted_reverse_length.
  set (m := kept (length sims) k).
  set (sorted := sorted_reverse snd sims).
  assert (m <= length sorted)%nat as Hm.
  { unfold m, kept, sorted. rewrite sorted_reverse_length.
    destruct (0 <=? k)%Z; lia. }
  assert (length (take m sorted).*1 = m) as Hlen.
  { rewrite length_fmap, length_take. lia. }
  split; [done|]. split; [by rewrite !length_fmap|].
  intros before x after ->. cbv zeta. rewrite Hlen.
  pose proof (sorted_reverse_rank snd before x after) as Hr. fold sorted in Hr.
  set (r := rank_at snd before x after) in *.
  case_decide as Hlt.
  - rewrite !list_lookup_fmap, lookup_take_lt by done. by rewrite Hr.
  - intros Hin. apply list_elem_of_fmap in Hin as (y & Hy & Hin).
    apply list_elem_of_lookup in Hin as [i Hi].
    apply lookup_take_Some in Hi as [Hi Him].
    assert (NoDup sorted.*1) as Hnd'.
    { unfold sorted. by rewrite sorted_reverse_perm. }
    assert (i = r); [|lia].
    eapply (NoDup_lookup _ _ _ x.1 Hnd'); rewrite list_lookup_fmap.
    + by rewrite Hi, Hy.
    + by rewrite Hr.
Qed.

(** The ranking is unique: it is fixed by the scores and the order of
    the mapping. *)
Lemma ranking_of_unique (sims : list (string * R)) (k : Z) tags scores
    tags' scores' :
  NoDup sims.*1 ->
  ranking_of sims k tags scores -> ranking_of sims k tags' scores' ->
  tags' = tags /\ scores' = scores.
Proof.
  intros Hnd (Hl & Hls & Hr) (Hl' & Hls' & Hr').
  assert (forall i, (i < length tags)%nat ->
            exists x, tags !! i = Some x.1 /\ scores !! i = Some x.2
                      /\ tags' !! i = Some x.1 /\ scores' !! i = Some x.2)
    as Hsame.
  { intros i Hi.
    assert (i < length (sorted_reverse snd sims))%nat as Hi'.
    { rewrite sorted_reverse_length. rewrite Hl in Hi. unfold kept in Hi.
      destruct (0 <=? k)%Z; lia. }
    apply lookup_lt_is_Some in Hi' as [x Hx].
    assert (x ∈ sims) as Hin.
    { rewrite <- (sorted_reverse_perm snd sims).
      apply list_elem_of_lookup. by exists i. }
    apply list_elem_of_split in Hin as (before & after & Hsplit).
    specialize (Hr before x after Hsplit).
    specialize (Hr' before x after Hsplit). cbv zeta in Hr, Hr'.
    pose proof (sorted_reverse_rank snd before x after) as Hrank.
    rewrite <- Hsplit in Hrank.
    assert (rank_at snd before x after = i) as Hri.
    { assert (NoDup (sorted_reverse snd sims).*1) as Hnd'
        by (by rewrite sorted_reverse_perm).
      eapply (NoDup_lookup _ _ _ x.1 Hnd'); rewrite list_lookup_fmap.
      - by rewrite Hrank.
      - by rewrite Hx. }
    rewrite Hri in Hr, Hr'. rewrite Hl', <- Hl in Hr'.
    rewrite decide_True in Hr, Hr' by done.
    exists x. tauto. }
  split.
  - apply list_eq. intros i. destruct (decide (i < length tags)%nat) as [Hi|Hi].
    + destruct (Hsame i Hi) as (x & -> & _ & -> & _). done.
    + rewrite !lookup_ge_None_2; [done|lia|lia].
  - apply list_eq. intros i. destruct (decide (i < length tags)%nat) as [Hi|Hi].
    + destruct (Hsame i Hi) as (x & _ & -> & _ & ->). done.
    + rewrite !lookup_ge_None_2; [done|lia|lia].
Qed.

End RankProps.

Module RankRun.
Import PyProps ScorerProps LoaderProps Loader Scorer SpecScorer ScorerExtra
  SpecCutoff CutoffProps SpecRank RankProps.

(** A loop that stores one computed value per item fills the mapping in
    the order of the items, when their keys are new and distinct. *)
Lemma stored_loop {V : Type} (value : string -> text_embeds -> result V)
    (body : dict V -> string * text_embeds -> result (dict V))
    (items : list (string * text_embeds)) (acc d : list (string * V)) :
  (forall d x d', body d x = Ok d' ->
     exists v, value x.1 x.2 = Ok v /\ d' = dict_set d x.1 v) ->
  NoDup (acc.*1 ++ items.*1) ->
  for_each body acc items = Ok d ->
  exists sims,
    d = acc ++ sims
    /\ Forall2 (fun item sc => sc.1 = item.1 /\ value item.1 item.2 = Ok sc.2)
               items sims.
Proof.
  intros Hbody. revert acc. induction items as [|x items IH]; intros acc Hnd Hrun.
  - simpl in Hrun. simplify_eq. exists []. by rewrite app_nil_r.
  - simpl in Hrun. destruct (body acc x) as [d1|e] eqn:Hb; simpl in Hrun; [|done].
    apply Hbody in Hb as (v & Hv & ->).
    rewrite fmap_cons in Hnd.
    assert (x.1 ∉ dict_keys acc) as Hfresh.
    { apply NoDup_app in Hnd as (_ & Hdisj & _). intros Hin.
      apply (Hdisj _ Hin). by left. }
    rewrite dict_set_fresh in Hrun by done.
    destruct (IH (acc ++ [(x.1, v)])) as (sims & -> & Hall); [|done|].
    { rewrite fmap_app, <- app_assoc. done. }
    exists ((x.1, v) :: sims). split; [by rewrite <- app_assoc|].
    by constructor.
Qed.

(** Two keys in the order of the mapping, with their scores, split the
    scored vocabulary. *)
Lemma sublist_keys_split (sims : list (string * R)) a b sa sb :
  NoDup sims.*1 -> [a; b] `sublist_of` sims.*1 ->
  (a, sa) ∈ sims -> (b, sb) ∈ sims ->
  exists l m n, sims = l ++ (a, sa) :: m ++ (b, sb) :: n.
Proof.
  intros Hnd Hsub Ha Hb.
  apply sublist_pair_lookup in Hsub as (p & q & Hpq & Hp & Hq).
  apply list_elem_of_lookup in Ha as [p' Hp'], Hb as [q' Hq'].
  assert (p' = p) as ->.
  { apply (NoDup_lookup _ _ _ a Hnd); [|done]. by rewrite list_lookup_fmap, Hp'. }
  assert (q' = q) as ->.
  { apply (NoDup_lookup _ _ _ b Hnd); [|done]. by rewrite list_lookup_fmap, Hq'. }
  exists (take p sims), (take (q - S p) (drop (S p) sims)),
         (drop (S (q - S p)) (drop (S p) sims)).
  rewrite <- (take_drop_middle sims p (a, sa) Hp') at 1. f_equal. f_equal.
  symmetry. apply take_drop_middle. rewrite lookup_drop. rewrite <- Hq'.
  f_equal. lia.
Qed.

(** In a ranking, of two tags with one score the later one of the
    mapping is listed only behind the earlier one. *)
Lemma ranking_tie (sims : list (string * R)) (k : Z) tags scores a b :
  NoDup sims.*1 -> NoDup tags -> [a; b] `sublist_of` sims.*1 ->
  ranking_of sims k tags scores -> tie_in_order sims a b tags.
Proof.
  intros Hnd Hndt Hsub (Hl & Hls & Hr) s Ha Hb j Hj.
  destruct (sublist_keys_split sims a b s s Hnd Hsub Ha Hb)
    as (l & m & n & Hsplit).
  pose proof (rank_at_before snd l (a, s) m (b, s) n) as Hlt.
  simpl in Hlt. specialize (Hlt (Rle_refl s)).
  pose proof (Hr l (a, s) (m ++ (b, s) :: n) Hsplit) as Hra.
  assert (sims = (l ++ (a, s) :: m) ++ (b, s) :: n) as Hsplit'
    by (by rewrite <- app_assoc).
  pose proof (Hr (l ++ (a, s) :: m) (b, s) n Hsplit') as Hrb.
  cbv zeta in Hra, Hrb. simpl in Hra, Hrb.
  destruct (decide (rank_at snd (l ++ (a, s) :: m) (b, s) n < length tags)%nat)
    as [Hin|Hout].
  - destruct Hrb as [Hb' _].
    assert (j = rank_at snd (l ++ (a, s) :: m) (b, s) n) as ->
      by (by apply (NoDup_lookup _ _ _ b Hndt)).
    rewrite decide_True in Hra by lia. destruct Hra as [Ha' _].
    by eexists.
  - exfalso. apply Hrb, list_elem_of_lookup. by exists j.
Qed.

Lemma baseline_run audio_embedding (tag_embeddings : dict text_embeds) K
    tags scores :
  dict_wf tag_embeddings ->
  get_tag_recommendations audio_embedding tag_embeddings K = Ok (tags, scores) ->
  exists sims : list (string * R),
    final_scores (baseline_score audio_embedding) tag_embeddings sims
    /\ tags = (ranked snd sims K).*1 /\ scores = (ranked snd sims K).*2.
Proof.
  intros Hwf Hrun. unfold get_tag_recommendations in Hrun.
  case_loop Hrun sims Hloop; cbn in Hrun; [|done]. simplify_eq.
  eapply (stored_loop (baseline_score audio_embedding)) in Hloop
    as (sims' & -> & Hall).
  - by exists sims'.
  - intros d [tag embeds] d' Hstep. simpl in *. unfold baseline_score.
    destruct (max_variant_similarity audio_embedding embeds) as [v|e];
      cbn in Hstep; [|done].
    exists v. by simplify_eq.
  - done.
Qed.

Lemma df_weighted_run audio_embedding (tag_embeddings : dict text_embeds)
    (tag_df_scores : gmap string R) K rec :
  dict_wf tag_embeddings ->
  get_tag_recommendations_df_weighted audio_embedding tag_embeddings
    tag_df_scores K = Ok rec ->
  exists sims : list (string * R),
    final_scores (df_weighted_score audio_embedding tag_df_scores)
      tag_embeddings sims
    /\ top_tags rec = (ranked snd sims K).*1
    /\ top_scores rec = (ranked snd sims K).*2.
Proof.
  intros Hwf Hrun. unfold get_tag_recommendations_df_weighted in Hrun.
  case_loop Hrun sims Hloop; cbn in Hrun; [|done]. simplify_eq. simpl.
  eapply (stored_loop
            (fun tag embeds =>
               base ← max_variant_similarity audio_embedding embeds;
               Ok {| base_similarity := base;
                     df_weight := default 1%R (tag_df_scores !! tag);
                     weighted_similarity :=
                       (base * default 1%R (tag_df_scores !! tag))%R |}))
    in Hloop as (sims' & -> & Hall);
    [|intros d [tag embeds] d' Hstep; simpl in *;
      destruct (max_variant_similarity audio_embedding embeds) as [v|e];
      cbn in Hstep; [|done]; eexists; cbn; by simplify_eq
     |done].
  - simpl. exists (on_values weighted_similarity <$> sims').
    assert (forall k,
              ranked snd (on_values weighted_similarity <$> sims') k
              = on_values weighted_similarity
                <$> ranked (fun x => weighted_similarity x.2) sims' k) as Hrk.
    { intros k. unfold ranked.
      rewrite (sorted_reverse_fmap (fun x : string * tag_score =>
                                      weighted_similarity x.2) snd); [|done].
      by rewrite slice_to_fmap. }
    split; [|split].
    + unfold final_scores. apply Forall2_fmap_r.
      eapply Forall2_impl; [exact Hall|].
      intros [tag embeds] [tag' ts] [Htag Hv]. simpl in *. split; [done|].
      unfold df_weighted_score.
      destruct (max_variant_similarity audio_embedding embeds) as [v|e];
        cbn in *; [|done]. by simplify_eq.
    + rewrite Hrk, <- list_fmap_compose. by apply list_fmap_ext.
    + rewrite Hrk, <- list_fmap_compose. by apply list_fmap_ext.
Qed.

Lemma final_scores_keys final (tag_embeddings : dict text_embeds)
    (sims : list (string * R)) :
  final_scores final tag_embeddings sims ->
  sims.*1 = dict_keys tag_embeddings.
Proof.
  unfold final_scores, dict_keys. induction 1 as [|x y l k [Hk _] _ IH]; [done|].
  rewrite !fmap_cons. by f_equal.
Qed.

End RankRun.

Section TieClaims.
Import PyProps ScorerProps LoaderProps Loader Scorer SpecCutoff SpecRank
  RankProps RankRun.

(** C8.  Let the mapping have been filled by assigning the tags of
    [tag_list] in order, let [a] occur in [tag_list] before the first
    occurrence of [b], and let the shapes fit.  Then each recommender
    returns, and what it returns is the ranking of the vocabulary by final
    score and, among equal scores, by the order of the mapping, cut at the
    cutoff: every tag is listed at its place of that ranking or, when the
    place is beyond the cutoff, not at all.  No other pair of lists is
    such a ranking: the output is fixed by the final scores and the order
    of the mapping.  In particular, when [a] and [b] have one final score,
    [b] is listed only if [a] is, and then behind it; this covers a tie
    at the cutoff. *)
Theorem ties_keep_vocabulary_order (audio_embedding : list R)
    (tag_embeddings : dict text_embeds) (tag_df_scores : gmap string R)
    (K : Z) (tag_list l1 l2 l3 : list string) (a b : string) :
  dict_keys tag_embeddings = fold_left add_key tag_list [] ->
  tag_list = l1 ++ a :: l2 ++ b :: l3 ->
  b ∉ l1 ++ a :: l2 ->
  (forall tag embeds, (tag, embeds) ∈ tag_embeddings ->
     compatible audio_embedding embeds) ->
  (exists sims tags scores,
     final_scores (baseline_score audio_embedding) tag_embeddings sims
     /\ get_tag_recommendations audio_embedding tag_embeddings K
        = Ok (tags, scores)
     /\ ranking_of sims K tags scores
     /\ (forall tags' scores',
           ranking_of sims K tags' scores' -> tags' = tags /\ scores' = scores)
     /\ tie_in_order sims a b tags)
  /\ (exists sims rec,
        final_scores (df_weighted_score audio_embedding tag_df_scores)
          tag_embeddings sims
        /\ get_tag_recommendations_df_weighted audio_embedding tag_embeddings
             tag_df_scores K = Ok rec
        /\ ranking_of sims K (top_tags rec) (top_scores rec)
        /\ (forall tags' scores',
              ranking_of sims K tags' scores' ->
              tags' = top_tags rec /\ scores' = top_scores rec)
        /\ tie_in_order sims a b (top_tags rec)).
Proof.
  intros Hkeys -> Hfirst Hshape.
  assert (dict_wf tag_embeddings) as Hwf.
  { unfold dict_wf. rewrite Hkeys. apply fold_add_key_result_NoDup, NoDup_nil_2. }
  pose proof (fold_add_key_order l1 l2 l3 a b Hfirst) as Hsub.
  rewrite <- Hkeys in Hsub.
  destruct (recommenders_return audio_embedding tag_embeddings tag_df_scores K
              Hshape) as [[[tags scores] Hbase] [rec Hdf]].
  assert (forall (sims : list (string * R)) final,
            final_scores final tag_embeddings sims ->
            ranking_of sims K (ranked snd sims K).*1 (ranked snd sims K).*2
            /\ (forall tags' scores',
                  ranking_of sims K tags' scores' ->
                  tags' = (ranked snd sims K).*1
                  /\ scores' = (ranked snd sims K).*2)
            /\ tie_in_order sims a b (ranked snd sims K).*1) as Hgen.
  { intros sims final Hfin. apply final_scores_keys in Hfin.
    assert (NoDup sims.*1) as Hnd by (by rewrite Hfin).
    pose proof (ranked_ranking sims K Hnd) as Hrk.
    split; [done|]. split.
    - intros tags' scores' Hrk'. by eapply ranking_of_unique.
    - eapply ranking_tie; [done| |by rewrite Hfin|done].
      by apply ranked_NoDup. }
  split.
  - destruct (baseline_run _ _ _ _ _ Hwf Hbase) as (sims & Hfin & -> & ->).
    exists sims, (ranked snd sims K).*1, (ranked snd sims K).*2.
    split; [done|]. split; [done|]. by eapply Hgen.
  - destruct (df_weighted_run _ _ _ _ _ Hwf Hdf) as (sims & Hfin & Ht & Hs).
    exists sims, rec. rewrite Ht, Hs.
    split; [done|]. split; [done|]. by eapply Hgen.
Qed.

(** [ties_keep_vocabulary_order] on two tags that tie, with a cutoff that
    has room for one of them; the premises are checked by evaluation. *)
Lemma ties_keep_vocabulary_order_witness :
  let vocabulary : dict text_embeds :=
    [("drum", [[1]]%R); ("kick", [[1]]%R)] in
  let tag_list := ["drum"; "kick"; "drum"] in
  dict_keys vocabulary = fold_left add_key tag_list []
  /\ tag_list = [] ++ "drum" :: [] ++ "kick" :: ["drum"]
  /\ ("kick" ∉ ([] ++ "drum" :: [] : list string))
  /\ (forall tag embeds, (tag, embeds) ∈ vocabulary -> compatible [1%R] embeds)
  /\ exists sims tags scores,
       final_scores (baseline_score [1%R]) vocabulary sims
       /\ get_tag_recommendations [1%R] vocabulary 1 = Ok (tags, scores)
       /\ ranking_of sims 1 tags scores
       /\ tie_in_order sims "drum" "kick" tags.
Proof.
  intros vocabulary tag_list.
  assert (dict_keys vocabulary = fold_left add_key tag_list []) as H1
    by reflexivity.
  assert (tag_list = [] ++ "drum" :: [] ++ "kick" :: ["drum"]) as H2
    by reflexivity.
  assert ("kick" ∉ ([] ++ "drum" :: [] : list string)) as H3.
  { simpl. intros Hin. apply list_elem_of_singleton in Hin. discriminate. }
  assert (forall tag embeds, (tag, embeds) ∈ vocabulary ->
            compatible [1%R] embeds) as H4.
  { intros tag embeds Hin. unfold vocabulary in Hin.
    repeat (apply elem_of_cons in Hin as [[= -> ->]|Hin]);
      [| |by apply elem_of_nil in Hin];
      (split; [discriminate|split; [discriminate|by repeat constructor]]). }
  split; [exact H1|]. split; [exact H2|]. split; [exact H3|].
  split; [exact H4|].
  destruct (ties_keep_vocabulary_order [1%R] vocabulary ∅ 1 tag_list
              [] [] ["drum"] "drum" "kick" H1 H2 H3 H4)
    as [(sims & tags & scores & Hfin & Hrun & Hrk & _ & Htie) _].
  exists sims, tags, scores. auto.
Defined.

End TieClaims.
